(* ===== verification/_CoqProject ===== *)
-Q . S2P
Prelude.v
Ring.v
Kfifo.v
Buffer.v
ByteQueue.v
Channel.v
EpollPoller.v
OneLoop.v
EventLoop.v
TcpConnection.v
RemoteSend.v
Reactor.v
Decimal.v
Thread.v
EventLoopThread.v
EventLoopThreadPool.v
StringPiece.v
InetAddress.v
Timestamp.v
Logger.v
Sockets.v
Acceptor.v
TcpServer.v
Accepting.v
ServerLoops.v
WholeServer.v
ServerStages.v
ServerSteps.v
ServerSafety.v
ServerRest.v
ServerCallbacks.v
OrdSet.v
TimerQueue.v
RemoteTimers.v
Bench.v
PingPong.v
ChatServer.v
