(* ===== verification/Prelude.v ===== *)
(** * mymuduo: a verification library

    mymuduo (src/mymuduo) is a C++ network library after muduo: non-blocking
    sockets, one event loop per thread. A [TcpServer] owns an [Acceptor] on its
    base loop and an [EventLoopThreadPool]; each new connection goes to the next
    loop of the pool as a [TcpConnection], which owns a [Channel] (the events of one
    descriptor) and two [Kfifo] ring buffers. An [EventLoop] waits in its
    [EpollPoller], has the active channels handle their events, runs the functors
    other threads queued, and owns a [TimerQueue]. This development models these
    parts in Rocq, each from its source file, and proves what they promise to each
    other; where they do not keep a promise, it proves what they do instead.

    ** Conventions

    Code that changes state or can fail is a function in the monad [M S A]: from a
    state, an outcome that is a result with a new state or a [fault], the reason why
    the C++ run does not go on normally (a failed [assert], an access out of bounds
    or through a dead or null pointer, a signed overflow, a second lock of a mutex
    that blocks, an exception, a logged [exit]). Integers are [Z]; a value of a
    machine type is wrapped where the code wraps it ([u32], [u64], [i16], [i32]) and
    checked where overflow is undefined ([checked_i64]). Bytes are [Byte.byte]; an
    object in memory is the list of its cells, read and written by [mem_read] and
    [mem_write]; a pointer to a heap object is its address in a [gmap].

    The kernel is outside. Its tables are type classes with the documented laws
    ([Epoll], [EventFd], [SocketApi]), each with a concrete instance that satisfies
    them; the results of reading, writing and the clock are arguments of the
    operation that makes the system call. User callbacks are trees of calls (type
    [action] or [call] of each file), so that the theorems hold for all of them.
    Threads are interleaved by step relations, one constructor for each atomic step.
    Two languages of proof are used: rewriting with equations of runs (tactic
    [mstep]) and weakest preconditions ([wp]).

    ** Files

    Data.
    - [Prelude]: faults, the monad, [wp], machine integers, memory, mutexes, tactics.
    - [Ring]: slices and overwriting of a circular array.
    - [Kfifo] (kfifo.h, kfifo.cpp): the ring buffer, every operation. Its invariant
      [wf] relates the two wrapping counters to [contents], the queue of unread
      bytes. [writeBuffer] and [readBuffer] implement enqueue and dequeue if a second
      [lock] by the owner of a mutex returns; with a mutex that blocks they deadlock
      on themselves. The two cases are the instances of [MutexImpl]. [readFd] and
      [writeFd] are shown correct where they are, and wrong where they are not.
    - [Buffer] (Buffer.h, Buffer.cpp): the vector buffer, every operation, against
      the same abstract queue.
    - [ByteQueue]: the interface both buffers implement, and what follows for any
      sequence of puts and gets.
    - [StringPiece] (StringPiece.h): the comparisons against the lexicographic order.
    - [Decimal]: [snprintf] into a fixed buffer and the decimal form of integers.
    - [InetAddress] (Endian.h, InetAddress.h, InetAddress.cpp): byte order, ports.
    - [Timestamp] (Timestamp.h, Timestamp.cpp): points in time, doubles as IEEE
      [spec_float], printing.
    - [OrdSet]: [std::set] of pairs as a sorted list.

    One loop.
    - [Channel] (Channel.h, Channel.cpp): interest flags, dispatch of events, and the
      guard that keeps a tied object alive during the dispatch.
    - [EpollPoller] (Poller.h, Poller.cpp, EpollPoller.h, EpollPoller.cpp): the map of
      channels and the kernel's interest list. The invariant [wf] ties a channel's
      index, the map and the list together. [watch] and [unwatch] are the two uses
      its clients make of it: a new channel that starts to read, and the end of one.
    - [OneLoop] (CurrentThread.h, CurrentThread.cpp, DefaultPoller.cpp, and the
      constructor, destructor and thread checks of EventLoop.cpp): which thread has
      which loop.
    - [EventLoop] (EventLoop.h, EventLoop.cpp): [loop], [quit], [runInLoop],
      [queueInLoop], [doPendingFunctors] and the wake-up descriptor as atomic steps of
      the loop's thread and of any number of others.
    - [TcpConnection] (TcpConnection.h, TcpConnection.cpp): the state machine, [send]
      on all branches, [handleWrite], closing; the life of a connection as a step
      relation.
    - [RemoteSend]: [send] and [shutdown] of TcpConnection.cpp from another thread:
      what the queued functor points to, and what has become of it meanwhile.
    - [Reactor]: the connections of a loop with its poller. The calls a connection
      makes on its channel ([loop_calls] of [TcpConnection]) are carried out by
      [EpollPoller]; the turn of [EventLoop::loop] dispatches what was reported.
    - [TimerQueue] (Timer.h, Timer.cpp, TimerId.h, TimerQueue.h, TimerQueue.cpp, and
      the timer calls of EventLoop.cpp): timers on the heap, the two sets, the kernel
      timer, every operation. [inv pend q] says that the heap, the ordered set and the
      set of active timers agree but for the timers [pend] that the running code
      holds; [armed_for] that the kernel timer is set early enough.
    - [RemoteTimers]: [addTimer] and [cancel] of TimerQueue.cpp from other threads, a
      call in its parts, with the functors it queues; [pend] is then the timers that
      are on their way to the loop.

    Threads.
    - [Thread] (Thread.h, Thread.cpp): names; the owner's calls (start, join and the
      destruction) interleaved with the lambda of the thread it starts.
    - [EventLoopThread] (EventLoopThread.h, EventLoopThread.cpp, Thread.cpp): the
      start-up handshake of two threads and the destructor. The states are finite;
      the reachable ones are computed ([reachable], whose fuel is enough since its
      result is checked to be closed under steps) and checked.
    - [EventLoopThreadPool] (EventLoopThreadPool.h, EventLoopThreadPool.cpp): starting
      the threads and handing out their loops in turn.
    - [Logger] (Logger.h, Logger.cpp): the macros and [log] as steps of any number of
      threads on the one instance.

    The server.
    - [Sockets] (SocketOps.h, SocketOps.cpp, Socket.h, Socket.cpp): the wrappers of
      the socket calls over [SocketApi], and the owner of a descriptor.
    - [Acceptor] (Acceptor.h, Acceptor.cpp): the listening socket and its channel; its
      callback is any operation on the client's state.
    - [TcpServer] (TcpServer.h, TcpServer.cpp): starting, naming, adding and removing
      connections; what is posted to which loop.
    - [Accepting]: [Acceptor] with [TcpServer::newConnection] as its callback, and the
      descriptors the connections own.
    - [ServerLoops]: [TcpServer] with the loops of its pool: what is posted goes
      through a loop's queue as [EventLoop] has it.

    The whole server.
    - [WholeServer]: acceptor, server, sockets and all loops with their pollers,
      connections, active channels and functors in one state. An event is one part of
      a turn of one loop (a [poll], the handling of one active channel, one functor,
      ...), and the loops step in any order. The operations of the other files are
      lifted to this state, not written again.
    - [ServerStages]: its invariant. Each connection has a [stage] of its life, by
      its own state, the server's map and the functors queued for it; [life] orders
      the stages.
    - [ServerSteps]: every event keeps the invariant ([exec_wp]).
    - [ServerSafety]: what follows for every server that has been launched, with a
      concrete run of two loops.
    - [ServerRest]: what each functor puts in the queues, counted; a server left to
      itself comes to rest.
    - [ServerCallbacks] (Callbacks.h, the headers of [TcpConnection] and [TcpServer]):
      setters, accessors, what [newConnection] hands on, and what becomes of a server
      whose callbacks were not set.

    The benchmarks (src/tmuduo/orgin_muduo_test), programs for the original library.
    - [Bench] (pingpong_bench.cc): the ring of socket pairs and its 25 runs. The
      sockets, the loop and the destructor of a channel are parameters with laws of what
      is documented of them ([PipeLaws], [LibraryLaws]).
    - [PingPong] (pingpong_client.cc, pingpong_server.cc): sessions, client and the
      server's echo over connections that are a class with laws ([LinkLaws]).

    The example (tmyserver.cpp).
    - [ChatServer]: constructor, [main] and the two callbacks. [onMessage] takes a
      [Buffer], where the library has a [Kfifo] to give, so that the program does not
      compile as it is; here it is given what it asks for.

    ** What the theorems show

    The theorems whose comment starts with a number [C1] to [C40] are the claims; the
    other lemmas carry them or add smaller facts. Each claim with a hypothesis is
    followed by a witness, the claim applied to a concrete small instance. They are
    of these kinds.
    - The whole server, in every reachable state: a step is carried out or stops in
      one of four ways the library knows, or with what the user's code raises, so that
      none uses a channel, connection or loop that is gone ([server_never_dangles]);
      every connection is accounted for by the map, the queues and its own state
      ([connections_accounted]); a step moves it along the one path of its life, or
      not at all ([server_moves_forward]); every open descriptor has its owner and no
      poller watches one for anybody else ([sockets_owned]); the functors in the queues
      come to an end, and then every connection is open or at the end of its life
      ([server_comes_to_rest]).
    - Components put together: an open connection is watched by the kernel with its own
      interest, and one taken down is not ([Reactor]); the server's tasks for a
      connection are run by its loop, in order, the set-up once and the taking down as
      often as the connection is removed ([ServerLoops]); timers made by other threads are neither
      forgotten nor added twice ([RemoteTimers]); either buffer can stand in for the
      other ([ByteQueue]).
    - Refinement of an abstract structure: ring buffer, vector buffer, comparisons.
    - Invariants of every reachable state, for arbitrary callbacks and interleavings:
      timers, connections, server, poller, loops and their threads, the log.
    - Hand-over protocols: no lost wake-up, functors once and in order, the start-up
      of a thread.
    - The exact behaviour of each branch, errors included: [sendInLoop], the expiry of
      timers, [poll], [handleRead] and the destructor of [Acceptor], both ways to
      accept, the life of an [EventLoop] and of a [Thread].
    - Where the code does not do what it means to, theorems that say so: the
      self-deadlock of the ring buffer, data overwritten or lost by [readFd] and
      [sendInLoop], [handleWrite] that never drains, a half-closed connection that
      comes back after it was taken down, an [errno] tested after the log has changed it,
      a [send] that reads the caller's string too
      late, a [quit] that is lost or that uses a loop already destroyed, an accept
      whose every error ends the program, callbacks that are called without having
      been set, an [addTimer] that reads a timer the loop
      has freed, a cancellation that is forgotten, arguments that are not checked.
    - The benchmarks: each run of the ring of sockets comes to its end whatever the order
      of events, and [main] fails only if a pair is refused ([benchmark_ends]); the echo loses no byte and keeps their order
      ([echo_goes_round]).

    ** Fuel and bounds

    Loops are structural, over lists or over the number of turns. [count_shifts] in
    [Kfifo] has a fuel of 33, one more than a 32-bit value can be halved before it is
    zero. In [Bench] the library's loop is given a bound on how often it polls;
    [benchmark_ends] says how much is enough, [arguments_unchecked] when none is.

    ** Not modelled

    - Types.h and noncopyable.h, in which nothing runs. The reading of arguments by
      [main] of the throughput benchmark, and an earlier copy of its client, which does
      not compile.
    - [sockets::read], [readv], [write]: they pass on to the system call, whose result
      is an input of the operations that use them. [setNonBlockAndCloseOnExec], called
      only when compiled with VALGRIND.
    - Callbacks that are set again while connections exist: in [WholeServer] all
      connections have the callbacks the server was started with. That a user sets a
      high-water mark is in [ServerCallbacks] and [TcpConnection] only.
    - [ServerLoops] is about pools of at least one thread; with none every task runs
      at once on the base loop, which [WholeServer] covers.
    - In [WholeServer] a connection may be released as soon as neither the map nor a
      queued functor refers to it; the code's own batch of functors may hold it a
      little longer, so that the model allows more. The user's calls on a connection
      come from its loop's thread ([RemoteSend] has the others). The faults an event
      can end in (the deadlock and the accesses out of bounds of the ring buffers among
      them) are the subject of [Kfifo] and [TcpConnection]; an event that ends so is
      not taken further.
    - In [WholeServer] the loops have no timers; those of one loop, with any threads
      that set them, are in [TimerQueue] and [RemoteTimers]. The destruction of a server
      is in [TcpServer] (what is posted), [EventLoop] (a loop that quits leaves functors
      behind) and [Reactor] (a half-closed connection taken down); it is no step of
      [WholeServer], because a server may only be destroyed when its base loop runs no
      more: [removeConnectionInLoop] is bound to the plain [this].
    - In [Reactor] a connection is freed when its channel has been removed and not
      registered again since; the end of one that was registered again is a theorem of
      its own ([half_closed_comes_back]).
    - In [Bench] the constructor and the destructor of the library's loop, the limit of
      descriptors that is asked for, and the times.
    - In [RemoteTimers] what the loop's thread does is one step, and in [PingPong] each
      callback is: interleavings inside them are not distinguished.

    ** Order of the work

    The parts were taken in the order of the data's way through the program: buffers,
    channel, poller, loop, connection, threads, server, timers; then the parts put
    together, the wrappers of system calls and the logger; then the whole server, the
    timers of other threads, the benchmarks and the example; last the callbacks a server
    is given and the end of its functors. *)
From Stdlib Require Export ZArith Lia.
From Stdlib Require Strings.Byte.
From stdpp Require Export base tactics numbers list gmap strings.

#[global] Open Scope Z_scope.

Abbreviation byte := Byte.byte.

#[global] Instance byte_eq_decision : EqDecision byte := Byte.byte_eq_dec.

(** ** Faults and outcomes

    Why a run of the C++ code does not return normally. *)
Inductive fault :=
  | Deadlock          (** the thread blocks for ever on a lock it already owns *)
  | OutOfBounds       (** access outside an allocated object *)
  | NullDeref         (** access through a null pointer *)
  | UseAfterFree      (** access through a pointer to a destroyed object *)
  | IntOverflow       (** signed arithmetic leaves its type *)
  | DivByZero         (** integer division by zero *)
  | BadShift          (** shift count not below the width of the type *)
  | BadCast           (** floating value not representable in the target type *)
  | BadAlloc          (** [operator new] throws *)
  | LengthError       (** [std::length_error] thrown by a container *)
  | SystemError       (** [std::system_error] thrown by a thread operation *)
  | BadFunctionCall   (** [std::bad_function_call]: an empty [std::function] is called *)
  | Terminate         (** [std::terminate]: a joinable [std::thread] is destroyed *)
  | AssertFailed      (** an [assert] of the source aborts *)
  | FatalExit         (** [LOG_FATAL]: log, then [exit(-1)] *)
  | OutOfFuel.        (** the bound put on a loop of the model is too small *)

#[global] Instance fault_eq_decision : EqDecision fault.
Proof. solve_decision. Defined.

Inductive outcome (A : Type) :=
  | Ok (a : A)
  | Err (e : fault).
Arguments Ok {A} a.
Arguments Err {A} e.

#[global] Instance outcome_ret : MRet outcome := @Ok.
#[global] Instance outcome_bind : MBind outcome := λ A B f m,
  match m with Ok a => f a | Err e => Err e end.

(** Stateful code that can fail: explicit state passing over [outcome]. *)
Definition M (S A : Type) : Type := S → outcome (A * S).

#[global] Instance M_ret {S} : MRet (M S) := λ A a s, Ok (a, s).
#[global] Instance M_bind {S} : MBind (M S) := λ A B f m s,
  match m s with Ok (a, s') => f a s' | Err e => Err e end.

Definition gets {S A} (f : S → A) : M S A := λ s, Ok (f s, s).
Definition modify {S} (f : S → S) : M S unit := λ s, Ok (tt, f s).
Definition fail {S A} (e : fault) : M S A := λ _, Err e.
Definition lift {S A} (m : outcome A) : M S A := λ s,
  match m with Ok a => Ok (a, s) | Err e => Err e end.

(** C's [assert]. *)
Definition assert_that {S} (b : bool) : M S unit :=
  if b then mret tt else fail AssertFailed.

Definition is_ok {A} (m : outcome A) : bool := if m is Ok _ then true else false.

Lemma outcome_bind_ok {A B} (f : A → outcome B) a : (Ok a ≫= f) = f a.
Proof. done. Qed.

Lemma outcome_bind_inv {A B} (f : A → outcome B) m b :
  m ≫= f = Ok b → ∃ a, m = Ok a ∧ f a = Ok b.
Proof. destruct m; naive_solver. Qed.

Lemma M_bind_ok {S A B} (m : M S A) (f : A → M S B) s a s' :
  m s = Ok (a, s') → (m ≫= f) s = f a s'.
Proof. intros H. unfold mbind, M_bind. by rewrite H. Qed.

Lemma M_bind_inv {S A B} (m : M S A) (f : A → M S B) s b s'' :
  (m ≫= f) s = Ok (b, s'') → ∃ a s', m s = Ok (a, s') ∧ f a s' = Ok (b, s'').
Proof. unfold mbind, M_bind. destruct (m s) as [[a s']|]; naive_solver. Qed.

Lemma M_bind_err {S A B} (m : M S A) (f : A → M S B) s e :
  m s = Err e → (m ≫= f) s = Err e.
Proof. intros H. unfold mbind, M_bind. by rewrite H. Qed.

(** Running the primitives of the monad; [mstep] is their rewrite database. *)
Section running.
Context {S A B : Type}.
Implicit Types (s : S).

Lemma bind_gets (f : S → A) (g : A → M S B) s : (gets f ≫= g) s = g (f s) s.
Proof. done. Qed.
Lemma bind_modify (f : S → S) (g : unit → M S B) s :
  (modify f ≫= g) s = g tt (f s).
Proof. done. Qed.
Lemma bind_ret (a : A) (g : A → M S B) s : (mret a ≫= g) s = g a s.
Proof. done. Qed.
Lemma bind_lift (m : outcome A) (g : A → M S B) s :
  (lift m ≫= g) s = match m with Ok a => g a s | Err e => Err e end.
Proof. by destruct m. Qed.
Lemma bind_fail e (g : A → M S B) s : (fail e ≫= g) s = Err e.
Proof. done. Qed.
Lemma bind_assert b (g : unit → M S B) s :
  (assert_that b ≫= g) s = if b then g tt s else Err AssertFailed.
Proof. by destruct b. Qed.
Lemma bind_bind {C} (m : M S A) (f : A → M S B) (g : B → M S C) s :
  ((m ≫= f) ≫= g) s = (m ≫= (λ a, f a ≫= g)) s.
Proof. unfold mbind, M_bind. by destruct (m s) as [[]|]. Qed.
Lemma run_gets (f : S → A) s : gets f s = Ok (f s, s).
Proof. done. Qed.
Lemma run_modify (f : S → S) s : modify f s = Ok (tt, f s).
Proof. done. Qed.
Lemma run_ret (a : A) s : (mret a : M S A) s = Ok (a, s).
Proof. done. Qed.
Lemma run_fail e s : (fail e : M S A) s = Err e.
Proof. done. Qed.
End running.

Create Rewrite HintDb mstep.
#[export] Hint Rewrite @bind_gets @bind_modify @bind_ret @bind_lift @bind_fail
  @bind_assert @bind_bind @run_gets @run_modify @run_ret @run_fail : mstep.

(** Run the head of a monadic computation as far as it is known. *)
Ltac mstep := repeat (progress (autorewrite with mstep; cbv beta iota)).

(** Range-based [for] over a container the body does not touch. *)
Fixpoint for_each {S A} (f : A → M S unit) (l : list A) : M S unit :=
  match l with
  | [] => mret tt
  | x :: l => f x;; for_each f l
  end.

(** ** Weakest preconditions

    [wp m Q E s]: from [s], [m] returns with [Q] or stops with a fault in [E]. *)
Definition wp {S A} (m : M S A) (Q : A → S → Prop) (E : fault → Prop) (s : S) : Prop :=
  match m s with Ok (a, s') => Q a s' | Err e => E e end.

Section wp.
Context {S A B : Type}.
Implicit Types (s : S) (E : fault → Prop).

Lemma wp_bind (m : M S A) (f : A → M S B) Q E s :
  wp m (λ a s', wp (f a) Q E s') E s → wp (m ≫= f) Q E s.
Proof. unfold wp, mbind, M_bind. by destruct (m s) as [[]|]. Qed.

Lemma wp_ret (a : A) Q E s : Q a s → wp (mret a) Q E s.
Proof. done. Qed.

Lemma wp_gets (f : S → A) Q E s : Q (f s) s → wp (gets f) Q E s.
Proof. done. Qed.

Lemma wp_modify (f : S → S) Q E s : Q tt (f s) → wp (modify f) Q E s.
Proof. done. Qed.

Lemma wp_fail e (Q : A → S → Prop) E s : E e → wp (fail e) Q E s.
Proof. done. Qed.

Lemma wp_lift (o : outcome A) (Q : A → S → Prop) E s :
  (∀ a, o = Ok a → Q a s) → (∀ e, o = Err e → E e) → wp (lift o) Q E s.
Proof. destruct o; unfold wp, lift; auto. Qed.

Lemma wp_assert b Q E s : b = true → Q tt s → wp (assert_that b) Q E s.
Proof. by intros ->. Qed.

Lemma wp_mono (m : M S A) (Q Q' : A → S → Prop) E s :
  wp m Q E s → (∀ a s', Q a s' → Q' a s') → wp m Q' E s.
Proof. unfold wp. destruct (m s) as [[]|]; auto. Qed.

Lemma wp_and (m : M S A) (Q Q' : A → S → Prop) E s :
  wp m Q E s → wp m Q' E s → wp m (λ a s', Q a s' ∧ Q' a s') E s.
Proof. unfold wp. destruct (m s) as [[]|]; auto. Qed.

Lemma wp_ok (m : M S A) (Q : A → S → Prop) E s a s' :
  m s = Ok (a, s') → wp m Q E s → Q a s'.
Proof. unfold wp. by intros ->. Qed.

End wp.

(** A loop invariant indexed by the elements still to come. *)
Lemma wp_for_each {S A} (I : list A → S → Prop) (f : A → M S unit) l (E : fault → Prop) s :
  I l s →
  (∀ x l' s', I (x :: l') s' → wp (f x) (λ _ s'', I l' s'') E s') →
  wp (for_each f l) (λ _ s', I [] s') E s.
Proof.
  intros HI Hstep. revert s HI. induction l as [|x l IH]; intros s HI; [done|].
  apply wp_bind. eapply wp_mono; [by apply Hstep|]. intros [] s' HI'. by apply IH.
Qed.
Ltac wp_step :=
  first [ apply wp_bind | apply wp_ret | apply wp_gets | apply wp_modify ].

(** Filtering a list cut where the predicate stops to hold. *)
Lemma filter_prefix {A} (P : A → Prop) `{∀ x, Decision (P x)} (l1 l2 : list A) :
  (∀ x, x ∈ l1 → P x) → (∀ x, x ∈ l2 → ¬ P x) → filter P (l1 ++ l2) = l1.
Proof.
  intros H1 H2. induction l1 as [|x l1 IH]; cbn [app].
  - induction l2 as [|y l2 IH]; [done|]. rewrite filter_cons_False; [|set_solver].
    apply IH. set_solver.
  - rewrite filter_cons_True by set_solver. f_equal. apply IH. set_solver.
Qed.

Lemma bind_all_nil {A B} (f : A → list B) (l : list A) : (∀ x, x ∈ l → f x = []) → l ≫= f = [].
Proof.
  induction l as [|x l IH]; intros Hf; [done|]. cbn. rewrite Hf by set_solver. apply IH. set_solver.
Qed.

(** ** Machine integers: [Z] with the wrap-around written out *)
Definition u8 (z : Z) : Z := z mod 2 ^ 8.
Definition u16 (z : Z) : Z := z mod 2 ^ 16.
Definition u32 (z : Z) : Z := z mod 2 ^ 32.
Definition u64 (z : Z) : Z := z mod 2 ^ 64.
Definition wrap_signed (w z : Z) : Z := (z + 2 ^ (w - 1)) mod 2 ^ w - 2 ^ (w - 1).
Definition i16 : Z → Z := wrap_signed 16.
Definition i32 : Z → Z := wrap_signed 32.
Definition i64 : Z → Z := wrap_signed 64.

Definition in_i64 (z : Z) : bool := (- 2 ^ 63 <=? z) && (z <? 2 ^ 63).

(** Signed 64-bit arithmetic, undefined on overflow. *)
Definition checked_i64 (z : Z) : outcome Z :=
  if in_i64 z then Ok z else Err IntOverflow.

(** The same for [int]. *)
Definition checked_i32 (z : Z) : outcome Z :=
  if (- 2 ^ 31 <=? z) && (z <? 2 ^ 31) then Ok z else Err IntOverflow.

Definition is_u32 (z : Z) : Prop := 0 ≤ z < 2 ^ 32.
Definition is_u64 (z : Z) : Prop := 0 ≤ z < 2 ^ 64.

Lemma u32_range z : 0 ≤ u32 z < 2 ^ 32.
Proof. apply Z.mod_pos_bound. lia. Qed.

Lemma u64_range z : 0 ≤ u64 z < 2 ^ 64.
Proof. apply Z.mod_pos_bound. lia. Qed.

Lemma u32_small z : 0 ≤ z < 2 ^ 32 → u32 z = z.
Proof. apply Z.mod_small. Qed.

Lemma u64_small z : 0 ≤ z < 2 ^ 64 → u64 z = z.
Proof. apply Z.mod_small. Qed.

Lemma u32_idem_sub_l a b : u32 (u32 a - b) = u32 (a - b).
Proof. apply Zminus_mod_idemp_l. Qed.

Lemma u32_idem_sub_r a b : u32 (a - u32 b) = u32 (a - b).
Proof. apply Zminus_mod_idemp_r. Qed.

Lemma u32_idem_add_l a b : u32 (u32 a + b) = u32 (a + b).
Proof. apply Zplus_mod_idemp_l. Qed.

Lemma checked_i64_ok z : - 2 ^ 63 ≤ z < 2 ^ 63 → checked_i64 z = Ok z.
Proof.
  intros H. unfold checked_i64, in_i64.
  by rewrite (proj2 (Z.leb_le _ _)), (proj2 (Z.ltb_lt _ _)) by lia.
Qed.

Lemma checked_i32_ok z : - 2 ^ 31 ≤ z < 2 ^ 31 → checked_i32 z = Ok z.
Proof.
  intros H. unfold checked_i32. by rewrite (proj2 (Z.leb_le _ _)), (proj2 (Z.ltb_lt _ _)) by lia.
Qed.

Lemma checked_i32_err z e : checked_i32 z = Err e → e = IntOverflow.
Proof. unfold checked_i32. destruct (_ && _); [done|congruence]. Qed.

Lemma i32_small z : - 2 ^ 31 ≤ z < 2 ^ 31 → i32 z = z.
Proof. intros H. unfold i32, wrap_signed. rewrite Z.mod_small by lia. lia. Qed.

(** Reducing modulo [2^32] first does not change a residue modulo a smaller
    power of two: ring positions may use counters that wrap. *)
Lemma u32_mod_pow2 z p : 0 ≤ p ≤ 32 → u32 z mod 2 ^ p = z mod 2 ^ p.
Proof.
  intros Hp. unfold u32. apply Z.mod_mod_divide.
  exists (2 ^ (32 - p)). rewrite <- Z.pow_add_r by lia. f_equal. lia.
Qed.

Lemma land_pow2_mask z p : 0 ≤ p → Z.land z (2 ^ p - 1) = z mod 2 ^ p.
Proof. intros Hp. rewrite <- Z.land_ones by lia. by rewrite Z.ones_equiv, <- Z.sub_1_r. Qed.

(** ** Memory: an object is the list of its cells *)
Section memory.
Context {A : Type}.
Implicit Types (m bs : list A).

(** The [len] cells from index [off] on. *)
Definition mem_read m (off len : Z) : outcome (list A) :=
  if (0 <=? off) && (0 <=? len) && (off + len <=? Z.of_nat (length m)) then
    Ok (take (Z.to_nat len) (drop (Z.to_nat off) m))
  else Err OutOfBounds.

(** Overwrite the cells from index [off] on with [bs]. *)
Definition mem_write m (off : Z) bs : outcome (list A) :=
  if (0 <=? off) && (off + Z.of_nat (length bs) <=? Z.of_nat (length m)) then
    Ok (take (Z.to_nat off) m ++ bs ++ drop (Z.to_nat off + length bs) m)
  else Err OutOfBounds.

Lemma mem_read_ok m off len :
  0 ≤ off → 0 ≤ len → off + len ≤ Z.of_nat (length m) →
  mem_read m off len = Ok (take (Z.to_nat len) (drop (Z.to_nat off) m)).
Proof.
  intros. unfold mem_read. by rewrite !(proj2 (Z.leb_le _ _)) by lia.
Qed.

Lemma mem_write_ok m off bs :
  0 ≤ off → off + Z.of_nat (length bs) ≤ Z.of_nat (length m) →
  mem_write m off bs =
    Ok (take (Z.to_nat off) m ++ bs ++ drop (Z.to_nat off + length bs) m).
Proof.
  intros. unfold mem_write. by rewrite !(proj2 (Z.leb_le _ _)) by lia.
Qed.

Lemma mem_read_oob m off len :
  Z.of_nat (length m) < off + len → mem_read m off len = Err OutOfBounds.
Proof.
  intros. unfold mem_read.
  rewrite (proj2 (Z.leb_gt (off + len) _)) by lia. by rewrite andb_false_r.
Qed.

Lemma length_overwrite m bs n :
  (n + length bs ≤ length m)%nat →
  length (take n m ++ bs ++ drop (n + length bs) m) = length m.
Proof. intros. rewrite !length_app, length_take, length_drop. lia. Qed.
End memory.

(** ** Results of the system calls that move bytes

    The kernel is outside the library: each call's result is an input of the
    handler that makes the call, [inl errno] for a return value of -1, else
    the bytes read ([readv]), or the count of bytes taken ([write]). *)
Definition read_result : Type := Z + list byte.
Definition write_result : Type := Z + Z.

(** [read(2)], [readv(2)]: at most as many bytes as the vectors hold. *)
Definition read_result_ok (room : Z) (r : read_result) : Prop :=
  match r with inl _ => True | inr bs => Z.of_nat (length bs) ≤ room end.

(** [write(2)]: at most as many bytes as offered. *)
Definition write_result_ok (len : Z) (r : write_result) : Prop :=
  match r with inl _ => True | inr n => 0 ≤ n ≤ len end.

(** ** Mutexes

    [std::mutex::lock] called by the thread that owns the mutex has no defined
    behaviour. [relock] is what the platform does then: a glibc mutex of the
    default kind blocks for ever ([pthread_mutex]); libstdc++ makes [lock] an
    empty function in a process that is not linked against libpthread
    ([inert_mutex]). *)
Class MutexImpl := relock : outcome unit.
Definition pthread_mutex : MutexImpl := Err Deadlock.
Definition inert_mutex : MutexImpl := Ok tt.

(** ** Tactics *)

(** Rewrite a comparison of integers the context decides. *)
Ltac zbool :=
  repeat match goal with
  | |- context [?a <? ?b] =>
      first [ rewrite (proj2 (Z.ltb_lt a b)) by lia
            | rewrite (proj2 (Z.ltb_ge a b)) by lia ]
  | |- context [?a <=? ?b] =>
      first [ rewrite (proj2 (Z.leb_le a b)) by lia
            | rewrite (proj2 (Z.leb_gt a b)) by lia ]
  | |- context [?a =? ?b] =>
      first [ rewrite (proj2 (Z.eqb_eq a b)) by lia
            | rewrite (proj2 (Z.eqb_neq a b)) by lia ]
  end.

(** Case analysis on an integer comparison of the goal. *)
Ltac zcase :=
  match goal with
  | |- context [?a <? ?b] => destruct (Z.ltb_spec a b)
  | |- context [?a <=? ?b] => destruct (Z.leb_spec a b)
  | |- context [?a =? ?b] => destruct (Z.eqb_spec a b)
  end.

Create HintDb mmuduo.
#[export] Hint Resolve u32_range u64_range : mmuduo.
