(* ===== verification/Ring.v ===== *)
(** Circular slices of an array: the list lemmas behind a ring buffer. *)
From S2P Require Import Prelude.

Section ring.
Context {A : Type}.
Implicit Types (b bs : list A) (pos n i : nat).
Local Open Scope nat_scope.

(** [n] cells of [b] from index [pos] on, going round at the end. *)
Definition ring_slice b pos n : list A := take n (drop pos (b ++ b)).

(** Overwrite cells of [b] from index [pos] on with [bs], going round. *)
Definition ring_write b pos bs : list A :=
  let len := length bs `min` (length b - pos) in
  let b1 := take pos b ++ take len bs ++ drop (pos + len) b in
  drop len bs ++ drop (length bs - len) b1.

Lemma length_ring_slice b pos n :
  pos ≤ length b → n ≤ length b → length (ring_slice b pos n) = n.
Proof.
  intros. unfold ring_slice. rewrite length_take, length_drop, length_app. lia.
Qed.

Lemma ring_slice_split b pos n :
  pos ≤ length b →
  ring_slice b pos n =
    take (n `min` (length b - pos)) (drop pos b)
    ++ take (n - n `min` (length b - pos)) b.
Proof.
  intros. unfold ring_slice. rewrite drop_app_le by lia.
  rewrite take_app, length_drop. f_equal.
  - destruct (decide (n ≤ length b - pos)).
    + by rewrite Nat.min_l by lia.
    + rewrite Nat.min_r by lia. rewrite !take_ge; rewrite ?length_drop; lia || done.
  - f_equal. lia.
Qed.

Lemma ring_slice_lookup b pos n i :
  pos < length b → i < n → n ≤ length b →
  ring_slice b pos n !! i =
    b !! (if decide (pos + i < length b) then pos + i else pos + i - length b).
Proof.
  intros. unfold ring_slice. rewrite lookup_take_lt by lia.
  rewrite lookup_drop. case_decide.
  - by rewrite lookup_app_l by lia.
  - by rewrite lookup_app_r by lia.
Qed.

Lemma length_ring_write b pos bs :
  pos < length b → length bs ≤ length b → length (ring_write b pos bs) = length b.
Proof.
  intros. unfold ring_write.
  repeat rewrite ?length_app, ?length_drop, ?length_take. lia.
Qed.

Lemma ring_write_lookup b pos bs j :
  pos < length b → length bs ≤ length b → j < length b →
  ring_write b pos bs !! j =
    (let d := if decide (pos ≤ j) then j - pos else j + length b - pos in
     if decide (d < length bs) then bs !! d else b !! j).
Proof.
  intros. unfold ring_write. cbv zeta.
  set (len := length bs `min` (length b - pos)).
  assert (Hb1 : ∀ k, k < length b →
    (take pos b ++ take len bs ++ drop (pos + len) b) !! k =
      if decide (pos ≤ k < pos + len) then bs !! (k - pos) else b !! k).
  { intros k Hk. destruct (decide (k < pos)).
    - rewrite lookup_app_l by (rewrite length_take; lia).
      rewrite lookup_take_lt by lia. by rewrite decide_False by lia.
    - rewrite lookup_app_r by (rewrite length_take; lia).
      rewrite length_take, Nat.min_l by lia. case_decide.
      + rewrite lookup_app_l by (rewrite length_take; lia).
        by rewrite lookup_take_lt by lia.
      + rewrite lookup_app_r by (rewrite length_take; lia).
        rewrite length_take, lookup_drop. f_equal. lia. }
  destruct (decide (j < length bs - len)).
  - rewrite lookup_app_l by (rewrite length_drop; lia). rewrite lookup_drop.
    rewrite (decide_False (P := pos ≤ j)) by lia.
    rewrite decide_True by lia. f_equal. lia.
  - rewrite lookup_app_r by (rewrite length_drop; lia).
    rewrite length_drop, lookup_drop.
    replace (length bs - len + (j - (length bs - len))) with j by lia.
    rewrite Hb1 by done. repeat case_decide; try lia; done.
Qed.

(** A write that does not reach the end of the array is one copy. *)
Lemma ring_write_straight b pos bs :
  pos + length bs ≤ length b →
  ring_write b pos bs = take pos b ++ bs ++ drop (pos + length bs) b.
Proof.
  intros. unfold ring_write. rewrite Nat.min_l by lia.
  rewrite drop_all, Nat.sub_diag, drop_0, firstn_all. done.
Qed.

(** Writing just behind a slice extends it. *)
Lemma ring_slice_write b pos n bs :
  pos < length b → n + length bs ≤ length b →
  let w := if decide (pos + n < length b) then pos + n else pos + n - length b in
  ring_slice (ring_write b w bs) pos (n + length bs) = ring_slice b pos n ++ bs.
Proof.
  intros Hpos Hn w.
  destruct (decide (bs = [])) as [->|Hne].
  { rewrite app_nil_r. simpl. rewrite Nat.add_0_r. unfold ring_write. cbn.
    by rewrite !drop_0, Nat.add_0_r, take_drop. }
  assert (length bs ≠ 0) by (destruct bs; done).
  assert (Hw : w < length b) by (unfold w; case_decide; lia).
  apply list_eq. intros i.
  destruct (decide (i < n + length bs)).
  2:{ rewrite !lookup_ge_None_2; [done| |].
      - rewrite length_app, length_ring_slice by lia. lia.
      - rewrite length_ring_slice; rewrite ?length_ring_write by lia; lia. }
  rewrite ring_slice_lookup by (rewrite ?length_ring_write by lia; lia).
  rewrite length_ring_write by lia.
  rewrite ring_write_lookup by (repeat case_decide; lia).
  destruct (decide (i < n)).
  - rewrite lookup_app_l by (rewrite length_ring_slice; lia).
    rewrite ring_slice_lookup by lia.
    unfold w in *. repeat case_decide; try lia; done.
  - rewrite lookup_app_r by (rewrite length_ring_slice; lia).
    rewrite length_ring_slice by lia.
    unfold w in *. repeat case_decide; try lia; f_equal; lia.
Qed.

(** Reading from the front of a slice leaves its tail. *)
Lemma ring_slice_drop b pos n m :
  pos < length b → m ≤ n → n ≤ length b →
  let r := if decide (pos + m < length b) then pos + m else pos + m - length b in
  ring_slice b r (n - m) = drop m (ring_slice b pos n).
Proof.
  intros Hpos Hm Hn r. apply list_eq. intros i. rewrite lookup_drop.
  assert (Hr : r < length b) by (unfold r; case_decide; lia).
  destruct (decide (i < n - m)).
  - rewrite !ring_slice_lookup by lia.
    unfold r. repeat case_decide; try lia; f_equal; lia.
  - rewrite !lookup_ge_None_2; [done| |]; rewrite length_ring_slice; lia.
Qed.

Lemma ring_slice_take b pos n m :
  m ≤ n → take m (ring_slice b pos n) = ring_slice b pos m.
Proof. intros. unfold ring_slice. rewrite take_take. f_equal. lia. Qed.

#[local] Coercion Z.of_nat : nat >-> Z.

(** The two copies of a wrapping write, the part up to the end of the array
    and then the rest at its head, are one [ring_write]. *)
Lemma two_copies_ring_write b src (pos n : Z) :
  (0 ≤ pos < length b → 0 ≤ n ≤ length b → n ≤ length src →
   let len := n `min` (length b - pos) in
   (b1 ← (s1 ← mem_read src 0 len; mem_write b pos s1);
    s2 ← mem_read src len (n - len); mem_write b1 0 s2)
   = Ok (ring_write b (Z.to_nat pos) (take (Z.to_nat n) src)))%Z.
Proof.
  intros Hpos Hn Hsrc len.
  rewrite (mem_read_ok src 0 len) by lia. cbn [mbind outcome_bind].
  rewrite mem_write_ok by (rewrite ?length_take, ?length_drop; lia).
  cbn [mbind outcome_bind]. rewrite mem_read_ok by lia. cbn [mbind outcome_bind].
  change (Z.to_nat 0) with 0. rewrite drop_0.
  assert (Hl : length (take (Z.to_nat len) src) = Z.to_nat len) by (rewrite length_take; lia).
  rewrite mem_write_ok.
  2: lia.
  2:{ rewrite length_overwrite by lia. rewrite length_take, length_drop. lia. }
  f_equal. unfold ring_write. rewrite take_0. cbn [app].
  rewrite !length_take, length_drop.
  replace (Z.to_nat n `min` length src) with (Z.to_nat n) by lia.
  replace (Z.to_nat n `min` (length b - Z.to_nat pos)) with (Z.to_nat len) by lia.
  rewrite take_take.
  replace (Z.to_nat len `min` Z.to_nat n) with (Z.to_nat len) by lia.
  rewrite take_drop_commute.
  replace (Z.to_nat len `min` length src) with (Z.to_nat len) by lia.
  f_equal; f_equal; [f_equal|]; lia.
Qed.

(** The two copies of a wrapping read. *)
Lemma two_copies_ring_slice b dst (pos n : Z) :
  (0 ≤ pos < length b → 0 ≤ n ≤ length b → n ≤ length dst →
   let len := n `min` (length b - pos) in
   (d1 ← (s1 ← mem_read b pos len; mem_write dst 0 s1);
    s2 ← mem_read b 0 (n - len); mem_write d1 len s2)
   = Ok (ring_slice b (Z.to_nat pos) (Z.to_nat n) ++ drop (Z.to_nat n) dst))%Z.
Proof.
  intros Hpos Hn Hdst len.
  rewrite (mem_read_ok b pos len) by lia. cbn [mbind outcome_bind].
  rewrite mem_write_ok by (rewrite ?length_take, ?length_drop; lia).
  cbn [mbind outcome_bind]. rewrite mem_read_ok by lia. cbn [mbind outcome_bind].
  change (Z.to_nat 0) with 0. rewrite drop_0, take_0. cbn [app].
  assert (Hl : length (take (Z.to_nat len) (drop (Z.to_nat pos) b)) = Z.to_nat len)
    by (rewrite ?length_take, ?length_drop; lia).
  rewrite mem_write_ok.
  2: lia.
  2:{ rewrite length_app, length_take, !length_drop, length_take, length_drop. lia. }
  f_equal. rewrite ring_slice_split by lia. rewrite Nat.add_0_l, Hl, length_take.
  rewrite take_app_le, take_ge by lia.
  replace (Z.to_nat n `min` (length b - Z.to_nat pos)) with (Z.to_nat len) by lia.
  rewrite <- app_assoc. f_equal.
  replace (Z.to_nat n - Z.to_nat len) with (Z.to_nat (n - len)) by lia. f_equal.
  rewrite drop_app_ge by lia. rewrite Hl, drop_drop. f_equal. lia.
Qed.
End ring.
