(* ===== verification/Kfifo.v ===== *)
(** The ring buffer (kfifo.h, kfifo.cpp): [Kfifo]'s state, every operation of
    the class, and its refinement of a bounded byte queue. [write] and [read]
    are 32-bit counters that only grow; a position in the array is a counter
    masked with [bufferSize - 1]. *)
From S2P Require Import Prelude Ring.

Record kfifo := mk_kfifo {
  buffer : option (list byte);   (** [nullptr], or the allocated array *)
  bufferSize : Z;
  write : Z;
  read : Z;
  mutex : nat                    (** how often the running thread holds it *)
}.

Definition set_mutex (n : nat) (k : kfifo) : kfifo :=
  mk_kfifo (buffer k) (bufferSize k) (write k) (read k) n.
Definition set_buffer (b : list byte) (k : kfifo) : kfifo :=
  mk_kfifo (Some b) (bufferSize k) (write k) (read k) (mutex k).
Definition set_write (w : Z) (k : kfifo) : kfifo :=
  mk_kfifo (buffer k) (bufferSize k) w (read k) (mutex k).
Definition set_read (r : Z) (k : kfifo) : kfifo :=
  mk_kfifo (buffer k) (bufferSize k) (write k) r (mutex k).

(** [Kfifo::Kfifo] *)
Definition Kfifo_new : kfifo := mk_kfifo None 0 0 0 0.

Definition is_power_of_two (x : Z) : bool :=
  negb (x =? 0) && (Z.land x (u32 (x - 1)) =? 0).

Definition Min (a b : Z) : Z := if a <? b then a else b.

(** [for (; size != 0; i++) size >>= 1]: the [i] it ends with. A 32-bit value
    is zero after at most 32 turns, so a fuel of 33 is never used up. *)
Fixpoint count_shifts (fuel : nat) (size i : Z) : outcome Z :=
  match fuel with
  | O => Err OutOfFuel
  | S fuel => if size =? 0 then Ok i else count_shifts fuel (Z.shiftr size 1) (i + 1)
  end.

(** [1U << i], defined for [i < 32] only. *)
Definition shl_1u (i : Z) : outcome Z :=
  if (0 <=? i) && (i <? 32) then Ok (Z.shiftl 1 i) else Err BadShift.

(** Lines 19 to 29 of [initBuffer]: the capacity used for a request. *)
Definition round_size (size : Z) : outcome Z :=
  if is_power_of_two size then Ok size
  else
    let size := if size <? 2 then 2 else size in
    i ← count_shifts 33 size 0;
    shl_1u i.

Section operations.
Context {mx : MutexImpl}.

(** [std::lock_guard<std::mutex> lock(mutex)] around the rest of a scope. *)
Definition lock_guard {A} (body : M kfifo A) : M kfifo A := λ k,
  match (if decide (mutex k = 0%nat) then Ok tt else relock) with
  | Err e => Err e
  | Ok _ =>
      match body (set_mutex (S (mutex k)) k) with
      | Err e => Err e
      | Ok (a, k') => Ok (a, set_mutex (pred (mutex k')) k')
      end
  end.

Definition initBuffer (size : Z) : M kfifo bool :=
  size ← lift (round_size size);
  lock_guard (
    modify (λ k, mk_kfifo (Some (replicate (Z.to_nat size) Byte.x00))
                          size 0 0 (mutex k));;
    mret true).

Definition freeBuffer : M kfifo unit :=
  lock_guard (modify (λ k, mk_kfifo None 0 0 0 (mutex k))).

Definition resetBuffer : M kfifo unit :=
  lock_guard (
    modify (λ k, set_read 0 (set_write 0 k));;
    k ← gets id;
    match buffer k with
    | None => if bufferSize k =? 0 then mret tt else fail OutOfBounds
    | Some b =>
        b' ← lift (mem_write b 0 (replicate (Z.to_nat (bufferSize k)) Byte.x00));
        modify (set_buffer b')
    end).

Definition isEmpty : M kfifo bool :=
  lock_guard (gets (λ k, write k =? read k)).

Definition isFull : M kfifo bool :=
  lock_guard (gets (λ k, bufferSize k =? u32 (write k - read k))).

Definition getReadableLen : M kfifo Z :=
  lock_guard (gets (λ k, u32 (write k - read k))).

Definition getRemainLen : M kfifo Z :=
  lock_guard (gets (λ k, u32 (bufferSize k - u32 (write k - read k)))).

Definition getBufferSize : M kfifo Z :=
  lock_guard (gets bufferSize).

(** [Min(size, f())]: the macro evaluates the call once or twice. *)
Definition Min_call (size : Z) (f : M kfifo Z) : M kfifo Z :=
  x ← f;
  if size <? x then mret size else f.

(** [counter & (bufferSize - 1)] *)
Definition masked (counter : Z) (k : kfifo) : Z :=
  Z.land counter (u32 (bufferSize k - 1)).

Definition writeBuffer (inBuf : option (list byte)) (inSize : Z) : M kfifo Z :=
  lock_guard (
    k ← gets id;
    match buffer k, inBuf with
    | Some b, Some src =>
        if inSize =? 0 then mret (u32 (-1))
        else
          inSize ← Min_call inSize getRemainLen;
          let pos := masked (write k) k in
          let len := Min inSize (u32 (bufferSize k - pos)) in
          b ← lift (src1 ← mem_read src 0 len; mem_write b pos src1);
          b ← lift (src2 ← mem_read src len (u32 (inSize - len)); mem_write b 0 src2);
          modify (set_buffer b);;
          modify (λ k, set_write (u32 (write k + inSize)) k);;
          mret inSize
    | _, _ => mret (u32 (-1))
    end).

(** [readBuffer]: returns the count and the bytes put into [outBuf], an array
    of [outCap] cells ([None] for a null pointer). *)
Definition readBuffer (outBuf : option (list byte)) (outSize : Z)
    : M kfifo (Z * option (list byte)) :=
  lock_guard (
    k ← gets id;
    match buffer k, outBuf with
    | Some b, Some dst =>
        if outSize =? 0 then mret (u32 (-1), outBuf)
        else
          outSize ← Min_call outSize getReadableLen;
          let pos := masked (read k) k in
          let len := Min outSize (u32 (bufferSize k - pos)) in
          dst ← lift (b1 ← mem_read b pos len; mem_write dst 0 b1);
          dst ← lift (b2 ← mem_read b 0 (u32 (outSize - len)); mem_write dst len b2);
          modify (λ k, set_read (u32 (read k + outSize)) k);;
          mret (outSize, Some dst)
    | _, _ => mret (u32 (-1), outBuf)
    end).

Definition extrabuf_size : Z := 65536.

(** [readFd]: [r] is what [readv] gives for the vector made of the array from
    the masked write position to its end and of [extrabuf]. Returns [n] and
    the value stored through [saveErrno], if one is. *)
Definition readFd_room (k : kfifo) : Z :=
  let writableByte := u32 (bufferSize k - masked (write k) k) in
  if writableByte <? extrabuf_size then writableByte + extrabuf_size else writableByte.

Definition readFd (r : read_result) : M kfifo (Z * option Z) :=
  k ← gets id;
  let pos := masked (write k) k in
  let writableByte := u32 (bufferSize k - pos) in
  match r with
  | inl errno => mret (-1, Some errno)
  | inr bs =>
      let n := Z.of_nat (length bs) in
      (* readv scatters: first the array, then extrabuf *)
      let vec0 := take (Z.to_nat writableByte) bs in
      let vec1 := drop (Z.to_nat writableByte) bs in
      (match buffer k with
       | Some b => b ← lift (mem_write b pos vec0); modify (set_buffer b)
       | None => if decide (vec0 = []) then mret tt else fail OutOfBounds
       end);;
      if n <=? writableByte then
        modify (λ k, set_write (u32 (write k + n)) k);;
        mret (n, None)
      else
        let extrabuf := vec1 ++ replicate (Z.to_nat extrabuf_size - length vec1) Byte.x00 in
        writeBuffer (Some extrabuf) (u32 (n - writableByte));;
        mret (n, None)
  end.

(** [writeFd]: the bytes offered to [write(2)]; the result of the call, and
    the value stored through [saveErrno]. *)
Definition writeFd (r : write_result) : M kfifo (list byte * (Z * option Z)) :=
  k ← gets id;
  len ← getReadableLen;
  offered ← match buffer k with
            | Some b => lift (mem_read b (masked (read k) k) len)
            | None => if len =? 0 then mret [] else fail OutOfBounds
            end;
  match r with
  | inl errno => mret (offered, (-1, Some errno))
  | inr n => mret (offered, (n, None))
  end.
End operations.

(** ** Invariant and abstraction *)

Record wf (k : kfifo) : Prop := {
  wf_size : ∃ p, 0 ≤ p ≤ 31 ∧ bufferSize k = 2 ^ p;
  wf_buffer : ∃ b, buffer k = Some b ∧ Z.of_nat (length b) = bufferSize k;
  wf_write : is_u32 (write k);
  wf_read : is_u32 (read k);
  wf_count : u32 (write k - read k) ≤ bufferSize k;
  wf_mutex : mutex k = 0%nat
}.

(** The unread bytes, oldest first. *)
Definition contents (k : kfifo) : list byte :=
  match buffer k with
  | None => []
  | Some b => ring_slice b (Z.to_nat (read k mod bufferSize k))
                         (Z.to_nat (u32 (write k - read k)))
  end.

(** Bytes that still fit. *)
Definition room (k : kfifo) : Z := bufferSize k - Z.of_nat (length (contents k)).

(** ** Locking *)
Section locking.
Context {mx : MutexImpl}.

Lemma lock_guard_free {A} (body : M kfifo A) k :
  mutex k = 0%nat →
  lock_guard body k =
    match body (set_mutex 1 k) with
    | Err e => Err e
    | Ok (a, k') => Ok (a, set_mutex (pred (mutex k')) k')
    end.
Proof. intros Hm. unfold lock_guard. by rewrite decide_True, Hm. Qed.

Lemma lock_guard_gets {A} (f : kfifo → A) k :
  (∀ n k, f (set_mutex n k) = f k) → mutex k = 0%nat →
  lock_guard (gets f) k = Ok (f k, k).
Proof.
  intros Hf Hm. rewrite lock_guard_free by done. cbn. rewrite Hf.
  destruct k; cbn in *; by subst.
Qed.

(** A second [lock] by the owner: nothing after it runs if it blocks. *)
Lemma lock_guard_held_err {A} (body : M kfifo A) k e :
  mutex k ≠ 0%nat → relock = Err e → lock_guard body k = Err e.
Proof. intros Hm He. unfold lock_guard. by rewrite decide_False, He. Qed.

Lemma lock_guard_held_gets {A} (f : kfifo → A) k :
  (∀ n k, f (set_mutex n k) = f k) → relock = Ok tt →
  lock_guard (gets f) k = Ok (f k, k).
Proof.
  intros Hf Hr. unfold lock_guard. rewrite Hr.
  destruct k, (decide _); cbn; by rewrite Hf.
Qed.

(** Both transfers call a locking accessor while they hold the lock. *)
Lemma transfer_relock_err k bs n e :
  relock = Err e → mutex k = 0%nat → is_Some (buffer k) → n ≠ 0 →
  writeBuffer (Some bs) n k = Err e ∧ readBuffer (Some bs) n k = Err e.
Proof.
  intros Hr Hm [b Hb] Hn.
  unfold writeBuffer, readBuffer. rewrite !lock_guard_free by done. mstep.
  change (buffer (id (set_mutex 1 k))) with (buffer k). rewrite Hb. zbool.
  unfold Min_call, getRemainLen, getReadableLen. mstep.
  by rewrite !(M_bind_err _ _ _ _
    (lock_guard_held_err _ (id (set_mutex 1 k)) _ (Nat.neq_succ_0 0) Hr)).
Qed.
End locking.

(** ** Counters and positions *)
Section counters.
Implicit Types (k : kfifo).

Lemma wf_size_bounds k : wf k → 1 ≤ bufferSize k ≤ 2 ^ 31.
Proof.
  intros [(p & Hp & ->) _ _ _ _ _]. split.
  - pose proof (Z.pow_pos_nonneg 2 p). lia.
  - apply Z.pow_le_mono_r; lia.
Qed.

(** Masking is reduction modulo the size. *)
Lemma masked_mod k c : wf k → masked c k = c mod bufferSize k.
Proof.
  intros Hwf. pose proof (wf_size_bounds k Hwf).
  destruct (wf_size k Hwf) as (p & Hp & Hsz). unfold masked.
  rewrite u32_small by lia. rewrite Hsz. apply land_pow2_mask. lia.
Qed.

Lemma count_range k : wf k → 0 ≤ u32 (write k - read k) ≤ bufferSize k.
Proof. intros Hwf. pose proof (u32_range (write k - read k)). destruct Hwf. lia. Qed.

Lemma length_contents k :
  wf k → Z.of_nat (length (contents k)) = u32 (write k - read k).
Proof.
  intros Hwf. pose proof (wf_size_bounds k Hwf). pose proof (count_range k Hwf).
  destruct (wf_buffer k Hwf) as (b & Hb & Hlen). unfold contents. rewrite Hb.
  pose proof (Z.mod_pos_bound (read k) (bufferSize k)).
  rewrite length_ring_slice; lia.
Qed.

Lemma room_eq k : wf k → room k = bufferSize k - u32 (write k - read k).
Proof. intros Hwf. unfold room. by rewrite length_contents. Qed.

Lemma room_range k : wf k → 0 ≤ room k ≤ bufferSize k.
Proof. intros Hwf. rewrite room_eq by done. pose proof (count_range k Hwf). lia. Qed.

Lemma mod_step a n s : 0 < s → 0 ≤ n ≤ s →
  (a + n) mod s = if decide (a mod s + n < s) then a mod s + n else a mod s + n - s.
Proof.
  intros Hs Hn. pose proof (Z.mod_pos_bound a s Hs).
  rewrite <- Zplus_mod_idemp_l. case_decide.
  - by rewrite Z.mod_small by lia.
  - replace (a mod s + n) with (a mod s + n - s + 1 * s) at 1 by lia.
    rewrite Z_mod_plus_full, Z.mod_small by lia. done.
Qed.

(** Advancing a 32-bit counter moves its position round the array. *)
Lemma counter_step k c n : wf k → 0 ≤ n ≤ bufferSize k →
  u32 (c + n) mod bufferSize k =
    if decide (c mod bufferSize k + n < bufferSize k)
    then c mod bufferSize k + n else c mod bufferSize k + n - bufferSize k.
Proof.
  intros Hwf Hn. pose proof (wf_size_bounds k Hwf).
  destruct (wf_size k Hwf) as (p & Hp & Hsz).
  rewrite <- mod_step by lia. rewrite Hsz. apply u32_mod_pow2. lia.
Qed.

Lemma write_position k : wf k →
  let c := u32 (write k - read k) in
  write k mod bufferSize k =
    if decide (read k mod bufferSize k + c < bufferSize k)
    then read k mod bufferSize k + c else read k mod bufferSize k + c - bufferSize k.
Proof.
  intros Hwf c. pose proof (count_range k Hwf).
  rewrite <- counter_step by done. f_equal. unfold c, u32.
  rewrite Zplus_mod_idemp_r. replace (read k + (write k - read k)) with (write k) by lia.
  symmetry. apply u32_small, Hwf.
Qed.

Lemma isEmpty_contents k : wf k → write k = read k ↔ contents k = [].
Proof.
  intros Hwf. rewrite <- length_zero_iff_nil.
  pose proof (length_contents k Hwf) as Hl. destruct Hwf as [_ _ Hw Hr _ _].
  unfold is_u32 in *. unfold u32 in Hl. split.
  - intros He. rewrite He, Z.sub_diag, Z.mod_0_l in Hl; lia.
  - intros He. rewrite He in Hl. symmetry in Hl. apply Z.mod_divide in Hl; [|lia].
    destruct Hl as [q Hq]. nia.
Qed.
End counters.

(** ** The operations, where a second [lock] returns *)
Section reentrant.
Context {mx : MutexImpl} (Hrelock : relock = Ok tt).

Lemma Min_call_ok size (f : kfifo → Z) k :
  (∀ n k, f (set_mutex n k) = f k) →
  Min_call size (lock_guard (gets f)) k = Ok (Z.min size (f k), k).
Proof.
  intros Hf. unfold Min_call.
  rewrite (M_bind_ok _ _ _ _ _ (lock_guard_held_gets f k Hf Hrelock)).
  zcase; [by rewrite Z.min_l by lia|].
  rewrite lock_guard_held_gets by done. by rewrite Z.min_r by lia.
Qed.

Lemma Min_call_remain size k :
  Min_call size getRemainLen k =
    Ok (Z.min size (u32 (bufferSize k - u32 (write k - read k))), k).
Proof. by apply (Min_call_ok size). Qed.

Lemma Min_call_readable size k :
  Min_call size getReadableLen k = Ok (Z.min size (u32 (write k - read k)), k).
Proof. by apply (Min_call_ok size). Qed.

Lemma Min_spec a b : Min a b = Z.min a b.
Proof. unfold Min. zcase; lia. Qed.

(** What a completed write leaves. *)
Lemma wf_written k bs b :
  wf k → Z.of_nat (length bs) ≤ room k → buffer k = Some b →
  let k' := set_write (u32 (write k + Z.of_nat (length bs)))
              (set_buffer (ring_write b (Z.to_nat (write k mod bufferSize k)) bs) k) in
  wf k' ∧ contents k' = contents k ++ bs.
Proof.
  intros Hwf Hroom Hb k'. rewrite room_eq in Hroom by done.
  pose proof (wf_size_bounds k Hwf). pose proof (count_range k Hwf).
  pose proof (Z.mod_pos_bound (write k) (bufferSize k)).
  pose proof (Z.mod_pos_bound (read k) (bufferSize k)).
  pose proof (write_position k Hwf) as Hpos. cbv zeta in Hpos.
  destruct Hwf as [Hs (b0 & Hb0 & Hlen) Hw Hr Hc Hm]. assert (b0 = b) as -> by congruence.
  assert (Hcount : u32 (write k' - read k') =
                   u32 (write k - read k) + Z.of_nat (length bs)).
  { cbn. rewrite u32_idem_sub_l.
    replace (write k + Z.of_nat (length bs) - read k)
      with (write k - read k + Z.of_nat (length bs)) by lia.
    rewrite <- u32_idem_add_l. apply u32_small. lia. }
  split.
  - split; [done| |apply u32_range|done|rewrite Hcount; cbn; lia|done].
    eexists; split; [done|]. cbn. rewrite length_ring_write; lia.
  - unfold contents. rewrite Hcount. cbn [k' buffer set_write set_buffer read bufferSize].
    rewrite Hb. rewrite Z2Nat.inj_add, Nat2Z.id by lia.
    rewrite <- ring_slice_write by lia. f_equal. f_equal.
    rewrite Hpos. repeat case_decide; lia.
Qed.

Lemma writeBuffer_ok k src inSize :
  wf k → 0 < inSize < 2 ^ 32 → inSize ≤ Z.of_nat (length src) →
  let n := Z.min inSize (room k) in
  ∃ k', writeBuffer (Some src) inSize k = Ok (n, k') ∧ wf k' ∧
        contents k' = contents k ++ take (Z.to_nat n) src ∧
        bufferSize k' = bufferSize k.
Proof.
  intros Hwf Hin Hsrc n.
  pose proof (wf_size_bounds k Hwf). pose proof (room_range k Hwf).
  pose proof (Z.mod_pos_bound (write k) (bufferSize k)) as Hp.
  destruct (wf_buffer k Hwf) as (b & Hb & Hlen).
  assert (Hroom : u32 (bufferSize k - u32 (write k - read k)) = room k).
  { rewrite room_eq by done. pose proof (count_range k Hwf). apply u32_small. lia. }
  destruct (wf_written k (take (Z.to_nat n) src) b Hwf) as [Hwf' Hcont];
    [rewrite length_take; lia|done|].
  rewrite length_take, Nat.min_l, Z2Nat.id in Hwf', Hcont by lia.
  eexists. split_and!; [|exact Hwf'|exact Hcont|done].
  unfold writeBuffer. rewrite lock_guard_free by apply Hwf.
  mstep. change (buffer (id (set_mutex 1 k))) with (buffer k). rewrite Hb. zbool.
  rewrite (M_bind_ok _ _ _ _ _ (Min_call_remain _ _)).
  change (masked (write (id (set_mutex 1 k))) (id (set_mutex 1 k))) with (masked (write k) k).
  cbn [set_mutex id write read bufferSize]. rewrite Hroom. fold n. rewrite !Min_spec.
  rewrite masked_mod by done.
  rewrite (u32_small (bufferSize k - _)) by lia.
  rewrite (u32_small (n - _)) by lia.
  pose proof (two_copies_ring_write b src (write k mod bufferSize k) n) as Hcopy.
  cbv zeta in Hcopy. rewrite Hlen in Hcopy.
  specialize (Hcopy ltac:(lia) ltac:(lia) ltac:(lia)).
  apply outcome_bind_inv in Hcopy as (b1 & Hb1 & Hb2).
  mstep. rewrite Hb1, Hb2. mstep. unfold set_mutex, set_write, set_buffer. cbn. by rewrite (wf_mutex k Hwf).
Qed.

Lemma wf_read_advanced k n :
  wf k → 0 ≤ n ≤ Z.of_nat (length (contents k)) →
  let k' := set_read (u32 (read k + n)) k in
  wf k' ∧ contents k' = drop (Z.to_nat n) (contents k).
Proof.
  intros Hwf Hn k'. rewrite length_contents in Hn by done.
  pose proof (wf_size_bounds k Hwf). pose proof (count_range k Hwf).
  pose proof (Z.mod_pos_bound (read k) (bufferSize k)).
  assert (Hcount : u32 (write k' - read k') = u32 (write k - read k) - n).
  { cbn. rewrite u32_idem_sub_r.
    replace (write k - (read k + n)) with (write k - read k - n) by lia.
    rewrite <- u32_idem_sub_l. apply u32_small. lia. }
  pose proof (counter_step k (read k) n Hwf ltac:(lia)) as Hpos.
  destruct Hwf as [Hs (b0 & Hb0 & Hlen) Hw Hr Hc Hm].
  split.
  - split; [done|by eexists|done|apply u32_range|rewrite Hcount; cbn; lia|done].
  - unfold contents. rewrite Hcount. cbn [k' buffer set_read read bufferSize]. rewrite Hb0.
    rewrite <- ring_slice_drop by lia. rewrite Hpos. f_equal; [|lia].
    repeat case_decide; lia.
Qed.

Lemma readBuffer_ok k dst outSize :
  wf k → 0 < outSize < 2 ^ 32 → outSize ≤ Z.of_nat (length dst) →
  let n := Z.min outSize (Z.of_nat (length (contents k))) in
  ∃ k', readBuffer (Some dst) outSize k =
          Ok ((n, Some (take (Z.to_nat n) (contents k) ++ drop (Z.to_nat n) dst)), k') ∧
        wf k' ∧ contents k' = drop (Z.to_nat n) (contents k) ∧
        bufferSize k' = bufferSize k.
Proof.
  intros Hwf Hout Hdst n.
  pose proof (wf_size_bounds k Hwf). pose proof (count_range k Hwf).
  pose proof (Z.mod_pos_bound (read k) (bufferSize k)) as Hp.
  destruct (wf_buffer k Hwf) as (b & Hb & Hlen).
  pose proof (length_contents k Hwf) as Hcl.
  destruct (wf_read_advanced k n Hwf) as [Hwf' Hcont]; [lia|].
  eexists. split_and!; [|exact Hwf'|exact Hcont|done].
  unfold readBuffer. rewrite lock_guard_free by apply Hwf.
  mstep. change (buffer (id (set_mutex 1 k))) with (buffer k). rewrite Hb. zbool.
  rewrite (M_bind_ok _ _ _ _ _ (Min_call_readable _ _)).
  change (masked (read (id (set_mutex 1 k))) (id (set_mutex 1 k))) with (masked (read k) k).
  cbn [set_mutex id write read bufferSize]. rewrite <- Hcl. fold n. rewrite !Min_spec.
  rewrite masked_mod by done.
  rewrite (u32_small (bufferSize k - _)) by lia.
  rewrite (u32_small (n - _)) by lia.
  pose proof (two_copies_ring_slice b dst (read k mod bufferSize k) n) as Hcopy.
  cbv zeta in Hcopy. rewrite Hlen in Hcopy.
  specialize (Hcopy ltac:(lia) ltac:(lia) ltac:(lia)).
  apply outcome_bind_inv in Hcopy as (d1 & Hd1 & Hd2).
  mstep. rewrite Hd1, Hd2. mstep. unfold contents. rewrite Hb. rewrite ring_slice_take by lia.
  unfold set_mutex, set_read. cbn. by rewrite (wf_mutex k Hwf).
Qed.
End reentrant.

(** ** Reading from and writing to a descriptor *)
Section descriptors.
Context {mx : MutexImpl}.

(** Cells from the write position to the end of the array. *)
Definition contiguous (k : kfifo) : Z := bufferSize k - write k mod bufferSize k.

Lemma contiguous_range k : wf k → 0 < contiguous k ≤ bufferSize k.
Proof.
  intros Hwf. pose proof (wf_size_bounds k Hwf). unfold contiguous.
  pose proof (Z.mod_pos_bound (write k) (bufferSize k)). lia.
Qed.

Lemma writableByte_eq k :
  wf k → u32 (bufferSize k - masked (write k) k) = contiguous k.
Proof.
  intros Hwf. rewrite masked_mod by done. pose proof (wf_size_bounds k Hwf).
  pose proof (contiguous_range k Hwf). unfold contiguous in *. apply u32_small. lia.
Qed.

Lemma mem_write_ring k b bs :
  wf k → buffer k = Some b → Z.of_nat (length bs) ≤ contiguous k →
  mem_write b (write k mod bufferSize k) bs =
    Ok (ring_write b (Z.to_nat (write k mod bufferSize k)) bs).
Proof.
  intros Hwf Hb Hn. pose proof (wf_size_bounds k Hwf). unfold contiguous in Hn.
  pose proof (Z.mod_pos_bound (write k) (bufferSize k)).
  destruct (wf_buffer k Hwf) as (b0 & Hb0 & Hlen). assert (b0 = b) as -> by congruence.
  rewrite mem_write_ok by lia. by rewrite ring_write_straight by lia.
Qed.

(** A read that ends within the array. *)
Lemma readFd_within k b bs :
  wf k → buffer k = Some b → Z.of_nat (length bs) ≤ contiguous k →
  readFd (inr bs) k =
    Ok ((Z.of_nat (length bs), None),
        set_write (u32 (write k + Z.of_nat (length bs)))
          (set_buffer (ring_write b (Z.to_nat (write k mod bufferSize k)) bs) k)).
Proof.
  intros Hwf Hb Hn. unfold readFd. mstep. change (id k) with k.
  rewrite writableByte_eq, Hb, masked_mod by done.
  rewrite take_ge by lia. zbool. mstep.
  rewrite (mem_write_ring k) by done. by mstep.
Qed.

(** A read that goes on into [extrabuf]: what lies before the call to
    [writeBuffer] fills the rest of the array and moves no counter. *)
Lemma readFd_beyond k b bs :
  wf k → buffer k = Some b → contiguous k < Z.of_nat (length bs) ≤ contiguous k + extrabuf_size →
  readFd (inr bs) k =
    match writeBuffer
      (Some (drop (Z.to_nat (contiguous k)) bs ++
             replicate (Z.to_nat extrabuf_size - length (drop (Z.to_nat (contiguous k)) bs))
                       Byte.x00))
      (Z.of_nat (length bs) - contiguous k)
      (set_buffer (ring_write b (Z.to_nat (write k mod bufferSize k))
                     (take (Z.to_nat (contiguous k)) bs)) k) with
    | Ok (_, k') => Ok ((Z.of_nat (length bs), None), k')
    | Err e => Err e
    end.
Proof.
  intros Hwf Hb Hn. pose proof (contiguous_range k Hwf).
  unfold readFd. mstep. change (id k) with k.
  rewrite writableByte_eq, Hb, masked_mod by done. zbool. mstep.
  rewrite (mem_write_ring k) by (rewrite ?length_take; done || lia). mstep.
  rewrite u32_small by (unfold extrabuf_size in *; pose proof (wf_size_bounds k Hwf); lia).
  unfold mbind, M_bind. by destruct (writeBuffer _ _ _) as [[]|].
Qed.

(** Filling free cells without moving a counter changes nothing a reader sees. *)
Lemma wf_scribbled k b bs :
  wf k → buffer k = Some b → Z.of_nat (length bs) ≤ contiguous k → contiguous k ≤ room k →
  let k' := set_buffer (ring_write b (Z.to_nat (write k mod bufferSize k)) bs) k in
  wf k' ∧ contents k' = contents k.
Proof.
  intros Hwf Hb Hn Hroom k'.
  destruct (wf_written k bs b Hwf ltac:(lia) Hb) as [_ Hcont].
  pose proof (wf_size_bounds k Hwf). pose proof (count_range k Hwf).
  rewrite room_eq in Hroom by done.
  pose proof (contiguous_range k Hwf) as Hcr. unfold contiguous in *.
  pose proof (Z.mod_pos_bound (write k) (bufferSize k)).
  pose proof (Z.mod_pos_bound (read k) (bufferSize k)).
  pose proof (write_position k Hwf) as Hpos. cbv zeta in Hpos.
  destruct Hwf as [Hs (b0 & Hb0 & Hlen) Hw Hr Hc Hm]. assert (b0 = b) as -> by congruence.
  split.
  - split; [done| |done|done|done|done].
    eexists; split; [done|]. cbn. rewrite length_ring_write; lia.
  - unfold contents. cbn [k' buffer set_buffer read write bufferSize]. rewrite Hb.
    set (w := Z.to_nat (write k mod bufferSize k)).
    set (r := Z.to_nat (read k mod bufferSize k)).
    set (c := Z.to_nat (u32 (write k - read k))).
    pose proof (ring_slice_write b r c bs ltac:(lia) ltac:(lia)) as Hsw. cbv zeta in Hsw.
    replace (if decide (r + c < length b)%nat then (r + c)%nat else (r + c - length b)%nat)
      with w in Hsw by (rewrite Hpos in *; repeat case_decide; lia).
    apply (f_equal (take c)) in Hsw.
    rewrite ring_slice_take, take_app_le, take_ge in Hsw; [done|..];
      rewrite ?length_ring_slice; lia.
Qed.
End descriptors.

(** ** Rounding the capacity *)

Lemma count_shifts_spec fuel size i :
  0 ≤ size < 2 ^ Z.of_nat fuel →
  count_shifts (S fuel) size i =
    Ok (if size =? 0 then i else i + Z.log2 size + 1).
Proof.
  revert size i. induction fuel as [|fuel IH]; intros size i Hs.
  { assert (size = 0) as -> by lia. done. }
  cbn [count_shifts]. destruct (Z.eqb_spec size 0) as [->|Hne]; [done|].
  rewrite Nat2Z.inj_succ, Z.pow_succ_r in Hs by lia.
  assert (Hhalf : Z.shiftr size 1 = size / 2) by by rewrite Z.shiftr_div_pow2.
  change (count_shifts (S fuel) (Z.shiftr size 1) (i + 1) = Ok (i + Z.log2 size + 1)).
  rewrite Hhalf, IH by (split; [apply Z.div_pos; lia | apply Z.div_lt_upper_bound; lia]).
  f_equal. destruct (Z.eqb_spec (size / 2) 0) as [He|Hd].
  - apply Z.div_small_iff in He; [|lia]. assert (size = 1) as -> by lia. cbn. lia.
  - assert (1 < size) by (destruct (decide (size = 1)) as [->|]; [done|lia]).
    rewrite <- Hhalf, Z.log2_shiftr by lia.
    pose proof (Z.log2_pos size). lia.
Qed.

Lemma is_power_of_two_spec x :
  0 < x < 2 ^ 32 → is_power_of_two x = (x =? 2 ^ Z.log2 x).
Proof.
  intros Hx. unfold is_power_of_two. rewrite u32_small by lia. zbool. cbn [negb andb].
  destruct (Z.log2_spec x) as [Hlo Hhi]; [lia|]. pose proof (Z.log2_nonneg x).
  destruct (Z.eqb_spec x (2 ^ Z.log2 x)) as [He|Hne].
  - rewrite He at 1 2. rewrite land_pow2_mask, Z.mod_same by lia. done.
  - apply Z.eqb_neq. intros Hl.
    assert (Hbit : Z.testbit (Z.land x (x - 1)) (Z.log2 x) = true).
    { rewrite Z.land_spec, Z.bit_log2 by lia.
      replace (Z.log2 x) with (Z.log2 (x - 1)) by (apply Z.log2_unique; lia).
      apply Z.bit_log2. lia. }
    rewrite Hl in Hbit. by rewrite Z.testbit_0_l in Hbit.
Qed.

(** The capacity chosen for a request that fits. *)
Lemma round_size_ok size :
  0 ≤ size ≤ 2 ^ 31 →
  round_size size = Ok (if size =? 0 then 4 else 2 ^ Z.log2_up size).
Proof.
  intros Hs. unfold round_size.
  destruct (Z.eqb_spec size 0) as [->|Hne]; [done|].
  rewrite is_power_of_two_spec by lia.
  destruct (Z.log2_spec size) as [Hlo Hhi]; [lia|].
  assert (Hlog : Z.log2 size ≤ 31).
  { destruct (Z.le_gt_cases (Z.log2 size) 31) as [|Hgt]; [done|].
    apply (Z.pow_lt_mono_r 2) in Hgt; lia. }
  destruct (Z.eqb_spec size (2 ^ Z.log2 size)) as [He|Hn].
  - f_equal. rewrite He at 2. rewrite Z.log2_up_pow2 by apply Z.log2_nonneg. done.
  - assert (size ≠ 1) by by intros ->. zbool. rewrite (count_shifts_spec 32) by lia. zbool.
    rewrite outcome_bind_ok. unfold shl_1u. pose proof (Z.log2_nonneg size).
    assert (Z.log2 size ≠ 31) by (intros Hl; rewrite Hl in *; lia). zbool.
    cbn [andb]. rewrite Z.shiftl_1_l. do 2 f_equal.
    symmetry. apply Z.log2_up_unique; [lia|].
    replace (Z.pred (0 + Z.log2 size + 1)) with (Z.log2 size) by lia.
    replace (0 + Z.log2 size + 1) with (Z.succ (Z.log2 size)) by lia. lia.
Qed.

Lemma round_size_too_big size :
  2 ^ 31 < size < 2 ^ 32 → round_size size = Err BadShift.
Proof.
  intros Hs. unfold round_size. rewrite is_power_of_two_spec by lia.
  assert (Hlog : Z.log2 size = 31) by (apply Z.log2_unique; lia). rewrite Hlog. zbool.
  rewrite (count_shifts_spec 32) by lia. zbool.
  rewrite outcome_bind_ok, Hlog. done.
Qed.

Lemma wf_zeroed size :
  (∃ p, 0 ≤ p ≤ 31 ∧ size = 2 ^ p) →
  wf (mk_kfifo (Some (replicate (Z.to_nat size) Byte.x00)) size 0 0 0).
Proof.
  intros (p & Hp & ->). pose proof (Z.pow_pos_nonneg 2 p).
  split; [by exists p| |done|done| |done].
  - eexists. split; [done|]. cbn. rewrite length_replicate. lia.
  - cbn [write read bufferSize]. rewrite u32_small; lia.
Qed.

(** ** What the class promises *)

(** C36. [initBuffer] accepts every request up to [2^31]: it ends with an empty
    buffer whose capacity is the least power of two not below the request (4
    for a request of 0), whatever the object held before; for a larger request
    the shift count reaches the width of the type. *)
Theorem initBuffer_capacity {mx : MutexImpl} (k : kfifo) (size : Z) :
  is_u32 size → mutex k = 0%nat →
  (size ≤ 2 ^ 31 →
   ∃ k', initBuffer size k = Ok (true, k') ∧ wf k' ∧ contents k' = [] ∧
         size ≤ bufferSize k' ∧
         (∀ p, 0 ≤ p → size ≤ 2 ^ p → size ≠ 0 → bufferSize k' ≤ 2 ^ p) ∧
         (size = 0 → bufferSize k' = 4)) ∧
  (2 ^ 31 < size → initBuffer size k = Err BadShift).
Proof.
  intros Hs Hm. unfold is_u32 in Hs. split.
  - intros Hle. unfold initBuffer. mstep. rewrite round_size_ok by lia. mstep.
    rewrite lock_guard_free by done. eexists. split; [done|].
    assert (Hcap : ∃ p, 0 ≤ p ≤ 31 ∧ (if size =? 0 then 4 else 2 ^ Z.log2_up size) = 2 ^ p).
    { destruct (Z.eqb_spec size 0); [by exists 2|]. exists (Z.log2_up size).
      pose proof (Z.log2_up_nonneg size). split; [|done].
      apply Z.log2_up_le_mono in Hle. change (Z.log2_up (2 ^ 31)) with 31 in Hle. lia. }
    pose proof (wf_zeroed _ Hcap) as Hwf.
    split_and!; [exact Hwf| | | |].
    + by apply isEmpty_contents.
    + cbn [set_mutex bufferSize mutex]. destruct (Z.eqb_spec size 0); [lia|].
      destruct (decide (size = 1)) as [->|]; [done|]. apply Z.log2_up_spec. lia.
    + intros p Hp Hsp Hne. cbn [set_mutex bufferSize mutex]. zbool.
      apply Z.pow_le_mono_r; [lia|]. apply Z.log2_up_le_mono in Hsp.
      by rewrite Z.log2_up_pow2 in Hsp.
    + by intros ->.
  - intros Hgt. unfold initBuffer. mstep. by rewrite round_size_too_big by lia.
Qed.

Lemma initBuffer_capacity_witness :
  ∃ k', initBuffer (mx := pthread_mutex) 1000 Kfifo_new = Ok (true, k') ∧
        bufferSize k' = 1024.
Proof.
  destruct (proj1 (initBuffer_capacity (mx := pthread_mutex) Kfifo_new 1000
              ltac:(unfold is_u32; lia) eq_refl) ltac:(lia)) as (k' & Hk & _).
  exists k'. split; [exact Hk|]. vm_compute in Hk. by injection Hk as <-.
Defined.

(** C12. Where a second [lock] returns, [writeBuffer] implements the enqueue of a
    bounded byte queue: it returns how many bytes it took, the lesser of the
    request and the free space; exactly those, in order, are appended to the
    unread bytes; capacity and well-formedness are kept. This covers counters
    that have wrapped past [2^32] and writes that go round the array. *)
Theorem writeBuffer_enqueues {mx : MutexImpl} (k : kfifo) (src : list byte) (inSize : Z) :
  relock = Ok tt → wf k → 0 < inSize < 2 ^ 32 → inSize ≤ Z.of_nat (length src) →
  ∃ k', writeBuffer (Some src) inSize k = Ok (Z.min inSize (room k), k') ∧
        wf k' ∧ bufferSize k' = bufferSize k ∧
        contents k' = contents k ++ take (Z.to_nat (Z.min inSize (room k))) src ∧
        room k' = room k - Z.min inSize (room k).
Proof.
  intros Hr Hwf Hin Hsrc.
  destruct (writeBuffer_ok Hr k src inSize Hwf Hin Hsrc) as (k' & Hk & Hwf' & Hc & Hs).
  exists k'. split_and!; [done..|]. pose proof (room_range k Hwf). unfold room in *.
  rewrite Hc, Hs, length_app, length_take. lia.
Qed.

(** A buffer of four cells whose counters are about to wrap and whose unread
    byte sits in the last cell. *)
Definition sample_kfifo : kfifo :=
  mk_kfifo (Some [Byte.x61; Byte.x62; Byte.x63; Byte.x64]) 4 0 (2 ^ 32 - 1) 0.

Lemma sample_wf : wf sample_kfifo.
Proof. split; [by exists 2|by eexists|done|done|done|done]. Qed.

Lemma writeBuffer_enqueues_witness :
  ∃ k', writeBuffer (mx := inert_mutex) (Some [Byte.x65; Byte.x66; Byte.x67; Byte.x68]) 4
          sample_kfifo = Ok (3, k') ∧
        contents k' = [Byte.x64; Byte.x65; Byte.x66; Byte.x67].
Proof.
  destruct (writeBuffer_enqueues (mx := inert_mutex) sample_kfifo
              [Byte.x65; Byte.x66; Byte.x67; Byte.x68] 4 eq_refl sample_wf
              ltac:(lia) ltac:(cbn; lia)) as (k' & Hk & _ & _ & Hc & _).
  exists k'. split; [exact Hk|exact Hc].
Defined.

(** Where a second [lock] returns, [readBuffer] implements the dequeue: it
    hands out the oldest unread bytes, as many as asked for and present, leaves
    the rest of the caller's array alone, and keeps exactly the remaining bytes
    in order. *)
Theorem readBuffer_dequeues {mx : MutexImpl} (k : kfifo) (dst : list byte) (outSize : Z) :
  relock = Ok tt → wf k → 0 < outSize < 2 ^ 32 → outSize ≤ Z.of_nat (length dst) →
  let n := Z.min outSize (Z.of_nat (length (contents k))) in
  ∃ k', readBuffer (Some dst) outSize k =
          Ok ((n, Some (take (Z.to_nat n) (contents k) ++ drop (Z.to_nat n) dst)), k') ∧
        wf k' ∧ bufferSize k' = bufferSize k ∧
        contents k' = drop (Z.to_nat n) (contents k).
Proof.
  intros Hr Hwf Hout Hdst n.
  destruct (readBuffer_ok Hr k dst outSize Hwf Hout Hdst) as (k' & Hk & Hwf' & Hc & Hs).
  by exists k'.
Qed.

Lemma readBuffer_dequeues_witness :
  ∃ k', readBuffer (mx := inert_mutex) (Some [Byte.x00; Byte.x01]) 2 sample_kfifo =
          Ok ((1, Some [Byte.x64; Byte.x01]), k') ∧ contents k' = [].
Proof.
  destruct (readBuffer_dequeues (mx := inert_mutex) sample_kfifo [Byte.x00; Byte.x01] 2
              eq_refl sample_wf ltac:(lia) ltac:(cbn; lia)) as (k' & Hk & _ & _ & Hc).
  exists k'. split; [exact Hk|exact Hc].
Defined.

(** C34. Both transfer operations call a locking accessor ([getRemainLen],
    [getReadableLen]) while they hold the lock: where the mutex blocks its
    owner, every call that has something to do blocks for ever, whatever the
    state of an allocated buffer, full or empty. *)
Theorem transfer_self_deadlocks {mx : MutexImpl} (k : kfifo) (bs : list byte) (n : Z) :
  relock = Err Deadlock → mutex k = 0%nat → is_Some (buffer k) → n ≠ 0 →
  writeBuffer (Some bs) n k = Err Deadlock ∧ readBuffer (Some bs) n k = Err Deadlock.
Proof.
  apply transfer_relock_err.
Qed.

Lemma transfer_self_deadlocks_witness :
  writeBuffer (mx := pthread_mutex) (Some [Byte.x65]) 1 sample_kfifo = Err Deadlock.
Proof.
  apply (transfer_self_deadlocks (mx := pthread_mutex) sample_kfifo [Byte.x65] 1
           eq_refl eq_refl ltac:(eexists; reflexivity) ltac:(discriminate)).
Defined.

(** A null buffer, a null argument or a size of zero makes both transfer
    operations return [(uint32_t)-1] and change nothing, on every platform. *)
Theorem transfer_rejects_bad_arguments {mx : MutexImpl} (k : kfifo)
    (arg : option (list byte)) (n : Z) :
  mutex k = 0%nat → buffer k = None ∨ arg = None ∨ n = 0 →
  writeBuffer arg n k = Ok (2 ^ 32 - 1, k) ∧ readBuffer arg n k = Ok ((2 ^ 32 - 1, arg), k).
Proof.
  intros Hm Hbad. unfold writeBuffer, readBuffer.
  rewrite !lock_guard_free by done. mstep.
  change (buffer (id (set_mutex 1 k))) with (buffer k).
  destruct k as [b sz w r m]. cbn [buffer mutex] in *. subst m.
  destruct b as [b|], arg as [a|]; try done.
  destruct Hbad as [? | [? | ->]]; done.
Qed.

Lemma transfer_rejects_bad_arguments_witness :
  writeBuffer (mx := pthread_mutex) None 1 sample_kfifo = Ok (4294967295, sample_kfifo).
Proof.
  apply (transfer_rejects_bad_arguments (mx := pthread_mutex) sample_kfifo None 1 eq_refl
           (or_intror (or_introl eq_refl))).
Defined.

Lemma getReadableLen_ok {mx : MutexImpl} (k : kfifo) :
  wf k → getReadableLen k = Ok (Z.of_nat (length (contents k)), k).
Proof.
  intros Hwf. rewrite length_contents by done.
  apply (lock_guard_gets (λ k, u32 (write k - read k))); [done|apply Hwf].
Qed.

(** The five locking accessors agree with the abstract queue on every
    platform, and change nothing: emptiness, fullness, length, free space,
    capacity. *)
Theorem queries_agree {mx : MutexImpl} (k : kfifo) :
  wf k →
  isEmpty k = Ok (bool_decide (contents k = []), k) ∧
  isFull k = Ok (bool_decide (room k = 0), k) ∧
  getReadableLen k = Ok (Z.of_nat (length (contents k)), k) ∧
  getRemainLen k = Ok (room k, k) ∧
  getBufferSize k = Ok (bufferSize k, k).
Proof.
  intros Hwf. pose proof (wf_mutex k Hwf) as Hm.
  unfold isEmpty, isFull, getReadableLen, getRemainLen, getBufferSize.
  rewrite !lock_guard_gets by done.
  pose proof (wf_size_bounds k Hwf). pose proof (count_range k Hwf).
  rewrite room_eq, length_contents by done.
  split_and!; [| |done| |done]; do 2 f_equal.
  - destruct (Z.eqb_spec (write k) (read k)) as [He|He];
      rewrite isEmpty_contents in He by done; by case_bool_decide.
  - destruct (Z.eqb_spec (bufferSize k) (u32 (write k - read k)));
      case_bool_decide; done || lia.
  - apply u32_small. lia.
Qed.

Lemma queries_agree_witness :
  getReadableLen (mx := pthread_mutex) sample_kfifo = Ok (1, sample_kfifo).
Proof. apply (queries_agree (mx := pthread_mutex) sample_kfifo sample_wf). Defined.

(** [readFd] is right when what arrives fits both the free space and the
    cells up to the end of the array: all of it is appended, in order, no lock
    is taken, and the number of bytes is returned. A failed read changes nothing
    and reports [errno]. *)
Theorem readFd_appends {mx : MutexImpl} (k : kfifo) (bs : list byte) :
  wf k → Z.of_nat (length bs) ≤ Z.min (room k) (contiguous k) →
  (∃ k', readFd (inr bs) k = Ok ((Z.of_nat (length bs), None), k') ∧
         wf k' ∧ contents k' = contents k ++ bs ∧ bufferSize k' = bufferSize k) ∧
  ∀ errno, readFd (inl errno) k = Ok ((-1, Some errno), k).
Proof.
  intros Hwf Hn. split; [|done].
  destruct (wf_buffer k Hwf) as (b & Hb & _).
  rewrite (readFd_within k b) by (done || lia). eexists. split; [done|].
  destruct (wf_written k bs b Hwf ltac:(lia) Hb). by split_and!.
Qed.

Lemma readFd_appends_witness :
  ∃ k', readFd (mx := pthread_mutex) (inr [Byte.x65; Byte.x66; Byte.x67]) sample_kfifo =
          Ok ((3, None), k') ∧
        contents k' = [Byte.x64; Byte.x65; Byte.x66; Byte.x67].
Proof.
  destruct (readFd_appends (mx := pthread_mutex) sample_kfifo [Byte.x65; Byte.x66; Byte.x67]
              sample_wf ltac:(vm_compute; discriminate)) as [(k' & Hk & _ & Hc & _) _].
  exists k'. split; [exact Hk|exact Hc].
Defined.

(** [readFd] sizes the first vector by the distance to the end of the array
    and never looks at the free space. When more bytes arrive than are free,
    within that distance, the oldest unread byte is overwritten by byte number
    [room k] of the new ones, and the object then claims more unread bytes than
    it has cells. *)
Theorem readFd_overruns_unread {mx : MutexImpl} (k : kfifo) (bs : list byte) :
  wf k → bufferSize k ≤ 2 ^ 30 → room k < Z.of_nat (length bs) ≤ contiguous k →
  ∃ k', readFd (inr bs) k = Ok ((Z.of_nat (length bs), None), k') ∧
        head (contents k') = bs !! Z.to_nat (room k) ∧
        getReadableLen k' = Ok (Z.of_nat (length (contents k) + length bs), k') ∧
        bufferSize k' < Z.of_nat (length (contents k) + length bs).
Proof.
  intros Hwf Hsz Hn. destruct (wf_buffer k Hwf) as (b & Hb & Hlen).
  rewrite (readFd_within k b) by (done || lia). eexists. split; [done|].
  pose proof (wf_size_bounds k Hwf). pose proof (count_range k Hwf) as Hcnt.
  pose proof (contiguous_range k Hwf) as Hcr.
  pose proof (length_contents k Hwf) as Hcl.
  pose proof (room_eq k Hwf) as Hroom. rewrite Hroom in *. unfold contiguous in *.
  pose proof (Z.mod_pos_bound (write k) (bufferSize k)).
  pose proof (Z.mod_pos_bound (read k) (bufferSize k)).
  pose proof (write_position k Hwf) as Hpos. cbv zeta in Hpos.
  assert (Hcount : u32 (u32 (write k + Z.of_nat (length bs)) - read k) =
                   u32 (write k - read k) + Z.of_nat (length bs)).
  { rewrite u32_idem_sub_l.
    replace (write k + Z.of_nat (length bs) - read k)
      with (write k - read k + Z.of_nat (length bs)) by lia.
    rewrite <- u32_idem_add_l. apply u32_small. lia. }
  set (w := Z.to_nat (write k mod bufferSize k)) in *.
  set (r := Z.to_nat (read k mod bufferSize k)) in *.
  split_and!.
  - unfold contents. cbn [buffer set_write set_buffer read write bufferSize].
    rewrite Hcount. change (Z.to_nat (read k mod bufferSize k)) with r.
    rewrite head_lookup. unfold ring_slice.
    rewrite lookup_take_lt, lookup_drop, Nat.add_0_r by lia.
    assert (Hw' : length (ring_write b w bs) = length b) by (apply length_ring_write; lia).
    rewrite lookup_app_l by lia. rewrite ring_write_lookup by lia. cbv zeta.
    rewrite Hpos in *. repeat case_decide; try lia; f_equal; lia.
  - unfold getReadableLen. rewrite lock_guard_gets by (done || apply Hwf).
    cbn [write read set_write set_buffer]. rewrite Hcount. do 2 f_equal. lia.
  - cbn [bufferSize set_write set_buffer]. lia.
Qed.

(** Four unread bytes fill the array; four more arrive. *)
Definition full_kfifo : kfifo :=
  mk_kfifo (Some [Byte.x61; Byte.x62; Byte.x63; Byte.x64]) 4 4 0 0.

Lemma full_wf : wf full_kfifo.
Proof. split; [by exists 2|by eexists|done|done|done|done]. Qed.

Lemma readFd_overruns_unread_witness :
  contents full_kfifo = [Byte.x61; Byte.x62; Byte.x63; Byte.x64] ∧
  ∃ k', readFd (mx := pthread_mutex) (inr [Byte.x65]) full_kfifo = Ok ((1, None), k') ∧
        head (contents k') = Some Byte.x65 ∧
        getReadableLen (mx := pthread_mutex) k' = Ok (5, k').
Proof.
  split; [reflexivity|].
  destruct (readFd_overruns_unread (mx := pthread_mutex) full_kfifo [Byte.x65] full_wf
              ltac:(vm_compute; discriminate) ltac:(split; by vm_compute))
    as (k' & Hk & Hh & Hl & _).
  exists k'. split; [exact Hk|]. split; [exact Hh|exact Hl].
Defined.

(** When more bytes arrive than there are cells up to the end of the array,
    [readFd] hands the rest to [writeBuffer] without having moved the write
    position over the first part. Where a second [lock] blocks, it never returns;
    where it returns, the first [contiguous k] bytes of the message are lost, and
    the call still returns the full count. *)
Theorem readFd_spill {mx : MutexImpl} (k : kfifo) (bs : list byte) :
  wf k → contiguous k < Z.of_nat (length bs) ≤ contiguous k + extrabuf_size →
  (relock = Err Deadlock → readFd (inr bs) k = Err Deadlock) ∧
  (relock = Ok tt → contiguous k ≤ room k →
   ∃ k', readFd (inr bs) k = Ok ((Z.of_nat (length bs), None), k') ∧ wf k' ∧
         contents k' = contents k ++
           take (Z.to_nat (Z.min (Z.of_nat (length bs) - contiguous k) (room k)))
                (drop (Z.to_nat (contiguous k)) bs)).
Proof.
  intros Hwf Hn. destruct (wf_buffer k Hwf) as (b & Hb & Hlen).
  rewrite (readFd_beyond k b) by done.
  pose proof (contiguous_range k Hwf). unfold extrabuf_size in Hn. split.
  - intros Hr.
    destruct (transfer_relock_err (set_buffer (ring_write b
      (Z.to_nat (write k mod bufferSize k)) (take (Z.to_nat (contiguous k)) bs)) k)
      (drop (Z.to_nat (contiguous k)) bs ++
       replicate (Z.to_nat extrabuf_size - length (drop (Z.to_nat (contiguous k)) bs)) Byte.x00)
      (Z.of_nat (length bs) - contiguous k) Deadlock Hr) as [-> _];
      [apply Hwf|by eexists|lia|done].
  - intros Hr Hroom.
    destruct (wf_scribbled k b (take (Z.to_nat (contiguous k)) bs) Hwf Hb) as [Hwf1 Hc1];
      [rewrite length_take; lia|done|].
    set (k1 := set_buffer _ k) in *.
    assert (Hr1 : room k1 = room k) by (unfold room; by rewrite Hc1).
    pose proof (wf_size_bounds k Hwf).
    edestruct (writeBuffer_ok Hr k1) as (k' & -> & Hwf' & Hc & _); [done| | |].
    3:{ exists k'. split_and!; [done..|]. rewrite Hc, Hc1, Hr1. f_equal.
        rewrite take_app_le; [done|]. rewrite length_drop. lia. }
    + lia.
    + unfold extrabuf_size. rewrite length_app, length_replicate, length_drop. lia.
Qed.

Lemma readFd_spill_witness :
  ∃ k', readFd (mx := inert_mutex) (inr [Byte.x65; Byte.x66; Byte.x67])
          (mk_kfifo (Some [Byte.x61; Byte.x62; Byte.x63; Byte.x64]) 4 3 3 0)
          = Ok ((3, None), k') ∧
        contents k' = [Byte.x66; Byte.x67].
Proof.
  destruct (proj2 (readFd_spill (mx := inert_mutex)
              (mk_kfifo (Some [Byte.x61; Byte.x62; Byte.x63; Byte.x64]) 4 3 3 0)
              [Byte.x65; Byte.x66; Byte.x67]
              ltac:(split; [by exists 2|by eexists|done|done|done|done])
              ltac:(split; by vm_compute)) eq_refl ltac:(by vm_compute))
    as (k' & Hk & _ & Hc).
  exists k'. split; [exact Hk|exact Hc].
Defined.

(** [writeFd] on a well-formed buffer. *)
Lemma writeFd_run {mx : MutexImpl} (k : kfifo) (r : write_result) :
  wf k →
  let len := Z.of_nat (length (contents k)) in
  writeFd r k =
    if read k mod bufferSize k + len <=? bufferSize k then
      Ok ((contents k, match r with inl e => (-1, Some e) | inr n => (n, None) end), k)
    else Err OutOfBounds.
Proof.
  intros Hwf len. unfold len. rewrite length_contents by done.
  pose proof (wf_size_bounds k Hwf). pose proof (count_range k Hwf).
  pose proof (Z.mod_pos_bound (read k) (bufferSize k)).
  destruct (wf_buffer k Hwf) as (b & Hb & Hlen).
  unfold writeFd, getReadableLen. mstep.
  rewrite (M_bind_ok _ _ _ _ _ (lock_guard_gets (λ k, u32 (write k - read k)) k
                                  (λ _ _, eq_refl) (wf_mutex k Hwf))).
  change (id k) with k. rewrite Hb, masked_mod by done. mstep.
  destruct (Z.leb_spec (read k mod bufferSize k + u32 (write k - read k)) (bufferSize k)).
  - rewrite mem_read_ok by lia.
    unfold contents. rewrite Hb. unfold ring_slice.
    rewrite drop_app_le, take_app_le by (rewrite ?length_drop; lia).
    by destruct r.
  - by rewrite mem_read_oob by lia.
Qed.

(** [writeFd] offers [getReadableLen()] bytes from the masked read position
    on, as if they did not go round. When they do not, it offers exactly the
    unread bytes; when they do, it reads behind the array. Either way the unread
    bytes stay unread: the call consumes nothing, whatever [write] returns. *)
Theorem writeFd_offers {mx : MutexImpl} (k : kfifo) (r : write_result) :
  wf k →
  let len := Z.of_nat (length (contents k)) in
  writeFd r k =
    if read k mod bufferSize k + len <=? bufferSize k then
      Ok ((contents k, match r with inl e => (-1, Some e) | inr n => (n, None) end), k)
    else Err OutOfBounds.
Proof. apply writeFd_run. Qed.

Lemma writeFd_offers_witness :
  writeFd (mx := pthread_mutex) (inr 1) sample_kfifo =
    Ok (([Byte.x64], (1, None)), sample_kfifo) ∧
  writeFd (mx := pthread_mutex) (inr 1)
    (mk_kfifo (Some [Byte.x61; Byte.x62; Byte.x63; Byte.x64]) 4 5 3 0) = Err OutOfBounds.
Proof.
  split.
  - apply (writeFd_offers (mx := pthread_mutex) sample_kfifo (inr 1) sample_wf).
  - apply (writeFd_offers (mx := pthread_mutex)
      (mk_kfifo (Some [Byte.x61; Byte.x62; Byte.x63; Byte.x64]) 4 5 3 0) (inr 1)).
    split; [by exists 2|by eexists|done|done|done|done].
Defined.
