(* ===== verification/Buffer.v ===== *)
(** The vector-based buffer (Buffer.h, Buffer.cpp): a [std::vector<char>] with a
    reader and a writer index of type [size_t]; state, every operation, and its
    refinement of an unbounded byte queue. *)
From S2P Require Import Prelude.

Record Buffer := mk_buffer {
  m_buffer : list byte;
  m_readerIndex : Z;
  m_writerIndex : Z
}.

Definition kCheapPrepend : Z := 8.
Definition kInitialSize : Z := 1024.

Definition set_readerIndex (r : Z) (b : Buffer) : Buffer :=
  mk_buffer (m_buffer b) r (m_writerIndex b).
Definition set_writerIndex (w : Z) (b : Buffer) : Buffer :=
  mk_buffer (m_buffer b) (m_readerIndex b) w.
Definition set_m_buffer (v : list byte) (b : Buffer) : Buffer :=
  mk_buffer v (m_readerIndex b) (m_writerIndex b).

Definition Buffer_new (initialSize : Z) : Buffer :=
  mk_buffer (replicate (Z.to_nat (u64 (kCheapPrepend + initialSize))) Byte.x00)
            kCheapPrepend kCheapPrepend.

Definition size (b : Buffer) : Z := Z.of_nat (length (m_buffer b)).

Definition readableBytes (b : Buffer) : Z := u64 (m_writerIndex b - m_readerIndex b).
Definition writableBytes (b : Buffer) : Z := u64 (size b - m_writerIndex b).
Definition prependableBytes (b : Buffer) : Z := m_readerIndex b.

(** [peek] and [beginWrite] are pointers into the vector: here, offsets. *)
Definition peek (b : Buffer) : Z := m_readerIndex b.
Definition beginWrite (b : Buffer) : Z := m_writerIndex b.

Definition retrieveAll : M Buffer unit :=
  modify (λ b, set_writerIndex kCheapPrepend (set_readerIndex kCheapPrepend b)).

Definition retrieve (len : Z) : M Buffer unit :=
  b ← gets id;
  if len <? readableBytes b then
    modify (λ b, set_readerIndex (u64 (m_readerIndex b + len)) b)
  else retrieveAll.

Definition retrieveAsString (len : Z) : M Buffer (list byte) :=
  b ← gets id;
  result ← lift (mem_read (m_buffer b) (peek b) len);
  retrieve len;;
  mret result.

Definition retrieveAllAsString : M Buffer (list byte) :=
  b ← gets id;
  retrieveAsString (readableBytes b).

(** [std::vector<char>::max_size()] *)
Definition vector_max_size : Z := 2 ^ 63 - 1.

(** [m_buffer.resize(n)]: cut, or fill up with zero bytes. *)
Definition vector_resize (n : Z) : M Buffer unit :=
  if vector_max_size <? n then fail LengthError
  else modify (λ b,
    set_m_buffer (take (Z.to_nat n) (m_buffer b) ++
                  replicate (Z.to_nat n - length (m_buffer b)) Byte.x00) b).

Definition makeSpace (len : Z) : M Buffer unit :=
  b ← gets id;
  if u64 (writableBytes b + prependableBytes b) <? u64 (len + kCheapPrepend) then
    vector_resize (u64 (m_writerIndex b + len))
  else
    let readableByte := readableBytes b in
    v ← lift (live ← mem_read (m_buffer b) (m_readerIndex b)
                       (m_writerIndex b - m_readerIndex b);
              mem_write (m_buffer b) kCheapPrepend live);
    modify (set_m_buffer v);;
    modify (set_readerIndex kCheapPrepend);;
    modify (λ b, set_writerIndex (u64 (m_readerIndex b + readableByte)) b).

Definition ensureWriteableBytes (len : Z) : M Buffer unit :=
  b ← gets id;
  if writableBytes b <? len then makeSpace len else mret tt.

Definition append (data : list byte) (len : Z) : M Buffer unit :=
  ensureWriteableBytes len;;
  b ← gets id;
  v ← lift (src ← mem_read data 0 len; mem_write (m_buffer b) (beginWrite b) src);
  modify (set_m_buffer v);;
  modify (λ b, set_writerIndex (u64 (m_writerIndex b + len)) b).

Definition extrabuf_size : Z := 65536.

(** Room in the vectors passed to [readv]. *)
Definition readFd_room (b : Buffer) : Z :=
  if writableBytes b <? extrabuf_size then writableBytes b + extrabuf_size
  else writableBytes b.

Definition readFd (r : read_result) : M Buffer (Z * option Z) :=
  b ← gets id;
  let writableByte := writableBytes b in
  match r with
  | inl errno => mret (-1, Some errno)
  | inr bs =>
      let n := Z.of_nat (length bs) in
      let vec0 := take (Z.to_nat writableByte) bs in
      let vec1 := drop (Z.to_nat writableByte) bs in
      v ← lift (mem_write (m_buffer b) (beginWrite b) vec0);
      modify (set_m_buffer v);;
      if n <=? writableByte then
        modify (λ b, set_writerIndex (u64 (m_writerIndex b + n)) b);;
        mret (n, None)
      else
        let extrabuf := vec1 ++ replicate (Z.to_nat extrabuf_size - length vec1) Byte.x00 in
        modify (λ b, set_writerIndex (size b) b);;
        append extrabuf (u64 (n - writableByte));;
        mret (n, None)
  end.

Definition writeFd (r : write_result) : M Buffer (list byte * (Z * option Z)) :=
  b ← gets id;
  offered ← lift (mem_read (m_buffer b) (peek b) (readableBytes b));
  match r with
  | inl errno => mret (offered, (-1, Some errno))
  | inr n => mret (offered, (n, None))
  end.

(** ** Invariant and abstraction *)

Record wf (b : Buffer) : Prop := {
  wf_reader : kCheapPrepend ≤ m_readerIndex b;
  wf_order : m_readerIndex b ≤ m_writerIndex b;
  wf_writer : m_writerIndex b ≤ size b;
  wf_size : size b ≤ vector_max_size
}.

(** The unread bytes, oldest first. *)
Definition contents (b : Buffer) : list byte :=
  take (Z.to_nat (m_writerIndex b - m_readerIndex b))
       (drop (Z.to_nat (m_readerIndex b)) (m_buffer b)).

Ltac buffer_unfold :=
  unfold size, kCheapPrepend, vector_max_size, prependableBytes, peek, beginWrite in *.

Lemma buffer_length_contents b :
  wf b → Z.of_nat (length (contents b)) = m_writerIndex b - m_readerIndex b.
Proof.
  intros [???]. buffer_unfold. unfold contents. rewrite length_take, length_drop. lia.
Qed.

Lemma readableBytes_eq b : wf b → readableBytes b = Z.of_nat (length (contents b)).
Proof.
  intros Hwf. rewrite buffer_length_contents by done. destruct Hwf. buffer_unfold.
  apply u64_small. lia.
Qed.

Lemma writableBytes_eq b : wf b → writableBytes b = size b - m_writerIndex b.
Proof. intros []. buffer_unfold. apply u64_small. lia. Qed.

Lemma mem_read_contents b :
  wf b → mem_read (m_buffer b) (m_readerIndex b) (m_writerIndex b - m_readerIndex b) =
         Ok (contents b).
Proof. intros []. buffer_unfold. by rewrite mem_read_ok by lia. Qed.

(** Storing [bs] behind the unread bytes and moving the writer over them. *)
Lemma wf_stored b bs :
  wf b → m_writerIndex b + Z.of_nat (length bs) ≤ size b →
  ∃ v, mem_write (m_buffer b) (m_writerIndex b) bs = Ok v ∧
       let b' := set_writerIndex (u64 (m_writerIndex b + Z.of_nat (length bs)))
                   (set_m_buffer v b) in
       wf b' ∧ contents b' = contents b ++ bs ∧ size b' = size b.
Proof.
  intros [Hr Ho Hw Hs] Hn. buffer_unfold. rewrite mem_write_ok by lia. eexists. split; [done|].
  cbn zeta. rewrite u64_small by lia.
  assert (Hlen : length (take (Z.to_nat (m_writerIndex b)) (m_buffer b) ++ bs ++
            drop (Z.to_nat (m_writerIndex b) + length bs) (m_buffer b)) = length (m_buffer b))
    by (apply length_overwrite; lia).
  split_and!.
  - split; unfold size; cbn [set_writerIndex set_m_buffer m_buffer m_readerIndex m_writerIndex];
      unfold kCheapPrepend, vector_max_size; lia.
  - unfold contents. cbn [set_writerIndex set_m_buffer m_buffer m_readerIndex m_writerIndex].
    rewrite drop_app_le by (rewrite length_take; lia).
    rewrite take_app_ge by (rewrite length_drop, length_take; lia).
    rewrite length_drop, length_take.
    f_equal.
    + replace (Z.to_nat (m_writerIndex b))
        with (Z.to_nat (m_readerIndex b) + Z.to_nat (m_writerIndex b - m_readerIndex b))%nat by lia.
      by rewrite take_drop_commute.
    + rewrite take_app_le, take_ge by lia. done.
  - unfold size. cbn [set_writerIndex set_m_buffer m_buffer]. by rewrite Hlen.
Qed.

(** ** Space *)

Lemma wf_retrieveAll b :
  wf b →
  let b' := set_writerIndex kCheapPrepend (set_readerIndex kCheapPrepend b) in
  wf b' ∧ contents b' = [].
Proof.
  intros []. buffer_unfold. split; [|unfold contents; cbn; by rewrite take_0].
  split; unfold size, kCheapPrepend, vector_max_size; cbn; lia.
Qed.

(** Growing the vector keeps the unread bytes. *)
Lemma vector_resize_grow b n :
  wf b → size b ≤ n ≤ vector_max_size →
  ∃ b', vector_resize n b = Ok (tt, b') ∧ wf b' ∧ contents b' = contents b ∧
        size b' = n ∧ m_writerIndex b' = m_writerIndex b.
Proof.
  intros [] Hn. buffer_unfold. unfold vector_resize, vector_max_size. zbool. mstep.
  rewrite take_ge by lia.
  eexists. split_and!; [done| | | |done].
  - split; unfold size, kCheapPrepend, vector_max_size; cbn;
      rewrite ?length_app, ?length_replicate; lia.
  - unfold contents. cbn. rewrite drop_app_le, take_app_le; rewrite ?length_drop; done || lia.
  - cbn. rewrite length_app, length_replicate. lia.
Qed.

(** [makeSpace] grows the vector to exactly what is needed when the free bytes
    on both sides do not suffice, and otherwise moves the unread bytes down. *)
Lemma makeSpace_ok b len :
  wf b → 0 ≤ len → writableBytes b < len → m_writerIndex b + len ≤ vector_max_size →
  ∃ b', makeSpace len b = Ok (tt, b') ∧ wf b' ∧ contents b' = contents b ∧
        len ≤ size b' - m_writerIndex b' ∧
        size b' = (if writableBytes b + prependableBytes b <? len + kCheapPrepend
                   then m_writerIndex b + len else size b).
Proof.
  intros Hwf Hlen Hfew Hmax. pose proof Hwf as [Hr Ho Hw Hs].
  rewrite writableBytes_eq in * by done. buffer_unfold.
  unfold makeSpace. mstep. change (id b) with b.
  rewrite writableBytes_eq by done. buffer_unfold.
  rewrite (u64_small (_ - _ + _)), (u64_small (len + 8)), (u64_small (m_writerIndex b + len))
    by lia.
  zcase.
  - destruct (vector_resize_grow b (m_writerIndex b + len) Hwf)
      as (b' & -> & Hwf' & Hc & Hsz & Hwi); [buffer_unfold; lia|].
    exists b'. split_and!; [done..| |]; buffer_unfold; lia.
  - rewrite mem_read_contents by done. rewrite outcome_bind_ok.
    pose proof (buffer_length_contents b Hwf) as Hcl.
    rewrite mem_write_ok by lia. mstep.
    rewrite readableBytes_eq, Hcl by done.
    cbn [set_readerIndex set_m_buffer m_readerIndex m_writerIndex m_buffer].
    unfold set_writerIndex, set_readerIndex, set_m_buffer. cbn [m_readerIndex m_writerIndex m_buffer].
    rewrite u64_small by lia.
    eexists. split; [done|].
    assert (Hlen' : length (take (Z.to_nat 8) (m_buffer b) ++ contents b ++
              drop (Z.to_nat 8 + length (contents b)) (m_buffer b)) = length (m_buffer b))
      by (apply length_overwrite; lia).
    split_and!.
    + split; unfold size, kCheapPrepend, vector_max_size; cbn [m_readerIndex m_writerIndex m_buffer]; lia.
    + unfold contents at 1. cbn [m_readerIndex m_writerIndex m_buffer].
      rewrite drop_app_ge by (rewrite length_take; lia). rewrite length_take.
      replace (Z.to_nat 8 - _)%nat with 0%nat by lia. rewrite drop_0.
      rewrite take_app_le by lia. rewrite take_ge; [done|lia].
    + cbn [m_readerIndex m_writerIndex m_buffer]. lia.
    + cbn [m_buffer]. by rewrite Hlen'.
Qed.

Lemma ensureWriteableBytes_ok b len :
  wf b → 0 ≤ len → m_writerIndex b + len ≤ vector_max_size →
  ∃ b', ensureWriteableBytes len b = Ok (tt, b') ∧ wf b' ∧ contents b' = contents b ∧
        len ≤ size b' - m_writerIndex b' ∧
        (len + kCheapPrepend ≤ writableBytes b + prependableBytes b → size b' = size b) ∧
        size b ≤ size b' ≤ Z.max (size b) (m_writerIndex b + len).
Proof.
  intros Hwf Hlen Hmax. unfold ensureWriteableBytes. mstep. change (id b) with b.
  destruct (Z.ltb_spec (writableBytes b) len) as [Hlt|Hge].
  - destruct (makeSpace_ok b len Hwf Hlen Hlt Hmax) as (b' & -> & Hwf' & Hc & Hroom & Hsz).
    exists b'. rewrite writableBytes_eq in * by done. destruct Hwf. buffer_unfold.
    split_and!; [done..| | |]; revert Hsz; zcase; lia.
  - exists b. rewrite writableBytes_eq in * by done. split_and!; done || lia.
Qed.

Lemma append_ok b data len :
  wf b → 0 ≤ len ≤ Z.of_nat (length data) → m_writerIndex b + len ≤ vector_max_size →
  ∃ b', append data len b = Ok (tt, b') ∧ wf b' ∧
        contents b' = contents b ++ take (Z.to_nat len) data ∧
        (len + kCheapPrepend ≤ writableBytes b + prependableBytes b → size b' = size b) ∧
        size b ≤ size b' ≤ Z.max (size b) (m_writerIndex b + len).
Proof.
  intros Hwf Hlen Hmax. unfold append.
  destruct (ensureWriteableBytes_ok b len Hwf ltac:(lia) Hmax)
    as (b1 & Hb1 & Hwf1 & Hc1 & Hroom & Hsame & Hsz).
  rewrite (M_bind_ok _ _ _ _ _ Hb1). mstep. change (id b1) with b1.
  rewrite mem_read_ok by lia. rewrite outcome_bind_ok. change (drop (Z.to_nat 0) data) with data.
  destruct (wf_stored b1 (take (Z.to_nat len) data) Hwf1) as (v & Hv & Hst);
    [rewrite length_take; lia|].
  unfold beginWrite. rewrite Hv. mstep. rewrite length_take in Hst.
  replace (Z.of_nat (Z.to_nat len `min` length data)) with len in Hst by lia.
  destruct Hst as (Hwf' & Hc & Hs'). eexists. split; [done|].
  cbn [set_m_buffer m_writerIndex]. split_and!; [exact Hwf'| | |rewrite <- Hs' in *; lia..].
  - rewrite <- Hc1. exact Hc.
  - intros He. rewrite <- (Hsame He). exact Hs'.
Qed.

Lemma retrieve_ok b len :
  wf b → 0 ≤ len →
  ∃ b', retrieve len b = Ok (tt, b') ∧ wf b' ∧ size b' = size b ∧
        contents b' = drop (Z.to_nat len) (contents b).
Proof.
  intros Hwf Hlen. unfold retrieve. mstep. change (id b) with b.
  rewrite readableBytes_eq by done. pose proof (buffer_length_contents b Hwf) as Hcl.
  zcase.
  - mstep. eexists. split; [done|]. destruct Hwf. buffer_unfold. rewrite u64_small by lia.
    split_and!; [split; unfold size, kCheapPrepend, vector_max_size; cbn; lia|done|].
    unfold contents. cbn. rewrite skipn_firstn_comm, drop_drop. f_equal; [lia|f_equal; lia].
  - unfold retrieveAll. mstep. eexists. split; [done|].
    destruct (wf_retrieveAll b Hwf) as [Hwf' Hc]. split_and!; [done..|].
    rewrite Hc, drop_ge by lia. done.
Qed.

(** Reading [n] bytes from the reader index on, then releasing them. *)
Lemma retrieveAsString_ok b len :
  wf b → 0 ≤ len ≤ Z.of_nat (length (contents b)) →
  ∃ b', retrieveAsString len b = Ok (take (Z.to_nat len) (contents b), b') ∧ wf b' ∧
        size b' = size b ∧ contents b' = drop (Z.to_nat len) (contents b).
Proof.
  intros Hwf Hlen. unfold retrieveAsString. mstep. change (id b) with b.
  destruct (retrieve_ok b len Hwf ltac:(lia)) as (b' & Hb' & Hrest).
  rewrite buffer_length_contents in Hlen by done. destruct Hwf. buffer_unfold.
  rewrite mem_read_ok by lia. rewrite (M_bind_ok _ _ _ _ _ Hb'). mstep.
  exists b'. split; [|done]. do 2 f_equal. unfold contents. rewrite take_take. f_equal. lia.
Qed.

(** ** What the class promises *)

(** [append] is the enqueue of an unbounded byte queue: the bytes given,
    all of them, go behind the unread ones, which are kept even when the vector
    is resized or its content moved down; the vector grows only when the free
    bytes on both sides do not suffice, and then to exactly what is needed. *)
Theorem append_enqueues (b : Buffer) (data : list byte) (len : Z) :
  wf b → 0 ≤ len ≤ Z.of_nat (length data) → m_writerIndex b + len ≤ vector_max_size →
  ∃ b', append data len b = Ok (tt, b') ∧ wf b' ∧
        contents b' = contents b ++ take (Z.to_nat len) data ∧
        (len + kCheapPrepend ≤ writableBytes b + prependableBytes b → size b' = size b) ∧
        size b ≤ size b' ≤ Z.max (size b) (m_writerIndex b + len).
Proof. apply append_ok. Qed.

(** One unread byte at the end of a vector of twelve. *)
Definition sample_buffer : Buffer :=
  mk_buffer (replicate 11 Byte.x00 ++ [Byte.x7a]) 11 12.

Lemma sample_buffer_wf : wf sample_buffer.
Proof. by split. Qed.

Lemma append_enqueues_witness :
  ∃ b', append [Byte.x61; Byte.x62; Byte.x63] 3 sample_buffer = Ok (tt, b') ∧
        contents b' = [Byte.x7a; Byte.x61; Byte.x62; Byte.x63] ∧ size b' = 12.
Proof.
  destruct (append_enqueues sample_buffer [Byte.x61; Byte.x62; Byte.x63] 3 sample_buffer_wf
              ltac:(cbn; lia) ltac:(by vm_compute)) as (b' & Hb & _ & Hc & Hs & _).
  exists b'. split; [exact Hb|]. split; [exact Hc|]. apply Hs. by vm_compute.
Defined.

(** [retrieveAsString] on every length: within the unread bytes it is the
    dequeue; beyond them but within the vector it empties the buffer and returns
    stale cells behind the unread bytes; beyond the vector it reads out of
    bounds. *)
Theorem retrieveAsString_dequeues (b : Buffer) (len : Z) :
  wf b → 0 ≤ len →
  let live := Z.of_nat (length (contents b)) in
  (len ≤ live →
   ∃ b', retrieveAsString len b = Ok (take (Z.to_nat len) (contents b), b') ∧ wf b' ∧
         contents b' = drop (Z.to_nat len) (contents b)) ∧
  (live < len ≤ size b - m_readerIndex b →
   ∃ stale b', retrieveAsString len b = Ok (contents b ++ stale, b') ∧ wf b' ∧
         Z.of_nat (length stale) = len - live ∧ contents b' = []) ∧
  (size b - m_readerIndex b < len → retrieveAsString len b = Err OutOfBounds).
Proof.
  intros Hwf Hlen live. unfold live. split_and!.
  - intros Hle. destruct (retrieveAsString_ok b len Hwf ltac:(lia)) as (b' & ? & ? & _ & ?).
    by exists b'.
  - intros Hgt. pose proof (buffer_length_contents b Hwf) as Hcl.
    destruct (retrieve_ok b len Hwf Hlen) as (b' & Hb' & Hwf' & _ & Hc').
    unfold retrieveAsString. mstep. change (id b) with b.
    destruct Hwf. buffer_unfold. rewrite mem_read_ok by lia.
    rewrite (M_bind_ok _ _ _ _ _ Hb'). mstep.
    exists (take (Z.to_nat (len - Z.of_nat (length (contents b))))
                 (drop (Z.to_nat (m_writerIndex b)) (m_buffer b))), b'.
    split_and!; [|done| |rewrite Hc'; apply drop_ge; lia].
    + do 2 f_equal. unfold contents at 1. rewrite Hcl.
      replace (Z.to_nat (m_writerIndex b))
        with (Z.to_nat (m_readerIndex b) + Z.to_nat (m_writerIndex b - m_readerIndex b))%nat
        by lia.
      rewrite <- drop_drop, take_take_drop. f_equal. lia.
    + rewrite length_take, length_drop. lia.
  - intros Hgt. unfold retrieveAsString. mstep. change (id b) with b.
    destruct Hwf. buffer_unfold. by rewrite mem_read_oob by lia.
Qed.

Lemma retrieveAsString_dequeues_witness :
  ∃ b', retrieveAsString 1 sample_buffer = Ok ([Byte.x7a], b') ∧ contents b' = [].
Proof.
  destruct (proj1 (retrieveAsString_dequeues sample_buffer 1 sample_buffer_wf ltac:(lia)) ltac:(by vm_compute))
    as (b' & Hb & _ & Hc).
  exists b'. split; [exact Hb|exact Hc].
Defined.

(** [readFd] never loses or reorders a byte: whatever number of bytes
    [readv] delivers into the writable part and [extrabuf], all of them are
    appended. A failed read changes nothing and reports [errno]. *)
Theorem readFd_appends_all (b : Buffer) (bs : list byte) :
  wf b → read_result_ok (readFd_room b) (inr bs) →
  m_writerIndex b + Z.of_nat (length bs) ≤ vector_max_size →
  (∃ b', readFd (inr bs) b = Ok ((Z.of_nat (length bs), None), b') ∧ wf b' ∧
         contents b' = contents b ++ bs) ∧
  ∀ errno, readFd (inl errno) b = Ok ((-1, Some errno), b).
Proof.
  intros Hwf Hroom Hmax. split; [|done].
  unfold read_result_ok, readFd_room, extrabuf_size in Hroom.
  unfold readFd. mstep. change (id b) with b.
  pose proof (writableBytes_eq b Hwf) as Hw. pose proof Hwf as [Hr Ho Hwr Hs].
  set (vec0 := take (Z.to_nat (writableBytes b)) bs).
  set (vec1 := drop (Z.to_nat (writableBytes b)) bs).
  assert (Hv0 : Z.of_nat (length vec0) = Z.min (Z.of_nat (length bs)) (writableBytes b))
    by (unfold vec0; rewrite length_take; lia).
  assert (Hv1 : length vec1 = (length bs - Z.to_nat (writableBytes b))%nat)
    by (unfold vec1; apply length_drop).
  destruct (wf_stored b vec0 Hwf ltac:(lia)) as (v & Hv & Hwf1 & Hc1 & Hs1).
  rewrite u64_small in Hwf1, Hc1, Hs1 by (unfold vector_max_size in *; buffer_unfold; lia).
  unfold beginWrite. rewrite Hv. mstep. destruct (Z.leb_spec (Z.of_nat (length bs)) (writableBytes b)).
  - mstep. eexists. split; [done|]. cbn [set_m_buffer m_writerIndex].
    assert (vec0 = bs) as He by (unfold vec0; apply take_ge; lia). rewrite He in *.
    rewrite u64_small by (unfold vector_max_size in *; buffer_unfold; lia). done.
  - mstep. set (b1 := set_writerIndex _ _) in *.
    assert (Hb1 : set_writerIndex (size (set_m_buffer v b)) (set_m_buffer v b) = b1).
    { unfold b1. f_equal. unfold b1, size in Hs1. cbn in Hs1. unfold size. cbn.
      buffer_unfold. lia. }
    rewrite Hb1, u64_small by (unfold vector_max_size in *; buffer_unfold; lia).
    edestruct (append_ok b1) as (b' & Hb' & Hwf' & Hc' & _); [done| | |].
    3:{ rewrite (M_bind_ok _ _ _ _ _ Hb'). mstep. exists b'. split_and!; [done..|].
        rewrite Hc', Hc1, take_app_le, take_ge by lia. rewrite <- app_assoc. f_equal.
        apply take_drop. }
    + revert Hroom. rewrite length_app, length_replicate. unfold extrabuf_size. zcase; lia.
    + unfold b1. cbn [set_writerIndex m_writerIndex]. lia.
Qed.

Lemma readFd_appends_all_witness :
  ∃ b', readFd (inr [Byte.x61; Byte.x62; Byte.x63]) sample_buffer = Ok ((3, None), b') ∧
        contents b' = [Byte.x7a; Byte.x61; Byte.x62; Byte.x63].
Proof.
  destruct (proj1 (readFd_appends_all sample_buffer [Byte.x61; Byte.x62; Byte.x63] sample_buffer_wf
              ltac:(by vm_compute) ltac:(by vm_compute))) as (b' & Hb & _ & Hc).
  exists b'. split; [exact Hb|exact Hc].
Defined.
