(* ===== verification/ByteQueue.v ===== *)
(** The contract a connection relies on for its buffers, as a class: a queue of
    bytes that takes bytes at one end and gives them back at the other. Both
    buffers of the library implement it ([Kfifo] where its mutex may be taken
    twice); what follows from the contract alone is proved once, here. *)
From S2P Require Import Prelude Ring Kfifo Buffer.

(** ** The contract *)
Class ByteQueue (Q : Type) := {
  bq_wf : Q → Prop;
  bq_contents : Q → list byte;
  (** how many more bytes may be put before a size limit of the
      representation is reached *)
  bq_budget : Q → Z;
  bq_put : list byte → M Q Z;
  bq_get : Z → M Q (list byte);
  bq_refuses : Q → Z → Prop;
  bq_put_ok : ∀ q bs,
    bq_wf q → 0 < Z.of_nat (length bs) < 2 ^ 32 → Z.of_nat (length bs) ≤ bq_budget q →
    ∃ n q', bq_put bs q = Ok (n, q') ∧ bq_wf q' ∧ 0 ≤ n ≤ Z.of_nat (length bs) ∧
            bq_contents q' = bq_contents q ++ take (Z.to_nat n) bs ∧
            bq_budget q - Z.of_nat (length bs) ≤ bq_budget q' ∧
            (n < Z.of_nat (length bs) → bq_refuses q (Z.of_nat (length bs)));
  bq_get_ok : ∀ q n,
    bq_wf q → 0 < n < 2 ^ 32 →
    ∃ q', bq_get n q = Ok (take (Z.to_nat n) (bq_contents q), q') ∧ bq_wf q' ∧
          bq_contents q' = drop (Z.to_nat n) (bq_contents q) ∧
          bq_budget q ≤ bq_budget q'
}.

(** ** The two implementations *)

Definition kfifo_put {mx : MutexImpl} (bs : list byte) : M kfifo Z :=
  Kfifo.writeBuffer (Some bs) (Z.of_nat (length bs)).

Definition kfifo_get {mx : MutexImpl} (n : Z) : M kfifo (list byte) :=
  r ← Kfifo.readBuffer (Some (replicate (Z.to_nat n) Byte.x00)) n;
  mret (take (Z.to_nat r.1) (default [] r.2)).

#[export] Program Instance kfifo_queue {mx : MutexImpl} (Hr : relock = Ok tt) : ByteQueue kfifo := {|
  bq_wf := Kfifo.wf;
  bq_contents := Kfifo.contents;
  bq_budget := λ _, 2 ^ 63;
  bq_put := kfifo_put;
  bq_get := kfifo_get;
  bq_refuses := λ k n, Kfifo.room k < n
|}.
Next Obligation.
  intros mx Hr k bs Hwf Hlen _. unfold kfifo_put.
  destruct (Kfifo.writeBuffer_ok Hr k bs (Z.of_nat (length bs)) Hwf Hlen ltac:(done))
    as (k' & Hk & Hwf' & Hc & _).
  pose proof (Kfifo.room_range k Hwf).
  eexists _, k'. split_and!; [exact Hk|done|lia|lia|exact Hc|lia|lia].
Qed.
Next Obligation.
  intros mx Hr k n Hwf Hn. unfold kfifo_get.
  destruct (Kfifo.readBuffer_ok Hr k (replicate (Z.to_nat n) Byte.x00) n Hwf Hn)
    as (k' & Hk & Hwf' & Hc & _); [rewrite length_replicate; lia|].
  set (m := Z.min n (Z.of_nat (length (Kfifo.contents k)))) in *.
  rewrite (M_bind_ok _ _ _ _ _ Hk). mstep. cbn [fst snd default id].
  exists k'. split_and!; [|done| |done].
  - do 2 f_equal. rewrite take_app_le by (rewrite length_take; lia).
    rewrite take_take. destruct (Z.le_gt_cases n (Z.of_nat (length (Kfifo.contents k)))).
    + f_equal. lia.
    + rewrite !take_ge by lia. done.
  - rewrite Hc. destruct (Z.le_gt_cases n (Z.of_nat (length (Kfifo.contents k)))).
    + f_equal. lia.
    + rewrite !drop_ge by lia. done.
Qed.

Definition buffer_put (bs : list byte) : M Buffer Z :=
  Buffer.append bs (Z.of_nat (length bs));;
  mret (Z.of_nat (length bs)).

Definition buffer_get (n : Z) : M Buffer (list byte) :=
  b ← gets id;
  Buffer.retrieveAsString (Z.min n (Buffer.readableBytes b)).

#[export] Program Instance buffer_queue : ByteQueue Buffer := {|
  bq_wf := Buffer.wf;
  bq_contents := Buffer.contents;
  bq_budget := λ b, Buffer.vector_max_size - Buffer.size b;
  bq_put := buffer_put;
  bq_get := buffer_get;
  bq_refuses := λ _ _, False
|}.
Next Obligation.
  intros b bs Hwf Hlen Hbudget. cbn in Hbudget. unfold buffer_put.
  pose proof (Buffer.wf_writer b Hwf).
  destruct (Buffer.append_ok b bs (Z.of_nat (length bs)) Hwf) as (b' & Hb & Hwf' & Hc & _ & Hs);
    [lia|lia|].
  rewrite (M_bind_ok _ _ _ _ _ Hb). mstep.
  eexists _, b'. split_and!; [done|done|lia|lia|exact Hc|lia|lia].
Qed.
Next Obligation.
  intros b n Hwf Hn. unfold buffer_get. mstep. change (id b) with b.
  rewrite Buffer.readableBytes_eq by done.
  set (m := Z.min n _).
  destruct (Buffer.retrieveAsString_ok b m Hwf ltac:(lia)) as (b' & Hb & Hwf' & Hs & Hc).
  exists b'. rewrite Hb, Hc, Hs.
  destruct (Z.le_gt_cases n (Z.of_nat (length (Buffer.contents b)))).
  - replace m with n by lia. done.
  - rewrite !take_ge, !drop_ge by lia. done.
Qed.

(** ** A client: any sequence of puts and gets *)
Inductive cmd :=
  | Put (bs : list byte)
  | Get (n : Z).

Definition cmd_ok (c : cmd) : Prop :=
  match c with
  | Put bs => 0 < Z.of_nat (length bs) < 2 ^ 32
  | Get n => 0 < n < 2 ^ 32
  end.

Definition offered (c : cmd) : list byte := if c is Put bs then bs else [].

(** The bytes taken and the bytes given back, each in order. *)
Fixpoint run {Q} {bq : ByteQueue Q} (cs : list cmd) : M Q (list byte * list byte) :=
  match cs with
  | [] => mret ([], [])
  | Put bs :: cs =>
      n ← bq_put bs;
      r ← run cs;
      mret (take (Z.to_nat n) bs ++ r.1, r.2)
  | Get n :: cs =>
      out ← bq_get n;
      r ← run cs;
      mret (r.1, out ++ r.2)
  end.

Lemma run_put {Q} {bq : ByteQueue Q} bs cs q n q1 taken out q' :
  bq_put bs q = Ok (n, q1) → run cs q1 = Ok ((taken, out), q') →
  run (Put bs :: cs) q = Ok ((take (Z.to_nat n) bs ++ taken, out), q').
Proof.
  intros H1 H2. cbn [run]. rewrite (M_bind_ok _ _ _ _ _ H1).
  by rewrite (M_bind_ok _ _ _ _ _ H2).
Qed.

Lemma run_get {Q} {bq : ByteQueue Q} n cs q o q1 taken out q' :
  bq_get n q = Ok (o, q1) → run cs q1 = Ok ((taken, out), q') →
  run (Get n :: cs) q = Ok ((taken, o ++ out), q').
Proof.
  intros H1 H2. cbn [run]. rewrite (M_bind_ok _ _ _ _ _ H1).
  by rewrite (M_bind_ok _ _ _ _ _ H2).
Qed.

Section client.
Context {Q : Type} {bq : ByteQueue Q}.
Implicit Types (q : Q) (cs : list cmd).

(** The stream in equals the stream out followed by what is still queued. *)
Lemma run_stream cs q :
  bq_wf q → Forall cmd_ok cs → Z.of_nat (length (cs ≫= offered)) ≤ bq_budget q →
  ∃ taken out q', run cs q = Ok ((taken, out), q') ∧ bq_wf q' ∧
    bq_contents q ++ taken = out ++ bq_contents q' ∧
    (length taken ≤ length (cs ≫= offered))%nat.
Proof.
  intros Hwf Hok. revert q Hwf. induction Hok as [|c cs Hc Hcs IH]; intros q Hwf Hbud.
  { exists [], [], q. rewrite app_nil_r. by split_and!. }
  rewrite bind_cons, length_app in Hbud.
  destruct c as [bs|n]; cbn [offered cmd_ok] in *.
  - destruct (bq_put_ok q bs Hwf Hc ltac:(lia)) as (n & q1 & Hp & Hwf1 & Hn & Hc1 & Hb1 & _).
    destruct (IH q1 Hwf1 ltac:(lia)) as (taken & out & q' & Hrun & Hwf' & Hs & Hl).
    exists (take (Z.to_nat n) bs ++ taken), out, q'. split_and!; [|done| |].
    + by eapply run_put.
    + by rewrite app_assoc, <- Hc1.
    + rewrite bind_cons, !length_app, length_take. cbn [offered]. lia.
  - destruct (bq_get_ok q n Hwf Hc) as (q1 & Hp & Hwf1 & Hc1 & Hb1).
    cbn [length] in Hbud.
    destruct (IH q1 Hwf1 ltac:(lia)) as (taken & out & q' & Hrun & Hwf' & Hs & Hl).
    exists taken, (take (Z.to_nat n) (bq_contents q) ++ out), q'. split_and!; [|done| |done].
    + by eapply run_get.
    + rewrite <- app_assoc, <- Hs, Hc1, app_assoc. by rewrite take_drop.
Qed.
End client.

(** Two queues with the same content stay in step as long as the first takes
    everything and the second never refuses. *)
Lemma run_lockstep {Q1 Q2} {b1 : ByteQueue Q1} {b2 : ByteQueue Q2} cs (q1 : Q1) (q2 : Q2) out q1' :
  (∀ q n, ¬ bq_refuses (Q := Q2) q n) →
  bq_wf q1 → bq_wf q2 → bq_contents q1 = bq_contents q2 → Forall cmd_ok cs →
  Z.of_nat (length (cs ≫= offered)) ≤ bq_budget q1 →
  Z.of_nat (length (cs ≫= offered)) ≤ bq_budget q2 →
  run cs q1 = Ok ((cs ≫= offered, out), q1') →
  ∃ q2', run cs q2 = Ok ((cs ≫= offered, out), q2') ∧ bq_contents q1' = bq_contents q2'.
Proof.
  intros Hnever Hwf1 Hwf2 Hsame Hok. revert q1 q2 out q1' Hwf1 Hwf2 Hsame.
  induction Hok as [|c cs Hc Hcs IH]; intros q1 q2 out q1' Hwf1 Hwf2 Hsame Hbud1 Hbud2 Hrun.
  { injection Hrun as <- <-. by exists q2. }
  rewrite bind_cons, length_app in Hbud1, Hbud2.
  destruct c as [bs|n]; cbn [offered cmd_ok] in *.
  - destruct (bq_put_ok q1 bs Hwf1 Hc ltac:(lia)) as (n & p1 & Hp1 & Hwfp1 & Hn & Hc1 & Hb1 & _).
    destruct (bq_put_ok q2 bs Hwf2 Hc ltac:(lia)) as (m & p2 & Hp2 & Hwfp2 & Hm & Hc2 & Hb2 & Hf).
    assert (m = Z.of_nat (length bs)) as ->.
    { destruct (Z.lt_ge_cases m (Z.of_nat (length bs))) as [Hlt|]; [|lia].
      by destruct (Hnever _ _ (Hf Hlt)). }
    destruct (run_stream cs p1 Hwfp1 Hcs ltac:(lia)) as (taken & o & p1' & Hr1 & _ & _ & Hl).
    rewrite (run_put _ _ _ _ _ _ _ _ Hp1 Hr1) in Hrun. injection Hrun as Ht -> ->.
    change (take (Z.to_nat n) bs ++ taken = bs ++ (cs ≫= offered)) in Ht.
    assert (n = Z.of_nat (length bs)) as ->.
    { apply (f_equal length) in Ht. rewrite !length_app, length_take in Ht. lia. }
    rewrite take_ge in Ht, Hc1, Hc2 by lia. apply app_inv_head in Ht as ->.
    destruct (IH p1 p2 out q1') as (q2' & Hr2 & He); [done|done|congruence|lia|lia|done|].
    exists q2'. split; [|done]. rewrite (run_put _ _ _ _ _ _ _ _ Hp2 Hr2).
    rewrite take_ge by lia. by rewrite bind_cons.
  - destruct (bq_get_ok q1 n Hwf1 Hc) as (p1 & Hp1 & Hwfp1 & Hc1 & Hb1).
    destruct (bq_get_ok q2 n Hwf2 Hc) as (p2 & Hp2 & Hwfp2 & Hc2 & Hb2).
    cbn [length] in Hbud1, Hbud2.
    destruct (run_stream cs p1 Hwfp1 Hcs ltac:(lia)) as (taken & o & p1' & Hr1 & _).
    rewrite (run_get _ _ _ _ _ _ _ _ Hp1 Hr1) in Hrun. injection Hrun as Ht <- ->.
    change (taken = cs ≫= offered) in Ht. subst taken.
    destruct (IH p1 p2 o q1') as (q2' & Hr2 & He); [done|done|congruence|lia|lia|done|].
    exists q2'. split; [|done]. rewrite <- Hsame in Hp2. by rewrite (run_get _ _ _ _ _ _ _ _ Hp2 Hr2).
Qed.

(** ** What the two buffers promise a connection *)


Definition sample_cmds : list cmd :=
  [Put [Byte.x65; Byte.x66]; Get 2; Put [Byte.x67; Byte.x68]; Get 9].

Lemma sample_cmds_ok : Forall cmd_ok sample_cmds.
Proof. repeat constructor. Qed.



