(* ===== verification/Channel.v ===== *)
(** [Channel] (Channel.h, Channel.cpp): the interest of one file descriptor and
    the dispatch of what [epoll_wait] reported for it, with the guard that keeps
    the tied object alive meanwhile. *)
From S2P Require Import Prelude.

Definition EPOLLIN : Z := 1.
Definition EPOLLPRI : Z := 2.
Definition EPOLLOUT : Z := 4.
Definition EPOLLERR : Z := 8.
Definition EPOLLHUP : Z := 16.

Definition kNoneEvent : Z := 0.
Definition kReadEvent : Z := Z.lor EPOLLIN EPOLLPRI.
Definition kWriteEvent : Z := EPOLLOUT.

(** [if (x & mask)] *)
Definition has (x mask : Z) : bool := negb (Z.land x mask =? 0).

(** What the library binds to its channels: the handlers of [TcpConnection], and the
    [handleRead] of [Acceptor], [EventLoop] and [TimerQueue]. *)
Inductive handler :=
  | HandleRead | HandleWrite | HandleClose | HandleError
  | AcceptorHandleRead | LoopHandleRead | TimerHandleRead.

#[global] Instance handler_eq_decision : EqDecision handler.
Proof. solve_decision. Defined.

(** [Channel]; an empty [std::function] is [None]. *)
Record Channel (Cb : Type) := mk_Channel {
  m_fd : Z;
  m_events : Z;
  m_revents : Z;
  m_index : Z;
  m_tied : bool;
  m_readCallBack : option Cb;
  m_writeCallBack : option Cb;
  m_errorCallBack : option Cb;
  m_closeCallBack : option Cb
}.
Arguments mk_Channel {Cb}.
Arguments m_fd {Cb}.
Arguments m_events {Cb}.
Arguments m_revents {Cb}.
Arguments m_index {Cb}.
Arguments m_tied {Cb}.
Arguments m_readCallBack {Cb}.
Arguments m_writeCallBack {Cb}.
Arguments m_errorCallBack {Cb}.
Arguments m_closeCallBack {Cb}.

Section fields.
Context {Cb : Type}.
Implicit Types (c : Channel Cb).

Definition set_events e c : Channel Cb := mk_Channel (m_fd c) e (m_revents c) (m_index c) (m_tied c)
  (m_readCallBack c) (m_writeCallBack c) (m_errorCallBack c) (m_closeCallBack c).
Definition set_revents r c : Channel Cb := mk_Channel (m_fd c) (m_events c) r (m_index c) (m_tied c)
  (m_readCallBack c) (m_writeCallBack c) (m_errorCallBack c) (m_closeCallBack c).
Definition set_index i c : Channel Cb := mk_Channel (m_fd c) (m_events c) (m_revents c) i (m_tied c)
  (m_readCallBack c) (m_writeCallBack c) (m_errorCallBack c) (m_closeCallBack c).
Definition set_tied b c : Channel Cb := mk_Channel (m_fd c) (m_events c) (m_revents c) (m_index c) b
  (m_readCallBack c) (m_writeCallBack c) (m_errorCallBack c) (m_closeCallBack c).
Definition setReadCallBack cb c : Channel Cb := mk_Channel (m_fd c) (m_events c) (m_revents c) (m_index c)
  (m_tied c) (Some cb) (m_writeCallBack c) (m_errorCallBack c) (m_closeCallBack c).
Definition setWriteCallBack cb c : Channel Cb := mk_Channel (m_fd c) (m_events c) (m_revents c) (m_index c)
  (m_tied c) (m_readCallBack c) (Some cb) (m_errorCallBack c) (m_closeCallBack c).
Definition setErrorCallBack cb c : Channel Cb := mk_Channel (m_fd c) (m_events c) (m_revents c) (m_index c)
  (m_tied c) (m_readCallBack c) (m_writeCallBack c) (Some cb) (m_closeCallBack c).
Definition setCloseCallBack cb c : Channel Cb := mk_Channel (m_fd c) (m_events c) (m_revents c) (m_index c)
  (m_tied c) (m_readCallBack c) (m_writeCallBack c) (m_errorCallBack c) (Some cb).

(** [Channel::Channel] *)
Definition Channel_new (fd : Z) : Channel Cb :=
  mk_Channel fd 0 0 (-1) false None None None None.

(** What [enableReading] and its siblings store before they call [update]. *)
Definition enable_reading c : Channel Cb := set_events (Z.lor (m_events c) kReadEvent) c.
Definition disable_reading c : Channel Cb :=
  set_events (Z.land (m_events c) (Z.lnot kReadEvent)) c.
Definition enable_writing c : Channel Cb := set_events (Z.lor (m_events c) kWriteEvent) c.
Definition disable_writing c : Channel Cb :=
  set_events (Z.land (m_events c) (Z.lnot kWriteEvent)) c.
Definition disable_all c : Channel Cb := set_events kNoneEvent c.

Definition isNoneEvent c : bool := m_events c =? kNoneEvent.
Definition isReading c : bool := has (m_events c) kReadEvent.
Definition isWriting c : bool := has (m_events c) kWriteEvent.

(** The interests a channel can have, by what was enabled. *)
Definition interest (r w : bool) : Z :=
  Z.lor (if r then kReadEvent else 0) (if w then kWriteEvent else 0).

Definition interested (r w : bool) c : Prop := m_events c = interest r w.

Lemma interested_queries r w c :
  interested r w c →
  isReading c = r ∧ isWriting c = w ∧ isNoneEvent c = negb (r || w).
Proof. unfold interested, isReading, isWriting, isNoneEvent. intros ->. by destruct r, w. Qed.

(** C40. The event mask is two independent switches: whatever was enabled or
    disabled before, each operation sets its own switch and leaves the other,
    [disableAll] clears both, and the queries read them back. *)
Theorem interest_switches (r w : bool) c :
  interested r w c →
  (isReading c = r ∧ isWriting c = w ∧ isNoneEvent c = negb (r || w)) ∧
  interested true w (enable_reading c) ∧ interested false w (disable_reading c) ∧
  interested r true (enable_writing c) ∧ interested r false (disable_writing c) ∧
  interested false false (disable_all c).
Proof.
  intros Hc. split; [by apply interested_queries|].
  unfold interested, enable_reading, disable_reading, enable_writing, disable_writing in *.
  cbn [m_events set_events disable_all]. rewrite Hc. by destruct r, w.
Qed.
End fields.

Lemma interest_switches_witness :
  isReading (disable_writing (enable_writing (enable_reading (Channel_new (Cb := unit) 5)))) = true.
Proof.
  assert (H0 : interested false false (Channel_new (Cb := unit) 5)) by reflexivity.
  destruct (interest_switches _ _ _ H0) as (_ & H1 & _).
  destruct (interest_switches _ _ _ H1) as (_ & _ & _ & H2 & _).
  destruct (interest_switches _ _ _ H2) as (_ & _ & _ & _ & H3 & _).
  apply (interest_switches _ _ _ H3).
Defined.

(** ** Dispatch

    One channel, the object it is tied to (which owns it), and the strong
    references to that object: [refs] of them held elsewhere, and one per
    [guard] of a running [handleEvent]. *)
Inductive action (Cb : Type) :=
  | Done
  | Acquire (k : action Cb)             (** copy a reference to the object *)
  | Release (k : action Cb).            (** drop one of those held elsewhere *)
Arguments Done {Cb}.
Arguments Acquire {Cb} k.
Arguments Release {Cb} k.

Record world (Cb : Type) := mk_world {
  channel : option (Channel Cb);        (** [None] once the object is destroyed *)
  refs : nat;
  guards : nat;
  called : list (Cb * option Z)         (** callbacks run, with [receiveTime] for a read *)
}.
Arguments mk_world {Cb}.
Arguments channel {Cb}.
Arguments refs {Cb}.
Arguments guards {Cb}.
Arguments called {Cb}.

Section dispatch.
(** What the program's callbacks do with the object and the channel. *)
Context {Cb : Type} (body : Cb → action Cb).

(** [this->], in the channel. *)
Definition self : M (world Cb) (Channel Cb) :=
  w ← gets id;
  match channel w with Some c => mret c | None => fail UseAfterFree end.

(** The last strong reference destroys the object, and the channel with it. *)
Definition collect (w : world Cb) : world Cb :=
  match refs w, guards w with
  | O, O => mk_world None O O (called w)
  | _, _ => w
  end.

Fixpoint run_action (a : action Cb) : M (world Cb) unit :=
  match a with
  | Done => mret tt
  | Acquire k =>
      modify (λ w, if channel w is Some _
                   then mk_world (channel w) (S (refs w)) (guards w) (called w) else w);;
      run_action k
  | Release k =>
      modify (λ w, collect (mk_world (channel w) (pred (refs w)) (guards w) (called w)));;
      run_action k
  end.

(** [if (m_xCallBack) m_xCallBack(...)] *)
Definition invoke (cb : option Cb) (receiveTime : option Z) : M (world Cb) unit :=
  match cb with
  | None => mret tt
  | Some cb =>
      modify (λ w, mk_world (channel w) (refs w) (guards w) (called w ++ [(cb, receiveTime)]));;
      run_action (body cb)
  end.

Definition handleEventWithGuard (receiveTime : Z) : M (world Cb) unit :=
  c ← self;
  (if has (m_revents c) EPOLLHUP && negb (has (m_revents c) EPOLLIN)
   then invoke (m_closeCallBack c) None else mret tt);;
  c ← self;
  (if has (m_revents c) EPOLLERR then invoke (m_errorCallBack c) None else mret tt);;
  c ← self;
  (if has (m_revents c) (Z.lor EPOLLIN EPOLLPRI)
   then invoke (m_readCallBack c) (Some receiveTime) else mret tt);;
  c ← self;
  (if has (m_revents c) EPOLLOUT then invoke (m_writeCallBack c) None else mret tt).

(** [m_tie.lock()]: a new reference, unless the object is gone. *)
Definition lock : M (world Cb) bool :=
  w ← gets id;
  match channel w with
  | Some _ => modify (λ w, mk_world (channel w) (refs w) (S (guards w)) (called w));; mret true
  | None => mret false
  end.

(** [guard]'s destructor *)
Definition unlock : M (world Cb) unit :=
  modify (λ w, collect (mk_world (channel w) (refs w) (pred (guards w)) (called w))).

Definition handleEvent (receiveTime : Z) : M (world Cb) unit :=
  c ← self;
  if m_tied c then
    guard ← lock;
    if (guard : bool) then handleEventWithGuard receiveTime;; unlock else mret tt
  else handleEventWithGuard receiveTime.

(** [Channel::tie] *)
Definition tie : M (world Cb) unit :=
  modify (λ w, mk_world (set_tied true <$> channel w) (refs w) (guards w) (called w)).

(** The callbacks that a set of reported events calls for, in order. *)
Definition dispatched (receiveTime : Z) (c : Channel Cb) : list (Cb * option Z) :=
  let on b cb t := if b : bool then (if cb is Some f then [(f, t)] else []) else [] in
  let r := m_revents c in
  on (has r EPOLLHUP && negb (has r EPOLLIN)) (m_closeCallBack c) None ++
  on (has r EPOLLERR) (m_errorCallBack c) None ++
  on (has r (Z.lor EPOLLIN EPOLLPRI)) (m_readCallBack c) (Some receiveTime) ++
  on (has r EPOLLOUT) (m_writeCallBack c) None.

(** Under a guard the object outlives every callback. *)
Lemma run_action_guarded a (c : Channel Cb) r g l :
  ∃ r', run_action a (mk_world (Some c) r (S g) l) = Ok (tt, mk_world (Some c) r' (S g) l).
Proof.
  revert r. induction a as [|k IH|k IH]; intros r; cbn [run_action].
  - by exists r.
  - mstep. apply IH.
  - mstep. cbn [channel refs guards called]. unfold collect. cbn [refs guards].
    destruct (pred r); apply IH.
Qed.

Lemma invoke_guarded b cb t (c : Channel Cb) r g l :
  ∃ r', (if b : bool then invoke cb t else mret tt) (mk_world (Some c) r (S g) l) =
    Ok (tt, mk_world (Some c) r' (S g)
              (l ++ if b then (if cb is Some x then [(x, t)] else []) else [])).
Proof.
  destruct b, cb as [x|]; try (exists r; by rewrite app_nil_r).
  apply (run_action_guarded (body x) c r g (l ++ [(x, t)])).
Qed.

Lemma self_ok (c : Channel Cb) r g l :
  self (mk_world (Some c) r g l) = Ok (c, mk_world (Some c) r g l).
Proof. done. Qed.

Lemma handleEventWithGuard_guarded t (c : Channel Cb) r g l :
  ∃ r', handleEventWithGuard t (mk_world (Some c) r (S g) l) =
    Ok (tt, mk_world (Some c) r' (S g) (l ++ dispatched t c)).
Proof.
  unfold handleEventWithGuard.
  rewrite (M_bind_ok _ _ _ _ _ (self_ok _ _ _ _)).
  edestruct invoke_guarded as [r1 H1]. rewrite (M_bind_ok _ _ _ _ _ H1).
  rewrite (M_bind_ok _ _ _ _ _ (self_ok _ _ _ _)).
  edestruct invoke_guarded as [r2 H2]. rewrite (M_bind_ok _ _ _ _ _ H2).
  rewrite (M_bind_ok _ _ _ _ _ (self_ok _ _ _ _)).
  edestruct invoke_guarded as [r3 H3]. rewrite (M_bind_ok _ _ _ _ _ H3).
  rewrite (M_bind_ok _ _ _ _ _ (self_ok _ _ _ _)).
  edestruct invoke_guarded as [r4 H4]. exists r4. etrans; [exact H4|].
  unfold dispatched. by rewrite <- !app_assoc.
Qed.

(** C26. While it dispatches, a tied channel cannot be destroyed: whatever
    references its callbacks drop, exactly the callbacks that the reported events
    call for are run, close, error, read and write in this order, and the object
    goes only after the last of them, if no reference is left. *)
Theorem handleEvent_tied (receiveTime : Z) (c : Channel Cb) (w : world Cb) :
  channel w = Some c → m_tied c = true →
  ∃ w', handleEvent receiveTime w = Ok (tt, w') ∧
    called w' = called w ++ dispatched receiveTime c ∧ guards w' = guards w ∧
    channel w' = (if bool_decide (refs w' = O ∧ guards w' = O) then None else Some c).
Proof.
  destruct w as [ch r g l]. cbn [channel]. intros -> Ht.
  unfold handleEvent, self, lock. mstep. cbn [channel id]. mstep. rewrite Ht. mstep.
  cbn [channel id]. mstep. cbn [refs guards called].
  destruct (handleEventWithGuard_guarded receiveTime c r g l) as [r' Hr].
  rewrite (M_bind_ok _ _ _ _ _ Hr). unfold unlock, collect, modify. cbn.
  destruct r' as [|r'], g as [|g]; eexists; split; try reflexivity; by split_and!.
Qed.
End dispatch.

(** A hang-up whose callback drops the last reference, with data still to write:
    both callbacks run, then the object goes. *)
Lemma handleEvent_tied_witness :
  ∃ w', handleEvent (λ _, Release Done) 7
          (mk_world (Some (mk_Channel 5 7 20 1 true (Some 0) (Some 1) (Some 2) (Some 3))) 1 0 []) =
        Ok (tt, w') ∧ called w' = [(3, None); (1, None)].
Proof.
  edestruct (handleEvent_tied (λ _ : Z, Release Done) 7
    (mk_Channel 5 7 20 1 true (Some 0) (Some 1) (Some 2) (Some 3))
    (mk_world (Some (mk_Channel 5 7 20 1 true (Some 0) (Some 1) (Some 2) (Some 3))) 1 0 [])
    eq_refl eq_refl) as (w' & Hrun & Hcalled & _).
  exists w'. split; [exact Hrun|exact Hcalled].
Defined.

(** The same without [tie]: the dispatch goes on in a destroyed channel. *)
Example untied_channel_dangles :
  handleEvent (λ _, Release Done) 7
    (mk_world (Some (mk_Channel 5 7 20 1 false (Some 0) (Some 1) (Some 2) (Some 3))) 1 0 []) =
  Err UseAfterFree.
Proof. reflexivity. Qed.
