(* ===== verification/EpollPoller.v ===== *)
(** [EpollPoller] with its base [Poller] (Poller.h, Poller.cpp, EpollPoller.h,
    EpollPoller.cpp), and the operations of [Channel] that end in it: how the
    channels' [m_index], the map of file descriptors and the kernel's interest
    list go together. *)
From S2P Require Import Prelude Channel.

Definition kNew : Z := -1.
Definition kAdded : Z := 1.
Definition kDeleted : Z := 2.

Inductive ctl_op := EPOLL_CTL_ADD | EPOLL_CTL_DEL | EPOLL_CTL_MOD.

Record epoll_event := mk_event { events : Z; data_ptr : Z }.

(** The kernel's side: an epoll instance, its interest list, and [epoll_ctl],
    which answers the instance after the change or [errno]. *)
Class Epoll (K : Type) := {
  registered : K → gmap Z epoll_event;
  epoll_ctl : K → ctl_op → Z → epoll_event → K + Z;
  after_close : K → Z → K               (** what is left of it when a descriptor is closed *)
}.

(** What epoll_ctl(2) documents: which calls can succeed, what they do, and that
    a change or a removal of a registered descriptor succeeds. Adding one may
    fail for want of resources. A descriptor that is closed leaves the list (epoll(7)). *)
Class EpollLaws (K : Type) `{Epoll K} := {
  ctl_add k fd ev k' : epoll_ctl k EPOLL_CTL_ADD fd ev = inl k' →
    registered k !! fd = None ∧ registered k' = <[fd := ev]> (registered k);
  ctl_mod k fd ev : is_Some (registered k !! fd) →
    ∃ k', epoll_ctl k EPOLL_CTL_MOD fd ev = inl k' ∧ registered k' = <[fd := ev]> (registered k);
  ctl_del k fd ev : is_Some (registered k !! fd) →
    ∃ k', epoll_ctl k EPOLL_CTL_DEL fd ev = inl k' ∧ registered k' = delete fd (registered k);
  close_leaves k fd : registered (after_close k fd) = delete fd (registered k)
}.

(** The poller, with the channels that exist, by address. *)
Record poller (K Cb : Type) := mk_poller {
  channels : gmap Z (Channel Cb);
  m_channel_map : gmap Z Z;
  kernel : K;
  reventList_size : Z               (** [m_reventList.size()] *)
}.
Arguments mk_poller {K Cb}.
Arguments channels {K Cb}.
Arguments m_channel_map {K Cb}.
Arguments kernel {K Cb}.
Arguments reventList_size {K Cb}.

Section operations.
Context {K Cb : Type} `{Epoll K}.

Definition set_channels cs (s : poller K Cb) : poller K Cb :=
  mk_poller cs (m_channel_map s) (kernel s) (reventList_size s).
Definition set_map m (s : poller K Cb) : poller K Cb :=
  mk_poller (channels s) m (kernel s) (reventList_size s).
Definition set_kernel k (s : poller K Cb) : poller K Cb :=
  mk_poller (channels s) (m_channel_map s) k (reventList_size s).
Definition set_size n (s : poller K Cb) : poller K Cb :=
  mk_poller (channels s) (m_channel_map s) (kernel s) n.

Definition KInitEventListSize : Z := 16.

(** [EpollPoller::EpollPoller], given what [epoll_create1] answers. *)
Definition EpollPoller_new (epollfd : option K) : outcome (poller K Cb) :=
  match epollfd with
  | Some k => Ok (mk_poller ∅ ∅ k KInitEventListSize)
  | None => Err FatalExit
  end.

(** [*channel] *)
Definition deref (channel : Z) : M (poller K Cb) (Channel Cb) :=
  s ← gets id;
  match channels s !! channel with Some c => mret c | None => fail UseAfterFree end.

Definition store (channel : Z) (f : Channel Cb → Channel Cb) : M (poller K Cb) unit :=
  c ← deref channel;
  modify (λ s, set_channels (<[channel := f c]> (channels s)) s).

Definition hasChannel (channel : Z) : M (poller K Cb) bool :=
  c ← deref channel;
  s ← gets id;
  mret (match m_channel_map s !! m_fd c with
        | Some second => bool_decide (second = channel)
        | None => false
        end).

(** [EpollPoller::update]: a failed removal is only logged. *)
Definition update (op : ctl_op) (channel : Z) : M (poller K Cb) unit :=
  c ← deref channel;
  s ← gets id;
  let event := mk_event (m_events c) channel in
  match epoll_ctl (kernel s) op (m_fd c) event with
  | inl k => modify (set_kernel k)
  | inr _ => match op with EPOLL_CTL_DEL => mret tt | _ => fail FatalExit end
  end.

Definition removeChannel (channel : Z) : M (poller K Cb) unit :=
  c ← deref channel;
  modify (λ s, set_map (delete (m_fd c) (m_channel_map s)) s);;
  (if m_index c =? kAdded then update EPOLL_CTL_DEL channel else mret tt);;
  store channel (set_index kNew).

Definition updateChannel (channel : Z) : M (poller K Cb) unit :=
  c ← deref channel;
  let index := m_index c in
  let fd := m_fd c in
  if (index =? kNew) || (index =? kDeleted) then
    (if index =? kNew
     then modify (λ s, set_map (<[fd := channel]> (m_channel_map s)) s) else mret tt);;
    store channel (set_index kAdded);;
    update EPOLL_CTL_ADD channel
  else if isNoneEvent c then
    update EPOLL_CTL_DEL channel;;
    store channel (set_index kDeleted)
  else update EPOLL_CTL_MOD channel.

(** [Channel::enableReading] and its siblings, down to the poller. *)
Definition change (f : Channel Cb → Channel Cb) (channel : Z) : M (poller K Cb) unit :=
  store channel f;;
  updateChannel channel.
Definition enableReading : Z → M (poller K Cb) unit := change enable_reading.
Definition disableReading : Z → M (poller K Cb) unit := change disable_reading.
Definition enableWriting : Z → M (poller K Cb) unit := change enable_writing.
Definition disableWriting : Z → M (poller K Cb) unit := change disable_writing.
Definition disableAll : Z → M (poller K Cb) unit := change disable_all.

(** [fillActiveChannels] over the entries [epoll_wait] filled in. *)
Fixpoint fillActiveChannels (filled : list epoll_event) (activeChannels : list Z)
    : M (poller K Cb) (list Z) :=
  match filled with
  | [] => mret activeChannels
  | ev :: filled =>
      let channel := data_ptr ev in
      store channel (set_revents (events ev));;
      fillActiveChannels filled (activeChannels ++ [channel])
  end.

(** [poll], given the result of [epoll_wait]: the events stored, or [errno]. *)
Definition poll (result : Z + list epoll_event) (activeChannels : list Z)
    : M (poller K Cb) (list Z) :=
  match result with
  | inr filled =>
      let eventNums := Z.of_nat (length filled) in
      if 0 <? eventNums then
        activeChannels ← fillActiveChannels filled activeChannels;
        s ← gets id;
        (if eventNums =? reventList_size s
         then modify (λ s, set_size (reventList_size s * 2) s) else mret tt);;
        mret activeChannels
      else mret activeChannels
  | inl saveErrno => mret activeChannels
  end.

(** What epoll_wait(2) documents of its result: no more than [maxevents]
    entries, each for a registered descriptor and with the data given to
    [epoll_ctl] for it, no descriptor twice. *)
Definition epoll_wait_ok (s : poller K Cb) (result : Z + list epoll_event) : Prop :=
  match result with
  | inl _ => True
  | inr filled =>
      Z.of_nat (length filled) ≤ i32 (reventList_size s) ∧ NoDup (data_ptr <$> filled) ∧
      ∀ ev, ev ∈ filled → ∃ fd mask,
        registered (kernel s) !! fd = Some (mk_event mask (data_ptr ev))
  end.
End operations.

(** ** Invariant *)
Section invariant.
Context {K Cb : Type} `{EpollLaws K}.
Implicit Types (s : poller K Cb) (a fd : Z) (c : Channel Cb).

(** A channel is in the map unless it is new, and in the kernel's list, under its
    current mask and its own address, exactly while it is added. *)
Record wf s : Prop := {
  wf_index a c : channels s !! a = Some c →
    m_index c = kNew ∨ m_index c = kAdded ∨ m_index c = kDeleted;
  wf_map fd a : m_channel_map s !! fd = Some a ↔
    ∃ c, channels s !! a = Some c ∧ m_fd c = fd ∧ m_index c ≠ kNew;
  wf_kernel fd ev : registered (kernel s) !! fd = Some ev ↔
    ∃ a c, channels s !! a = Some c ∧ m_fd c = fd ∧ m_index c = kAdded ∧
      ev = mk_event (m_events c) a
}.

Lemma wf_new (k : K) : registered k = ∅ → wf (mk_poller ∅ ∅ k KInitEventListSize).
Proof.
  intros Hk. split; cbn.
  - by intros a c ?%lookup_empty_Some.
  - intros fd a. split; [by intros ?%lookup_empty_Some|]. by intros (c & ?%lookup_empty_Some & _).
  - intros fd ev. rewrite Hk. split; [by intros ?%lookup_empty_Some|].
    by intros (a & c & ?%lookup_empty_Some & _).
Qed.

(** Registered channels do not share a descriptor. *)
Lemma wf_unique s a b c d :
  wf s → channels s !! a = Some c → channels s !! b = Some d → m_fd c = m_fd d →
  m_index c ≠ kNew → m_index d ≠ kNew → a = b.
Proof.
  intros Hwf Ha Hb Hfd Hc Hd.
  assert (m_channel_map s !! m_fd c = Some a) by (apply (wf_map _ Hwf); eauto).
  assert (m_channel_map s !! m_fd c = Some b) by (apply (wf_map _ Hwf); eauto).
  congruence.
Qed.

(** Another registered channel has another descriptor. *)
Lemma wf_other s a c b d :
  wf s → (m_channel_map s !! m_fd c = None ∨ m_channel_map s !! m_fd c = Some a) →
  b ≠ a → channels s !! b = Some d → m_index d ≠ kNew → m_fd c ≠ m_fd d.
Proof.
  intros Hwf Hfree Hne Hb Hd Heq.
  assert (m_channel_map s !! m_fd c = Some b) by (apply (wf_map _ Hwf); eauto).
  destruct Hfree; congruence.
Qed.

(** Replacing a channel does not matter to those with another descriptor. *)
Lemma kept s a c c' b d :
  channels s !! a = Some c → channels s !! b = Some d → m_fd c ≠ m_fd d →
  <[a := c']> (channels s) !! b = Some d.
Proof.
  intros Ha Hb Hne. apply lookup_insert_Some. right. split; [|done]. intros <-. simplify_eq.
Qed.

(** The map and the interest list, with the entry of [c]'s descriptor brought up to
    date for [c'], are those of the channels with [c'] at [a]. *)
Lemma map_replace s a c c' fd b :
  wf s → channels s !! a = Some c → m_fd c' = m_fd c →
  (m_channel_map s !! m_fd c = None ∨ m_channel_map s !! m_fd c = Some a) →
  (if bool_decide (m_index c' = kNew) then delete (m_fd c) (m_channel_map s)
   else <[m_fd c := a]> (m_channel_map s)) !! fd = Some b ↔
  ∃ d, <[a := c']> (channels s) !! b = Some d ∧ m_fd d = fd ∧ m_index d ≠ kNew.
Proof.
  intros Hwf Ha Hfd Hfree. case_bool_decide as Hnew; split.
  - intros [Hne (d & Hb & <- & Hi)%(wf_map _ Hwf)]%lookup_delete_Some.
    exists d. split_and!; [by eapply kept|done..].
  - intros (d & [[<- <-]|[Hne Hb]]%lookup_insert_Some & <- & Hi); [done|].
    apply lookup_delete_Some. split; [by eapply wf_other|]. apply (wf_map _ Hwf). by exists d.
  - intros [[<- <-]|[Hne (d & Hb & <- & Hi)%(wf_map _ Hwf)]]%lookup_insert_Some.
    + exists c'. by rewrite lookup_insert_eq.
    + exists d. split_and!; [by eapply kept|done..].
  - intros (d & [[<- <-]|[Hne Hb]]%lookup_insert_Some & <- & Hi); apply lookup_insert_Some;
      [by left|right]. split; [by eapply wf_other|]. apply (wf_map _ Hwf). by exists d.
Qed.

Lemma kernel_replace s a c c' fd ev :
  wf s → channels s !! a = Some c → m_fd c' = m_fd c →
  (m_channel_map s !! m_fd c = None ∨ m_channel_map s !! m_fd c = Some a) →
  (if bool_decide (m_index c' = kAdded)
   then <[m_fd c := mk_event (m_events c') a]> (registered (kernel s))
   else delete (m_fd c) (registered (kernel s))) !! fd = Some ev ↔
  ∃ b d, <[a := c']> (channels s) !! b = Some d ∧ m_fd d = fd ∧ m_index d = kAdded ∧
    ev = mk_event (m_events d) b.
Proof.
  intros Hwf Ha Hfd Hfree.
  assert (Hadded : ∀ d : Channel Cb, m_index d = kAdded → m_index d ≠ kNew) by (by intros d ->).
  case_bool_decide as Hadd; split.
  - intros [[<- <-]|[Hne (b & d & Hb & <- & Hi & ->)%(wf_kernel _ Hwf)]]%lookup_insert_Some.
    + exists a, c'. by rewrite lookup_insert_eq.
    + exists b, d. split_and!; [by eapply kept|done..].
  - intros (b & d & [[<- <-]|[Hne Hb]]%lookup_insert_Some & <- & Hi & ->);
      apply lookup_insert_Some; [by left|right].
    split; [eapply wf_other; eauto|]. apply (wf_kernel _ Hwf). by exists b, d.
  - intros [Hne (b & d & Hb & <- & Hi & ->)%(wf_kernel _ Hwf)]%lookup_delete_Some.
    exists b, d. split_and!; [by eapply kept|done..].
  - intros (b & d & [[<- <-]|[Hne Hb]]%lookup_insert_Some & <- & Hi & ->); [done|].
    apply lookup_delete_Some. split; [eapply wf_other; eauto|].
    apply (wf_kernel _ Hwf). by exists b, d.
Qed.

(** One channel replaced by [c'], with the map and the interest list brought up
    to date for its descriptor. *)
Lemma wf_replace s a c c' m k n :
  wf s → channels s !! a = Some c → m_fd c' = m_fd c →
  (m_index c' = kNew ∨ m_index c' = kAdded ∨ m_index c' = kDeleted) →
  (m_channel_map s !! m_fd c = None ∨ m_channel_map s !! m_fd c = Some a) →
  m = (if bool_decide (m_index c' = kNew) then delete (m_fd c) (m_channel_map s)
       else <[m_fd c := a]> (m_channel_map s)) →
  registered k = (if bool_decide (m_index c' = kAdded)
       then <[m_fd c := mk_event (m_events c') a]> (registered (kernel s))
       else delete (m_fd c) (registered (kernel s))) →
  wf (mk_poller (<[a := c']> (channels s)) m k n).
Proof.
  intros Hwf Ha Hfd Hidx Hfree -> Hk. split; cbn.
  - intros b d [[<- <-]|[_ Hb]]%lookup_insert_Some; [done|by apply (wf_index _ Hwf b)].
  - intros fd b. by apply map_replace.
  - intros fd ev. rewrite Hk. by apply kernel_replace.
Qed.
(** A channel that was never registered, or no longer is, comes and goes unseen. *)
Lemma wf_channels s cs :
  wf s →
  (∀ a ch, cs !! a = Some ch → m_index ch ≠ kNew → channels s !! a = Some ch) →
  (∀ a ch, channels s !! a = Some ch → m_index ch ≠ kNew → cs !! a = Some ch) →
  (∀ a ch, cs !! a = Some ch → m_index ch = kNew ∨ m_index ch = kAdded ∨ m_index ch = kDeleted) →
  wf (set_channels cs s).
Proof.
  intros Hwf Hto Hfrom Hi. split; [done| |]; cbn.
  - intros fd a. rewrite (wf_map _ Hwf). split; intros (ch & Ha & Hfd & Hne); exists ch; auto.
  - assert (Hadd : ∀ ch : Channel Cb, m_index ch = kAdded → m_index ch ≠ kNew) by (by intros ? ->).
    intros fd ev. rewrite (wf_kernel _ Hwf).
    split; intros (a & ch & Ha & Hfd & Hidx & ->); exists a, ch; split_and!; auto.
Qed.


Lemma wf_add_channel s a c :
  wf s → (∀ d, channels s !! a = Some d → m_index d = kNew) → m_index c = kNew →
  wf (set_channels (<[a := c]> (channels s)) s).
Proof.
  intros Hwf Hnew Hi. apply wf_channels; [done|..].
  - intros b d [[<- <-]|[_ Hb]]%lookup_insert_Some Hne; done.
  - intros b d Hb Hne. rewrite lookup_insert_ne; [done|]. intros <-. by apply Hne, Hnew.
  - intros b d [[<- <-]|[_ Hb]]%lookup_insert_Some; [by left|by apply (wf_index _ Hwf b)].
Qed.

(** Closing a descriptor that no channel has added changes nothing here. *)
Lemma wf_after_close s fd :
  wf s → registered (kernel s) !! fd = None → wf (set_kernel (after_close (kernel s) fd) s).
Proof.
  intros [H1 H2 H3] Hnone. split; [done|done|]. cbn. intros d ev. rewrite close_leaves, delete_id by done.
  apply H3.
Qed.

Lemma wf_free_channel s a c :
  wf s → channels s !! a = Some c → m_index c = kNew → wf (set_channels (delete a (channels s)) s).
Proof.
  intros Hwf Ha Hi. apply wf_channels; [done|..].
  - by intros b d [_ Hb]%lookup_delete_Some.
  - intros b d Hb Hne. apply lookup_delete_Some. split; [|done]. intros <-. congruence.
  - intros b d [_ Hb]%lookup_delete_Some. by apply (wf_index _ Hwf b).
Qed.
End invariant.

(** ** The operations *)
Section runs.
Context {K Cb : Type} `{EpollLaws K}.
Implicit Types (s : poller K Cb) (a fd : Z) (c : Channel Cb).

Lemma deref_channel_ok s a c : channels s !! a = Some c → deref a s = Ok (c, s).
Proof. intros Hc. unfold deref. mstep. change (id s) with s. by rewrite Hc. Qed.

Lemma store_ok s a c f :
  channels s !! a = Some c → store a f s = Ok (tt, set_channels (<[a := f c]> (channels s)) s).
Proof. intros Hc. unfold store. by rewrite (M_bind_ok _ _ _ _ _ (deref_channel_ok _ _ _ Hc)). Qed.

Lemma update_ok s a c op :
  channels s !! a = Some c →
  update op a s =
    match epoll_ctl (kernel s) op (m_fd c) (mk_event (m_events c) a) with
    | inl k => Ok (tt, set_kernel k s)
    | inr _ => match op with EPOLL_CTL_DEL => Ok (tt, s) | _ => Err FatalExit end
    end.
Proof.
  intros Hc. unfold update. rewrite (M_bind_ok _ _ _ _ _ (deref_channel_ok _ _ _ Hc)). mstep.
  change (id s) with s. by destruct (epoll_ctl _ _ _ _), op.
Qed.

(** The only way to stop: the kernel refuses to add a descriptor it does not
    have yet. *)
Definition add_refused s fd (e : fault) : Prop :=
  e = FatalExit ∧ registered (kernel s) !! fd = None ∧
  ∃ ev errno, epoll_ctl (kernel s) EPOLL_CTL_ADD fd ev = inr errno.

(** A channel that is not added leaves its descriptor free in the kernel. *)
Lemma unregistered s a c :
  wf s → channels s !! a = Some c → m_index c ≠ kAdded →
  (m_channel_map s !! m_fd c = None ∨ m_channel_map s !! m_fd c = Some a) →
  registered (kernel s) !! m_fd c = None.
Proof.
  intros Hwf Hc Hi Hfree. destruct (registered _ !! _) as [ev|] eqn:Hr; [|done].
  apply (wf_kernel _ Hwf) in Hr as (b & d & Hb & Hd & Hbi & _).
  assert (m_channel_map s !! m_fd c = Some b).
  { apply (wf_map _ Hwf). exists d. split_and!; [done..|]. by rewrite Hbi. }
  destruct Hfree; simplify_eq.
Qed.

Lemma add_ok (k : K) fd ev :
  registered k !! fd = None →
  (∃ k', epoll_ctl k EPOLL_CTL_ADD fd ev = inl k' ∧ registered k' = <[fd := ev]> (registered k)) ∨
  (∃ errno, epoll_ctl k EPOLL_CTL_ADD fd ev = inr errno).
Proof.
  intros Hr. destruct (epoll_ctl k EPOLL_CTL_ADD fd ev) as [k'|errno] eqn:Hctl; [left|right; eauto].
  exists k'. split; [done|]. by apply ctl_add in Hctl as [_ ?].
Qed.

(** The index a channel has after an update with the mask [e]. *)
Definition next_index (i e : Z) : Z := if (i =? kAdded) && (e =? kNoneEvent) then kDeleted else kAdded.

(** [updateChannel] has brought the channel [c'] at [a] to the index [i]. *)
Definition updated s a c' i s' : Prop :=
  wf s' ∧ channels s' = <[a := set_index i c']> (channels s) ∧
  m_channel_map s' = <[m_fd c' := a]> (m_channel_map s) ∧
  registered (kernel s') =
    (if i =? kAdded then <[m_fd c' := mk_event (m_events c') a]> (registered (kernel s))
     else delete (m_fd c') (registered (kernel s))) ∧
  reventList_size s' = reventList_size s.

Lemma updated_intro s a c c' i k m :
  wf s → channels s !! a = Some c → m_fd c' = m_fd c →
  (m_channel_map s !! m_fd c = None ∨ m_channel_map s !! m_fd c = Some a) →
  i = kDeleted ∨ i = kAdded →
  m = <[m_fd c := a]> (m_channel_map s) →
  registered k = (if i =? kAdded then <[m_fd c := mk_event (m_events c') a]> (registered (kernel s))
                  else delete (m_fd c) (registered (kernel s))) →
  updated s a c' i (mk_poller (<[a := set_index i c']> (channels s)) m k (reventList_size s)).
Proof.
  intros Hwf Hc Hfd Hfree Hi -> Hk. unfold updated. rewrite Hfd. split_and!; try done.
  apply (wf_replace s a c); try done; cbn.
  - destruct Hi; auto.
  - rewrite bool_decide_false; [done|]. by destruct Hi as [->| ->].
  - rewrite Hk. by destruct Hi as [->| ->].
Qed.

Lemma map_in_place s a c :
  wf s → channels s !! a = Some c → m_index c ≠ kNew →
  m_channel_map s = <[m_fd c := a]> (m_channel_map s).
Proof. intros Hwf Hc Hi. symmetry. apply insert_id, (wf_map _ Hwf). by exists c. Qed.

Lemma added_registered s a c :
  wf s → channels s !! a = Some c → m_index c = kAdded →
  m_channel_map s !! m_fd c = Some a ∧ m_channel_map s = <[m_fd c := a]> (m_channel_map s) ∧
  is_Some (registered (kernel s) !! m_fd c).
Proof.
  intros Hwf Hc Hi. assert (m_index c ≠ kNew) by (by rewrite Hi). split_and!.
  - apply (wf_map _ Hwf). by exists c.
  - by apply map_in_place.
  - exists (mk_event (m_events c) a). apply (wf_kernel _ Hwf). by exists a, c.
Qed.

(** The three ways through [updateChannel]. [s1] is [s] after the channel's mask
    was changed, which makes [c'] of [c]. *)
Lemma update_add_wp s a c c' m :
  wf s → channels s !! a = Some c → m_fd c' = m_fd c →
  (m_channel_map s !! m_fd c = None ∨ m_channel_map s !! m_fd c = Some a) →
  m_index c ≠ kAdded → m = <[m_fd c := a]> (m_channel_map s) →
  wp (store a (set_index kAdded);; update EPOLL_CTL_ADD a)
    (λ _ s', updated s a c' kAdded s') (add_refused s (m_fd c))
    (set_map m (set_channels (<[a := c']> (channels s)) s)).
Proof.
  intros Hwf Hc Hfd Hfree Hi Hm. set (s2 := set_map _ _). unfold wp.
  assert (Hc2 : channels s2 !! a = Some c') by apply lookup_insert_eq.
  rewrite (M_bind_ok _ _ _ _ _ (store_ok s2 a c' _ Hc2)). set (s3 := set_channels _ _).
  rewrite (update_ok s3 a (set_index kAdded c') EPOLL_CTL_ADD) by apply lookup_insert_eq.
  cbn [m_fd m_events set_index kernel s3 s2 set_channels set_map]. rewrite Hfd.
  pose proof (unregistered s a c Hwf Hc Hi Hfree) as Hnone.
  destruct (add_ok (kernel s) (m_fd c) (mk_event (m_events c') a) Hnone)
    as [(k & -> & Hk)|(errno & Hctl)].
  - unfold set_kernel, s3, s2. cbn. rewrite insert_insert_eq.
    apply (updated_intro s a c); auto.
  - rewrite Hctl. split_and!; [done..|]. eauto.
Qed.

Lemma update_del_ok s a c c' :
  wf s → channels s !! a = Some c → m_fd c' = m_fd c → m_index c = kAdded →
  ∃ s', (update EPOLL_CTL_DEL a;; store a (set_index kDeleted))
          (set_channels (<[a := c']> (channels s)) s) = Ok (tt, s') ∧ updated s a c' kDeleted s'.
Proof.
  intros Hwf Hc Hfd Hi. set (s1 := set_channels _ s).
  assert (Hc1 : channels s1 !! a = Some c') by apply lookup_insert_eq.
  destruct (added_registered s a c Hwf Hc Hi) as (Hm & Hk0 & Hreg).
  destruct (ctl_del (kernel s) (m_fd c) (mk_event (m_events c') a) Hreg) as (k & Hctl & Hk).
  pose proof (update_ok s1 a c' EPOLL_CTL_DEL Hc1) as Hup. rewrite Hfd in Hup.
  change (kernel s1) with (kernel s) in Hup. rewrite Hctl in Hup.
  rewrite (M_bind_ok _ _ _ _ _ Hup). rewrite (store_ok (set_kernel k s1) a c') by done.
  eexists. split; [done|]. unfold set_channels, set_kernel, s1. cbn. rewrite insert_insert_eq.
  apply (updated_intro s a c); auto.
Qed.

Lemma update_mod_ok s a c c' :
  wf s → channels s !! a = Some c → m_fd c' = m_fd c → m_index c' = kAdded → m_index c = kAdded →
  ∃ s', update EPOLL_CTL_MOD a (set_channels (<[a := c']> (channels s)) s) = Ok (tt, s') ∧
        updated s a c' kAdded s'.
Proof.
  intros Hwf Hc Hfd Hi' Hi. set (s1 := set_channels _ s).
  assert (Hc1 : channels s1 !! a = Some c') by apply lookup_insert_eq.
  destruct (added_registered s a c Hwf Hc Hi) as (Hm & Hk0 & Hreg).
  destruct (ctl_mod (kernel s) (m_fd c) (mk_event (m_events c') a) Hreg) as (k & Hctl & Hk).
  rewrite (update_ok s1 a c' EPOLL_CTL_MOD Hc1), Hfd.
  change (kernel s1) with (kernel s). rewrite Hctl.
  eexists. split; [done|]. unfold set_kernel, s1, set_channels. cbn.
  assert (Hsame : set_index kAdded c' = c') by (destruct c'; cbn in *; by subst).
  pose proof (updated_intro s a c c' kAdded k (m_channel_map s)) as Hup. rewrite Hsame in Hup.
  apply Hup; auto.
Qed.

Lemma change_wp s a c f :
  wf s → channels s !! a = Some c → m_fd (f c) = m_fd c → m_index (f c) = m_index c →
  (m_channel_map s !! m_fd c = None ∨ m_channel_map s !! m_fd c = Some a) →
  let e := m_events (f c) in
  let i := next_index (m_index c) e in
  wp (change f a)
    (λ _ s', wf s' ∧ channels s' = <[a := set_index i (f c)]> (channels s) ∧
       m_channel_map s' = <[m_fd c := a]> (m_channel_map s) ∧
       registered (kernel s') =
         (if i =? kAdded then <[m_fd c := mk_event e a]> (registered (kernel s))
          else delete (m_fd c) (registered (kernel s))) ∧
       reventList_size s' = reventList_size s)
    (add_refused s (m_fd c)) s.
Proof.
  intros Hwf Hc Hfd Hidx Hfree e i.
  enough (Hwp : wp (change f a) (λ _, updated s a (f c) i) (add_refused s (m_fd c)) s).
  { unfold updated in Hwp. by rewrite Hfd in Hwp. }
  unfold change, wp. rewrite (M_bind_ok _ _ _ _ _ (store_ok s a c f Hc)).
  set (s1 := set_channels _ s).
  assert (Hc1 : channels s1 !! a = Some (f c)) by apply lookup_insert_eq.
  unfold updateChannel. rewrite (M_bind_ok _ _ _ _ _ (deref_channel_ok s1 a (f c) Hc1)).
  rewrite Hidx, Hfd. unfold i, next_index, s1.
  destruct (wf_index _ Hwf a c Hc) as [Hi|[Hi|Hi]]; rewrite Hi.
  - change ((kNew =? kNew) || (kNew =? kDeleted)) with true. change (kNew =? kNew) with true.
    cbv iota. mstep. apply (update_add_wp s a c); try done. by rewrite Hi.
  - change ((kAdded =? kNew) || (kAdded =? kDeleted)) with false. cbv iota.
    change (kAdded =? kAdded) with true. cbn [andb]. unfold isNoneEvent. fold e.
    destruct (e =? kNoneEvent).
    + by destruct (update_del_ok s a c (f c) Hwf Hc Hfd Hi) as (s' & -> & ?).
    + destruct (update_mod_ok s a c (f c) Hwf Hc Hfd) as (s' & -> & ?); [congruence|done..].
  - change ((kDeleted =? kNew) || (kDeleted =? kDeleted)) with true.
    change (kDeleted =? kNew) with false. cbv iota. rewrite bind_ret.
    apply (update_add_wp s a c); try done; [by rewrite Hi|].
    apply map_in_place; [done..|by rewrite Hi].
Qed.

Lemma removeChannel_ok s a c :
  wf s → channels s !! a = Some c →
  (m_channel_map s !! m_fd c = None ∨ m_channel_map s !! m_fd c = Some a) →
  ∃ s', removeChannel a s = Ok (tt, s') ∧ wf s' ∧
    channels s' = <[a := set_index kNew c]> (channels s) ∧
    m_channel_map s' = delete (m_fd c) (m_channel_map s) ∧
    registered (kernel s') = delete (m_fd c) (registered (kernel s)) ∧
    reventList_size s' = reventList_size s.
Proof.
  intros Hwf Hc Hfree. unfold removeChannel.
  rewrite (M_bind_ok _ _ _ _ _ (deref_channel_ok _ _ _ Hc)). mstep.
  set (s1 := set_map _ s).
  assert (Hfinish : ∀ k, registered k = delete (m_fd c) (registered (kernel s)) →
    wf (mk_poller (<[a := set_index kNew c]> (channels s)) (delete (m_fd c) (m_channel_map s)) k
          (reventList_size s))).
  { intros k Hk. apply (wf_replace s a c); try done. by left. }
  destruct (Z.eqb_spec (m_index c) kAdded) as [Hi|Hi].
  - destruct (ctl_del (kernel s) (m_fd c) (mk_event (m_events c) a)) as (k & Hctl & Hk).
    { exists (mk_event (m_events c) a). apply (wf_kernel _ Hwf). by exists a, c. }
    pose proof (update_ok s1 a c EPOLL_CTL_DEL Hc) as Hup.
    change (kernel s1) with (kernel s) in Hup. rewrite Hctl in Hup.
    rewrite (M_bind_ok _ _ _ _ _ Hup).
    rewrite (store_ok (set_kernel k s1) a c) by done.
    eexists. split; [done|]. split_and!; try done. by apply Hfinish.
  - rewrite bind_ret, (store_ok s1 a c) by done.
    assert (Hdel : delete (m_fd c) (registered (kernel s)) = registered (kernel s)).
    { by apply delete_id, (unregistered s a c). }
    eexists. split; [done|]. split_and!; try done. by apply Hfinish.
Qed.

(** What takes a channel down: [disableAll], [remove], and the end of the object. *)
Definition unwatch a : M (poller K Cb) unit :=
  disableAll a;;
  removeChannel a;;
  modify (λ s, set_channels (delete a (channels s)) s).

Lemma unwatch_wp s a c :
  wf s → channels s !! a = Some c →
  (m_channel_map s !! m_fd c = None ∨ m_channel_map s !! m_fd c = Some a) →
  wp (unwatch a)
    (λ _ s', wf s' ∧ channels s' = delete a (channels s) ∧
       m_channel_map s' = delete (m_fd c) (m_channel_map s) ∧
       registered (kernel s') = delete (m_fd c) (registered (kernel s)) ∧
       reventList_size s' = reventList_size s)
    (λ e, e = FatalExit ∧ m_index c ≠ kAdded) s.
Proof.
  intros Hwf Hc Hfree. unfold unwatch, disableAll. apply wp_bind.
  pose proof (change_wp s a c disable_all Hwf Hc eq_refl eq_refl Hfree) as Hwp. cbv zeta in Hwp.
  unfold wp at 1. unfold wp in Hwp. destruct (change disable_all a s) as [[[] s1]|e].
  2: { destruct Hwp as (-> & Hnone & _). split; [done|]. intros Hi.
       destruct (added_registered s a c Hwf Hc Hi) as (_ & _ & [x Hx]). congruence. }
  destruct Hwp as (Hwf1 & Hch1 & Hm1 & Hr1 & Hsz1). set (c1 := set_index _ (disable_all c)) in Hch1.
  assert (Hc1 : channels s1 !! a = Some c1) by (rewrite Hch1; apply lookup_insert_eq).
  destruct (removeChannel_ok s1 a c1 Hwf1 Hc1) as (s2 & Hrun & Hwf2 & Hch2 & Hm2 & Hr2 & Hsz2).
  { right. change (m_fd c1) with (m_fd c). rewrite Hm1. apply lookup_insert_eq. }
  change (m_fd c1) with (m_fd c) in Hm2, Hr2.
  apply wp_bind. unfold wp at 1. rewrite Hrun. apply wp_modify. split_and!.
  - apply (wf_free_channel s2 _ (set_index kNew c1)); [done| |done]. rewrite Hch2. apply lookup_insert_eq.
  - cbn. by rewrite Hch2, Hch1, !delete_insert_eq.
  - cbn. by rewrite Hm2, Hm1, delete_insert_eq.
  - cbn. rewrite Hr2, Hr1. destruct (_ =? kAdded); [by rewrite delete_insert_eq|by rewrite delete_delete_eq].
  - cbn. congruence.
Qed.

(** What puts a new channel up: the object, its callback, and [enableReading]. *)
Definition watch (cb : Cb) a fd : M (poller K Cb) unit :=
  modify (λ s, set_channels (<[a := setReadCallBack cb (Channel_new fd)]> (channels s)) s);;
  enableReading a.

Lemma watch_wp s cb a fd :
  wf s → channels s !! a = None → m_channel_map s !! fd = None →
  wp (watch cb a fd)
    (λ _ s', wf s' ∧
       channels s' = <[a := set_index kAdded (enable_reading (setReadCallBack cb (Channel_new fd)))]> (channels s) ∧
       m_channel_map s' = <[fd := a]> (m_channel_map s) ∧
       registered (kernel s') = <[fd := mk_event kReadEvent a]> (registered (kernel s)) ∧
       reventList_size s' = reventList_size s)
    (λ e, e = FatalExit) s.
Proof.
  intros Hwf Hnone Hmap. apply wp_bind, wp_modify. set (c := setReadCallBack cb (Channel_new fd)).
  set (s1 := set_channels _ s).
  assert (Hwf1 : wf s1) by (apply wf_add_channel; [done|by rewrite Hnone|done]).
  pose proof (change_wp s1 a c enable_reading Hwf1 (lookup_insert_eq _ _ _) eq_refl eq_refl
    (or_introl Hmap)) as Hwp. cbv zeta in Hwp. change (next_index _ _) with kAdded in Hwp.
  unfold wp, enableReading in *. destruct (change enable_reading a s1) as [[[] s2]|e]; [|by destruct Hwp].
  destruct Hwp as (Hwf2 & Hch & Hm & Hr & Hsz). split_and!; [done| |exact Hm|exact Hr|exact Hsz].
  rewrite Hch. cbn. by rewrite insert_insert_eq.
Qed.

Lemma wf_revents s a c r :
  wf s → channels s !! a = Some c →
  wf (set_channels (<[a := set_revents r c]> (channels s)) s).
Proof.
  intros Hwf Hc.
  assert (Hsame : ∀ b d, (<[a := set_revents r c]> (channels s)) !! b = Some d →
    ∃ d', channels s !! b = Some d' ∧ m_fd d' = m_fd d ∧ m_index d' = m_index d ∧
      m_events d' = m_events d).
  { intros b d [[<- <-]|[_ Hb]]%lookup_insert_Some; eauto. }
  assert (Hback : ∀ b d', channels s !! b = Some d' →
    ∃ d, (<[a := set_revents r c]> (channels s)) !! b = Some d ∧ m_fd d = m_fd d' ∧
      m_index d = m_index d' ∧ m_events d = m_events d').
  { intros b d' Hb. destruct (decide (a = b)) as [<-|Hne].
    - exists (set_revents r c). rewrite lookup_insert_eq. by simplify_eq.
    - exists d'. by rewrite lookup_insert_ne. }
  split; cbn.
  - intros b d (d' & Hb & _ & Hi & _)%Hsame. rewrite <- Hi. by apply (wf_index _ Hwf b).
  - intros fd b. rewrite (wf_map _ Hwf). split.
    + intros (d & (d' & ? & E1 & E2 & _)%Hback & ? & ?). exists d'. by rewrite E1, E2.
    + intros (d & (d' & ? & E1 & E2 & _)%Hsame & ? & ?). exists d'. by rewrite E1, E2.
  - intros fd ev. rewrite (wf_kernel _ Hwf). split.
    + intros (b & d & (d' & ? & E1 & E2 & E3)%Hback & ? & ? & ->).
      exists b, d'. by rewrite E1, E2, E3.
    + intros (b & d & (d' & ? & E1 & E2 & E3)%Hsame & ? & ? & ->).
      exists b, d'. by rewrite E1, E2, E3.
Qed.

(** What the reported events say about the channels. *)
Definition reported (filled : list epoll_event) s s' : Prop :=
  (∀ ev, ev ∈ filled → ∃ c, channels s !! data_ptr ev = Some c ∧ m_index c = kAdded ∧
     channels s' !! data_ptr ev = Some (set_revents (events ev) c)) ∧
  (∀ a, a ∉ data_ptr <$> filled → channels s' !! a = channels s !! a).

Lemma fillActiveChannels_ok (filled : list epoll_event) (active : list Z) s :
  wf s → NoDup (data_ptr <$> filled) →
  (∀ ev, ev ∈ filled → ∃ c, channels s !! data_ptr ev = Some c ∧ m_index c = kAdded) →
  ∃ s', fillActiveChannels filled active s = Ok (active ++ (data_ptr <$> filled), s') ∧
    wf s' ∧ reported filled s s' ∧ reventList_size s' = reventList_size s.
Proof.
  revert active s. induction filled as [|ev filled IH]; intros active s Hwf Hnd Hlive.
  { exists s. cbn [fillActiveChannels fmap list_fmap]. rewrite app_nil_r.
    split_and!; try done. split; [|done]. intros ev. by rewrite elem_of_nil. }
  cbn in Hnd. apply NoDup_cons in Hnd as [Hnin Hnd].
  destruct (Hlive ev ltac:(set_solver)) as (c & Hc & Hi).
  pose proof (wf_revents s (data_ptr ev) c (events ev) Hwf Hc) as Hwf1.
  set (s1 := set_channels _ s) in Hwf1.
  assert (Hne : ∀ ev', ev' ∈ filled → data_ptr ev ≠ data_ptr ev').
  { intros ev' Hin E. apply Hnin. rewrite E. by apply list_elem_of_fmap_2. }
  destruct (IH (active ++ [data_ptr ev]) s1 Hwf1 Hnd) as (s' & Hrun & Hwf' & [Hrep Hsame] & Hsize).
  { intros ev' Hin. cbn. rewrite lookup_insert_ne by auto. apply Hlive. set_solver. }
  exists s'. split_and!; try done.
  - cbn [fillActiveChannels]. rewrite (M_bind_ok _ _ _ _ _ (store_ok s _ c _ Hc)).
    etrans; [exact Hrun|]. by rewrite <- app_assoc.
  - split.
    + intros ev' [->|Hin]%elem_of_cons.
      * exists c. split_and!; [done..|]. rewrite Hsame by done. apply lookup_insert_eq.
      * destruct (Hrep ev' Hin) as (d & Hd & Hdi & Hd'). exists d. split_and!; [|done..].
        cbn in Hd. by rewrite lookup_insert_ne in Hd by auto.
    + intros a Ha. cbn in Ha. rewrite Hsame by set_solver. cbn. apply lookup_insert_ne. set_solver.
Qed.
End runs.

(** ** Properties *)
Section properties.
Context {K Cb : Type} `{EpollLaws K}.
Implicit Types (s : poller K Cb) (a : Z) (c : Channel Cb).

(** C15. Every change of a channel's interest reaches the kernel: afterwards its
    descriptor is in the interest list under the new mask and this channel's
    address, or, when an added channel is left without interest, not at all; the
    map knows the channel; nothing else changes, and the index, the map and the
    interest list still agree for all channels. It stops only if the kernel has
    no room for a new descriptor. *)
Theorem change_reaches_kernel s a c f :
  wf s → channels s !! a = Some c →
  f ∈ [enable_reading; disable_reading; enable_writing; disable_writing; disable_all] →
  (m_channel_map s !! m_fd c = None ∨ m_channel_map s !! m_fd c = Some a) →
  wp (change f a)
    (λ _ s', wf s' ∧ m_channel_map s' = <[m_fd c := a]> (m_channel_map s) ∧
       (∀ b, b ≠ a → channels s' !! b = channels s !! b) ∧
       registered (kernel s') =
         (if (m_index c =? kAdded) && isNoneEvent (f c)
          then delete (m_fd c) (registered (kernel s))
          else <[m_fd c := mk_event (m_events (f c)) a]> (registered (kernel s))))
    (add_refused s (m_fd c)) s.
Proof.
  intros Hwf Hc Hf Hfree.
  assert (m_fd (f c) = m_fd c ∧ m_index (f c) = m_index c) as [Hfd Hi].
  { rewrite !elem_of_cons, elem_of_nil in Hf. by destruct Hf as [->|[->|[->|[->|[->|[]]]]]]. }
  eapply wp_mono; [by apply change_wp|].
  intros [] s' (Hwf' & Hch & Hm & Hr & _). split_and!; [done..| |].
  - intros b Hb. rewrite Hch. by apply lookup_insert_ne.
  - rewrite Hr. unfold next_index, isNoneEvent. by destruct (_ && _).
Qed.

(** After [removeChannel] the poller has forgotten the channel: its
    descriptor is in neither the map nor the kernel's list, its index is back to
    [kNew], and no later result of [epoll_wait] can name it, so that it may be
    destroyed; all other channels are as they were. *)
Theorem removeChannel_forgets s a c :
  wf s → channels s !! a = Some c →
  (m_channel_map s !! m_fd c = None ∨ m_channel_map s !! m_fd c = Some a) →
  ∃ s', removeChannel a s = Ok (tt, s') ∧ wf s' ∧
    m_channel_map s' = delete (m_fd c) (m_channel_map s) ∧
    registered (kernel s') = delete (m_fd c) (registered (kernel s)) ∧
    channels s' = <[a := set_index kNew c]> (channels s) ∧
    ∀ filled ev, epoll_wait_ok s' (inr filled) → ev ∈ filled → data_ptr ev ≠ a.
Proof.
  intros Hwf Hc Hfree.
  destruct (removeChannel_ok s a c Hwf Hc Hfree) as (s' & Hrun & Hwf' & Hch & Hm & Hr & _).
  exists s'. split_and!; [done..|]. intros filled ev (_ & _ & Hall) Hin Ha.
  destruct (Hall ev Hin) as (fd & mask & Hreg).
  apply (wf_kernel _ Hwf') in Hreg as (b & d & Hb & _ & Hi & [= _ Hab]).
  rewrite Hch in Hb. rewrite <- Hab, Ha, lookup_insert_eq in Hb. by simplify_eq.
Qed.

(** [poll] hands over exactly the channels the kernel reported, in order,
    each alive and with the reported events in [m_revents]; every other channel
    is untouched; and the array of events doubles when it was full. *)
Theorem poll_reports s (filled : list epoll_event) (activeChannels : list Z) :
  wf s → epoll_wait_ok s (inr filled) →
  ∃ s', poll (inr filled) activeChannels s = Ok (activeChannels ++ (data_ptr <$> filled), s') ∧
    wf s' ∧ reported filled s s' ∧
    reventList_size s' =
      (if (0 <? Z.of_nat (length filled)) && (Z.of_nat (length filled) =? reventList_size s)
       then reventList_size s * 2 else reventList_size s).
Proof.
  intros Hwf (_ & Hnd & Hreg).
  destruct (fillActiveChannels_ok filled activeChannels s Hwf Hnd)
    as (s' & Hrun & Hwf' & Hrep & Hsize).
  { intros ev Hin. destruct (Hreg ev Hin) as (fd & mask & Hr).
    apply (wf_kernel _ Hwf) in Hr as (a & c & Ha & _ & Hi & [= _ E]). rewrite E. eauto. }
  unfold poll. destruct (Z.ltb_spec 0 (Z.of_nat (length filled))).
  - rewrite (M_bind_ok _ _ _ _ _ Hrun). mstep. change (id s') with s'. rewrite Hsize.
    cbn [andb]. destruct (_ =? _); [|by exists s'].
    exists (set_size (reventList_size s' * 2) s'). split; [done|].
    split_and!; [by destruct Hwf'|done|cbn; by rewrite Hsize].
  - destruct filled; [|cbn in *; lia]. assert (s' = s) as -> by by injection Hrun.
    exists s. split; [by rewrite app_nil_r|]. by split_and!.
Qed.

(** A second [disableAll] undoes the first: it adds the descriptor to the
    kernel's list again, with an empty mask, under which hang-ups and errors are
    still reported. *)
Theorem disableAll_twice_registers s a c :
  wf s → channels s !! a = Some c → m_index c = kAdded →
  wp (disableAll a)
    (λ _ s1, registered (kernel s1) !! m_fd c = None ∧
       wp (disableAll a) (λ _ s2, registered (kernel s2) !! m_fd c = Some (mk_event kNoneEvent a))
         (add_refused s1 (m_fd c)) s1)
    (λ _, False) s.
Proof.
  intros Hwf Hc Hi.
  assert (Hmap : m_channel_map s !! m_fd c = Some a).
  { apply (wf_map _ Hwf). exists c. by rewrite Hi. }
  pose proof (change_wp s a c disable_all Hwf Hc eq_refl eq_refl (or_intror Hmap)) as H1.
  cbn [m_events disable_all set_events] in H1. rewrite Hi in H1.
  change (next_index kAdded kNoneEvent) with kDeleted in H1.
  unfold disableAll. revert H1. unfold wp at 1 2.
  destruct (change disable_all a s) as [[[] s1]|e] eqn:Hrun.
  - intros (Hwf1 & Hch1 & Hm1 & Hr1 & _). split.
    { rewrite Hr1. change (kDeleted =? kAdded) with false. apply lookup_delete_eq. }
    set (c1 := set_index kDeleted (disable_all c)) in *.
    assert (Hc1 : channels s1 !! a = Some c1) by (rewrite Hch1; apply lookup_insert_eq).
    eapply wp_mono.
    { apply (change_wp s1 a c1 disable_all); [done..|]. right. rewrite Hm1. apply lookup_insert_eq. }
    intros [] s2 (_ & _ & _ & Hr2 & _). rewrite Hr2. apply lookup_insert_eq.
  - intros (_ & Hnone & _).
    assert (Hr : registered (kernel s) !! m_fd c = Some (mk_event (m_events c) a)).
    { apply (wf_kernel _ Hwf). by exists a, c. }
    congruence.
Qed.
End properties.

(** ** An epoll instance *)
#[export] Instance map_epoll : Epoll (gmap Z epoll_event) := {
  registered k := k;
  epoll_ctl k op fd ev :=
    match op, k !! fd with
    | EPOLL_CTL_ADD, None | EPOLL_CTL_MOD, Some _ => inl (<[fd := ev]> k)
    | EPOLL_CTL_DEL, Some _ => inl (delete fd k)
    | EPOLL_CTL_ADD, Some _ => inr 17
    | _, None => inr 2
    end;
  after_close k fd := delete fd k
}.

#[export] Instance map_epoll_laws : EpollLaws (gmap Z epoll_event).
Proof.
  split; cbn; intros k fd.
  - intros ev k'. destruct (k !! fd); naive_solver.
  - intros ev [x ->]. eauto.
  - intros ev [x ->]. eauto.
  - done.
Qed.

(** Two channels, on descriptors 5 (added for reading) and 6 (new). *)
Definition sample_poller : poller (gmap Z epoll_event) unit :=
  mk_poller {[ 100 := set_index kAdded (enable_reading (Channel_new 5)); 200 := Channel_new 6 ]}
    {[ 5 := 100 ]} {[ 5 := mk_event 3 100 ]} KInitEventListSize.

Lemma sample_poller_wf : wf sample_poller.
Proof.
  split; cbn.
  - intros a c. rewrite lookup_insert_Some, lookup_singleton_Some. naive_solver.
  - intros fd a. rewrite lookup_singleton_Some. split.
    + intros [<- <-]. eexists. by rewrite lookup_insert_eq.
    + intros (c & Hc & Hfd & Hi). rewrite lookup_insert_Some, lookup_singleton_Some in Hc.
      destruct Hc as [[<- <-]|[_ [<- <-]]]; done.
  - intros fd ev. rewrite lookup_singleton_Some. split.
    + intros [<- <-]. eexists _, _. by rewrite lookup_insert_eq.
    + intros (a & c & Hc & Hfd & Hi & ->). rewrite lookup_insert_Some, lookup_singleton_Some in Hc.
      destruct Hc as [[<- <-]|[_ [<- <-]]]; done.
Qed.

Lemma change_reaches_kernel_witness :
  match change enable_writing 200 sample_poller with
  | Ok (_, s') => kernel s' !! 6 = Some (mk_event 4 200)
  | Err _ => False
  end.
Proof.
  pose proof (change_reaches_kernel sample_poller 200 (Channel_new 6) enable_writing sample_poller_wf
    ltac:(by vm_compute) ltac:(set_solver) ltac:(by left; vm_compute)) as H.
  unfold wp in H. destruct (change _ _ _) as [[[] s']|]; [|by destruct H as (_ & _ & ? & ? & ?)].
  destruct H as (_ & _ & _ & Hr). cbn in Hr. rewrite Hr. by vm_compute.
Defined.

Lemma removeChannel_forgets_witness :
  ∃ s', removeChannel 100 sample_poller = Ok (tt, s') ∧ m_channel_map s' !! 5 = None.
Proof.
  destruct (removeChannel_forgets sample_poller 100 _ sample_poller_wf ltac:(by vm_compute)
    ltac:(by right; vm_compute)) as (s' & Hrun & _ & Hm & _).
  exists s'. split; [exact Hrun|]. rewrite Hm. by vm_compute.
Defined.

Lemma poll_reports_witness :
  ∃ s', poll (inr [mk_event EPOLLIN 100]) [] sample_poller = Ok ([100], s') ∧
    m_revents <$> channels s' !! 100 = Some EPOLLIN.
Proof.
  assert (Hok : epoll_wait_ok sample_poller (inr [mk_event EPOLLIN 100])).
  { split_and!; [by vm_compute|apply NoDup_singleton|].
    intros ev ->%list_elem_of_singleton. exists 5, 3. by vm_compute. }
  destruct (poll_reports sample_poller [mk_event EPOLLIN 100] [] sample_poller_wf Hok)
    as (s' & Hrun & _ & [Hrep _] & _).
  exists s'. split; [exact Hrun|].
  destruct (Hrep (mk_event EPOLLIN 100)) as (c & _ & _ & Hc); [set_solver|]. cbn in Hc. by rewrite Hc.
Defined.

Lemma disableAll_twice_registers_witness :
  match disableAll 100 sample_poller with
  | Ok (_, s1) => match disableAll 100 s1 with
                  | Ok (_, s2) => kernel s2 !! 5 = Some (mk_event 0 100)
                  | Err e => add_refused s1 5 e
                  end
  | Err _ => False
  end.
Proof.
  pose proof (disableAll_twice_registers sample_poller 100 _ sample_poller_wf ltac:(by vm_compute) eq_refl)
    as H.
  unfold wp at 1 in H. destruct (disableAll 100 sample_poller) as [[[] s1]|]; [|exact H].
  destruct H as [_ H]. exact H.
Defined.
