(* ===== verification/OneLoop.v ===== *)
(** One loop per thread: the cached thread id (CurrentThread.h, CurrentThread.cpp), the
    choice of a poller (DefaultPoller.cpp), and the constructor, the destructor and
    the thread checks of [EventLoop] (EventLoop.h, EventLoop.cpp). What the loop does
    in between is in [EventLoop], [EpollPoller], [Reactor] and [TimerQueue]. *)
From S2P Require Import Prelude Channel EpollPoller.

(** The thread-local variables of a thread; zero before their first use. *)
Record block := mk_block {
  t_cachedTid : Z;
  t_loopInthisThread : option Z
}.

(** An [EventLoop], with its poller and the channels of its two descriptors. *)
Record event_loop (Ke : Type) := mk_event_loop {
  m_threadId : Z;
  m_wakeUpFd : Z;
  timerfd_ : Z;
  m_wakeUpChannel : Z;
  timerfdChannel_ : Z;
  m_poller : poller Ke handler
}.
Arguments mk_event_loop {Ke}.
Arguments m_threadId {Ke}.
Arguments m_wakeUpFd {Ke}.
Arguments timerfd_ {Ke}.
Arguments m_wakeUpChannel {Ke}.
Arguments timerfdChannel_ {Ke}.
Arguments m_poller {Ke}.

(** The program: its threads by the kernel's id, its loops by address. *)
Record program (Ke : Type) := mk_program {
  threads : gmap Z block;
  loops : gmap Z (event_loop Ke)
}.
Arguments mk_program {Ke}.
Arguments threads {Ke}.
Arguments loops {Ke}.

Section operations.
Context {Ke : Type} `{Epoll Ke}.
Implicit Types (p : program Ke) (t a : Z).

Definition tls t p : block := default (mk_block 0 None) (threads p !! t).
Definition set_tls t (f : block → block) p : program Ke :=
  mk_program (<[t := f (tls t p)]> (threads p)) (loops p).
Definition set_loops m p : program Ke := mk_program (threads p) m.
Definition with_poller (l : event_loop Ke) q : event_loop Ke :=
  mk_event_loop (m_threadId l) (m_wakeUpFd l) (timerfd_ l) (m_wakeUpChannel l) (timerfdChannel_ l) q.

(** [CurrentThread::cacheTid] and [getTid], run by thread [t]. *)
Definition cacheTid t : M (program Ke) unit :=
  b ← gets (tls t);
  if t_cachedTid b =? 0 then modify (set_tls t (λ b, mk_block t (t_loopInthisThread b))) else mret tt.

Definition getTid t : M (program Ke) Z :=
  b ← gets (tls t);
  (if t_cachedTid b =? 0 then cacheTid t else mret tt);;
  b ← gets (tls t);
  mret (t_cachedTid b).

(** A descriptor from [eventfd] or [timerfd_create]: [inl errno] if there is none. *)
Definition createEventfd (r : Z + Z) : outcome Z :=
  match r with inr eventfd => Ok eventfd | inl _ => Err FatalExit end.
Definition createTimerfd (r : Z + Z) : outcome Z :=
  match r with inr timerfd => Ok timerfd | inl _ => Err FatalExit end.

(** [Poller::newDefaultPoller]; [env] tells whether [MUDUO_USE_POLL] is set. *)
Definition newDefaultPoller (env : bool) (epollfd : option Ke) : outcome (option (poller Ke handler)) :=
  if env then Ok None
  else p ← EpollPoller_new epollfd; Ok (Some p).

Definition not_null (q : option (poller Ke handler)) : outcome (poller Ke handler) :=
  match q with Some q => Ok q | None => Err NullDeref end.

Definition run_poller (m : M (poller Ke handler) unit) (q : poller Ke handler) : outcome (poller Ke handler) :=
  match m q with Ok (_, q') => Ok q' | Err e => Err e end.

(** [EventLoop::EventLoop] run by thread [t] on the object at [a]. The constructor of
    its [TimerQueue] is the first to use the poller. *)
Definition EventLoop_new (env : bool) t a (wake timer : Z) (efd tfd : Z + Z) (epollfd : option Ke)
    : M (program Ke) unit :=
  wakeUpFd ← lift (createEventfd efd);
  poller ← lift (newDefaultPoller env epollfd);
  timerfd ← lift (createTimerfd tfd);
  q ← lift (not_null poller);
  q ← lift (run_poller (watch TimerHandleRead timer timerfd) q);
  threadId ← getTid t;
  b ← gets (tls t);
  match t_loopInthisThread b with
  | Some _ => fail FatalExit
  | None => modify (set_tls t (λ b, mk_block (t_cachedTid b) (Some a)))
  end;;
  q ← lift (run_poller (watch LoopHandleRead wake wakeUpFd) q);
  modify (λ p, set_loops (<[a := mk_event_loop threadId wakeUpFd timerfd wake timer q]> (loops p)) p).

Definition loop_at a : M (program Ke) (event_loop Ke) :=
  p ← gets id;
  match loops p !! a with Some l => mret l | None => fail UseAfterFree end.

(** [EventLoop::~EventLoop] run by thread [t], then the destructors of its members. *)
Definition EventLoop_destroy t a : M (program Ke) unit :=
  l ← loop_at a;
  q ← lift (run_poller (unwatch (m_wakeUpChannel l)) (m_poller l));
  modify (set_tls t (λ b, mk_block (t_cachedTid b) None));;
  q ← lift (run_poller (unwatch (timerfdChannel_ l)) q);
  modify (λ p, set_loops (delete a (loops p)) p).

Definition isInLoopThread t a : M (program Ke) bool :=
  l ← loop_at a;
  tid ← getTid t;
  mret (m_threadId l =? tid).

Definition abortNotInLoopThread : M (program Ke) unit := fail FatalExit.

Definition assertInLoopThread t a : M (program Ke) unit :=
  here ← isInLoopThread t a;
  if negb here then abortNotInLoopThread else mret tt.
End operations.

(** ** Invariant *)
Section invariant.
Context {Ke : Type} `{EpollLaws Ke}.
Implicit Types (p : program Ke) (t a : Z) (q : poller Ke handler).

(** The poller reports when [fd] can be read, to the channel at [channel]. *)
Definition watches q (channel fd : Z) : Prop :=
  ∃ c, channels q !! channel = Some c ∧ m_fd c = fd ∧ m_index c = kAdded ∧ m_events c = kReadEvent.

Definition serves (l : event_loop Ke) q : Prop :=
  wf q ∧ m_wakeUpChannel l ≠ timerfdChannel_ l ∧
  watches q (m_wakeUpChannel l) (m_wakeUpFd l) ∧ watches q (timerfdChannel_ l) (timerfd_ l).

(** Thread-local variables and loops agree. *)
Record inv p : Prop := {
  inv_tid t : 0 < t → t_cachedTid (tls t p) = 0 ∨ t_cachedTid (tls t p) = t;
  inv_loop t a : 0 < t →
    t_loopInthisThread (tls t p) = Some a ↔ ∃ l, loops p !! a = Some l ∧ m_threadId l = t;
  inv_serves a l : loops p !! a = Some l → 0 < m_threadId l ∧ serves l (m_poller l)
}.

Lemma watches_registered q channel fd :
  wf q → watches q channel fd → registered (kernel q) !! fd = Some (mk_event kReadEvent channel) ∧
    m_channel_map q !! fd = Some channel.
Proof.
  intros Hwf (c & Hc & <- & Hi & He). split.
  - apply (wf_kernel _ Hwf). exists channel, c. by rewrite He.
  - apply (wf_map _ Hwf). exists c. by rewrite Hi.
Qed.

Lemma tls_set t t' f p : tls t' (set_tls t f p) = if decide (t' = t) then f (tls t p) else tls t' p.
Proof.
  unfold tls at 1. cbn. case_decide as E.
  - subst. by rewrite lookup_insert_eq.
  - by rewrite lookup_insert_ne.
Qed.

(** [getTid] answers the thread's id and changes nothing but its cache. *)
Lemma getTid_ok t p :
  inv p → 0 < t → ∃ p', getTid t p = Ok (t, p') ∧ inv p' ∧ loops p' = loops p ∧
    ∀ t', t_loopInthisThread (tls t' p') = t_loopInthisThread (tls t' p).
Proof.
  intros Hinv Ht. unfold getTid, cacheTid. mstep.
  destruct (Z.eqb_spec (t_cachedTid (tls t p)) 0) as [E|E].
  - mstep. rewrite (proj2 (Z.eqb_eq _ _) E). mstep. set (p' := set_tls t _ p).
    assert (Hsame : ∀ t', t_loopInthisThread (tls t' p') = t_loopInthisThread (tls t' p)).
    { intros t'. unfold p'. rewrite tls_set. by case_decide; subst. }
    exists p'. split; [|split; [|done]].
    + unfold p'. rewrite tls_set, decide_True by done. done.
    + split; [| |apply Hinv].
      * intros t' Ht'. unfold p'. rewrite tls_set. case_decide; [subst; by right|]. by apply Hinv.
      * intros t' a Ht'. rewrite Hsame. by apply (inv_loop _ Hinv).
  - mstep. exists p. destruct (inv_tid _ Hinv t Ht) as [?|Heq]; [done|]. rewrite Heq. by split_and!.
Qed.

(** What the constructor makes of the poller. *)
Definition both_watched (k : Ke) (wake wakefd timer timerfd : Z) q : Prop :=
  wf q ∧ watches q wake wakefd ∧ watches q timer timerfd ∧
  registered (kernel q) = {[ wakefd := mk_event kReadEvent wake; timerfd := mk_event kReadEvent timer ]}.

Lemma watch_both_wp (k : Ke) wake wakefd timer timerfd :
  registered k = ∅ → wake ≠ timer → wakefd ≠ timerfd →
  wp (watch TimerHandleRead timer timerfd;; watch LoopHandleRead wake wakefd) (λ _, both_watched k wake wakefd timer timerfd)
    (λ e, e = FatalExit) (mk_poller ∅ ∅ k KInitEventListSize).
Proof.
  intros Hk Hch Hfd. apply wp_bind. eapply wp_mono; [apply watch_wp; [by apply wf_new|done|done]|].
  intros [] q1 (Hwf1 & Hch1 & Hm1 & Hr1 & _). eapply wp_mono.
  { apply watch_wp; [done|rewrite Hch1|rewrite Hm1]; rewrite lookup_insert_ne by done; apply lookup_empty. }
  intros [] q2 (Hwf2 & Hch2 & Hm2 & Hr2 & _). split_and!; [done|..].
  - eexists. rewrite Hch2, lookup_insert_eq. by split_and!.
  - eexists. rewrite Hch2, lookup_insert_ne, Hch1, lookup_insert_eq by done. by split_and!.
  - rewrite Hr2, Hr1. cbn [kernel]. by rewrite Hk.
Qed.

(** The program after thread [t] has made a loop at [a]. *)
Definition with_loop t a (l : event_loop Ke) p : program Ke :=
  set_loops (<[a := l]> (loops p)) (set_tls t (λ b, mk_block (t_cachedTid b) (Some a)) p).

Lemma EventLoop_new_wp t a wake timer wakefd timerfd (k : Ke) p :
  inv p → 0 < t → registered k = ∅ → wake ≠ timer → wakefd ≠ timerfd →
  wp (EventLoop_new false t a wake timer (inr wakefd) (inr timerfd) (Some k))
    (λ _ p', t_loopInthisThread (tls t p) = None ∧ ∃ p1 q,
       inv p1 ∧ loops p1 = loops p ∧
       (∀ t', t_loopInthisThread (tls t' p1) = t_loopInthisThread (tls t' p)) ∧
       both_watched k wake wakefd timer timerfd q ∧
       p' = with_loop t a (mk_event_loop t wakefd timerfd wake timer q) p1)
    (λ e, e = FatalExit) p.
Proof.
  intros Hinv Ht Hk Hch Hfd.
  pose proof (watch_both_wp k wake wakefd timer timerfd Hk Hch Hfd) as Hwp.
  unfold wp in Hwp. unfold mbind at 1, M_bind at 1 in Hwp.
  unfold EventLoop_new, wp. cbn [createEventfd createTimerfd newDefaultPoller EpollPoller_new not_null
    mbind outcome_bind]. rewrite !bind_lift. cbn [not_null]. rewrite bind_lift. unfold run_poller at 1.
  destruct (watch TimerHandleRead timer timerfd _) as [[[] q1]|e]; [|done].
  destruct (getTid_ok t p Hinv Ht) as (p1 & Hrun & Hinv1 & Hl1 & Hsame). rewrite (M_bind_ok _ _ _ _ _ Hrun).
  mstep. rewrite Hsame. destruct (t_loopInthisThread (tls t p)) eqn:Htls; [done|]. mstep.
  unfold run_poller. destruct (watch LoopHandleRead wake wakefd q1) as [[[] q2]|e]; [|done]. mstep.
  split; [done|]. exists p1, q2. by split_and!.
Qed.

Lemma inv_with_loop t a l p :
  inv p → 0 < t → loops p !! a = None → t_loopInthisThread (tls t p) = None → m_threadId l = t →
  serves l (m_poller l) → inv (with_loop t a l p).
Proof.
  intros Hinv Ht Ha Hnone Hl Hserves.
  assert (Htls : ∀ t', tls t' (with_loop t a l p) =
    if decide (t' = t) then mk_block (t_cachedTid (tls t p)) (Some a) else tls t' p) by (intros; apply tls_set).
  split.
  - intros t' Ht'. rewrite Htls. case_decide; [subst|]; by apply Hinv.
  - intros t' b Ht'. rewrite Htls. cbn [loops with_loop set_loops set_tls]. case_decide as E; split.
    + intros [= <-]. exists l. rewrite lookup_insert_eq. by split; [|congruence].
    + intros (l' & [[<- <-]|[_ Hb]]%lookup_insert_Some & El); [done|]. subst t'.
      assert (t_loopInthisThread (tls t p) = Some b) by (apply (inv_loop _ Hinv); eauto). congruence.
    + intros (l' & Hb & El)%(inv_loop _ Hinv); [|done]. exists l'. split; [|done].
      rewrite lookup_insert_ne; [done|]. congruence.
    + intros (l' & [[<- <-]|[_ Hb]]%lookup_insert_Some & El); [congruence|]. apply (inv_loop _ Hinv); eauto.
  - intros b l'. cbn [loops with_loop set_loops]. intros [[<- <-]|[_ Hb]]%lookup_insert_Some.
    + split; [by rewrite Hl|done].
    + by apply (inv_serves _ Hinv b).
Qed.

(** Taking both channels down always succeeds. *)
Lemma unwatch_watched q channel fd :
  wf q → watches q channel fd →
  ∃ q', run_poller (unwatch channel) q = Ok q' ∧ wf q' ∧ channels q' = delete channel (channels q) ∧
    registered (kernel q') = delete fd (registered (kernel q)).
Proof.
  intros Hwf Hw. destruct (watches_registered _ _ _ Hwf Hw) as [_ Hm]. destruct Hw as (c & Hc & <- & Hi & _).
  pose proof (unwatch_wp q channel c Hwf Hc (or_intror Hm)) as Hwp. unfold wp in Hwp. unfold run_poller.
  destruct (unwatch channel q) as [[[] q']|e]; [|by destruct Hwp]. exists q'. by destruct Hwp as (? & ? & _ & ? & _).
Qed.

Lemma EventLoop_destroy_ok t a l p :
  loops p !! a = Some l → serves l (m_poller l) →
  EventLoop_destroy t a p =
    Ok (tt, set_loops (delete a (loops p)) (set_tls t (λ b, mk_block (t_cachedTid b) None) p)).
Proof.
  intros Ha (Hwf & Hne & Hw & Ht). destruct (unwatch_watched _ _ _ Hwf Hw) as (q1 & Hrun1 & Hwf1 & Hch1 & _).
  assert (Ht1 : watches q1 (timerfdChannel_ l) (timerfd_ l)).
  { destruct Ht as (c & Hc & Hrest). exists c. split; [|done]. by rewrite Hch1, lookup_delete_ne. }
  destruct (unwatch_watched _ _ _ Hwf1 Ht1) as (q2 & Hrun2 & _).
  unfold EventLoop_destroy, loop_at. mstep. change (id p) with p. rewrite Ha. mstep. rewrite Hrun1. mstep.
  rewrite Hrun2. by mstep.
Qed.

Lemma inv_destroy a l p :
  inv p → loops p !! a = Some l →
  inv (set_loops (delete a (loops p)) (set_tls (m_threadId l) (λ b, mk_block (t_cachedTid b) None) p)).
Proof.
  intros Hinv Ha. set (t := m_threadId l). set (p' := set_loops _ _).
  assert (Htls : ∀ t', tls t' p' =
    if decide (t' = t) then mk_block (t_cachedTid (tls t p)) None else tls t' p) by (intros; apply tls_set).
  assert (Ht : 0 < t) by (by apply (inv_serves _ Hinv a l)).
  assert (Hown : t_loopInthisThread (tls t p) = Some a) by (apply (inv_loop _ Hinv); eauto).
  split.
  - intros t' Ht'. rewrite Htls. case_decide; [subst|]; by apply Hinv.
  - intros t' b Ht'. rewrite Htls. cbn [loops p' set_loops set_tls]. case_decide as E; split; [done|..].
    + subst t'. intros (l' & [Hne Hb]%lookup_delete_Some & El).
      assert (t_loopInthisThread (tls t p) = Some b) by (apply (inv_loop _ Hinv); eauto). congruence.
    + intros (l' & Hb & El)%(inv_loop _ Hinv); [|done]. exists l'. split; [|done].
      apply lookup_delete_Some. split; [|done]. intros <-. simplify_eq.
    + intros (l' & [_ Hb]%lookup_delete_Some & El). apply (inv_loop _ Hinv); eauto.
  - intros b l'. cbn [loops p' set_loops]. intros [_ Hb]%lookup_delete_Some. by apply (inv_serves _ Hinv b).
Qed.

(** ** The life of a program *)

(** A thread asks for its id, makes a loop, destroys its loop, or ends after that; a
    loop's poller changes while its own two channels stay. *)
Inductive step p p' : Prop :=
  | step_getTid t tid : 0 < t → getTid t p = Ok (tid, p') → step p p'
  | step_new t a wake timer wakefd timerfd k :
      0 < t → loops p !! a = None → registered k = ∅ → wake ≠ timer → wakefd ≠ timerfd →
      EventLoop_new false t a wake timer (inr wakefd) (inr timerfd) (Some k) p = Ok (tt, p') → step p p'
  | step_destroy a l :
      loops p !! a = Some l → EventLoop_destroy (m_threadId l) a p = Ok (tt, p') → step p p'
  | step_poller a l q :
      loops p !! a = Some l → serves l q → p' = set_loops (<[a := with_poller l q]> (loops p)) p → step p p'
  | step_exit t :
      (∀ a l, loops p !! a = Some l → m_threadId l ≠ t) → p' = mk_program (delete t (threads p)) (loops p) →
      step p p'.

Lemma program_inv_step p p' : inv p → step p p' → inv p'.
Proof.
  intros Hinv [t tid Ht Hrun|t a wake timer wakefd timerfd k Ht Ha Hk Hch Hfd Hrun|a l Ha Hrun|a l q Ha Hq ->|t Hno ->].
  - destruct (getTid_ok t p Hinv Ht) as (p1 & Hrun' & Hinv' & _). rewrite Hrun in Hrun'. by injection Hrun' as -> ->.
  - destruct (wp_ok _ _ _ _ _ _ Hrun (EventLoop_new_wp t a wake timer wakefd timerfd k p Hinv Ht Hk Hch Hfd))
      as (Hnone & p1 & q & Hinv1 & Hl1 & Hsame & (Hwf & Hw & Htm & _) & ->).
    apply inv_with_loop; [done|done|by rewrite Hl1|by rewrite Hsame|done|]. by split_and!.
  - rewrite (EventLoop_destroy_ok _ a l p Ha) in Hrun by by apply (inv_serves _ Hinv a).
    injection Hrun as <-. by apply inv_destroy.
  - set (p' := set_loops _ p).
    assert (Hback : ∀ b x, loops p' !! b = Some x →
      ∃ y, loops p !! b = Some y ∧ m_threadId y = m_threadId x ∧ serves x (m_poller x)).
    { intros b x. cbn. intros [[<- <-]|[_ Hb]]%lookup_insert_Some; [by exists l|]. exists x.
      by destruct (inv_serves _ Hinv _ _ Hb). }
    split; [apply Hinv| |].
    + intros t b Ht. etrans; [by apply (inv_loop _ Hinv)|]. split.
      * intros (x & Hx & El). cbn. destruct (decide (a = b)) as [->|Hne].
        { exists (with_poller l q). rewrite lookup_insert_eq. split; [done|]. by simplify_eq. }
        exists x. by rewrite lookup_insert_ne.
      * intros (x & (y & Hy & E & _)%Hback & El). exists y. by rewrite E.
    + intros b x (y & Hy & E & Hs)%Hback. rewrite <- E. split; [|done]. by apply (inv_serves _ Hinv b).
  - set (p' := mk_program _ _).
    assert (Htls : ∀ t', tls t' p' = if decide (t' = t) then mk_block 0 None else tls t' p).
    { intros t'. unfold tls. cbn. case_decide as E; [subst; by rewrite lookup_delete_eq|].
      by rewrite lookup_delete_ne. }
    split; [| |apply Hinv].
    + intros t' Ht'. rewrite Htls. case_decide; [by left|by apply Hinv].
    + intros t' b Ht'. rewrite Htls. case_decide as E; [subst t'|by apply (inv_loop _ Hinv)].
      split; [done|]. intros (l & Hl & El). by destruct (Hno _ _ Hl).
Qed.

Lemma inv_empty : inv (mk_program (Ke := Ke) ∅ ∅).
Proof.
  split; cbn [loops].
  - intros t _. left. done.
  - intros t a _. split; [done|]. by intros (l & ?%lookup_empty_Some & _).
  - by intros a l ?%lookup_empty_Some.
Qed.

Lemma inv_reachable p : rtc step (mk_program ∅ ∅) p → inv p.
Proof. revert p. apply rtc_ind_r; [apply inv_empty|]. intros p1 p2 _ Hs Hi. by eapply program_inv_step. Qed.
End invariant.

(** ** Properties *)
Section properties.
Context {Ke : Type} `{EpollLaws Ke}.
Implicit Types (p : program Ke) (t a : Z).

(** C16. In every state a program reaches, threads making, running and destroying
    their loops: a thread has at most one loop; [isInLoopThread] says yes in the
    thread that made the loop and in no other, and [assertInLoopThread] has the
    program exit in the others; the kernel reports the loop's two descriptors to
    their channels; and a thread that has a loop cannot make a second one. *)
Theorem one_loop_per_thread p :
  rtc step (mk_program ∅ ∅) p →
  (∀ a b la lb, loops p !! a = Some la → loops p !! b = Some lb → m_threadId la = m_threadId lb → a = b) ∧
  ∀ a l, loops p !! a = Some l →
    (∀ t, 0 < t → ∃ p', isInLoopThread t a p = Ok (bool_decide (m_threadId l = t), p') ∧ loops p' = loops p ∧
       assertInLoopThread t a p = (if bool_decide (m_threadId l = t) then Ok (tt, p') else Err FatalExit)) ∧
    registered (kernel (m_poller l)) !! m_wakeUpFd l = Some (mk_event kReadEvent (m_wakeUpChannel l)) ∧
    registered (kernel (m_poller l)) !! timerfd_ l = Some (mk_event kReadEvent (timerfdChannel_ l)) ∧
    ∀ b wake timer wakefd timerfd k, registered k = ∅ → wake ≠ timer → wakefd ≠ timerfd →
      EventLoop_new false (m_threadId l) b wake timer (inr wakefd) (inr timerfd) (Some k) p = Err FatalExit.
Proof.
  intros Hinv%inv_reachable. split.
  - intros a b la lb Ha Hb E. destruct (inv_serves _ Hinv _ _ Ha) as [Ht _].
    assert (t_loopInthisThread (tls (m_threadId la) p) = Some a) by (apply (inv_loop _ Hinv); eauto).
    assert (t_loopInthisThread (tls (m_threadId la) p) = Some b) by (apply (inv_loop _ Hinv); eauto).
    congruence.
  - intros a l Ha. destruct (inv_serves _ Hinv _ _ Ha) as (Hpos & Hwf & _ & Hw & Htm). split_and!.
    + intros t Ht. destruct (getTid_ok t p Hinv Ht) as (p' & Hrun & _ & Hl & _).
      assert (Hin : isInLoopThread t a p = Ok (bool_decide (m_threadId l = t), p')).
      { unfold isInLoopThread, loop_at. mstep. change (id p) with p. rewrite Ha. mstep.
        rewrite (M_bind_ok _ _ _ _ _ Hrun). mstep. do 2 f_equal.
        destruct (Z.eqb_spec (m_threadId l) t); by case_bool_decide. }
      exists p'. split; [done|]. split; [done|]. unfold assertInLoopThread.
      rewrite (M_bind_ok _ _ _ _ _ Hin). by destruct (bool_decide _).
    + by apply watches_registered.
    + by apply watches_registered.
    + intros b wake timer wakefd timerfd k Hk Hch Hfd.
      pose proof (EventLoop_new_wp (m_threadId l) b wake timer wakefd timerfd k p Hinv Hpos Hk Hch Hfd) as Hwp.
      unfold wp in Hwp. destruct (EventLoop_new _ _ _ _ _ _ _ _ _) as [[[] p']|e]; [|by subst].
      destruct Hwp as (Hnone & _).
      assert (t_loopInthisThread (tls (m_threadId l) p) = Some a) by (apply (inv_loop _ Hinv); eauto). congruence.
Qed.

(** C27. The constructor fails in each of these ways and no other: the program exits
    if a descriptor or the epoll instance cannot be had; with [MUDUO_USE_POLL] set
    the poller is null and the first use of it, by the timer queue's constructor,
    goes through the null pointer. Otherwise, in a thread without a loop, it returns
    with the kernel watching exactly the loop's two descriptors, or exits because the
    kernel refuses to. The destructor, run by the loop's thread, never fails, and the
    thread can make a loop again; run by another thread it takes that one's mark
    away and leaves the mark of a loop that is gone, so that the loop's thread exits
    when it makes another. *)
Theorem EventLoop_life p t a wake timer wakefd timerfd (k : Ke) :
  rtc step (mk_program ∅ ∅) p → 0 < t → registered k = ∅ → wake ≠ timer → wakefd ≠ timerfd →
  (∀ env efd tfd epollfd, (∃ e, efd = inl e) ∨ (env = false ∧ epollfd = None) ∨ (∃ e, tfd = inl e) →
     EventLoop_new env t a wake timer efd tfd epollfd p = Err FatalExit) ∧
  (∀ epollfd, EventLoop_new true t a wake timer (inr wakefd) (inr timerfd) epollfd p = Err NullDeref) ∧
  wp (EventLoop_new false t a wake timer (inr wakefd) (inr timerfd) (Some k))
    (λ _ p', t_loopInthisThread (tls t p') = Some a ∧ ∃ l, loops p' = <[a := l]> (loops p) ∧ m_threadId l = t ∧
       registered (kernel (m_poller l)) =
         {[ wakefd := mk_event kReadEvent wake; timerfd := mk_event kReadEvent timer ]})
    (λ e, e = FatalExit) p ∧
  (∀ b l u, loops p !! b = Some l → ∃ p', EventLoop_destroy u b p = Ok (tt, p') ∧ loops p' = delete b (loops p) ∧
     t_loopInthisThread (tls u p') = None ∧
     (u ≠ m_threadId l → t_loopInthisThread (tls (m_threadId l) p') = Some b)).
Proof.
  intros Hinv%inv_reachable Ht Hk Hch Hfd. split_and!.
  - intros env efd tfd epollfd Hno. unfold EventLoop_new. destruct efd as [e1|d1]; [done|].
    destruct env, epollfd, tfd as [e2|d2]; try done; by destruct Hno as [[? ?]|[[? ?]|[? ?]]].
  - done.
  - eapply wp_mono; [by apply EventLoop_new_wp|].
    intros [] p' (_ & p1 & q & _ & Hl & _ & (_ & _ & _ & Hr) & ->). cbn [with_loop loops set_loops]. split.
    + change (tls t (with_loop t a (mk_event_loop t wakefd timerfd wake timer q) p1))
        with (tls t (set_tls t (λ b, mk_block (t_cachedTid b) (Some a)) p1)).
      by rewrite tls_set, decide_True.
    + eexists. split; [by rewrite Hl|]. by split.
  - intros b l u Hb. destruct (inv_serves _ Hinv _ _ Hb) as [Hpos Hs]. eexists.
    split; [by apply (EventLoop_destroy_ok _ _ l)|]. split; [done|].
    set (p' := set_tls u _ p). change (tls u (set_loops (delete b (loops p)) p')) with (tls u p').
    change (tls (m_threadId l) (set_loops (delete b (loops p)) p')) with (tls (m_threadId l) p').
    unfold p'. rewrite !tls_set, decide_True by done. split; [done|]. intros Hne.
    rewrite decide_False by done. apply (inv_loop _ Hinv); eauto.
Qed.
End properties.

(** ** Thread 7 makes a loop at 1000 *)
Definition sample_program : program (gmap Z epoll_event) :=
  match EventLoop_new false 7 1000 2000 3000 (inr 5) (inr 6) (Some ∅) (mk_program ∅ ∅) with
  | Ok (_, p) => p
  | Err _ => mk_program ∅ ∅
  end.

Lemma sample_program_reachable : rtc step (mk_program ∅ ∅) sample_program.
Proof. apply rtc_once. by apply (step_new _ _ 7 1000 2000 3000 5 6 ∅). Qed.

Lemma one_loop_per_thread_witness :
  ∃ l, loops sample_program !! 1000 = Some l ∧
    assertInLoopThread 8 1000 sample_program = Err FatalExit ∧
    EventLoop_new false 7 4000 5000 6000 (inr 8) (inr 9) (Some ∅) sample_program = Err FatalExit.
Proof.
  assert (Hl : ∃ l, loops sample_program !! 1000 = Some l ∧ m_threadId l = 7) by (eexists; split; by vm_compute).
  destruct Hl as (l & Hl & Ht). exists l. split; [exact Hl|].
  destruct (one_loop_per_thread sample_program sample_program_reachable) as [_ Hall].
  destruct (Hall _ _ Hl) as (Hin & _ & _ & Hnew). rewrite Ht in Hin, Hnew. split.
  - destruct (Hin 8 ltac:(lia)) as (p' & _ & _ & Ha). exact Ha.
  - apply Hnew; [done|lia|lia].
Defined.

Lemma EventLoop_life_witness :
  EventLoop_new true 8 4000 5000 6000 (inr 8) (inr 9) (Some ∅) sample_program = Err NullDeref ∧
  ∃ p', EventLoop_destroy 8 1000 sample_program = Ok (tt, p') ∧
    t_loopInthisThread (tls 7 p') = Some 1000 ∧ loops p' !! 1000 = None.
Proof.
  destruct (EventLoop_life sample_program 8 4000 5000 6000 8 9 ∅ sample_program_reachable) as (_ & Hnull & _ & Hd);
    [lia|done|lia|lia|]. split; [apply Hnull|].
  assert (Hl : ∃ l, loops sample_program !! 1000 = Some l ∧ m_threadId l = 7) by (eexists; split; by vm_compute).
  destruct Hl as (l & Hl & Ht). destruct (Hd 1000 l 8 Hl) as (p' & Hrun & Hloops & _ & Hmark).
  exists p'. split; [exact Hrun|]. split; [rewrite Ht in Hmark; apply Hmark; lia|].
  rewrite Hloops. apply lookup_delete_eq.
Defined.
