(* ===== verification/EventLoop.v ===== *)
(** [EventLoop] (EventLoop.h, EventLoop.cpp) and the threads that hand it work:
    the queue of functors, the wake-up descriptor, and [loop] with its blocking
    [poll], as interleaved atomic steps of the loop's thread and of the others.
    The timers it forwards to are in [TimerQueue], the channels in [EpollPoller]. *)
From S2P Require Import Prelude.

(** eventfd(2), non-blocking: [eventfd_write] adds to the counter or fails with
    [EAGAIN] when it is full; [eventfd_read] takes all of it. *)
Class EventFd (E : Type) := {
  eventfd_readable : E → bool;
  eventfd_write : E → E;
  eventfd_read : E → E
}.

(** Either way a write leaves the descriptor readable; a read does not. *)
Class EventFdLaws (E : Type) `{EventFd E} := {
  write_readable e : eventfd_readable (eventfd_write e) = true;
  read_unreadable e : eventfd_readable (eventfd_read e) = false
}.

(** What client code asks of the loop, from its own thread or from another. *)
Inductive call (F : Type) :=
  | RunInLoop (cb : F)
  | QueueInLoop (cb : F)
  | Quit.
Arguments RunInLoop {F} cb.
Arguments QueueInLoop {F} cb.
Arguments Quit {F}.

(** The atomic actions of the calls. *)
Inductive instr (F : Type) :=
  | PushPending (cb : F)     (** [m_pendingFunctors.push_back(cb)], under the mutex *)
  | WakeAfterQueue           (** [if (!isInLoopThread() || m_callingPendingFunctors) wakeUp()] *)
  | SetQuit                  (** [m_quit = true] *)
  | WakeAfterQuit            (** [if (!isInLoopThread()) wakeUp()] *)
  | HandRead                 (** the callback of the wake-up channel *)
  | Invoke (cb : F).         (** [cb()] *)
Arguments PushPending {F} cb.
Arguments WakeAfterQueue {F}.
Arguments SetQuit {F}.
Arguments WakeAfterQuit {F}.
Arguments HandRead {F}.
Arguments Invoke {F} cb.

(** Where the loop's thread is. *)
Inductive phase :=
  | NotLooping      (** before [loop()] *)
  | Test            (** at [while (!m_quit)] *)
  | Polling         (** inside [epoll_wait] *)
  | Dispatching     (** handling the active channels *)
  | Swapping        (** in [doPendingFunctors], the flag set, before the swap *)
  | Calling         (** running the functors swapped out *)
  | Returned.       (** after [loop()] *)

#[global] Instance phase_eq_decision : EqDecision phase.
Proof. solve_decision. Defined.

Record state (E F : Type) := mk_state {
  wakeUpFd : E;
  m_pendingFunctors : list F;
  m_callingPendingFunctors : bool;
  m_looping : bool;
  m_quit : bool;
  at_ : phase;
  todo : list (instr F);             (** what the loop's thread is in the middle of *)
  functors : list F;                 (** [functors] in [doPendingFunctors]: still to run *)
  threads : list (list (instr F));   (** what each other thread is in the middle of *)
  submitted : list F;                (** every functor queued, in the order of queueing *)
  executed : list F;                 (** every queued functor run, in order *)
  queued_early : bool                (** the loop's thread queued one before [loop()] *)
}.
Arguments mk_state {E F}.
Arguments wakeUpFd {E F}.
Arguments m_pendingFunctors {E F}.
Arguments m_callingPendingFunctors {E F}.
Arguments m_looping {E F}.
Arguments m_quit {E F}.
Arguments at_ {E F}.
Arguments todo {E F}.
Arguments functors {E F}.
Arguments threads {E F}.
Arguments submitted {E F}.
Arguments executed {E F}.
Arguments queued_early {E F}.

Section machine.
(** What a functor asks of the loop when it runs. *)
Context {E F : Type} `{EventFd E} (body : F → list (call F)).
Implicit Types (s : state E F).

Definition set_todo l s : state E F := mk_state (wakeUpFd s) (m_pendingFunctors s)
  (m_callingPendingFunctors s) (m_looping s) (m_quit s) (at_ s) l (functors s) (threads s)
  (submitted s) (executed s) (queued_early s).
Definition set_threads l s : state E F := mk_state (wakeUpFd s) (m_pendingFunctors s)
  (m_callingPendingFunctors s) (m_looping s) (m_quit s) (at_ s) (todo s) (functors s) l
  (submitted s) (executed s) (queued_early s).
Definition set_at p s : state E F := mk_state (wakeUpFd s) (m_pendingFunctors s)
  (m_callingPendingFunctors s) (m_looping s) (m_quit s) p (todo s) (functors s) (threads s)
  (submitted s) (executed s) (queued_early s).
Definition set_quit b s : state E F := mk_state (wakeUpFd s) (m_pendingFunctors s)
  (m_callingPendingFunctors s) (m_looping s) b (at_ s) (todo s) (functors s) (threads s)
  (submitted s) (executed s) (queued_early s).
Definition set_looping b s : state E F := mk_state (wakeUpFd s) (m_pendingFunctors s)
  (m_callingPendingFunctors s) b (m_quit s) (at_ s) (todo s) (functors s) (threads s)
  (submitted s) (executed s) (queued_early s).
Definition set_calling b s : state E F := mk_state (wakeUpFd s) (m_pendingFunctors s)
  b (m_looping s) (m_quit s) (at_ s) (todo s) (functors s) (threads s)
  (submitted s) (executed s) (queued_early s).
Definition set_wakeUpFd e s : state E F := mk_state e (m_pendingFunctors s)
  (m_callingPendingFunctors s) (m_looping s) (m_quit s) (at_ s) (todo s) (functors s) (threads s)
  (submitted s) (executed s) (queued_early s).

(** [EventLoop::EventLoop], next to [n] other threads. *)
Definition EventLoop_new (eventfd : E) (n : nat) : state E F :=
  mk_state eventfd [] false false false NotLooping [] [] (replicate n []) [] [] false.

Definition wakeUp s : state E F := set_wakeUpFd (eventfd_write (wakeUpFd s)) s.
Definition handRead s : state E F := set_wakeUpFd (eventfd_read (wakeUpFd s)) s.

(** The critical section of [queueInLoop]. *)
Definition push_pending (cb : F) (early : bool) s : state E F :=
  mk_state (wakeUpFd s) (m_pendingFunctors s ++ [cb]) (m_callingPendingFunctors s) (m_looping s)
    (m_quit s) (at_ s) (todo s) (functors s) (threads s) (submitted s ++ [cb]) (executed s)
    (queued_early s || early).

(** The critical section of [doPendingFunctors]. *)
Definition swap_pending s : state E F :=
  mk_state (wakeUpFd s) [] (m_callingPendingFunctors s) (m_looping s) (m_quit s) (at_ s) (todo s)
    (m_pendingFunctors s) (threads s) (submitted s) (executed s) (queued_early s).

(** One functor of the range-based [for] in [doPendingFunctors]. *)
Definition next_functor (f : F) (fs : list F) s : state E F :=
  mk_state (wakeUpFd s) (m_pendingFunctors s) (m_callingPendingFunctors s) (m_looping s)
    (m_quit s) (at_ s) [Invoke f] fs (threads s) (submitted s) (executed s ++ [f]) (queued_early s).

(** The calls as sequences of actions. *)
Definition queueInLoop (cb : F) : list (instr F) := [PushPending cb; WakeAfterQueue].
Definition runInLoop (isInLoopThread : bool) (cb : F) : list (instr F) :=
  if isInLoopThread then [Invoke cb] else queueInLoop cb.
Definition quit : list (instr F) := [SetQuit; WakeAfterQuit].
Definition compile (isInLoopThread : bool) (c : call F) : list (instr F) :=
  match c with
  | RunInLoop cb => runInLoop isInLoopThread cb
  | QueueInLoop cb => queueInLoop cb
  | Quit => quit
  end.
Definition compile_all (isInLoopThread : bool) (cs : list (call F)) : list (instr F) :=
  cs ≫= compile isInLoopThread.

(** An action's effect on the shared state. *)
Definition exec (isInLoopThread : bool) (i : instr F) s : state E F :=
  match i with
  | PushPending cb =>
      push_pending cb (isInLoopThread && bool_decide (at_ s = NotLooping)) s
  | WakeAfterQueue =>
      if negb isInLoopThread || m_callingPendingFunctors s then wakeUp s else s
  | SetQuit => set_quit true s
  | WakeAfterQuit => if negb isInLoopThread then wakeUp s else s
  | HandRead => handRead s
  | Invoke cb => s
  end.

(** What an action makes its thread do next. *)
Definition unroll (i : instr F) : list (instr F) :=
  match i with Invoke cb => compile_all true (body cb) | _ => [] end.

Inductive step s : state E F → Prop :=
  (** another thread begins a call, or goes on with one *)
  | thread_call t c :
      threads s !! t = Some [] →
      step s (set_threads (<[t := compile false c]> (threads s)) s)
  | thread_step t i rest :
      threads s !! t = Some (i :: rest) →
      step s (set_threads (<[t := rest]> (threads s)) (exec false i s))
  (** the loop's thread goes on with what it is doing *)
  | loop_step i rest :
      todo s = i :: rest → step s (set_todo (unroll i ++ rest) (exec true i s))
  (** the loop's thread makes calls before [loop()], and calls it *)
  | early_call c :
      at_ s = NotLooping → todo s = [] → step s (set_todo (compile true c) s)
  | loop_begin :
      at_ s = NotLooping → todo s = [] →
      step s (set_at Test (set_quit false (set_looping true s)))
  | loop_test :
      at_ s = Test →
      step s (if m_quit s then set_at Returned (set_looping false s) else set_at Polling s)
  (** [epoll_wait] returns: with the wake-up channel among the active ones, which
      needs it readable, or for another reason; [before], [after] and [cs] are what
      the callbacks of the other channels ask for *)
  | poll_woken before after :
      at_ s = Polling → eventfd_readable (wakeUpFd s) = true →
      step s (set_at Dispatching
        (set_todo (compile_all true before ++ HandRead :: compile_all true after) s))
  | poll_other cs :
      at_ s = Polling →
      step s (set_at Dispatching (set_todo (compile_all true cs) s))
  | do_pending :
      at_ s = Dispatching → todo s = [] → step s (set_at Swapping (set_calling true s))
  | do_swap : at_ s = Swapping → step s (set_at Calling (swap_pending s))
  | do_functor f fs :
      at_ s = Calling → todo s = [] → functors s = f :: fs → step s (next_functor f fs s)
  | do_done :
      at_ s = Calling → todo s = [] → functors s = [] →
      step s (set_at Test (set_calling false s)).
End machine.

(** ** Invariant *)
Section invariant.
Context {E F : Type} `{EventFdLaws E} (body : F → list (call F)).
Implicit Types (s : state E F) (l : list (instr F)).

(** A queueing or quitting call in progress still has its wake-up to do. *)
Fixpoint ok l : bool :=
  match l with
  | [] => true
  | PushPending _ :: l => (if l is WakeAfterQueue :: _ then true else false) && ok l
  | SetQuit :: l => (if l is WakeAfterQuit :: _ then true else false) && ok l
  | _ :: l => ok l
  end.

(** Only the loop's thread reads the descriptor and calls functors. *)
Definition foreign (i : instr F) : bool :=
  match i with HandRead | Invoke _ => false | _ => true end.

Definition reads (i : instr F) : bool := if i is HandRead then true else false.

Definition is_waker (i : instr F) : bool :=
  match i with WakeAfterQueue | WakeAfterQuit => true | _ => false end.

(** The descriptor is readable, or a thread is about to make it so. *)
Definition wake_due s : Prop :=
  eventfd_readable (wakeUpFd s) = true ∨
  ∃ t i rest, threads s !! t = Some (i :: rest) ∧ is_waker i = true.

Record inv s : Prop := {
  inv_threads t l : threads s !! t = Some l → ok l = true ∧ forallb foreign l = true;
  inv_todo : ok (todo s) = true;
  inv_reads : at_ s = Calling ∨ at_ s = NotLooping → existsb reads (todo s) = false;
  inv_idle : at_ s = Test ∨ at_ s = Polling ∨ at_ s = Swapping ∨ at_ s = Returned → todo s = [];
  inv_calling : m_callingPendingFunctors s = true ↔ at_ s = Swapping ∨ at_ s = Calling;
  inv_functors : at_ s ≠ Calling → functors s = [];
  inv_fifo : submitted s = executed s ++ functors s ++ m_pendingFunctors s;
  inv_due : queued_early s = false → m_pendingFunctors s ≠ [] →
    at_ s = NotLooping ∨ at_ s = Test ∨ at_ s = Polling ∨ at_ s = Calling →
    wake_due s ∨ (at_ s = Calling ∧ ∃ rest, todo s = WakeAfterQueue :: rest);
  inv_quit : m_quit s = true → at_ s = Polling → wake_due s
}.

Lemma ok_app l1 l2 : ok l1 = true → ok l2 = true → ok (l1 ++ l2) = true.
Proof.
  intros H1 H2. induction l1 as [|i l1 IH]; [done|]. cbn [ok app] in *.
  destruct i; try (by apply IH); apply andb_true_iff in H1 as [Hh H1]; rewrite IH by done;
    by destruct l1 as [|[] ?].
Qed.

Lemma ok_compile b (c : call F) : ok (compile b c) = true.
Proof. by destruct c, b. Qed.

Lemma ok_compile_all b (cs : list (call F)) : ok (compile_all b cs) = true.
Proof. induction cs as [|c cs IH]; [done|]. apply ok_app; [apply ok_compile|exact IH]. Qed.

Lemma reads_compile_all b (cs : list (call F)) : existsb reads (compile_all b cs) = false.
Proof.
  induction cs as [|c cs IH]; [done|]. unfold compile_all. cbn. rewrite existsb_app.
  apply orb_false_iff. split; [by destruct c, b|exact IH].
Qed.

Lemma ok_tail i l : ok (i :: l) = true → ok l = true.
Proof. destruct i; cbn; try done; by intros [_ ?]%andb_true_iff. Qed.

Lemma loop_inv_new e n : inv (EventLoop_new (F := F) e n).
Proof.
  split; cbn; try done.
  - by intros t l [-> _]%lookup_replicate.
  - split; [done|]. by intros [?|?].
Qed.

(** Whatever another thread does, a wake-up is due afterwards. *)
Lemma thread_step_due s t i rest :
  threads s !! t = Some (i :: rest) → ok (i :: rest) = true →
  forallb foreign (i :: rest) = true →
  wake_due (set_threads (<[t := rest]> (threads s)) (exec false i s)).
Proof.
  intros Ht Hok Hf. assert (Hlt : (t < length (threads s))%nat) by by eapply lookup_lt_Some.
  destruct i; try done; cbn in *.
  - right. destruct rest as [|[] rest]; try done. exists t, WakeAfterQueue, rest. cbn.
    by rewrite list_lookup_insert_eq.
  - left. apply write_readable.
  - right. destruct rest as [|[] rest]; try done. exists t, WakeAfterQuit, rest. cbn.
    by rewrite list_lookup_insert_eq.
  - left. apply write_readable.
Qed.

Lemma wake_due_mono s s' :
  (eventfd_readable (wakeUpFd s) = true → eventfd_readable (wakeUpFd s') = true) →
  (∀ t i rest, threads s !! t = Some (i :: rest) → threads s' !! t = Some (i :: rest)) →
  wake_due s → wake_due s'.
Proof. intros H1 H2 [?|(t & i & rest & ? & ?)]; [left|right; exists t, i, rest]; auto. Qed.

Lemma inv_thread_step s t i rest :
  inv s → threads s !! t = Some (i :: rest) →
  inv (set_threads (<[t := rest]> (threads s)) (exec false i s)).
Proof.
  intros Hinv Ht. destruct (inv_threads _ Hinv t _ Ht) as [Hok Hf].
  pose proof (thread_step_due s t i rest Ht Hok Hf) as Hdue.
  destruct Hinv as [I1 I2 I3 I4 I5 I6 I7 I8 I9].
  assert (Hthreads : ∀ t' l, <[t := rest]> (threads s) !! t' = Some l →
    ok l = true ∧ forallb foreign l = true).
  { intros t' l Hl. destruct (decide (t = t')) as [<-|Hne].
    - rewrite list_lookup_insert_eq in Hl by by eapply lookup_lt_Some. simplify_eq.
      split; [by eapply ok_tail|]. by apply andb_true_iff in Hf as [_ ?].
    - rewrite list_lookup_insert_ne in Hl by done. by eapply I1. }
  destruct i; try (by cbn in Hf); split; cbn in *; auto.
  rewrite I7, <- !app_assoc. done.
Qed.

Lemma inv_thread_call s t c :
  inv s → threads s !! t = Some [] →
  inv (set_threads (<[t := compile false c]> (threads s)) s).
Proof.
  intros Hinv Ht.
  assert (Hdue : wake_due s → wake_due (set_threads (<[t := compile false c]> (threads s)) s)).
  { apply wake_due_mono; [done|]. intros t' i rest Ht'. cbn.
    rewrite list_lookup_insert_ne; [done|]. intros <-. congruence. }
  destruct Hinv as [I1 I2 I3 I4 I5 I6 I7 I8 I9]. split; cbn in *; auto.
  - intros t' l Hl. destruct (decide (t = t')) as [<-|Hne].
    + rewrite list_lookup_insert_eq in Hl by by eapply lookup_lt_Some. simplify_eq.
      split; [apply ok_compile|by destruct c].
    + rewrite list_lookup_insert_ne in Hl by done. by eapply I1.
  - intros Hq Hp Hat. destruct (I8 Hq Hp Hat); auto.
Qed.

(** An action of the loop's thread never takes a wake-up away, unless it is the
    read of the descriptor. *)
Lemma loop_exec_due s l i :
  reads i = false → wake_due s → wake_due (set_todo l (exec true i s)).
Proof.
  intros Hi. apply wake_due_mono; [|by destruct i; cbn; repeat case_match].
  destruct i; cbn; try done; repeat case_match; auto. intros _. apply write_readable.
Qed.

(** What no action changes. *)
Lemma exec_frame b i s :
  at_ (exec b i s) = at_ s ∧ functors (exec b i s) = functors s ∧
  threads (exec b i s) = threads s ∧ executed (exec b i s) = executed s ∧
  m_callingPendingFunctors (exec b i s) = m_callingPendingFunctors s.
Proof. destruct i; cbn; repeat case_match; done. Qed.

Lemma exec_fifo b i s :
  submitted s = executed s ++ functors s ++ m_pendingFunctors s →
  submitted (exec b i s) =
    executed (exec b i s) ++ functors (exec b i s) ++ m_pendingFunctors (exec b i s).
Proof.
  intros Hs. destruct i; cbn; repeat case_match; try done. cbn. by rewrite Hs, <- !app_assoc.
Qed.

(** The loop's thread, while it runs functors, keeps the wake-up it owes first in
    line; what it queues before [loop()] is flagged. *)
Lemma exec_due s i rest :
  ok (i :: rest) = true → reads i = false → m_callingPendingFunctors s = true →
  (m_pendingFunctors s ≠ [] → wake_due s ∨ ∃ r, i :: rest = WakeAfterQueue :: r) →
  let s' := set_todo (unroll body i ++ rest) (exec true i s) in
  m_pendingFunctors s' ≠ [] → wake_due s' ∨ ∃ r, todo s' = WakeAfterQueue :: r.
Proof.
  intros Hok Hr Hcall Hdue s'. pose proof (loop_exec_due s (unroll body i ++ rest) i Hr) as Hmono.
  destruct i as [f| | | | |f]; try done; cbn in *.
  - intros _. right. destruct rest as [|[] rest]; try done. eauto.
  - intros _. left. left. subst s'. cbn. rewrite Hcall. apply write_readable.
  - intros [?|[r [=]]]%Hdue. left. by apply Hmono.
  - intros [?|[r [=]]]%Hdue. left. by apply Hmono.
  - intros [?|[r [=]]]%Hdue. left. by apply Hmono.
Qed.

Lemma exec_due_early s i l :
  reads i = false → at_ s = NotLooping →
  (queued_early s = false → m_pendingFunctors s ≠ [] → wake_due s) →
  let s' := set_todo l (exec true i s) in
  queued_early s' = false → m_pendingFunctors s' ≠ [] → wake_due s'.
Proof.
  intros Hr Hat Hdue s' Hearly Hp.
  assert (queued_early s = false ∧ m_pendingFunctors s ≠ []) as [H1 H2].
  { destruct i; subst s'; cbn in *; repeat case_match; try done.
    by rewrite bool_decide_true, orb_true_r in Hearly. }
  apply loop_exec_due; auto.
Qed.

Lemma inv_loop_step s i rest :
  inv s → todo s = i :: rest → inv (set_todo (unroll body i ++ rest) (exec true i s)).
Proof.
  intros Hinv Htodo. destruct (exec_frame true i s) as (E1 & E2 & E3 & E4 & E5).
  pose proof (exec_fifo true i s) as Hfifo. destruct Hinv as [I1 I2 I3 I4 I5 I6 I7 I8 I9].
  pose proof (exec_due s i rest) as Hdue. pose proof (exec_due_early s i (unroll body i ++ rest)) as Hearly.
  rewrite Htodo in *.
  assert (Hbusy : ¬ (at_ s = Test ∨ at_ s = Polling ∨ at_ s = Swapping ∨ at_ s = Returned)).
  { intros Hat. by specialize (I4 Hat). }
  assert (Hreads : at_ s = Calling ∨ at_ s = NotLooping →
    reads i = false ∧ existsb reads (unroll body i ++ rest) = false).
  { intros Hat%I3. cbn in Hat. apply orb_false_iff in Hat as [Hr Hrest]. split; [done|].
    rewrite existsb_app, Hrest, orb_false_r. destruct i; try done. apply reads_compile_all. }
  split; cbn -[exec unroll]; rewrite ?E1, ?E2, ?E3, ?E5; try done.
  - apply ok_app; [|by eapply ok_tail]. destruct i; try done. apply ok_compile_all.
  - apply Hreads.
  - rewrite <- E2. by apply Hfifo.
  - intros Hq Hp Hat. destruct (decide (at_ s = Calling)) as [Hc|Hc].
    + destruct Hdue as [?|[r ?]]; [done|by apply Hreads; left|apply I5; auto| |exact Hp|by left|].
      * intros Hp'. assert (queued_early s = false) as Hq'.
        { destruct i; cbn in Hq; repeat case_match; try done. by apply orb_false_iff in Hq as [? _]. }
        destruct (I8 Hq' Hp') as [?|[_ ?]]; auto.
      * right. split; [done|]. exists r. done.
    + assert (at_ s = NotLooping) as Hn by tauto. left.
      apply Hearly; [by apply Hreads; right|done| |exact Hq|exact Hp].
      intros Hq' Hp'. destruct (I8 Hq' Hp') as [?|[? _]]; auto; congruence.
  - intros _ Hat. exfalso. apply Hbusy. auto.
Qed.

(** The fields of [inv] that a change of phase settles by itself. *)
Ltac phase I4 I5 I6 I8 :=
  first
  [ done
  | by (intros _; apply I6)
  | by (intros _; apply I4; auto)
  | by (rewrite I5; split; intros [?|?]; done)
  | by (split; auto)
  | by (split; [done|]; intros [?|?]; done)
  | by (intros [?|?]; done)
  | by (intros [?|[?|[?|?]]]; done)
  | by (intros _ _ [?|[?|[?|?]]]; done)
  | by (intros Hq Hp _; destruct (I8 Hq Hp) as [?|[? _]]; auto; done)
  | idtac ].

Lemma inv_step s s' : inv s → step body s s' → inv s'.
Proof.
  intros Hinv Hstep. destruct Hstep as
    [t c Ht|t i rest Ht|i rest Htodo|c Hat Htodo|Hat Htodo|Hat|before after Hat Hr|cs Hat|Hat Htodo
    |Hat|f fs Hat Htodo Hfs|Hat Htodo Hfs];
    [by apply inv_thread_call|by apply inv_thread_step|by apply inv_loop_step|..];
    destruct Hinv as [I1 I2 I3 I4 I5 I6 I7 I8 I9]; rewrite Hat in *.
  - split; cbn; rewrite ?Hat; phase I4 I5 I6 I8; [apply ok_compile|]. intros _. by destruct c.
  - split; cbn; rewrite ?Htodo; phase I4 I5 I6 I8.
  - destruct (m_quit s) eqn:Hquit; split; cbn; rewrite ?Hquit; phase I4 I5 I6 I8.
  - split; cbn; phase I4 I5 I6 I8. apply ok_app; [apply ok_compile_all|apply (ok_compile_all true)].
  - split; cbn; phase I4 I5 I6 I8. apply ok_compile_all.
  - split; cbn; rewrite ?Htodo; phase I4 I5 I6 I8.
  - assert (Htodo : todo s = []) by (apply I4; auto).
    split; cbn; rewrite ?Htodo; phase I4 I5 I6 I8.
    { rewrite I5. split; auto. }
    rewrite app_nil_r, I7, I6; done.
  - split; cbn; rewrite ?Hat; phase I4 I5 I6 I8; [by rewrite I7, Hfs, <- !app_assoc|].
    intros Hq Hp _. destruct (I8 Hq Hp) as [?|[_ [r Hr]]]; auto; congruence.
  - split; cbn; rewrite ?Htodo; phase I4 I5 I6 I8.
    intros Hq Hp _. destruct (I8 Hq Hp) as [?|[_ [r Hr]]]; auto; congruence.
Qed.

Lemma reachable_inv e n s : rtc (step body) (EventLoop_new e n) s → inv s.
Proof.
  revert s. apply rtc_ind_r; [apply loop_inv_new|]. intros s1 s2 _ Hstep Hinv. by eapply inv_step.
Qed.
End invariant.

(** ** Properties *)
Section properties.
Context {E F : Type} `{EventFdLaws E} (body : F → list (call F)).

(** C10. No lost wake-up, for any number of threads and any interleaving. While the
    loop's thread is in [epoll_wait] and a functor waits in the queue, and the loop's own
    thread queued nothing before [loop] ([queued_early]), either the wake-up descriptor
    is readable, so that [epoll_wait] returns, or some thread is about to write to it.
    Without that condition this holds when the loop has been told to quit; for functors
    it does not ([queued_before_loop_waits]). *)
Theorem no_lost_wakeup (e : E) (n : nat) (s : state E F) :
  rtc (step body) (EventLoop_new e n) s → at_ s = Polling →
  (queued_early s = false → m_pendingFunctors s ≠ [] → wake_due s) ∧
  (m_quit s = true → wake_due s).
Proof.
  intros Hinv%reachable_inv Hat. split.
  - intros Hq Hp. destruct (inv_due _ Hinv Hq Hp) as [?|[Hc _]]; [by rewrite Hat; auto|done|congruence].
  - intros Hq. by apply (inv_quit _ Hinv).
Qed.

(** C13. Functors run in the order in which they were queued, each once: at any
    time those run, those of the current batch still to run and those waiting are,
    in this order, those queued so far; and outside [doPendingFunctors] no batch
    is left over. *)
Theorem functors_fifo_once (e : E) (n : nat) (s : state E F) :
  rtc (step body) (EventLoop_new e n) s →
  submitted s = executed s ++ functors s ++ m_pendingFunctors s ∧
  (m_callingPendingFunctors s = false → functors s = []).
Proof.
  intros Hinv%reachable_inv. split; [apply (inv_fifo _ Hinv)|].
  intros Hc. apply (inv_functors _ Hinv). intros Hat.
  assert (m_callingPendingFunctors s = true) by (apply (inv_calling _ Hinv); auto). congruence.
Qed.

(** What the loop's own thread queues before it calls [loop] is not announced:
    the loop can block in [epoll_wait] with that functor waiting, the wake-up
    descriptor not readable and nobody about to write to it. *)
Theorem queued_before_loop_waits (cb : F) (e : E) (n : nat) :
  eventfd_readable e = false →
  ∃ s, rtc (step body) (EventLoop_new e n) s ∧ at_ s = Polling ∧
    m_pendingFunctors s = [cb] ∧ ¬ wake_due s.
Proof.
  intros He. eexists. split; [|split; [|split]].
  - eapply rtc_l; [by apply (early_call _ _ (QueueInLoop cb))|].
    eapply rtc_l; [by apply loop_step|]. eapply rtc_l; [by apply loop_step|].
    eapply rtc_l; [by apply loop_begin|]. eapply rtc_l; [by apply loop_test|]. apply rtc_refl.
  - done.
  - done.
  - intros [Hr|(t & i & rest & Ht & _)]; cbn in *; [congruence|].
    by apply lookup_replicate in Ht as [? _].
Qed.

(** A functor that a thread queues before it quits the loop need not run: if the loop
    is past the swap of its queue, it leaves [loop] with the functor waiting, although
    the thread has carried out both calls, in order. The destructor of [TcpServer]
    queues [connectDestroyed] and then has its pool quit the loops in this way. *)
Theorem quit_leaves_functors (cb : F) (e : E) (n : nat) :
  ∃ s, rtc (step body) (EventLoop_new e (S n)) s ∧ at_ s = Returned ∧
    threads s = replicate (S n) [] ∧ m_pendingFunctors s = [cb] ∧ executed s = [].
Proof.
  eexists. split.
  - eapply rtc_l; [by apply loop_begin|]. eapply rtc_l; [by apply loop_test|].
    eapply rtc_l; [by apply (poll_other _ _ [])|]. eapply rtc_l; [by apply do_pending|].
    eapply rtc_l; [by apply do_swap|].
    eapply rtc_l; [by apply (thread_call _ _ 0 (QueueInLoop cb))|].
    eapply rtc_l; [by apply (thread_step _ _ 0)|]. eapply rtc_l; [by apply (thread_step _ _ 0)|].
    eapply rtc_l; [by apply (thread_call _ _ 0 Quit)|].
    eapply rtc_l; [by apply (thread_step _ _ 0)|]. eapply rtc_l; [by apply (thread_step _ _ 0)|].
    eapply rtc_l; [by apply do_done|]. eapply rtc_l; [by apply loop_test|]. apply rtc_refl.
  - by split_and!.
Qed.

(** [loop] clears [m_quit] when it starts: a [quit] that another thread has
    carried out before leaves no trace but a spurious wake-up, and the loop runs. *)
Theorem quit_before_loop_is_lost (e : E) (n : nat) :
  ∃ s, rtc (step body) (EventLoop_new e (S n)) s ∧ threads s = replicate (S n) [] ∧
    at_ s = Polling ∧ m_quit s = false ∧
    wakeUpFd s = eventfd_write e.
Proof.
  eexists. split; [|split; [|split; [|split]]].
  - eapply rtc_l; [by apply (thread_call _ _ 0 Quit)|].
    eapply rtc_l; [by apply (thread_step _ _ 0)|]. eapply rtc_l; [by apply (thread_step _ _ 0)|].
    eapply rtc_l; [by apply loop_begin|]. eapply rtc_l; [by apply loop_test|]. apply rtc_refl.
  - done.
  - done.
  - done.
  - done.
Qed.
End properties.

(** ** An eventfd: a 64-bit counter that stops at [2^64 - 2] *)
#[export] Instance counter_eventfd : EventFd N := {
  eventfd_readable c := (0 <? c)%N;
  eventfd_write c := N.min (c + 1) (2 ^ 64 - 2);
  eventfd_read c := 0%N
}.

#[export] Instance counter_eventfd_laws : EventFdLaws N.
Proof. split; intros c; cbn -[N.pow N.sub]; [|done]. apply N.ltb_lt. lia. Qed.

(** Another thread queues a functor while the loop polls. *)
Definition sample_state : state N nat :=
  mk_state 0%N [7%nat] false true false Polling [] [] [[WakeAfterQueue]] [7%nat] [] false.

Lemma sample_reachable : rtc (step (λ _, [])) (EventLoop_new 0%N 1) sample_state.
Proof.
  eapply rtc_l; [by apply loop_begin|]. eapply rtc_l; [by apply loop_test|].
  eapply rtc_l; [by apply (thread_call _ _ 0 (QueueInLoop 7%nat))|].
  eapply rtc_l; [by apply (thread_step _ _ 0)|]. apply rtc_refl.
Qed.

Lemma no_lost_wakeup_witness : wake_due sample_state.
Proof.
  destruct (no_lost_wakeup (λ _, []) 0%N 1 sample_state sample_reachable eq_refl) as [H _].
  apply H; [reflexivity|discriminate].
Defined.

Lemma functors_fifo_once_witness :
  submitted sample_state = executed sample_state ++ functors sample_state ++ [7%nat].
Proof. apply (functors_fifo_once (λ _, []) 0%N 1 sample_state sample_reachable). Defined.

Lemma queued_before_loop_waits_witness :
  ∃ s : state N nat, rtc (step (λ _, [])) (EventLoop_new 0%N 1) s ∧ at_ s = Polling ∧
    m_pendingFunctors s = [7%nat] ∧ ¬ wake_due s.
Proof. exact (queued_before_loop_waits (λ _, []) 7%nat 0%N 1 eq_refl). Defined.
