(* ===== verification/TcpConnection.v ===== *)
(** [TcpConnection] (TcpConnection.h, TcpConnection.cpp): the state machine of a
    connection, its two ring buffers, sending with and without a backlog, and
    closing. Results of [write] and [readv] are inputs of the operations; for the direct
    write of [sendInLoop], what logging a line makes of [errno] is one too. *)
From S2P Require Import Prelude Ring Kfifo Channel.

Inductive StateE := kDisconnected | kConnecting | kConnected | kDisconnecting.

#[global] Instance StateE_eq_decision : EqDecision StateE.
Proof. solve_decision. Defined.

Definition EWOULDBLOCK : Z := 11.
Definition EPIPE : Z := 32.
Definition ECONNRESET : Z := 104.

(** The calls a connection makes to its user and its server. *)
Inductive notification :=
  | ConnectionCallback        (** [m_connectionCallback] *)
  | MessageCallback (receiveTime : Z)
  | CloseCallback.            (** [m_closeCallback], to the server *)

(** What it puts in the loop's queue. *)
Inductive functor :=
  | WriteComplete
  | HighWaterMark (len : Z).

(** The calls that reach the poller: [updateChannel], with the interest the channel
    has then, and [removeChannel]. [Reactor] carries them out. *)
Inductive loop_call :=
  | UpdateChannel (mask : Z)
  | RemoveChannel.

Record conn := mk_conn {
  m_state : StateE;
  m_channel : Channel handler;
  removed : bool;                    (** its channel was removed, and not updated since *)
  m_inputBuffer : kfifo;
  m_outputBuffer : kfifo;
  m_highWaterMark : Z;
  m_writeCompleteCallback : bool;    (** whether they are set *)
  m_highWaterMarkCallback : bool;
  sent : list byte;                  (** bytes the kernel has taken *)
  shut : bool;                       (** [shutdown(fd, SHUT_WR)] done *)
  queued : list functor;
  notified : list notification;
  loop_calls : list loop_call        (** what it asked of its loop's poller *)
}.

Definition set_state x c := mk_conn x (m_channel c) (removed c) (m_inputBuffer c)
  (m_outputBuffer c) (m_highWaterMark c) (m_writeCompleteCallback c) (m_highWaterMarkCallback c)
  (sent c) (shut c) (queued c) (notified c) (loop_calls c).
Definition set_channel x c := mk_conn (m_state c) x (removed c) (m_inputBuffer c)
  (m_outputBuffer c) (m_highWaterMark c) (m_writeCompleteCallback c) (m_highWaterMarkCallback c)
  (sent c) (shut c) (queued c) (notified c) (loop_calls c).
Definition set_removed x c := mk_conn (m_state c) (m_channel c) x (m_inputBuffer c)
  (m_outputBuffer c) (m_highWaterMark c) (m_writeCompleteCallback c) (m_highWaterMarkCallback c)
  (sent c) (shut c) (queued c) (notified c) (loop_calls c).
Definition set_input x c := mk_conn (m_state c) (m_channel c) (removed c) x (m_outputBuffer c)
  (m_highWaterMark c) (m_writeCompleteCallback c) (m_highWaterMarkCallback c) (sent c) (shut c)
  (queued c) (notified c) (loop_calls c).
Definition set_output x c := mk_conn (m_state c) (m_channel c) (removed c) (m_inputBuffer c) x
  (m_highWaterMark c) (m_writeCompleteCallback c) (m_highWaterMarkCallback c) (sent c) (shut c)
  (queued c) (notified c) (loop_calls c).
Definition set_sent x c := mk_conn (m_state c) (m_channel c) (removed c) (m_inputBuffer c)
  (m_outputBuffer c) (m_highWaterMark c) (m_writeCompleteCallback c) (m_highWaterMarkCallback c) x
  (shut c) (queued c) (notified c) (loop_calls c).
Definition set_shut x c := mk_conn (m_state c) (m_channel c) (removed c) (m_inputBuffer c)
  (m_outputBuffer c) (m_highWaterMark c) (m_writeCompleteCallback c) (m_highWaterMarkCallback c)
  (sent c) x (queued c) (notified c) (loop_calls c).
Definition set_queued x c := mk_conn (m_state c) (m_channel c) (removed c) (m_inputBuffer c)
  (m_outputBuffer c) (m_highWaterMark c) (m_writeCompleteCallback c) (m_highWaterMarkCallback c)
  (sent c) (shut c) x (notified c) (loop_calls c).
Definition set_notified x c := mk_conn (m_state c) (m_channel c) (removed c) (m_inputBuffer c)
  (m_outputBuffer c) (m_highWaterMark c) (m_writeCompleteCallback c) (m_highWaterMarkCallback c)
  (sent c) (shut c) (queued c) x (loop_calls c).
Definition set_loop_calls x c := mk_conn (m_state c) (m_channel c) (removed c) (m_inputBuffer c)
  (m_outputBuffer c) (m_highWaterMark c) (m_writeCompleteCallback c) (m_highWaterMarkCallback c)
  (sent c) (shut c) (queued c) (notified c) x.

(** What the direct write of [sendInLoop] answers: [inr n], the count, or
    [inl (errno, logged)], where [errno] is as [write] has left it and [logged] as
    [LOG_ERROR] leaves it then, which prints to the standard output between the tests. *)
Definition send_result : Type := (Z * Z) + Z.

Definition send_result_ok (len : Z) (r : send_result) : Prop :=
  match r with inl _ => True | inr n => 0 ≤ n ≤ len end.

(** What a callback does with the connection and the input buffer it is given:
    calls, each [send] with the result of the [write] it may make. *)
Inductive action :=
  | Done
  | Send (buf : list byte) (r : send_result) (k : action)
  | Shutdown (k : action)
  | Input (m : M kfifo unit) (k : action).

Section operations.
Context {mx : MutexImpl}.
(** How the user's callbacks react. *)
Context (react : notification → conn → action).

Definition on_input {A} (m : M kfifo A) : M conn A := λ c,
  match m (m_inputBuffer c) with
  | Ok (a, k) => Ok (a, set_input k c)
  | Err e => Err e
  end.
Definition on_output {A} (m : M kfifo A) : M conn A := λ c,
  match m (m_outputBuffer c) with
  | Ok (a, k) => Ok (a, set_output k c)
  | Err e => Err e
  end.

Definition setState (s : StateE) : M conn unit := modify (set_state s).
(** [enableReading] and its siblings: a new interest, then [update]. *)
Definition updated_channel (f : Channel handler → Channel handler) c : conn :=
  set_loop_calls (loop_calls c ++ [UpdateChannel (m_events (f (m_channel c)))])
    (set_removed false (set_channel (f (m_channel c)) c)).
Definition on_channel (f : Channel handler → Channel handler) : M conn unit :=
  modify (updated_channel f).
Definition remove_channel : M conn unit :=
  modify (λ c, set_loop_calls (loop_calls c ++ [RemoveChannel]) (set_removed true c)).
Definition queueInLoop (f : functor) : M conn unit := modify (λ c, set_queued (queued c ++ [f]) c).
Definition kernel_takes (bs : list byte) : M conn unit := modify (λ c, set_sent (sent c ++ bs) c).

(** [TcpConnection::TcpConnection]; the buffers get the default size. *)
Definition default_size : Z := 4096.
Definition TcpConnection_new (fd : Z) (wc hw : bool) : outcome conn :=
  i ← initBuffer default_size Kfifo_new;
  o ← initBuffer default_size Kfifo_new;
  mret (mk_conn kConnecting
    (setErrorCallBack HandleError (setCloseCallBack HandleClose
       (setWriteCallBack HandleWrite (setReadCallBack HandleRead (Channel_new fd)))))
    false i.2 o.2 (64 * 1024 * 1024) wc hw [] false [] [] []).

(** The condition of the direct write; [getReadableLen] is called only when the
    channel is not writing. *)
Definition nothing_waiting : M conn bool :=
  c ← gets id;
  if isWriting (m_channel c) then mret false
  else len ← on_output getReadableLen; mret (len =? 0).

(** Lines 82 to 102: [(nwrote, remaining, faultError)] after the direct write. *)
Definition write_direct (data : list byte) (r : send_result) : M conn (Z * Z * bool) :=
  let len := Z.of_nat (length data) in
  direct ← nothing_waiting;
  if (direct : bool) then
    match r with
    | inr nwrote =>
        kernel_takes (take (Z.to_nat nwrote) data);;
        let remaining := u64 (len - nwrote) in
        c ← gets id;
        (if (remaining =? 0) && m_writeCompleteCallback c then queueInLoop WriteComplete else mret tt);;
        mret (nwrote, remaining, false)
    | inl (errno, logged) =>
        if negb (errno =? EWOULDBLOCK) then     (* LOG_ERROR *)
          mret (0, len, (logged =? EPIPE) || (logged =? ECONNRESET))
        else mret (0, len, false)
    end
  else mret (0, len, false).

(** Lines 107 to 122: what is left goes to the output buffer. *)
Definition buffer_rest (data : list byte) (nwrote remaining : Z) : M conn unit :=
  oldLen ← on_output getReadableLen;
  c ← gets id;
  (if (m_highWaterMark c <=? u64 (oldLen + remaining)) && (oldLen <? m_highWaterMark c) &&
      m_highWaterMarkCallback c
   then queueInLoop (HighWaterMark (u64 (oldLen + remaining))) else mret tt);;
  on_output (writeBuffer (Some (drop (Z.to_nat nwrote) data)) (u32 remaining));;
  c ← gets id;
  if negb (isWriting (m_channel c)) then on_channel enable_writing else mret tt.

Definition sendInLoop (data : list byte) (r : send_result) : M conn unit :=
  c ← gets id;
  if decide (m_state c = kDisconnected) then mret tt
  else
    x ← write_direct data r;
    let '(nwrote, remaining, faultError) := x in
    if negb faultError && (0 <? remaining) then buffer_rest data nwrote remaining else mret tt.

(** [send] on the loop's thread. *)
Definition send (buf : list byte) (r : send_result) : M conn unit :=
  c ← gets id;
  if decide (m_state c = kConnected) then sendInLoop buf r else mret tt.

Definition shutdownInLoop : M conn unit :=
  c ← gets id;
  if negb (isWriting (m_channel c)) then modify (set_shut true) else mret tt.

(** [shutdown] on the loop's thread. *)
Definition shutdown : M conn unit :=
  c ← gets id;
  if decide (m_state c = kConnected) then setState kDisconnecting;; shutdownInLoop else mret tt.

Fixpoint run_action (a : action) : M conn unit :=
  match a with
  | Done => mret tt
  | Send buf r k => send buf r;; run_action k
  | Shutdown k => shutdown;; run_action k
  | Input m k => on_input m;; run_action k
  end.

Definition notify (n : notification) : M conn unit :=
  modify (λ c, set_notified (notified c ++ [n]) c);;
  c ← gets id;
  run_action (react n c).

Definition connectEstablished : M conn unit :=
  setState kConnected;;
  modify (λ c, set_channel (set_tied true (m_channel c)) c);;
  on_channel enable_reading;;
  notify ConnectionCallback.

Definition connectDestroyed : M conn unit :=
  c ← gets id;
  (if decide (m_state c = kConnected) then
     setState kDisconnected;;
     on_channel disable_all;;
     notify ConnectionCallback
   else mret tt);;
  remove_channel.

Definition handleClose : M conn unit :=
  setState kDisconnected;;
  on_channel disable_all;;
  notify ConnectionCallback;;
  notify CloseCallback.

(** [handleError] only logs. *)
Definition handleError : M conn unit := mret tt.

Definition handleRead (receiveTime : Z) (r : read_result) : M conn unit :=
  x ← on_input (readFd r);
  let n := x.1 in
  if 0 <? n then notify (MessageCallback receiveTime)
  else if n =? 0 then handleClose
  else handleError.

Definition handleWrite (r : write_result) : M conn unit :=
  c ← gets id;
  if isWriting (m_channel c) then
    x ← on_output (writeFd r);
    let '(offered, (n, _)) := x in
    kernel_takes (take (Z.to_nat n) offered);;
    if 0 <? n then
      len ← on_output getReadableLen;
      if len =? 0 then
        on_channel disable_writing;;
        c ← gets id;
        (if m_writeCompleteCallback c then queueInLoop WriteComplete else mret tt);;
        if decide (m_state c = kDisconnecting) then shutdownInLoop else mret tt
      else mret tt
    else mret tt
  else mret tt.
End operations.

(** ** Running the operations *)
Section runs.
Context {mx : MutexImpl} (react : notification → conn → action).
Implicit Types (c : conn).

(** The write that is tried at once happens only with nothing waiting. *)
Definition direct c : bool :=
  negb (isWriting (m_channel c)) && bool_decide (contents (m_outputBuffer c) = []).

Definition taken c (r : send_result) : Z :=
  if direct c then match r with inr n => n | inl _ => 0 end else 0.

Definition broken c (r : send_result) : bool :=
  direct c && match r with
              | inr _ => false
              | inl (errno, logged) =>
                  negb (errno =? EWOULDBLOCK) && ((logged =? EPIPE) || (logged =? ECONNRESET))
              end.

Definition completed c (r : send_result) (data : list byte) : list functor :=
  if direct c && m_writeCompleteCallback c && bool_decide (r = inr (Z.of_nat (length data)))
  then [WriteComplete] else [].

Lemma on_output_ok {A} (m : M kfifo A) c a k :
  m (m_outputBuffer c) = Ok (a, k) → on_output m c = Ok (a, set_output k c).
Proof. intros Hm. unfold on_output. by rewrite Hm. Qed.

Lemma set_output_same c : set_output (m_outputBuffer c) c = c.
Proof. by destruct c. Qed.

Lemma output_len_ok c :
  wf (m_outputBuffer c) →
  on_output getReadableLen c = Ok (Z.of_nat (length (contents (m_outputBuffer c))), c).
Proof.
  intros Hwf. rewrite (on_output_ok _ _ _ _ (getReadableLen_ok _ Hwf)).
  by rewrite set_output_same.
Qed.

Lemma nothing_waiting_ok c : wf (m_outputBuffer c) → nothing_waiting c = Ok (direct c, c).
Proof.
  intros Hwf. unfold nothing_waiting, direct. mstep. change (id c) with c.
  destruct (isWriting (m_channel c)); [done|].
  rewrite (M_bind_ok _ _ _ _ _ (output_len_ok c Hwf)). cbn [negb andb].
  do 3 f_equal. destruct (contents (m_outputBuffer c)); [done|]. by rewrite bool_decide_false.
Qed.

Lemma write_direct_ok c data r :
  wf (m_outputBuffer c) → Z.of_nat (length data) < 2 ^ 32 →
  send_result_ok (Z.of_nat (length data)) r →
  write_direct data r c =
    Ok ((taken c r, Z.of_nat (length data) - taken c r, broken c r),
        set_queued (queued c ++ completed c r data)
          (set_sent (sent c ++ take (Z.to_nat (taken c r)) data) c)).
Proof.
  intros Hwf Hlen Hr. unfold write_direct. rewrite (M_bind_ok _ _ _ _ _ (nothing_waiting_ok c Hwf)).
  unfold taken, broken, completed. destruct (direct c); cbn [andb].
  2: { cbn [take]. rewrite !app_nil_r, Z.sub_0_r. by destruct c. }
  destruct r as [[errno logged]|n]; cbn in Hr.
  - rewrite andb_false_r. cbn [take]. rewrite !app_nil_r, Z.sub_0_r. mstep.
    by destruct (negb (errno =? EWOULDBLOCK)), c.
  - unfold kernel_takes, queueInLoop. mstep. rewrite u64_small by lia. cbn [m_writeCompleteCallback set_sent id].
    assert (bool_decide ((inr n : send_result) = inr (Z.of_nat (length data))) =
      (Z.of_nat (length data) - n =? 0)) as ->.
    { destruct (Z.eqb_spec (Z.of_nat (length data) - n) 0).
      - apply bool_decide_true. f_equal. lia.
      - apply bool_decide_false. intros [=]. lia. }
    rewrite (andb_comm (m_writeCompleteCallback c)). destruct (_ && _); mstep; [done|].
    cbn. by rewrite app_nil_r.
Qed.

Definition high_water c (len : Z) : list functor :=
  let oldLen := Z.of_nat (length (contents (m_outputBuffer c))) in
  if (m_highWaterMark c <=? u64 (oldLen + len)) && (oldLen <? m_highWaterMark c) &&
     m_highWaterMarkCallback c
  then [HighWaterMark (u64 (oldLen + len))] else [].

(** Where a second [lock] returns, the rest is appended as far as it fits. *)
Lemma buffer_rest_ok c data n :
  relock = Ok tt → wf (m_outputBuffer c) → 0 ≤ n < Z.of_nat (length data) →
  Z.of_nat (length data) < 2 ^ 32 →
  ∃ k, wf k ∧
    contents k = contents (m_outputBuffer c) ++
      take (Z.to_nat (room (m_outputBuffer c))) (drop (Z.to_nat n) data) ∧
    buffer_rest data n (Z.of_nat (length data) - n) c =
      Ok (tt, set_output k (set_queued (queued c ++ high_water c (Z.of_nat (length data) - n))
                (if isWriting (m_channel c) then c
                 else updated_channel enable_writing c))).
Proof.
  intros Hre Hwf Hn Hlen. set (rest := drop (Z.to_nat n) data).
  assert (Hrest : Z.of_nat (length rest) = Z.of_nat (length data) - n).
  { unfold rest. rewrite length_drop. lia. }
  destruct (writeBuffer_ok Hre (m_outputBuffer c) rest (Z.of_nat (length data) - n) Hwf
    ltac:(lia) ltac:(lia)) as (k & Hrun & Hwfk & Hck & _).
  exists k. split_and!; [done| |].
  { rewrite Hck. f_equal. pose proof (room_range _ Hwf).
    destruct (decide (room (m_outputBuffer c) ≤ Z.of_nat (length data) - n)).
    - by rewrite Z.min_r by lia.
    - rewrite Z.min_l, !take_ge by lia. done. }
  unfold buffer_rest. rewrite (M_bind_ok _ _ _ _ _ (output_len_ok c Hwf)). mstep.
  change (id c) with c. unfold high_water.
  set (hw := (_ <=? _) && _ && _).
  set (oldLen := Z.of_nat (length (contents (m_outputBuffer c)))).
  set (c1 := if hw then set_queued (queued c ++ [HighWaterMark (u64 (oldLen +
               (Z.of_nat (length data) - n)))]) c else c).
  rewrite (M_bind_ok _ _ c tt c1) by (unfold c1; by destruct hw).
  rewrite u32_small by lia.
  assert (Hout : on_output (writeBuffer (Some rest) (Z.of_nat (length data) - n)) c1 =
    Ok (Z.min (Z.of_nat (length data) - n) (room (m_outputBuffer c)), set_output k c1)).
  { apply on_output_ok. unfold c1. by destruct hw. }
  rewrite (M_bind_ok _ _ _ _ _ Hout). mstep.
  assert (m_channel (id (set_output k c1)) = m_channel c) as -> by (unfold c1; by destruct hw).
  unfold c1. destruct (isWriting (m_channel c)), hw; cbn; by rewrite ?app_nil_r; destruct c.
Qed.

(** A [sendInLoop] that leaves a backlog of an open connection that was not writing
    asks the poller for [EPOLLOUT] and nothing else. *)
Lemma sendInLoop_starts_writing c data r :
  relock = Ok tt → wf (m_outputBuffer c) → m_state c ≠ kDisconnected →
  Z.of_nat (length data) < 2 ^ 32 → send_result_ok (Z.of_nat (length data)) r →
  isWriting (m_channel c) = false → broken c r = false → taken c r < Z.of_nat (length data) →
  ∃ c', sendInLoop data r c = Ok (tt, c') ∧ m_channel c' = enable_writing (m_channel c) ∧
    loop_calls c' = loop_calls c ++ [UpdateChannel (m_events (enable_writing (m_channel c)))].
Proof.
  intros Hre Hwf Hs Hlen Hr Hw Hb Hlt. unfold sendInLoop. mstep. change (id c) with c.
  rewrite decide_False by done.
  rewrite (M_bind_ok _ _ _ _ _ (write_direct_ok c data r Hwf Hlen Hr)), Hb.
  assert (Hn : 0 ≤ taken c r).
  { unfold taken. destruct (direct c); [|done]. destruct r; [done|apply Hr]. }
  set (c1 := set_queued _ _). cbn [negb andb].
  destruct (Z.ltb_spec 0 (Z.of_nat (length data) - taken c r)); [|lia].
  destruct (buffer_rest_ok c1 data (taken c r) Hre Hwf ltac:(lia) Hlen) as (k & _ & _ & Hrun).
  eexists. split; [exact Hrun|]. change (m_channel c1) with (m_channel c). rewrite Hw. done.
Qed.
End runs.

(** ** What sending and calling back leave alone *)
Section frames.
Context {mx : MutexImpl} (react : notification → conn → action).
Implicit Types (c : conn).

(** [m] changes neither the state nor the record of notifications. *)
Definition keeps {A} (m : M conn A) : Prop :=
  ∀ c, wp m (λ _ c', m_state c' = m_state c ∧ notified c' = notified c) (λ _, True) c.

Lemma keeps_ret {A} (a : A) : keeps (mret a).
Proof. done. Qed.

Lemma keeps_gets {A} (f : conn → A) : keeps (gets f).
Proof. done. Qed.

Lemma keeps_modify f : (∀ c, m_state (f c) = m_state c ∧ notified (f c) = notified c) → keeps (modify f).
Proof. intros Hf c. apply Hf. Qed.

Lemma keeps_on_output {A} (m : M kfifo A) : keeps (on_output m).
Proof. intros c. unfold wp, on_output. by destruct (m _) as [[]|]. Qed.

Lemma keeps_on_input {A} (m : M kfifo A) : keeps (on_input m).
Proof. intros c. unfold wp, on_input. by destruct (m _) as [[]|]. Qed.

Lemma keeps_bind {A B} (m : M conn A) (f : A → M conn B) :
  keeps m → (∀ a, keeps (f a)) → keeps (m ≫= f).
Proof.
  intros Hm Hf c. apply wp_bind. eapply wp_mono; [apply Hm|]. intros a c1 [E1 E2].
  eapply wp_mono; [apply Hf|]. intros b c2 [E3 E4]. by rewrite E3, E4.
Qed.

End frames.

Create HintDb keeps.
#[export] Hint Resolve keeps_ret keeps_gets keeps_on_output keeps_on_input : keeps.
#[export] Hint Extern 1 (keeps (modify _)) => (apply keeps_modify; done) : keeps.

(** Decompose a computation down to the primitives. *)
Ltac keeps :=
  repeat first
    [ progress auto with keeps
    | apply keeps_bind; [|intros ?]
    | match goal with
      | |- keeps (match ?x with _ => _ end) => destruct x
      | |- keeps (let '_ := ?x in _) => destruct x
      end ].

Section lifecycle.
Context {mx : MutexImpl} (react : notification → conn → action).
Implicit Types (c : conn).

Lemma sendInLoop_keeps data r : keeps (sendInLoop data r).
Proof.
  unfold sendInLoop, write_direct, nothing_waiting, buffer_rest, kernel_takes, queueInLoop,
    on_channel. keeps.
Qed.

Lemma handleWrite_keeps r : keeps (handleWrite r).
Proof. unfold handleWrite, shutdownInLoop, kernel_takes, queueInLoop, on_channel. keeps. Qed.

(** What the user's reaction to a notification can do to a connection. *)
Definition reacted c c' : Prop :=
  notified c' = notified c ∧
  (m_state c' = m_state c ∨ (m_state c = kConnected ∧ m_state c' = kDisconnecting)) ∧
  (m_state c = kDisconnected → m_channel c' = m_channel c).

Lemma reacted_trans c1 c2 c3 : reacted c1 c2 → reacted c2 c3 → reacted c1 c3.
Proof.
  intros (A1 & B1 & C1) (A2 & B2 & C2). split_and!; [congruence| |].
  - destruct B1 as [B1|[B1 B1']], B2 as [B2|[B2 B2']]; try congruence; [left|right..]; try congruence;
      split; congruence.
  - intros Hd. destruct B1 as [B1|[B1 _]]; [|congruence]. rewrite C2, C1 by congruence. done.
Qed.

Lemma send_reacted buf r c : wp (send buf r) (λ _ c', reacted c c') (λ _, True) c.
Proof.
  unfold send. apply wp_bind, wp_gets. change (id c) with c. case_decide as Hs.
  - eapply wp_mono; [apply sendInLoop_keeps|]. intros [] c' [E1 E2]. split_and!; [done|by left|congruence].
  - apply wp_ret. by split_and!; [|left|].
Qed.

Lemma shutdown_reacted c : wp shutdown (λ _ c', reacted c c') (λ _, True) c.
Proof.
  unfold shutdown, shutdownInLoop. apply wp_bind, wp_gets. change (id c) with c. case_decide as Hs.
  - apply wp_bind, wp_modify. apply wp_bind, wp_gets.
    destruct (negb _); [apply wp_modify|apply wp_ret]; split_and!; cbn; auto; congruence.
  - apply wp_ret. by split_and!; [|left|].
Qed.

Lemma run_action_reacted a c : wp (run_action a) (λ _ c', reacted c c') (λ _, True) c.
Proof.
  revert c. induction a as [|buf r k IH|k IH|m k IH]; intros c; cbn [run_action].
  - apply wp_ret. by split_and!; [|left|].
  - apply wp_bind. eapply wp_mono; [apply send_reacted|]. intros [] c1 H1.
    eapply wp_mono; [apply IH|]. intros [] c2. by apply reacted_trans.
  - apply wp_bind. eapply wp_mono; [apply shutdown_reacted|]. intros [] c1 H1.
    eapply wp_mono; [apply IH|]. intros [] c2. by apply reacted_trans.
  - apply wp_bind. unfold wp at 1, on_input. destruct (m _) as [[u k']|]; [|done].
    eapply wp_mono; [apply IH|]. intros [] c2. apply reacted_trans. by split_and!; [|left|].
Qed.

Lemma notify_wp n c :
  wp (notify react n)
    (λ _ c', notified c' = notified c ++ [n] ∧
       (m_state c' = m_state c ∨ (m_state c = kConnected ∧ m_state c' = kDisconnecting)) ∧
       (m_state c = kDisconnected → m_channel c' = m_channel c)) (λ _, True) c.
Proof.
  unfold notify. apply wp_bind, wp_modify. apply wp_bind, wp_gets.
  eapply wp_mono; [apply run_action_reacted|]. by intros [] c' (? & ? & ?).
Qed.

(** ** The life of a connection

    What the loop's thread does with one. *)
Inductive step c c' : Prop :=
  | step_established :
      m_state c = kConnecting → connectEstablished react c = Ok (tt, c') → step c c'
  | step_destroyed : connectDestroyed react c = Ok (tt, c') → step c c'
  | step_read t r :
      m_state c ≠ kConnecting → handleRead react t r c = Ok (tt, c') → step c c'
  | step_write r : m_state c ≠ kConnecting → handleWrite r c = Ok (tt, c') → step c c'
  | step_close : m_state c ≠ kConnecting → handleClose react c = Ok (tt, c') → step c c'
  | step_send buf r : send buf r c = Ok (tt, c') → step c c'
  | step_sendInLoop buf r :
      m_state c ≠ kConnecting → sendInLoop buf r c = Ok (tt, c') → step c c'
  | step_shutdown : shutdown c = Ok (tt, c') → step c c'.

Definition rank (s : StateE) : nat :=
  match s with kConnecting => 0 | kConnected => 1 | kDisconnecting => 2 | kDisconnected => 3 end.

(** What holds between any two operations. *)
Record alive c : Prop := {
  alive_notified : m_state c = kConnecting → notified c = [];
  alive_announced : m_state c = kConnected ∨ m_state c = kDisconnecting →
    ∃ l, notified c = ConnectionCallback :: l;
  alive_closed : m_state c = kDisconnected → m_events (m_channel c) = kNoneEvent
}.

Lemma isWriting_none (ch : Channel handler) : m_events ch = kNoneEvent → isWriting ch = false.
Proof. unfold isWriting, has. by intros ->. Qed.

Lemma handleClose_wp c :
  wp (handleClose react)
    (λ _ c', m_state c' = kDisconnected ∧ m_events (m_channel c') = kNoneEvent ∧
       notified c' = notified c ++ [ConnectionCallback; CloseCallback]) (λ _, True) c.
Proof.
  unfold handleClose, setState, on_channel, updated_channel. apply wp_bind, wp_modify. apply wp_bind, wp_modify.
  set (c1 := set_channel _ _). apply wp_bind. eapply wp_mono; [apply notify_wp|].
  intros [] c2 (N2 & S2 & C2). eapply wp_mono; [apply notify_wp|].
  intros [] c3 (N3 & S3 & C3).
  assert (H2 : m_state c2 = kDisconnected) by (destruct S2 as [->|[? _]]; done).
  split_and!.
  - by destruct S3 as [->|[? _]]; [|congruence].
  - by rewrite C3, C2.
  - rewrite N3, N2. cbn. by rewrite <- app_assoc.
Qed.

(** One operation: the state only moves forward, what was reported stays
    reported, and the invariant holds again. *)
Definition advanced c c' : Prop :=
  (rank (m_state c) ≤ rank (m_state c'))%nat ∧ (∃ l, notified c' = notified c ++ l) ∧ alive c'.

(** An operation that reports nothing more than [l], and keeps a closed channel
    closed. *)
Lemma advanced_intro c c' l :
  alive c → m_state c ≠ kConnecting → notified c' = notified c ++ l →
  (m_state c' = m_state c ∨ (m_state c = kConnected ∧ m_state c' = kDisconnecting) ∨
   (m_state c' = kDisconnected ∧ m_events (m_channel c') = kNoneEvent)) →
  (m_state c = kDisconnected → m_channel c' = m_channel c ∨ m_events (m_channel c') = kNoneEvent) →
  advanced c c'.
Proof.
  intros [A1 A2 A3] Hs Hn Hst Hch. split_and!; [|by eexists|split].
  - destruct Hst as [->|[[-> ->]|[-> _]]]; [done|cbn; lia|destruct (m_state c); cbn; lia].
  - intros Hc. destruct Hst as [E|[[_ E]|[E _]]]; congruence.
  - intros Hc. rewrite Hn. destruct A2 as [l0 ->]; [|by eexists].
    destruct Hst as [E|[[E _]|[E _]]]; [by rewrite <- E|auto|].
    rewrite E in Hc. by destruct Hc.
  - intros Hd. destruct Hst as [E|[[_ E]|[_ E]]]; [|congruence|done].
    destruct Hch as [->|?]; [congruence| |done]. apply A3. congruence.
Qed.

Lemma sendInLoop_closed buf r c : m_state c = kDisconnected → sendInLoop buf r c = Ok (tt, c).
Proof. intros Hs. unfold sendInLoop. mstep. by rewrite decide_True. Qed.

Lemma reacted_advanced c c' : alive c → reacted c c' → advanced c c'.
Proof.
  intros Ha (Hn & Hst & Hch). destruct (decide (m_state c = kConnecting)) as [Hc|Hc].
  - destruct Hst as [Hst|[? _]]; [|congruence]. split_and!.
    + by rewrite Hst.
    + exists []. by rewrite Hn, app_nil_r.
    + split; rewrite Hst, Hc; [|by intros [?|?]|done]. intros _. rewrite Hn. by apply Ha.
  - apply (advanced_intro _ _ []); try done; [by rewrite app_nil_r|tauto|].
    intros Hd. left. auto.
Qed.

Lemma connectEstablished_wp c :
  alive c → m_state c = kConnecting →
  wp (connectEstablished react) (λ _ c', advanced c c') (λ _, True) c.
Proof.
  intros Ha Hs. unfold connectEstablished, setState, on_channel. do 3 apply wp_bind, wp_modify.
  eapply wp_mono; [apply notify_wp|]. intros [] c' (Hn & Hst & _). cbn in Hn, Hst.
  rewrite (alive_notified _ Ha Hs) in Hn. cbn in Hn. split_and!.
  - rewrite Hs. cbn. lia.
  - exists [ConnectionCallback]. by rewrite Hn, (alive_notified _ Ha Hs).
  - split; [|by eexists|]; destruct Hst as [E|[_ E]]; congruence.
Qed.

Lemma connectDestroyed_wp c :
  alive c → wp (connectDestroyed react) (λ _ c', advanced c c') (λ _, True) c.
Proof.
  intros Ha. unfold connectDestroyed, setState, on_channel. apply wp_bind, wp_gets.
  change (id c) with c. case_decide as Hs.
  - do 3 apply wp_bind. apply wp_modify. apply wp_bind, wp_modify.
    eapply wp_mono; [apply notify_wp|]. intros [] c' (Hn & Hst & Hch). apply wp_modify.
    cbn in Hn, Hst, Hch. apply (advanced_intro _ _ [ConnectionCallback]); try done; [congruence| |congruence].
    right. right. split; [by destruct Hst as [?|[? _]]|cbn; by rewrite Hch].
  - apply wp_bind, wp_ret, wp_modify. apply reacted_advanced; [done|]. by split_and!; [|left|].
Qed.

Lemma conn_handleRead_wp t r c :
  alive c → m_state c ≠ kConnecting →
  wp (handleRead react t r) (λ _ c', advanced c c') (λ _, True) c.
Proof.
  intros Ha Hs. unfold handleRead. apply wp_bind. unfold wp at 1, on_input.
  destruct (readFd r (m_inputBuffer c)) as [[x k]|]; [|done]. cbv zeta. destruct (0 <? x.1).
  - eapply wp_mono; [apply notify_wp|]. intros [] c' (Hn & Hst & Hch). cbn in Hn, Hst, Hch.
    apply (advanced_intro _ _ [MessageCallback t]); try done; [tauto|]. intros Hd. left. auto.
  - destruct (x.1 =? 0).
    + eapply wp_mono; [apply handleClose_wp|]. intros [] c' (Hst & Hch & Hn).
      eapply advanced_intro; [done|done|exact Hn|tauto|tauto].
    + apply wp_ret. by apply reacted_advanced; [|split_and!; [|left|]].
Qed.

Lemma handleWrite_wp r c :
  alive c → m_state c ≠ kConnecting →
  wp (handleWrite r) (λ _ c', advanced c c') (λ _, True) c.
Proof.
  intros Ha Hs. destruct (decide (m_state c = kDisconnected)) as [Hd|Hd].
  - unfold handleWrite. apply wp_bind, wp_gets. change (id c) with c.
    rewrite isWriting_none by by apply Ha. apply wp_ret.
    by apply reacted_advanced; [|split_and!; [|left|]].
  - eapply wp_mono; [apply handleWrite_keeps|]. intros [] c' [Hst Hn].
    apply (advanced_intro _ _ []); try done; [by rewrite app_nil_r|tauto].
Qed.

Lemma step_advanced c c' : alive c → step c c' → advanced c c'.
Proof.
  intros Ha [Hs Hrun|Hrun|t r Hs Hrun|r Hs Hrun|Hs Hrun|buf r Hrun|buf r Hs Hrun|Hrun].
  - exact (wp_ok _ _ _ _ _ _ Hrun (connectEstablished_wp c Ha Hs)).
  - exact (wp_ok _ _ _ _ _ _ Hrun (connectDestroyed_wp c Ha)).
  - exact (wp_ok _ _ _ _ _ _ Hrun (conn_handleRead_wp t r c Ha Hs)).
  - exact (wp_ok _ _ _ _ _ _ Hrun (handleWrite_wp r c Ha Hs)).
  - destruct (wp_ok _ _ _ _ _ _ Hrun (handleClose_wp c)) as (Hst & Hch & Hn).
    eapply advanced_intro; [done|done|exact Hn|tauto|tauto].
  - apply reacted_advanced; [done|]. exact (wp_ok _ _ _ _ _ _ Hrun (send_reacted buf r c)).
  - destruct (decide (m_state c = kDisconnected)) as [Hd|Hd].
    + rewrite sendInLoop_closed in Hrun by done. injection Hrun as <-.
      by apply reacted_advanced; [|split_and!; [|left|]].
    + destruct (wp_ok _ _ _ _ _ _ Hrun (sendInLoop_keeps buf r c)) as [Hst Hn].
      apply (advanced_intro _ _ []); try done; [by rewrite app_nil_r|tauto].
  - apply reacted_advanced; [done|]. exact (wp_ok _ _ _ _ _ _ Hrun (shutdown_reacted c)).
Qed.

Lemma alive_new fd wc hw c : TcpConnection_new fd wc hw = Ok c → alive c.
Proof.
  unfold TcpConnection_new.
  intros (i & _ & (o & _ & Hc)%outcome_bind_inv)%outcome_bind_inv. injection Hc as <-.
  split; cbn; [done|by intros [?|?]|done].
Qed.
End lifecycle.

(** ** Properties *)
Lemma isWriting_enabled (ch : Channel handler) : isWriting (enable_writing ch) = true.
Proof.
  unfold isWriting, has, enable_writing. cbn [m_events set_events].
  rewrite Z.land_lor_distr_l, Z.land_diag. apply negb_true_iff, Z.eqb_neq.
  intros [_ ?]%Z.lor_eq_0_iff. done.
Qed.

Section properties.
Context {mx : MutexImpl}.
Implicit Types (c : conn).

(** C7. [sendInLoop] on every branch, where a second [lock] returns. On a closed
    connection it does nothing. Else, with nothing waiting, the kernel is offered the
    data and takes a prefix; whatever it did not take goes behind what already waits, as
    far as the ring buffer has room, and the channel starts writing; what does not fit is
    lost. Nothing is kept when [write] failed with an [errno] other than [EWOULDBLOCK]
    and [errno], as [LOG_ERROR] leaves it, is [EPIPE] or [ECONNRESET]. [WriteComplete] is
    queued exactly when the kernel took all of it at once, and [HighWaterMark] exactly
    when the backlog crosses the mark. *)
Theorem sendInLoop_effect c (data : list byte) (r : send_result) :
  relock = Ok tt → wf (m_outputBuffer c) →
  Z.of_nat (length data) < 2 ^ 32 → send_result_ok (Z.of_nat (length data)) r →
  let n := taken c r in
  let kept := negb (broken c r) && (n <? Z.of_nat (length data)) in
  (m_state c = kDisconnected → sendInLoop data r c = Ok (tt, c)) ∧
  (m_state c ≠ kDisconnected → ∃ c', sendInLoop data r c = Ok (tt, c') ∧ wf (m_outputBuffer c') ∧ m_state c' = m_state c ∧
    sent c' = sent c ++ take (Z.to_nat n) data ∧
    contents (m_outputBuffer c') = contents (m_outputBuffer c) ++
      (if kept then take (Z.to_nat (room (m_outputBuffer c))) (drop (Z.to_nat n) data) else []) ∧
    isWriting (m_channel c') = isWriting (m_channel c) || kept ∧
    queued c' = queued c ++ completed c r data ++
      (if kept then high_water c (Z.of_nat (length data) - n) else [])).
Proof.
  intros Hre Hwf Hlen Hr n kept. split; [apply sendInLoop_closed|]. intros Hs. unfold sendInLoop. mstep. change (id c) with c.
  rewrite decide_False by done.
  rewrite (M_bind_ok _ _ _ _ _ (write_direct_ok c data r Hwf Hlen Hr)). fold n.
  set (c1 := set_queued _ _).
  assert (Hn : 0 ≤ n).
  { unfold n, taken. destruct (direct c); [|done]. destruct r; [done|apply Hr]. }
  assert ((negb (broken c r) && (0 <? Z.of_nat (length data) - n)) = kept) as ->.
  { unfold kept. f_equal. destruct (Z.ltb_spec n (Z.of_nat (length data)));
      [apply Z.ltb_lt|apply Z.ltb_ge]; lia. }
  destruct kept eqn:Hkept.
  - apply andb_true_iff in Hkept as [_ Hlt%Z.ltb_lt].
    destruct (buffer_rest_ok c1 data n Hre Hwf ltac:(lia) Hlen) as (k & Hwfk & Hck & Hrun).
    eexists. split; [exact Hrun|]. rewrite orb_true_r.
    destruct (isWriting (m_channel c1)) eqn:Hw.
    + split_and!; try done. cbn. by rewrite <- app_assoc.
    + split_and!; try done; [cbn; apply isWriting_enabled|]. cbn. by rewrite <- app_assoc.
  - exists c1. rewrite !app_nil_r, orb_false_r. split_and!; done.
Qed.

(** Where a second [lock] of a mutex blocks for ever, so does any [send] that
    the kernel does not take at once and entirely: the loop's thread stops inside
    [writeBuffer]. *)
Theorem send_backlog_deadlocks c (data : list byte) (r : send_result) :
  relock = Err Deadlock → wf (m_outputBuffer c) → m_state c = kConnected →
  Z.of_nat (length data) < 2 ^ 32 → send_result_ok (Z.of_nat (length data)) r →
  broken c r = false → taken c r < Z.of_nat (length data) →
  send data r c = Err Deadlock.
Proof.
  intros Hre Hwf Hs Hlen Hr Hb Hlt. unfold send. mstep. change (id c) with c.
  rewrite decide_True by done. unfold sendInLoop. mstep. change (id c) with c.
  rewrite decide_False by congruence.
  rewrite (M_bind_ok _ _ _ _ _ (write_direct_ok c data r Hwf Hlen Hr)), Hb. zbool.
  assert (Hn : 0 ≤ taken c r).
  { unfold taken. destruct (direct c); [|done]. destruct r; [done|apply Hr]. }
  set (c1 := set_queued _ _). change (wf (m_outputBuffer c1)) in Hwf.
  unfold buffer_rest. cbn [negb andb]. rewrite (M_bind_ok _ _ _ _ _ (output_len_ok c1 Hwf)). mstep.
  rewrite u32_small by lia.
  set (hw := (_ && _ && _)). set (f := HighWaterMark _).
  rewrite (M_bind_ok _ _ (id c1) tt (if hw then set_queued (queued c1 ++ [f]) c1 else c1))
    by (by destruct hw).
  apply M_bind_err. unfold on_output.
  assert (m_outputBuffer (if hw then set_queued (queued c1 ++ [f]) c1 else c1) = m_outputBuffer c1)
    as -> by (by destruct hw).
  destruct (wf_buffer _ Hwf) as (b & Hbuf & _).
  destruct (transfer_relock_err (m_outputBuffer c1) (drop (Z.to_nat (taken c r)) data)
    (Z.of_nat (length data) - taken c r) Deadlock Hre (wf_mutex _ Hwf) ltac:(by eexists) ltac:(lia))
    as [-> _].
  done.
Qed.

(** C35. [handleWrite] never takes out of the output buffer what the kernel has
    accepted. As long as something waits (in one piece of the array) it offers the
    same bytes again each time: the kernel's stream gets them repeatedly, the
    backlog stays, the channel goes on writing and no pending shutdown is carried
    out. *)
Theorem handleWrite_never_drains c (r : write_result) :
  wf (m_outputBuffer c) → isWriting (m_channel c) = true →
  contents (m_outputBuffer c) ≠ [] →
  write_result_ok (Z.of_nat (length (contents (m_outputBuffer c)))) r →
  read (m_outputBuffer c) mod bufferSize (m_outputBuffer c) +
    Z.of_nat (length (contents (m_outputBuffer c))) ≤ bufferSize (m_outputBuffer c) →
  let n := match r with inl _ => 0 | inr n => n end in
  handleWrite r c =
    Ok (tt, set_sent (sent c ++ take (Z.to_nat n) (contents (m_outputBuffer c))) c).
Proof.
  intros Hwf Hw Hne Hr Hin n. unfold handleWrite. mstep. change (id c) with c. rewrite Hw.
  pose proof (writeFd_run (m_outputBuffer c) r Hwf) as Hrun. cbn zeta in Hrun.
  rewrite (proj2 (Z.leb_le _ _) Hin) in Hrun.
  rewrite (M_bind_ok _ _ _ _ _ (on_output_ok _ _ _ _ Hrun)), set_output_same.
  destruct r as [errno|m]; unfold kernel_takes; mstep.
  - done.
  - destruct (Z.ltb_spec 0 m); [|done].
    set (c1 := set_sent _ c). change (wf (m_outputBuffer c1)) in Hwf.
    rewrite (M_bind_ok _ _ _ _ _ (output_len_ok c1 Hwf)).
    destruct (Z.eqb_spec (Z.of_nat (length (contents (m_outputBuffer c1)))) 0) as [E|]; [|done].
    destruct Hne. apply length_zero_iff_nil. change (m_outputBuffer c1) with (m_outputBuffer c) in E. lia.
Qed.

(** [shutdown] closes the sending side at once if nothing is being written,
    else leaves that to [handleWrite]; it acts once, and after it [send] sends
    nothing. *)
Theorem shutdown_half_closes c (data : list byte) (r : send_result) :
  m_state c = kConnected →
  ∃ c', shutdown c = Ok (tt, c') ∧ m_state c' = kDisconnecting ∧
    shut c' = shut c || negb (isWriting (m_channel c)) ∧ sent c' = sent c ∧
    shutdown c' = Ok (tt, c') ∧ send data r c' = Ok (tt, c').
Proof.
  intros Hs. unfold shutdown at 1, shutdownInLoop, setState. mstep. change (id c) with c.
  rewrite decide_True by done. mstep. change (m_channel (id (set_state kDisconnecting c))) with (m_channel c).
  destruct (isWriting (m_channel c)); cbn [negb].
  - exists (set_state kDisconnecting c). rewrite orb_false_r. by split_and!.
  - exists (set_shut true (set_state kDisconnecting c)). rewrite orb_true_r. by split_and!.
Qed.

(** C14. Whatever the callbacks do and whatever the system calls answer: the state
    of a connection only moves forward; a connection whose user has been told
    nothing is still connecting, and an open one was announced first thing; and a
    closed one never asks the poller for events again. *)
Theorem connection_lifecycle (react : notification → conn → action) fd wc hw c0 c :
  TcpConnection_new fd wc hw = Ok c0 → rtc (step react) c0 c →
  (m_state c = kConnecting → notified c = []) ∧
  (m_state c = kConnected ∨ m_state c = kDisconnecting →
     ∃ l, notified c = ConnectionCallback :: l) ∧
  (m_state c = kDisconnected → m_events (m_channel c) = kNoneEvent) ∧
  ∀ c', rtc (step react) c c' →
    (rank (m_state c) ≤ rank (m_state c'))%nat ∧ ∃ l, notified c' = notified c ++ l.
Proof.
  intros Hnew%alive_new Hsteps.
  assert (Hall : ∀ c1 c2, alive c1 → rtc (step react) c1 c2 → advanced c1 c2).
  { intros c1 c2 Ha Hst. revert c2 Hst. apply rtc_ind_r.
    - split_and!; [done| |done]. exists []. by rewrite app_nil_r.
    - intros c2 c3 _ Hst (R1 & [l1 N1] & A1).
      destruct (step_advanced react c2 c3 A1 Hst) as (R2 & [l2 N2] & A2).
      split_and!; [lia| |done]. exists (l1 ++ l2). by rewrite N2, N1, app_assoc. }
  destruct (Hall c0 c Hnew Hsteps) as (_ & _ & Ha). destruct Ha as [A1 A2 A3].
  split_and!; [done..|]. intros c' Hst. by destruct (Hall c c' ltac:(by split) Hst) as (? & ? & _).
Qed.
End properties.

(** ** The properties at a small connection

    An open connection with four-byte buffers, and one with a byte waiting. *)
Definition empty_kfifo : kfifo := mk_kfifo (Some (replicate 4 Byte.x00)) 4 0 0 0.

Lemma empty_wf : wf empty_kfifo.
Proof. split; [by exists 2|by eexists|done|done|done|done]. Qed.

Definition sample_conn : conn :=
  mk_conn kConnected (enable_reading (Channel_new 7)) false empty_kfifo empty_kfifo 4 true true
    [] false [] [ConnectionCallback] [].

Definition busy_conn : conn :=
  set_output sample_kfifo (updated_channel enable_writing sample_conn).

Definition hello : list byte := [Byte.x68; Byte.x65; Byte.x6c; Byte.x6c; Byte.x6f; Byte.x21].

(** The kernel takes one byte of six; four fit the ring; one is lost. *)
Lemma sendInLoop_effect_witness :
  ∃ c', sendInLoop (mx := inert_mutex) hello (inr 1) sample_conn = Ok (tt, c') ∧
    sent c' = [Byte.x68] ∧
    contents (m_outputBuffer c') = [Byte.x65; Byte.x6c; Byte.x6c; Byte.x6f] ∧
    queued c' = [HighWaterMark 5].
Proof.
  destruct (sendInLoop_effect (mx := inert_mutex) sample_conn hello (inr 1) eq_refl empty_wf
    ltac:(by vm_compute) ltac:(split; by vm_compute)) as [_ Hopen].
  destruct (Hopen ltac:(discriminate)) as (c' & Hrun & _ & _ & Hsent & Hout & _ & Hq).
  exists c'. split; [exact Hrun|]. split; [exact Hsent|]. split; [exact Hout|exact Hq].
Defined.

Lemma send_backlog_deadlocks_witness :
  send (mx := pthread_mutex) hello (inr 1) sample_conn = Err Deadlock.
Proof.
  exact (send_backlog_deadlocks (mx := pthread_mutex) sample_conn hello (inr 1) eq_refl empty_wf
    eq_refl ltac:(by vm_compute) ltac:(split; by vm_compute) eq_refl ltac:(by vm_compute)).
Defined.

Lemma handleWrite_never_drains_witness :
  handleWrite (mx := pthread_mutex) (inr 1) busy_conn = Ok (tt, set_sent [Byte.x64] busy_conn).
Proof.
  exact (handleWrite_never_drains (mx := pthread_mutex) busy_conn (inr 1) sample_wf eq_refl
    ltac:(discriminate) ltac:(split; by vm_compute) ltac:(by vm_compute)).
Defined.

Lemma shutdown_half_closes_witness :
  ∃ c', shutdown sample_conn = Ok (tt, c') ∧ shut c' = true.
Proof.
  destruct (shutdown_half_closes (mx := pthread_mutex) sample_conn hello (inr 6) eq_refl)
    as (c' & Hrun & _ & Hshut & _).
  exists c'. split; [exact Hrun|exact Hshut].
Defined.

(** A connection is established, and its peer closes it. *)
Lemma connection_lifecycle_witness :
  ∃ c, m_state c = kDisconnected ∧ m_events (m_channel c) = kNoneEvent.
Proof.
  destruct (TcpConnection_new (mx := pthread_mutex) 7 true false) as [c0|] eqn:Hnew;
    [|by vm_compute in Hnew].
  set (react := λ (_ : notification) (_ : conn), Done).
  destruct (connectEstablished (mx := pthread_mutex) react c0) as [[[] c1]|] eqn:H1; [|done].
  destruct (handleClose (mx := pthread_mutex) react c1) as [[[] c2]|] eqn:H2; [|done].
  assert (Hs1 : m_state c1 = kConnected) by (injection H1 as <-; reflexivity).
  assert (Hs2 : m_state c2 = kDisconnected) by (injection H2 as <-; reflexivity).
  assert (Hsteps : rtc (step (mx := pthread_mutex) react) c0 c2).
  { eapply rtc_l.
    - apply step_established; [|exact H1]. injection Hnew as <-. reflexivity.
    - eapply rtc_l; [|apply rtc_refl]. apply step_close; [|exact H2]. rewrite Hs1. discriminate. }
  exists c2. split; [exact Hs2|].
  destruct (connection_lifecycle react 7 true false c0 c2 Hnew Hsteps) as (_ & _ & Hnone & _).
  exact (Hnone Hs2).
Defined.
