(* ===== verification/RemoteSend.v ===== *)
(** [TcpConnection::send] and [shutdown] called from a thread that is not the loop's
    (TcpConnection.cpp): what is queued is the object's address and a pointer to the
    characters of the caller's string, and it is used when the loop gets to it. *)
From S2P Require Import Prelude Kfifo Channel TcpConnection.

(** A functor the caller has queued, bound to [this]. *)
Inductive functor :=
  | SendInLoop (data len : Z)          (** [sendInLoop(data, len)] *)
  | ShutdownInLoop.

(** The memory both threads see: strings by the address of their characters, the
    connection as long as it exists, and the loop's queue. *)
Record world := mk_world {
  strings : gmap Z (list byte);
  object : option conn;
  queued : list functor
}.

Section operations.
Context {mx : MutexImpl}.

Definition deref : M world conn :=
  w ← gets id;
  match object w with Some c => mret c | None => fail UseAfterFree end.

Definition enqueue (f : functor) : M world unit :=
  modify (λ w, mk_world (strings w) (object w) (queued w ++ [f])).

Definition on_object (m : M conn unit) : M world unit := λ w,
  match object w with
  | None => Err UseAfterFree
  | Some c =>
      match m c with
      | Ok (_, c') => Ok (tt, mk_world (strings w) (Some c') (queued w))
      | Err e => Err e
      end
  end.

(** [send(buf)] outside the loop's thread; [buf.c_str()] is [ptr]. *)
Definition remote_send (ptr : Z) : M world unit :=
  c ← deref;
  if decide (m_state c = kConnected) then
    w ← gets id;
    match strings w !! ptr with
    | Some buf => enqueue (SendInLoop ptr (Z.of_nat (length buf)))
    | None => fail UseAfterFree
    end
  else mret tt.

(** [shutdown()] outside the loop's thread. *)
Definition remote_shutdown : M world unit :=
  c ← deref;
  if decide (m_state c = kConnected) then
    on_object (setState kDisconnecting);;
    enqueue ShutdownInLoop
  else mret tt.

(** The loop runs the next functor; [r] is the answer of [write], if it is called. *)
Definition run_next (r : send_result) : M world unit :=
  w ← gets id;
  match queued w with
  | [] => mret tt
  | f :: rest =>
      modify (λ w, mk_world (strings w) (object w) rest);;
      match f with
      | SendInLoop ptr len =>
          match strings w !! ptr with
          | None => fail UseAfterFree
          | Some s => data ← lift (mem_read s 0 len); on_object (sendInLoop data r)
          end
      | ShutdownInLoop => on_object shutdownInLoop
      end
  end.

(** What happens in memory meanwhile: strings come and go, the connection goes. *)
Inductive event :=
  | Alloc (ptr : Z) (s : list byte)    (** made there, or assigned to *)
  | Free (ptr : Z)
  | Destroy.

#[export] Instance event_eq_decision : EqDecision event.
Proof. solve_decision. Defined.

Definition do_event (w : world) (e : event) : world :=
  match e with
  | Alloc ptr s => mk_world (<[ptr := s]> (strings w)) (object w) (queued w)
  | Free ptr => mk_world (delete ptr (strings w)) (object w) (queued w)
  | Destroy => mk_world (strings w) None (queued w)
  end.

Definition touches (ptr : Z) (e : event) : Prop :=
  match e with Alloc p _ | Free p => p = ptr | Destroy => False end.

(** ** Between the call and the run *)

Lemma events_queue w evs : queued (foldl do_event w evs) = queued w.
Proof. revert w. induction evs as [|e evs IH]; intros w; [done|]. cbn. rewrite IH. by destruct e. Qed.

Lemma events_strings ptr w evs :
  Forall (λ e, ¬ touches ptr e) evs → strings (foldl do_event w evs) !! ptr = strings w !! ptr.
Proof.
  intros Hevs. revert w. induction Hevs as [|e evs He _ IH]; intros w; [done|]. cbn [foldl]. rewrite IH.
  destruct e; cbn in *; [by rewrite lookup_insert_ne|by rewrite lookup_delete_ne|done].
Qed.

Lemma events_object w evs :
  object (foldl do_event w evs) = if decide (Destroy ∈ evs) then None else object w.
Proof.
  revert w. induction evs as [|e evs IH]; intros w.
  { rewrite decide_False; [done|]. by intros ?%elem_of_nil. }
  cbn [foldl]. rewrite IH. destruct (decide (Destroy ∈ e :: evs)) as [Hd|Hd]; rewrite elem_of_cons in Hd.
  - case_decide; [done|]. by destruct Hd as [<-|].
  - rewrite decide_False by naive_solver. destruct e; [done|done|]. naive_solver.
Qed.

(** The loop runs what was queued by the call, on the memory of that time. *)
Lemma run_sent ptr n r w :
  queued w = [SendInLoop ptr n] → 0 ≤ n →
  run_next r w =
    match strings w !! ptr with
    | None => Err UseAfterFree
    | Some s =>
        if n <=? Z.of_nat (length s)
        then on_object (sendInLoop (take (Z.to_nat n) s) r) (mk_world (strings w) (object w) [])
        else Err OutOfBounds
    end.
Proof.
  intros Hq Hn. unfold run_next. mstep. change (id w) with w. rewrite Hq. mstep.
  destruct (strings w !! ptr) as [s|]; [|done]. mstep. unfold mem_read.
  rewrite !(proj2 (Z.leb_le 0 _)) by lia. cbn [andb]. rewrite Z.add_0_l.
  destruct (n <=? Z.of_nat (length s)); [|done]. by rewrite drop_0.
Qed.
End operations.

Section properties.
Context {mx : MutexImpl}.

(** C24. What [send] does from another thread is decided when the loop gets to it. If the
    string is as it was and the connection exists, the loop does what [send] in its
    own thread would have done with the same bytes. If the caller's string is gone, or the
    connection is, the loop uses freed memory; if other text is there by then, the
    loop sends that text, or reads past its end if it is shorter. *)
Theorem remote_send_reads_late (c : conn) (ptr : Z) (data : list byte) (r : send_result) w evs :
  m_state c = kConnected → object w = Some c → strings w !! ptr = Some data → queued w = [] →
  ∃ w1, remote_send ptr w = Ok (tt, w1) ∧
    let w' := foldl do_event w1 evs in
    (Forall (λ e, ¬ touches ptr e ∧ e ≠ Destroy) evs →
     run_next r w' =
       match send data r c with
       | Ok (_, c') => Ok (tt, mk_world (strings w') (Some c') [])
       | Err e => Err e
       end) ∧
    (∀ evs1 evs2, evs = evs1 ++ Free ptr :: evs2 → Forall (λ e, ¬ touches ptr e) evs2 →
     run_next r w' = Err UseAfterFree) ∧
    (Destroy ∈ evs → Forall (λ e, ¬ touches ptr e) evs → run_next r w' = Err UseAfterFree) ∧
    (∀ evs1 s evs2, evs = evs1 ++ Alloc ptr s :: evs2 → Forall (λ e, ¬ touches ptr e) evs2 → Destroy ∉ evs →
     run_next r w' =
       if Z.of_nat (length data) <=? Z.of_nat (length s) then
         match sendInLoop (take (length data) s) r c with
         | Ok (_, c') => Ok (tt, mk_world (strings w') (Some c') [])
         | Err e => Err e
         end
       else Err OutOfBounds).
Proof.
  intros Hconn Hobj Hstr Hq.
  set (n := Z.of_nat (length data)). set (w1 := mk_world (strings w) (object w) [SendInLoop ptr n]).
  exists w1. split.
  { unfold remote_send, deref. mstep. change (id w) with w. rewrite Hobj. mstep. rewrite decide_True by done.
    mstep. change (id w) with w. rewrite Hstr. unfold enqueue. mstep. by rewrite Hq. }
  intros w'. assert (Hq' : queued w' = [SendInLoop ptr n]) by (unfold w'; by rewrite events_queue).
  assert (Hn : 0 ≤ n) by lia. rewrite (run_sent ptr n r w' Hq' Hn).
  assert (Hto : Z.to_nat n = length data) by lia. rewrite Hto.
  assert (Hkeep : Destroy ∉ evs → object w' = Some c).
  { intros Hd. unfold w'. by rewrite events_object, decide_False. }
  split_and!.
  - intros Hevs. assert (Hstr' : strings w' !! ptr = Some data).
    { unfold w'. rewrite events_strings; [done|]. eapply Forall_impl; [exact Hevs|]. by intros e []. }
    rewrite Hstr'. unfold n. rewrite Z.leb_refl, take_ge by lia. unfold on_object. cbn [object strings queued].
    rewrite Hkeep. { unfold send. mstep. change (id c) with c. by rewrite decide_True. }
    rewrite Forall_forall in Hevs. intros Hin. by destruct (Hevs _ Hin).
  - intros evs1 evs2 -> Hevs2. assert (Hgone : strings w' !! ptr = None); [|by rewrite Hgone].
    unfold w'. rewrite foldl_app. cbn [foldl]. rewrite events_strings by done. apply lookup_delete_eq.
  - intros Hd Hevs. assert (Hstr' : strings w' !! ptr = Some data) by (unfold w'; by rewrite events_strings).
    assert (Hgone : object w' = None).
    { unfold w'. by rewrite events_object, decide_True. }
    rewrite Hstr'. unfold n. rewrite Z.leb_refl. unfold on_object. cbn [object]. by rewrite Hgone.
  - intros evs1 s evs2 Hevs Hevs2 Hd. assert (Hstr' : strings w' !! ptr = Some s).
    { unfold w'. rewrite Hevs, foldl_app. cbn [foldl]. rewrite events_strings by done. apply lookup_insert_eq. }
    rewrite Hstr'. destruct (_ <=? _); [|done]. unfold on_object. cbn [object strings queued]. by rewrite Hkeep.
Qed.

(** [shutdown] from another thread is a [shutdown] in the loop, unless the connection
    is gone by then. *)
Theorem remote_shutdown_late (c : conn) (r : send_result) w evs :
  m_state c = kConnected → object w = Some c → queued w = [] →
  ∃ w1, remote_shutdown w = Ok (tt, w1) ∧
    let w' := foldl do_event w1 evs in
    run_next r w' =
      if decide (Destroy ∈ evs) then Err UseAfterFree
      else match shutdown c with
           | Ok (_, c') => Ok (tt, mk_world (strings w') (Some c') [])
           | Err e => Err e
           end.
Proof.
  intros Hconn Hobj Hq. set (c1 := set_state kDisconnecting c).
  set (w1 := mk_world (strings w) (Some c1) [ShutdownInLoop]). exists w1. split.
  { unfold remote_shutdown, deref. mstep. change (id w) with w. rewrite Hobj. mstep. rewrite decide_True by done.
    rewrite (M_bind_ok _ _ _ tt (mk_world (strings w) (Some c1) (queued w))).
    - unfold enqueue. mstep. by rewrite Hq.
    - unfold on_object. by rewrite Hobj. }
  intros w'. unfold run_next. mstep. change (id w') with w'.
  assert (Hq' : queued w' = [ShutdownInLoop]) by (unfold w'; by rewrite events_queue). rewrite Hq'. mstep.
  unfold on_object. cbn [object strings queued]. unfold w' at 1. rewrite events_object.
  case_decide; [done|]. cbn [object w1]. unfold shutdown. mstep. change (id c) with c. by rewrite decide_True.
Qed.
End properties.

(** A temporary string: [conn->send("...")] frees it as soon as the call returns. *)
Lemma remote_send_reads_late_witness :
  ∃ w1, remote_send 4096 (mk_world {[ 4096 := hello ]} (Some sample_conn) []) = Ok (tt, w1) ∧
    run_next (mx := inert_mutex) (inr 6) (foldl do_event w1 [Free 4096]) = Err UseAfterFree.
Proof.
  destruct (remote_send_reads_late (mx := inert_mutex) sample_conn 4096 hello (inr 6)
    (mk_world {[ 4096 := hello ]} (Some sample_conn) []) [Free 4096]) as (w1 & Hrun & _ & Hfree & _);
    [done|done|apply lookup_singleton_eq|done|].
  exists w1. split; [exact Hrun|]. apply (Hfree [] []); [done|by constructor].
Defined.
