(* ===== verification/Reactor.v ===== *)
(** The connections of one loop together with its poller: [TcpConnection]'s calls of
    [updateChannel] and [removeChannel] carried out by [EpollPoller], and the turn
    of [EventLoop::loop] that polls and has the active channels handle their
    events. A connection's [Channel] is one object; its part that the connection
    uses (descriptor, interest) and the part the poller uses (index, reported
    events) are kept on either side, in agreement. *)
From S2P Require Import Prelude Kfifo Channel EpollPoller TcpConnection.

Record reactor (K : Type) := mk_reactor {
  m_poller : poller K handler;
  conns : gmap Z conn               (** by the address of their channel *)
}.
Arguments mk_reactor {K}.
Arguments m_poller {K}.
Arguments conns {K}.

Section operations.
Context {K : Type} `{Epoll K} {mx : MutexImpl} (react : notification → conn → action).

(** [EventLoop::updateChannel] and [EventLoop::removeChannel] pass the call on. *)
Definition perform (a : Z) (call : loop_call) : M (poller K handler) unit :=
  match call with
  | UpdateChannel mask => change (set_events mask) a
  | RemoveChannel => removeChannel a
  end.

Definition on_poller {A} (m : M (poller K handler) A) : M (reactor K) A := λ w,
  match m (m_poller w) with
  | Ok (x, p) => Ok (x, mk_reactor p (conns w))
  | Err e => Err e
  end.

(** An operation of the connection at [a], and its calls of the poller. *)
Definition on_conn (a : Z) (op : M conn unit) : M (reactor K) unit := λ w,
  match conns w !! a with
  | None => Err UseAfterFree
  | Some c =>
      match op (set_loop_calls [] c) with
      | Ok (_, c') =>
          on_poller (for_each (perform a) (loop_calls c'))
            (mk_reactor (m_poller w) (<[a := c']> (conns w)))
      | Err e => Err e
      end
  end.

(** The callback a channel was given, called for the reported events. *)
Definition run_handler (r : read_result) (wr : write_result) (x : handler * option Z) : M conn unit :=
  match x.1 with
  | HandleRead => handleRead react (default 0 x.2) r
  | HandleWrite => handleWrite wr
  | HandleClose => handleClose react
  | HandleError => handleError
  | AcceptorHandleRead | LoopHandleRead | TimerHandleRead => mret tt  (* not a connection's *)
  end.

(** [channel->handleEvent(m_pollReturnTime)]; channels of others than connections
    are left out. *)
Definition dispatch (t : Z) (reads : Z → read_result) (writes : Z → write_result) (a : Z)
    : M (reactor K) unit :=
  ch ← on_poller (deref a);
  w ← gets id;
  match conns w !! a with
  | Some _ => on_conn a (for_each (run_handler (reads a) (writes a)) (dispatched t ch))
  | None => mret tt
  end.

(** One turn of [loop()] up to [doPendingFunctors]. *)
Definition turn (t : Z) (filled : list epoll_event) (reads : Z → read_result)
    (writes : Z → write_result) : M (reactor K) unit :=
  activeChannels ← on_poller (poll (inr filled) []);
  for_each (dispatch t reads writes) activeChannels.

(** A new connection's channel is a new object on a descriptor no live channel has. *)
Definition add_conn (a : Z) (c : conn) (w : reactor K) : reactor K :=
  mk_reactor (set_channels (<[a := m_channel c]> (channels (m_poller w))) (m_poller w))
    (<[a := c]> (conns w)).

(** The end of a connection: [~TcpConnection] destroys the channel and, with the [Socket],
    closes the descriptor. *)
Definition free_conn (a : Z) (w : reactor K) : reactor K :=
  let p := set_channels (delete a (channels (m_poller w))) (m_poller w) in
  mk_reactor
    (match conns w !! a with
     | Some c => set_kernel (after_close (kernel p) (m_fd (m_channel c))) p
     | None => p
     end) (delete a (conns w)).

(** What happens in the loop's thread. [connectEstablished] is the first functor a
    connection gets; [connectDestroyed] takes it down, closed or open (as
    [removeConnection] does) or half closed (as [~TcpServer] may), and may be called more
    than once. The last reference goes some time after the channel was removed; not here
    that of a connection whose channel was registered again (see
    [half_closed_comes_back]). *)
Inductive step (w w' : reactor K) : Prop :=
  | step_accept a fd wc hw c :
      TcpConnection_new fd wc hw = Ok c →
      channels (m_poller w) !! a = None →
      (∀ b ch, channels (m_poller w) !! b = Some ch → m_fd ch ≠ fd) →
      w' = add_conn a c w → step w w'
  | step_established a c :
      conns w !! a = Some c → m_state c = kConnecting →
      on_conn a (connectEstablished react) w = Ok (tt, w') → step w w'
  | step_destroyed a c :
      conns w !! a = Some c → m_state c ≠ kConnecting →
      on_conn a (connectDestroyed react) w = Ok (tt, w') → step w w'
  | step_send a buf r : on_conn a (send buf r) w = Ok (tt, w') → step w w'
  | step_sendInLoop a c buf r :
      conns w !! a = Some c → m_state c ≠ kConnecting →
      on_conn a (sendInLoop buf r) w = Ok (tt, w') → step w w'
  | step_shutdown a : on_conn a shutdown w = Ok (tt, w') → step w w'
  | step_turn t filled reads writes :
      epoll_wait_ok (m_poller w) (inr filled) →
      turn t filled reads writes w = Ok (tt, w') → step w w'
  | step_free a c :
      conns w !! a = Some c → removed c = true → w' = free_conn a w → step w w'
  | step_other b f :
      conns w !! b = None →
      f ∈ [enable_reading; disable_reading; enable_writing; disable_writing; disable_all] →
      on_poller (change f b) w = Ok (tt, w') → step w w'.
End operations.

Lemma free_conn_channels {K} `{Epoll K} a (w : reactor K) :
  channels (m_poller (free_conn a w)) = delete a (channels (m_poller w)).
Proof. unfold free_conn. cbn. by destruct (conns w !! a). Qed.

(** ** What a connection asks of the poller *)

(** The channel's index and mask after a call. *)
Definition index_after (i : Z) (call : loop_call) : Z :=
  match call with UpdateChannel mask => next_index i mask | RemoveChannel => kNew end.
Definition mask_after (e : Z) (call : loop_call) : Z :=
  match call with UpdateChannel mask => mask | RemoveChannel => e end.

Definition open (s : StateE) : bool :=
  match s with kConnected | kDisconnecting => true | _ => false end.

Section phases.
(** The channel's index and mask before the operation, and its descriptor. *)
Context (i0 e0 fd : Z).
Implicit Types (c : conn).

(** The calls so far bring the poller to the index [i] and to the channel's mask. *)
Definition at_index (i : Z) c : Prop :=
  foldl index_after i0 (loop_calls c) = i ∧
  foldl mask_after e0 (loop_calls c) = m_events (m_channel c) ∧ m_fd (m_channel c) = fd.

Definition is_new c : Prop :=
  m_state c = kConnecting ∧ removed c = false ∧ at_index kNew c ∧
  m_events (m_channel c) = kNoneEvent.
Definition is_open c : Prop :=
  open (m_state c) = true ∧ removed c = false ∧ at_index kAdded c ∧ isReading (m_channel c) = true.
Definition is_closed c : Prop :=
  m_state c = kDisconnected ∧ removed c = false ∧ (at_index kAdded c ∨ at_index kDeleted c) ∧
  m_events (m_channel c) = kNoneEvent.
Definition is_gone c : Prop :=
  m_state c = kDisconnected ∧ removed c = true ∧ at_index kNew c ∧
  m_events (m_channel c) = kNoneEvent.
(** Taken down while half closed: the channel has its interest still. *)
Definition is_half c : Prop :=
  m_state c = kDisconnecting ∧ removed c = true ∧ at_index kNew c ∧ isReading (m_channel c) = true.
End phases.

(** The fields a phase is about. *)
Definition same_phase (c c' : conn) : Prop :=
  m_state c' = m_state c ∧ removed c' = removed c ∧ m_channel c' = m_channel c ∧
  loop_calls c' = loop_calls c ∧ notified c' = notified c.

(** A predicate on these fields only. *)
Class Phase (P : conn → Prop) := phase_same c c' : same_phase c c' → P c → P c'.

Ltac phase :=
  intros c c' (E1 & E2 & E3 & E4 & _); unfold is_new, is_open, is_closed, is_gone, is_half, at_index;
  rewrite E1, E2, E3, E4; exact id.
#[export] Instance is_new_phase i0 e0 fd : Phase (is_new i0 e0 fd). Proof. phase. Qed.
#[export] Instance is_open_phase i0 e0 fd : Phase (is_open i0 e0 fd). Proof. phase. Qed.
#[export] Instance is_closed_phase i0 e0 fd : Phase (is_closed i0 e0 fd). Proof. phase. Qed.
#[export] Instance is_gone_phase i0 e0 fd : Phase (is_gone i0 e0 fd). Proof. phase. Qed.
#[export] Instance is_half_phase i0 e0 fd : Phase (is_half i0 e0 fd). Proof. phase. Qed.

(** ** Faults

    Statements about a connection's operations leave open the set [E] of faults they
    may stop with. It has those the operations themselves can end in: the accesses of a
    ring buffer whose arithmetic has wrapped, a lock of a mutex the thread holds,
    [LOG_FATAL] and a counter at its end. Others come from the user's callbacks only. *)
Section faults.
Context {mx : MutexImpl}.

Class Tolerates (E : fault → Prop) := {
  tolerates_bounds : E OutOfBounds;
  tolerates_exit : E FatalExit;
  tolerates_overflow : E IntOverflow;
  tolerates_lock e : relock = Err e → E e
}.

(** Operations of a ring buffer that stop with such a fault at most. *)
Definition within {A} (E : fault → Prop) (m : M kfifo A) : Prop :=
  ∀ k, wp m (λ _ _, True) E k.

(** Callbacks whose own operations on the input buffer do. *)
Fixpoint tame (E : fault → Prop) (a : action) : Prop :=
  match a with
  | Done => True
  | Send _ _ k | Shutdown k => tame E k
  | Input m k => within E m ∧ tame E k
  end.
End faults.

Section within.
Context {mx : MutexImpl} (E : fault → Prop) `{!Tolerates E}.

Lemma within_ret {A} (a : A) : within E (mret a).
Proof. done. Qed.
Lemma within_gets {A} (f : kfifo → A) : within E (gets f).
Proof. done. Qed.
Lemma within_modify (f : kfifo → kfifo) : within E (modify f).
Proof. done. Qed.
Lemma within_oob {A} : within E (fail (A := A) OutOfBounds).
Proof. intros k. apply tolerates_bounds. Qed.
Lemma within_bind {A B} (m : M kfifo A) (f : A → M kfifo B) :
  within E m → (∀ a, within E (f a)) → within E (m ≫= f).
Proof. intros Hm Hf k. apply wp_bind. eapply wp_mono; [apply Hm|]. intros a k' _. apply Hf. Qed.
Lemma within_lift {A} (m : outcome A) : (∀ e, m = Err e → e = OutOfBounds) → within E (lift m).
Proof. intros Hm k. unfold wp, lift. destruct m as [|e]; [done|]. rewrite (Hm e eq_refl). apply tolerates_bounds. Qed.
Lemma within_lock {A} (m : M kfifo A) : within E m → within E (lock_guard m).
Proof.
  intros Hm k. unfold wp, lock_guard. destruct (if decide _ then Ok tt else relock) as [[]|e] eqn:Hl.
  - specialize (Hm (set_mutex (S (mutex k)) k)). unfold wp in Hm. by destruct (m _) as [[]|].
  - case_decide; [done|]. by apply (tolerates_lock e).
Qed.

Lemma mem_read_oob_only {A} (m : list A) off len e : mem_read m off len = Err e → e = OutOfBounds.
Proof. unfold mem_read. destruct (_ && _); congruence. Qed.
Lemma mem_write_oob_only {A} (m : list A) off bs e : mem_write m off bs = Err e → e = OutOfBounds.
Proof. unfold mem_write. destruct (_ && _); congruence. Qed.
Lemma mem_copy_oob_only {A} (src dst : list A) off len off' e :
  (bs ← mem_read src off len; mem_write dst off' bs) = Err e → e = OutOfBounds.
Proof.
  destruct (mem_read src off len) as [bs|e'] eqn:Hr; cbn; [apply mem_write_oob_only|].
  intros [= <-]. by eapply mem_read_oob_only.
Qed.
End within.

Create HintDb within.
#[export] Hint Resolve within_ret within_gets within_modify within_oob within_lock within_lift
  mem_read_oob_only mem_write_oob_only mem_copy_oob_only : within.

Ltac within :=
  repeat first
    [ progress eauto with within typeclass_instances
    | apply within_bind; [|intros ?]
    | match goal with
      | |- within _ (lock_guard _) => apply within_lock; [exact _|]
      | |- within _ (match ?x with _ => _ end) => destruct x
      | |- within _ (let '_ := ?x in _) => destruct x
      end ].

Section within_kfifo.
Context {mx : MutexImpl} (E : fault → Prop) `{!Tolerates E}.

Lemma within_getReadableLen : within E getReadableLen.
Proof. unfold getReadableLen. within. Qed.
Lemma within_getRemainLen : within E getRemainLen.
Proof. unfold getRemainLen. within. Qed.
#[local] Hint Resolve within_getReadableLen within_getRemainLen : within.
Lemma within_writeBuffer inBuf inSize : within E (writeBuffer inBuf inSize).
Proof. unfold writeBuffer, Min_call. within. Qed.
#[local] Hint Resolve within_writeBuffer : within.
Lemma within_readFd r : within E (readFd r).
Proof. unfold readFd. within. Qed.
Lemma within_writeFd r : within E (writeFd r).
Proof. unfold writeFd. within. Qed.
End within_kfifo.

(** Any fault. *)
#[export] Instance tolerates_any {mx : MutexImpl} : Tolerates (λ _, True).
Proof. done. Qed.
Lemma tame_any a : tame (λ _, True) a.
Proof.
  induction a; cbn; try done. split; [|done]. intros k. unfold wp. by destruct (m k) as [[]|].
Qed.
#[export] Hint Resolve within_getReadableLen within_writeBuffer within_readFd within_writeFd : within.

Definition preserves {A} (E : fault → Prop) (P : conn → Prop) (m : M conn A) : Prop :=
  ∀ c, P c → wp m (λ _ c', P c') E c.

Section preserves.
Context (E : fault → Prop) (P : conn → Prop) `{Phase P}.

Lemma preserves_ret {A} (a : A) : preserves E P (mret a).
Proof. intros c Hc. exact Hc. Qed.
Lemma preserves_gets {A} (f : conn → A) : preserves E P (gets f).
Proof. intros c Hc. exact Hc. Qed.
Lemma preserves_modify f : (∀ c, same_phase c (f c)) → preserves E P (modify f).
Proof. intros Hf c Hc. apply wp_modify, (phase_same c); [apply Hf|exact Hc]. Qed.
Lemma preserves_on_output {A} (m : M kfifo A) : within E m → preserves E P (on_output m).
Proof.
  intros Hm c Hc. specialize (Hm (m_outputBuffer c)). unfold wp, on_output in *.
  destruct (m _) as [[]|]; [|done]. by eapply phase_same; [|exact Hc].
Qed.
Lemma preserves_on_input {A} (m : M kfifo A) : within E m → preserves E P (on_input m).
Proof.
  intros Hm c Hc. specialize (Hm (m_inputBuffer c)). unfold wp, on_input in *.
  destruct (m _) as [[]|]; [|done]. by eapply phase_same; [|exact Hc].
Qed.
Lemma preserves_bind {A B} (m : M conn A) (f : A → M conn B) :
  preserves E P m → (∀ a, preserves E P (f a)) → preserves E P (m ≫= f).
Proof.
  intros Hm Hf c Hc. apply wp_bind. eapply wp_mono; [by apply Hm|]. intros a c1 H1. by apply Hf.
Qed.
End preserves.

Create HintDb preserves.
#[export] Hint Resolve preserves_ret preserves_gets preserves_on_output preserves_on_input : preserves.
#[export] Hint Extern 1 (preserves _ _ (modify _)) => (apply preserves_modify; [exact _|done]) : preserves.

(** Decompose a computation down to the primitives. *)
Ltac preserves :=
  repeat first
    [ progress eauto with preserves within typeclass_instances
    | apply preserves_bind; [|intros ?]
    | match goal with
      | |- preserves _ _ (match ?x with _ => _ end) => destruct x
      | |- preserves _ _ (let '_ := ?x in _) => destruct x
      end ].

Section operations_phases.
Context {mx : MutexImpl} (react : notification → conn → action) (i0 e0 fd : Z).
Context (E : fault → Prop) `{!Tolerates E} (react_tame : ∀ n c, tame E (react n c)).
Implicit Types (c : conn).

Lemma at_index_update i c f :
  m_fd (f (m_channel c)) = m_fd (m_channel c) → at_index i0 e0 fd i c → at_index i0 e0 fd (next_index i (m_events (f (m_channel c)))) (updated_channel f c).
Proof.
  intros Hfd (Hi & _ & Hd). unfold at_index, updated_channel.
  cbn [loop_calls set_loop_calls m_channel set_channel].
  rewrite !foldl_app. cbn. rewrite Hi. by split_and!; [..|congruence].
Qed.

Lemma next_index_reading i ch : isReading (Cb := handler) ch = true → next_index i (m_events ch) = kAdded.
Proof.
  unfold next_index, isReading, has. intros Hr.
  destruct (Z.eqb_spec (m_events ch) kNoneEvent) as [Hz|]; [by rewrite Hz in Hr|by rewrite andb_false_r].
Qed.

(** A new interest that goes on reading. *)
Lemma is_open_update f :
  (∀ ch, m_fd (f ch) = m_fd (Cb := handler) ch) →
  (∀ ch, isReading ch = true → isReading (Cb := handler) (f ch) = true) →
  preserves E (is_open i0 e0 fd) (on_channel f).
Proof.
  intros Hfd Hf c (Hs & _ & Hi & Hread). unfold on_channel. apply wp_modify.
  pose proof (at_index_update _ _ f (Hfd _) Hi) as Hi'. rewrite next_index_reading in Hi' by auto.
  split_and!; try done. by apply Hf.
Qed.

Lemma reading_enable_writing (ch : Channel handler) :
  isReading ch = true → isReading (enable_writing ch) = true.
Proof.
  unfold isReading, enable_writing, has. cbn. rewrite !negb_true_iff, !Z.eqb_neq.
  rewrite Z.land_lor_distr_l. intros Hne [? _]%Z.lor_eq_0_iff. done.
Qed.

Lemma reading_disable_writing (ch : Channel handler) :
  isReading ch = true → isReading (disable_writing ch) = true.
Proof.
  unfold isReading, disable_writing, has. cbn. rewrite !negb_true_iff, !Z.eqb_neq.
  rewrite <- Z.land_assoc. by change (Z.land (Z.lnot kWriteEvent) kReadEvent) with kReadEvent.
Qed.
Lemma enable_writing_open : preserves E (is_open i0 e0 fd) (on_channel enable_writing).
Proof. apply is_open_update; [done|apply reading_enable_writing]. Qed.
Lemma disable_writing_open : preserves E (is_open i0 e0 fd) (on_channel disable_writing).
Proof. apply is_open_update; [done|apply reading_disable_writing]. Qed.
#[local] Hint Resolve enable_writing_open disable_writing_open : preserves.

Lemma sendInLoop_open data r : preserves E (is_open i0 e0 fd) (sendInLoop data r).
Proof.
  unfold sendInLoop, write_direct, nothing_waiting, buffer_rest, kernel_takes, queueInLoop. preserves.
Qed.

Lemma send_open data r : preserves E (is_open i0 e0 fd) (send data r).
Proof. pose proof sendInLoop_open. unfold send. preserves. Qed.

Lemma handleWrite_open r : preserves E (is_open i0 e0 fd) (handleWrite r).
Proof. unfold handleWrite, shutdownInLoop, kernel_takes, queueInLoop. preserves. Qed.

Lemma shutdown_open : preserves E (is_open i0 e0 fd) shutdown.
Proof.
  intros c Hc. unfold shutdown, setState. apply wp_bind, wp_gets. change (id c) with c.
  case_decide; [|done]. apply wp_bind, wp_modify.
  assert (preserves E (is_open i0 e0 fd) shutdownInLoop) as Hsh by (unfold shutdownInLoop; preserves).
  apply Hsh. destruct Hc as (_ & ? & ? & ?). by split_and!.
Qed.

(** A connection taken down half closed stays so, or is back: a backlog registers its
    channel again. *)
Definition is_back c : Prop := is_half i0 e0 fd c ∨ is_open i0 e0 fd c.
#[local] Instance is_back_phase : Phase is_back.
Proof. intros c c' E1 [Hc|Hc]; [left|right]; by eapply phase_same. Qed.

Lemma enable_writing_back : preserves E is_back (on_channel enable_writing).
Proof.
  intros c [(Hs & _ & Hi & Hread)|Hc].
  - unfold on_channel. apply wp_modify. right.
    pose proof (at_index_update _ _ enable_writing eq_refl Hi) as Hi'.
    rewrite next_index_reading in Hi' by by apply reading_enable_writing.
    split_and!; [cbn; by rewrite Hs|done|done|by apply reading_enable_writing].
  - eapply wp_mono; [by apply enable_writing_open|]. by right.
Qed.
#[local] Hint Resolve enable_writing_back : preserves.

Lemma sendInLoop_back data r : preserves E is_back (sendInLoop data r).
Proof.
  unfold sendInLoop, write_direct, nothing_waiting, buffer_rest, kernel_takes, queueInLoop. preserves.
Qed.

Lemma send_back data r : preserves E is_back (send data r).
Proof. pose proof sendInLoop_back. unfold send. preserves. Qed.

Lemma shutdown_back : preserves E is_back shutdown.
Proof.
  intros c [Hc|Hc].
  - unfold shutdown. apply wp_bind, wp_gets. change (id c) with c.
    case_decide as Hs; [by destruct Hc as [? _]; congruence|by left].
  - eapply wp_mono; [by apply shutdown_open|]. by right.
Qed.

(** A connection that is not open sends nothing and is not shut down. *)
Lemma send_idle (P : conn → Prop) data r :
  (∀ c, P c → m_state c ≠ kConnected) → preserves E P (send data r).
Proof.
  intros HP c Hc. unfold send. apply wp_bind, wp_gets. change (id c) with c.
  case_decide; [by destruct (HP c Hc)|exact Hc].
Qed.
Lemma shutdown_idle (P : conn → Prop) : (∀ c, P c → m_state c ≠ kConnected) → preserves E P shutdown.
Proof.
  intros HP c Hc. unfold shutdown. apply wp_bind, wp_gets. change (id c) with c.
  case_decide; [by destruct (HP c Hc)|exact Hc].
Qed.

Lemma run_action_preserves (P : conn → Prop) `{Phase P} a :
  (∀ data r, preserves E P (send data r)) → preserves E P shutdown → tame E a →
  preserves E P (run_action a).
Proof.
  intros Hsend Hshut. induction a; cbn [run_action tame]; intros Ha; try destruct Ha; preserves.
Qed.

Lemma notify_preserves (P : conn → Prop) `{Phase P} n :
  (∀ data r, preserves E P (send data r)) → preserves E P shutdown →
  (∀ c, P c → P (set_notified (notified c ++ [n]) c)) → preserves E P (notify react n).
Proof.
  intros Hsend Hshut Hn c Hc. unfold notify. apply wp_bind, wp_modify, wp_bind, wp_gets.
  apply run_action_preserves; [exact _|done|done|apply react_tame|by apply Hn].
Qed.

Lemma notify_open n : preserves E (is_open i0 e0 fd) (notify react n).
Proof. apply notify_preserves; [exact _|apply send_open|apply shutdown_open|by intros c Hc]. Qed.

Lemma notify_idle (P : conn → Prop) `{Phase P} n :
  (∀ c, P c → m_state c ≠ kConnected) → (∀ c, P c → P (set_notified (notified c ++ [n]) c)) →
  preserves E P (notify react n).
Proof.
  intros HP. apply notify_preserves; [exact _|intros; by apply send_idle|by apply shutdown_idle].
Qed.

Lemma notify_closed n : preserves E (is_closed i0 e0 fd) (notify react n).
Proof. apply notify_idle; [exact _|by intros c (-> & _)|by intros c Hc]. Qed.

(** A connection the poller may report. *)
Definition is_live c : Prop := is_open i0 e0 fd c ∨ is_closed i0 e0 fd c.

Lemma handleClose_live c :
  is_live c → wp (handleClose react) (λ _ c', is_closed i0 e0 fd c') E c.
Proof.
  intros Hc. unfold handleClose, setState, on_channel. apply wp_bind, wp_modify. apply wp_bind, wp_modify.
  set (c1 := updated_channel disable_all (set_state kDisconnected c)).
  assert (H1 : is_closed i0 e0 fd c1).
  { assert (Hupd : ∀ i, at_index i0 e0 fd i c → at_index i0 e0 fd (next_index i kNoneEvent) c1)
      by (intros i Hi; by apply (at_index_update i (set_state kDisconnected c) disable_all)).
    destruct Hc as [(_ & Hr & Hi & _)|(_ & Hr & [Hi|Hi] & _)]; split_and!; try done.
    - right. by apply (Hupd kAdded).
    - right. by apply (Hupd kAdded).
    - left. by apply (Hupd kDeleted). }
  apply wp_bind. eapply wp_mono; [by apply notify_closed|].
  intros [] c2 H2. by apply notify_closed.
Qed.

(** Whether the close callback was called. *)
Definition told c : Prop := CloseCallback ∈ notified c.

(** Only [handleClose] calls it. *)
Definition untold (c0 c : conn) : Prop := told c → told c0.

Lemma untold_modify c0 f : (∀ c, notified (f c) = notified c) → preserves E (untold c0) (modify f).
Proof. intros Hf c Hc. apply wp_modify. unfold untold, told. by rewrite Hf. Qed.
Lemma told_modify f : (∀ c, notified (f c) = notified c) → preserves E told (modify f).
Proof. intros Hf c Hc. apply wp_modify. unfold told. by rewrite Hf. Qed.
#[local] Instance untold_phase c0 : Phase (untold c0).
Proof. intros c c' (_ & _ & _ & _ & Hn). unfold untold, told. by rewrite Hn. Qed.
#[local] Instance told_phase : Phase told.
Proof. intros c c' (_ & _ & _ & _ & Hn). unfold told. by rewrite Hn. Qed.
#[local] Hint Extern 1 (preserves _ (untold _) (modify _)) => (by apply untold_modify) : preserves.
#[local] Hint Extern 1 (preserves _ told (modify _)) => (by apply told_modify) : preserves.
#[local] Hint Extern 1 (preserves _ _ (on_channel _)) => (unfold on_channel) : preserves.

Lemma sendInLoop_notified P `{Phase P} data r :
  (∀ f, (∀ c, notified (f c) = notified c) → preserves E P (modify f)) → preserves E P (sendInLoop data r).
Proof.
  intros Hm. assert (∀ f, preserves E P (on_channel f)) by (intros f; by apply Hm).
  unfold sendInLoop, write_direct, nothing_waiting, buffer_rest, kernel_takes, queueInLoop. preserves.
Qed.

Lemma run_action_notified P `{Phase P} a :
  (∀ f, (∀ c, notified (f c) = notified c) → preserves E P (modify f)) → tame E a →
  preserves E P (run_action a).
Proof.
  intros Hm. apply run_action_preserves; [exact _|..].
  - intros data r. pose proof (sendInLoop_notified P data r Hm). unfold send. preserves.
  - assert (∀ s, preserves E P (setState s)) by (intros s; by apply Hm).
    unfold shutdown, shutdownInLoop. preserves.
Qed.

Lemma notify_untold c0 n : n ≠ CloseCallback → preserves E (untold c0) (notify react n).
Proof.
  intros Hn c Hc. unfold notify. apply wp_bind, wp_modify, wp_bind, wp_gets.
  apply run_action_notified; [exact _|apply untold_modify|apply react_tame|].
  unfold untold, told in *. cbn. rewrite elem_of_app, list_elem_of_singleton.
  intros [?|?]; [by apply Hc|congruence].
Qed.

Lemma notify_told n c : told c ∨ n = CloseCallback → wp (notify react n) (λ _ c', told c') E c.
Proof.
  intros Hc. unfold notify. apply wp_bind, wp_modify, wp_bind, wp_gets.
  apply run_action_notified; [exact _|apply told_modify|apply react_tame|].
  unfold told in *. cbn. rewrite elem_of_app, list_elem_of_singleton. by destruct Hc as [?| ->]; [left|right].
Qed.

Lemma handleClose_told c : wp (handleClose react) (λ _ c', told c') E c.
Proof.
  unfold handleClose, setState, on_channel. do 2 apply wp_bind, wp_modify. apply wp_bind.
  assert (∀ c, wp (notify react ConnectionCallback) (λ _ _, True) E c) as Hany.
  { intros c1. by eapply wp_mono; [apply (notify_untold c1); [done|exact id]|]. }
  eapply wp_mono; [apply Hany|]. intros [] c1 _. apply notify_told. by right.
Qed.

(** A handler of an open connection leaves it open, or closes it and tells so. *)
Lemma handler_open r wr x c :
  is_open i0 e0 fd c →
  wp (run_handler react r wr x)
    (λ _ c', is_open i0 e0 fd c' ∧ untold c c' ∨ is_closed i0 e0 fd c' ∧ told c') E c.
Proof.
  intros Hc. unfold run_handler.
  assert (Hu : untold c c) by exact id.
  assert (Hclose : ∀ c1, is_open i0 e0 fd c1 → wp (handleClose react)
    (λ _ c', is_open i0 e0 fd c' ∧ untold c c' ∨ is_closed i0 e0 fd c' ∧ told c') E c1).
  { intros c1 H1. eapply wp_mono; [apply wp_and|]; [apply handleClose_live; by left|apply handleClose_told|].
    by right. }
  destruct x.1; try (by left); try by apply Hclose.
  - unfold handleRead. apply wp_bind. eapply wp_mono; [apply wp_and|].
    + by apply (preserves_on_input E (is_open i0 e0 fd) _ (within_readFd E r)).
    + by apply (preserves_on_input E (untold c) _ (within_readFd E r)).
    + intros y c1 [H1 Hu1]. destruct (0 <? y.1); [|destruct (y.1 =? 0); [by apply Hclose|by left]].
      eapply wp_mono; [apply wp_and|]; [by apply notify_open|by apply (notify_untold c)|by left].
  - assert (preserves E (untold c) (handleWrite wr)) as Hw.
    { unfold handleWrite, shutdownInLoop, kernel_takes, queueInLoop. preserves. }
    eapply wp_mono; [apply wp_and|]; [by apply handleWrite_open|by apply Hw|by left].
Qed.

(** A handler of a closed connection leaves it closed. *)
Lemma handler_closed r wr x c :
  is_closed i0 e0 fd c → wp (run_handler react r wr x) (λ _ c', is_closed i0 e0 fd c') E c.
Proof.
  intros Hc. unfold run_handler. destruct x.1; try done; try (apply handleClose_live; by right).
  - unfold handleRead. apply wp_bind.
    eapply wp_mono; [by apply (preserves_on_input E (is_closed i0 e0 fd) _ (within_readFd E r))|].
    intros y c1 H1. destruct (0 <? y.1); [by apply notify_closed|].
    destruct (y.1 =? 0); [apply handleClose_live; by right|done].
  - unfold handleWrite. apply wp_bind, wp_gets. change (id c) with c. by rewrite isWriting_none by apply Hc.
Qed.

Lemma handler_live r wr x c :
  is_live c → wp (run_handler react r wr x) (λ _ c', is_live c') E c.
Proof.
  intros [Hc|Hc].
  - eapply wp_mono; [by apply handler_open|]. intros [] c' [[? _]|[? _]]; [by left|by right].
  - eapply wp_mono; [by apply handler_closed|]. by right.
Qed.

Lemma established_open c :
  is_new i0 e0 fd c → wp (connectEstablished react) (λ _ c', is_open i0 e0 fd c') E c.
Proof.
  intros (Hs & Hr & Hi & He). unfold connectEstablished, setState, on_channel.
  do 3 apply wp_bind, wp_modify. apply notify_open. set (c1 := set_channel _ _).
  pose proof (at_index_update kNew c1 enable_reading eq_refl Hi) as Hi'.
  assert (Hread : isReading (enable_reading (m_channel c1)) = true).
  { unfold isReading, enable_reading, c1. cbn. by rewrite He. }
  rewrite next_index_reading in Hi' by done. by split_and!.
Qed.

Lemma destroyed_gone c :
  (m_state c = kConnected ∧ is_open i0 e0 fd c) ∨ is_closed i0 e0 fd c ∨ is_gone i0 e0 fd c →
  wp (connectDestroyed react) (λ _ c', is_gone i0 e0 fd c') E c.
Proof.
  assert (Hremove : ∀ c1, m_state c1 = kDisconnected → m_events (m_channel c1) = kNoneEvent →
    foldl mask_after e0 (loop_calls c1) = m_events (m_channel c1) → m_fd (m_channel c1) = fd →
    wp remove_channel (λ _ c', is_gone i0 e0 fd c') E c1).
  { intros c1 Hs He Hm Hd. apply wp_modify. unfold is_gone, at_index. cbn.
    rewrite !foldl_app. by split_and!. }
  intros Hc. unfold connectDestroyed, setState, on_channel. apply wp_bind, wp_gets.
  change (id c) with c. case_decide as Hs.
  - destruct Hc as [[_ (_ & Hr & Hi & _)]|[(? & _)|(? & _)]]; [|congruence..].
    do 3 apply wp_bind. apply wp_modify. apply wp_bind, wp_modify.
    set (c1 := updated_channel disable_all (set_state kDisconnected c)).
    assert (H1 : is_closed i0 e0 fd c1).
    { split_and!; try done. right. by apply (at_index_update kAdded (set_state kDisconnected c)). }
    eapply wp_mono; [by apply notify_closed|].
    intros [] c2 (? & ? & Hi2 & ?). apply Hremove; try done; by destruct Hi2 as [(_ & ? & ?)|(_ & ? & ?)].
  - apply wp_bind, wp_ret. destruct Hc as [[? _]|[(? & _ & Hi & ?)|(? & _ & Hi & ?)]]; [done| |].
    + apply Hremove; try done; by destruct Hi as [(_ & ? & ?)|(_ & ? & ?)].
    + apply Hremove; try done; by destruct Hi as (_ & ? & ?).
Qed.

(** [connectDestroyed] of a half-closed connection only removes its channel. *)
Lemma destroyed_half c :
  m_state c = kDisconnecting → is_open i0 e0 fd c ∨ is_half i0 e0 fd c →
  wp (connectDestroyed react) (λ _ c', is_half i0 e0 fd c') E c.
Proof.
  intros Hs Hc. unfold connectDestroyed. apply wp_bind, wp_gets. change (id c) with c.
  rewrite decide_False by congruence. apply wp_bind, wp_ret, wp_modify. unfold is_half, at_index. cbn.
  rewrite !foldl_app. destruct Hc as [(_ & _ & (_ & Hm & Hd) & Hr)|(_ & _ & (_ & Hm & Hd) & Hr)]; by split_and!.
Qed.

(** A call of the user's leaves each phase as it is, and closes nothing. *)
Lemma run_action_open a : tame E a → preserves E (is_open i0 e0 fd) (run_action a).
Proof. apply run_action_preserves; [exact _|apply send_open|apply shutdown_open]. Qed.

Lemma run_action_idle (P : conn → Prop) `{Phase P} a :
  (∀ c, P c → m_state c ≠ kConnected) → tame E a → preserves E P (run_action a).
Proof.
  intros HP. apply run_action_preserves; [exact _|intros; by apply send_idle|by apply shutdown_idle].
Qed.

Lemma run_action_untold c0 a : tame E a → preserves E (untold c0) (run_action a).
Proof. intros Ha. apply run_action_notified; [exact _|apply untold_modify|done]. Qed.

Lemma established_untold c0 : preserves E (untold c0) (connectEstablished react).
Proof.
  assert (preserves E (untold c0) (notify react ConnectionCallback)) by by apply notify_untold.
  unfold connectEstablished, setState. preserves.
Qed.

Lemma destroyed_untold c0 : preserves E (untold c0) (connectDestroyed react).
Proof.
  assert (preserves E (untold c0) (notify react ConnectionCallback)) by by apply notify_untold.
  unfold connectDestroyed, setState, remove_channel. preserves.
Qed.
End operations_phases.

(** ** The poller under these calls *)
Section poller.
Context {K : Type} `{EpollLaws K}.
Implicit Types (p : poller K handler) (a : Z) (ch : Channel handler).

(** Live channels have different descriptors. *)
Definition distinct_fds p : Prop :=
  ∀ a b x y, channels p !! a = Some x → channels p !! b = Some y → m_fd x = m_fd y → a = b.

Definition consistent p : Prop := EpollPoller.wf p ∧ distinct_fds p.

Lemma own_entry p a ch :
  consistent p → channels p !! a = Some ch →
  m_channel_map p !! m_fd ch = None ∨ m_channel_map p !! m_fd ch = Some a.
Proof.
  intros [Hwf Hd] Ha. destruct (m_channel_map p !! m_fd ch) as [b|] eqn:Hb; [right|by left].
  apply (wf_map _ Hwf) in Hb as (d & Hb & Hfd & _). f_equal. by eapply Hd.
Qed.

(** What a channel is for: its descriptor and its callbacks. *)
Definition purpose ch :=
  (m_fd ch, m_readCallBack ch, m_writeCallBack ch, m_errorCallBack ch, m_closeCallBack ch).

(** Only the channel at [a] has changed: to the index [i] and the mask [e]. *)
Definition moved a (i e : Z) ch p p' : Prop :=
  ∃ ch', channels p' = <[a := ch']> (channels p) ∧ m_fd ch' = m_fd ch ∧ m_index ch' = i ∧
    m_events ch' = e ∧ purpose ch' = purpose ch.

Lemma moved_distinct a i e ch p p' :
  distinct_fds p → channels p !! a = Some ch → moved a i e ch p p' → distinct_fds p'.
Proof.
  intros Hd Ha (ch' & Hch & Hfd & _) b1 b2 x y. rewrite Hch.
  intros [[<- <-]|[Hb1 Hx]]%lookup_insert_Some [[<- <-]|[Hb2 Hy]]%lookup_insert_Some He; [done|..].
  - eapply Hd; [done..|congruence].
  - eapply Hd; [done..|congruence].
  - by eapply Hd.
Qed.

Lemma perform_wp p a ch call :
  consistent p → channels p !! a = Some ch →
  wp (perform a call)
    (λ _ p', consistent p' ∧
       moved a (index_after (m_index ch) call) (mask_after (m_events ch) call) ch p p')
    (λ e, e = FatalExit) p.
Proof.
  intros Hp Ha. pose proof (own_entry p a ch Hp Ha) as Hown. destruct Hp as [Hwf Hd].
  assert (Hfinish : ∀ p' ch', EpollPoller.wf p' → channels p' = <[a := ch']> (channels p) →
    m_fd ch' = m_fd ch → m_index ch' = index_after (m_index ch) call →
    m_events ch' = mask_after (m_events ch) call → purpose ch' = purpose ch →
    consistent p' ∧
    moved a (index_after (m_index ch) call) (mask_after (m_events ch) call) ch p p').
  { intros p' ch' Hwf' Hch Hfd Hi He Hcb. assert (Hm : moved a (index_after (m_index ch) call)
      (mask_after (m_events ch) call) ch p p') by by exists ch'.
    split; [split; [done|by eapply moved_distinct]|done]. }
  destruct call as [mask|]; cbn [perform].
  - assert (Hchange := change_wp p a ch (set_events mask) Hwf Ha eq_refl eq_refl Hown).
    unfold wp in *. destruct (change (set_events mask) a p) as [[[] p']|]; [|apply Hchange].
    destruct Hchange as (Hwf' & Hch & _). by eapply Hfinish.
  - destruct (removeChannel_ok p a ch Hwf Ha Hown) as (p' & Hrun & Hwf' & Hch & _).
    unfold wp. rewrite Hrun. by eapply Hfinish.
Qed.

Lemma perform_all_wp (calls : list loop_call) p a ch :
  consistent p → channels p !! a = Some ch →
  wp (for_each (perform a) calls)
    (λ _ p', consistent p' ∧
       moved a (foldl index_after (m_index ch) calls) (foldl mask_after (m_events ch) calls) ch p p')
    (λ e, e = FatalExit) p.
Proof.
  revert p ch. induction calls as [|call calls IH]; intros p ch Hp Ha; cbn [for_each foldl].
  - split; [done|]. exists ch. by rewrite insert_id.
  - apply wp_bind. eapply wp_mono; [by apply perform_wp|].
    intros [] p1 (Hp1 & ch1 & Hch1 & Hfd1 & <- & <- & Hcb1).
    eapply wp_mono; [apply (IH p1 ch1); [done|rewrite Hch1; apply lookup_insert_eq]|].
    intros [] p2 (Hp2 & ch2 & Hch2 & Hfd2 & ? & ? & ?). split; [done|]. exists ch2.
    rewrite Hch2, Hch1, insert_insert_eq. by split_and!; [|congruence|..|congruence].
Qed.
Lemma consistent_add p a ch :
  consistent p → channels p !! a = None → (∀ b x, channels p !! b = Some x → m_fd x ≠ m_fd ch) →
  m_index ch = kNew → consistent (set_channels (<[a := ch]> (channels p)) p).
Proof.
  intros [Hwf Hd] Hnone Hfresh Hi. split.
  - apply wf_add_channel; [done| |done]. by rewrite Hnone.
  - intros b1 b2 x y. cbn.
    intros [[<- <-]|[? Hx]]%lookup_insert_Some [[<- <-]|[? Hy]]%lookup_insert_Some He.
    + done.
    + by destruct (Hfresh _ _ Hy).
    + by destruct (Hfresh _ _ Hx).
    + by eapply Hd.
Qed.

Lemma consistent_delete p a ch :
  consistent p → channels p !! a = Some ch → m_index ch = kNew →
  consistent (set_channels (delete a (channels p)) p).
Proof.
  intros [Hwf Hd] Ha Hi. split.
  - by apply (wf_free_channel p a ch).
  - intros b1 b2 x y. cbn. intros [_ Hx]%lookup_delete_Some [_ Hy]%lookup_delete_Some. by apply Hd.
Qed.

(** What [poll] stores in the channels does not change what they are. *)
Lemma reported_lookup filled p p' a ch' :
  reported filled p p' → channels p' !! a = Some ch' →
  ∃ ch, channels p !! a = Some ch ∧ m_fd ch' = m_fd ch ∧ m_index ch' = m_index ch ∧
    m_events ch' = m_events ch ∧ purpose ch' = purpose ch.
Proof.
  intros [Hrep Hsame] Ha. destruct (decide (a ∈ data_ptr <$> filled)) as [Hin|Hin].
  - apply list_elem_of_fmap in Hin as (ev & -> & Hev). destruct (Hrep ev Hev) as (c & Hc & _ & Hc').
    exists c. by simplify_eq.
  - rewrite Hsame in Ha by done. by exists ch'.
Qed.

Lemma reported_back filled p p' a ch :
  reported filled p p' → channels p !! a = Some ch → is_Some (channels p' !! a).
Proof.
  intros [Hrep Hsame] Ha. destruct (decide (a ∈ data_ptr <$> filled)) as [Hin|Hin].
  - apply list_elem_of_fmap in Hin as (ev & -> & Hev).
    destruct (Hrep ev Hev) as (c & _ & _ & ->). by eexists.
  - rewrite Hsame by done. by eexists.
Qed.

Lemma poll_wp p filled :
  consistent p → epoll_wait_ok p (inr filled) →
  ∃ p', poll (inr filled) [] p = Ok (data_ptr <$> filled, p') ∧ consistent p' ∧ reported filled p p'.
Proof.
  intros [Hwf Hd] Hok. pose proof Hok as (_ & Hnd & Hreg).
  destruct (fillActiveChannels_ok filled [] p Hwf Hnd) as (p1 & Hrun & Hwf' & Hrep & Hsize).
  { intros ev Hin. destruct (Hreg ev Hin) as (fd & mask & Hr).
    apply (wf_kernel _ Hwf) in Hr as (a & c & Ha & _ & Hi & [= _ E]). rewrite E. eauto. }
  assert (Hd' : distinct_fds p1).
  { intros a b x y (x' & Hx & Ex & _)%(reported_lookup _ _ _ _ _ Hrep)
      (y' & Hy & Ey & _)%(reported_lookup _ _ _ _ _ Hrep) He. eapply Hd; [done..|congruence]. }
  unfold poll. destruct (Z.ltb_spec 0 (Z.of_nat (length filled))).
  - rewrite (M_bind_ok _ _ _ _ _ Hrun). mstep. change (id p1) with p1.
    destruct (_ =? _); [|by exists p1]. eexists. split; [done|]. split; [split; [by destruct Hwf'|done]|done].
  - destruct filled; [|cbn in *; lia]. exists p1. injection Hrun as <-. by split_and!.
Qed.
End poller.

(** ** Invariant *)

(** A phase seen from after the calls made so far. *)
Class Rebase (P : Z → Z → Z → conn → Prop) := rebase i e fd c :
  P i e fd c →
  P (foldl index_after i (loop_calls c)) (foldl mask_after e (loop_calls c)) fd (set_loop_calls [] c).

#[export] Instance is_new_rebase : Rebase is_new.
Proof. intros i e fd c (? & ? & (? & ? & ?) & ?). by split_and!. Qed.
#[export] Instance is_open_rebase : Rebase is_open.
Proof. intros i e fd c (? & ? & (? & ? & ?) & ?). by split_and!. Qed.
#[export] Instance is_gone_rebase : Rebase is_gone.
Proof. intros i e fd c (? & ? & (? & ? & ?) & ?). by split_and!. Qed.
#[export] Instance is_half_rebase : Rebase is_half.
Proof. intros i e fd c (? & ? & (? & ? & ?) & ?). by split_and!. Qed.
#[export] Instance is_closed_rebase : Rebase is_closed.
Proof.
  intros i e fd c (? & ? & [(? & ? & ?)|(? & ? & ?)] & ?); split_and!; try done; [left|right]; done.
Qed.
#[export] Instance is_live_rebase : Rebase is_live.
Proof. intros i e fd c [Hc|Hc]; [left|right]; by apply rebase. Qed.

(** Between two operations a connection is in one of its phases. *)
Definition settled i e fd c : Prop :=
  is_new i e fd c ∨ is_live i e fd c ∨ is_gone i e fd c ∨ is_half i e fd c.

#[export] Instance settled_rebase : Rebase settled.
Proof.
  intros i e fd c [Hc|[Hc|[Hc|Hc]]]; [left|right; left|right; right; left|right; right; right]; by apply rebase.
Qed.

Section invariant.
Context {K : Type} `{EpollLaws K} {mx : MutexImpl} (react : notification → conn → action).
Context (E : fault → Prop) `{!Tolerates E} (react_tame : ∀ n c, tame E (react n c)).
Implicit Types (w : reactor K) (a : Z) (c : conn) (ch : Channel handler).

Definition in_phase (P : Z → Z → Z → conn → Prop) ch c : Prop :=
  P (m_index ch) (m_events ch) (m_fd ch) (set_loop_calls [] c).

Record inv w : Prop := {
  inv_poller : consistent (m_poller w);
  inv_conn a c : conns w !! a = Some c →
    ∃ ch, channels (m_poller w) !! a = Some ch ∧ in_phase settled ch c
}.

(** The connection at [a] is in the phase [P]. *)
Definition conn_in (P : Z → Z → Z → conn → Prop) a w : Prop :=
  ∃ c ch, conns w !! a = Some c ∧ channels (m_poller w) !! a = Some ch ∧ in_phase P ch c.

(** Others than the one at [a] are as they were; no channel gets another purpose. *)
Definition others_same a w w' : Prop :=
  purpose <$> channels (m_poller w') = purpose <$> channels (m_poller w) ∧
  ∀ b, b ≠ a → conns w' !! b = conns w !! b ∧ channels (m_poller w') !! b = channels (m_poller w) !! b.

(** An operation from one phase to another, with its calls of the poller. *)
Lemma on_conn_wp (P Q : Z → Z → Z → conn → Prop) `{Rebase Q} op w a :
  inv w → conn_in P a w → (∀ i e fd c, Q i e fd c → settled i e fd c) →
  (∀ i e fd c, P i e fd c → wp op (λ _ c', Q i e fd c') E c) →
  wp (on_conn a op) (λ _ w', inv w' ∧ conn_in Q a w' ∧ others_same a w w') E w.
Proof.
  intros [Hp Hinv] (c & ch & Hc & Ha & HP) HQ Hop. unfold wp, on_conn. rewrite Hc.
  specialize (Hop _ _ _ _ HP). unfold wp in Hop.
  destruct (op (set_loop_calls [] c)) as [[x c']|]; [|done]. unfold on_poller. cbn [m_poller conns].
  pose proof (perform_all_wp (loop_calls c') (m_poller w) a ch Hp Ha) as Hall. unfold wp in Hall.
  destruct (for_each _ _ _) as [[[] p']|e]; [|subst e; by apply tolerates_exit].
  destruct Hall as (Hp' & ch' & Hch & Hfd & Hi & He & Hcb). apply rebase in Hop.
  rewrite <- Hfd, <- Hi, <- He in Hop.
  assert (Hin : conn_in Q a (mk_reactor p' (<[a := c']> (conns w)))).
  { exists c', ch'. cbn. rewrite Hch, !lookup_insert_eq. done. }
  split_and!; [|done|].
  - split; [done|]. cbn. intros b d [[<- <-]|[Hne Hd]]%lookup_insert_Some; rewrite Hch.
    + exists ch'. rewrite lookup_insert_eq. split; [done|]. by apply HQ.
    + rewrite lookup_insert_ne by done. by apply Hinv.
  - split; [|intros b Hb; cbn; by rewrite Hch, !lookup_insert_ne]. cbn.
    rewrite Hch, fmap_insert, Hcb. apply insert_id. by rewrite lookup_fmap, Ha.
Qed.

(** What may be dispatched to: a live channel, and a connection open or closed but
    not removed. *)
Definition dispatchable w a : Prop :=
  is_Some (channels (m_poller w) !! a) ∧ ∀ c, conns w !! a = Some c → conn_in is_live a w.

Lemma dispatchable_same w w' a b :
  others_same a w w' → b ≠ a → dispatchable w b → dispatchable w' b.
Proof.
  intros [_ Hsame] Hne [Hch Hlive]. destruct (Hsame b Hne) as [E1 E2]. split; [by rewrite E2|].
  intros c Hc. rewrite E1 in Hc. unfold conn_in. rewrite E1, E2. by eapply Hlive.
Qed.

(** An added channel is not one of a new or a removed connection. *)
Lemma added_live w a c ch :
  inv w → conns w !! a = Some c → channels (m_poller w) !! a = Some ch → m_index ch = kAdded →
  conn_in is_live a w.
Proof.
  intros Hinv Hc Ha Hi. destruct (inv_conn _ Hinv a c Hc) as (ch' & Ha' & Hs). simplify_eq.
  exists c, ch. split_and!; [done..|].
  destruct Hs as [(_ & _ & (Hx & _) & _)|[Hs|[(_ & _ & (Hx & _) & _)|(_ & _ & (Hx & _) & _)]]]; [|done|..];
    cbn in Hx; by rewrite Hi in Hx.
Qed.

Lemma live_settled i e fd c : is_live i e fd c → settled i e fd c.
Proof. intros Hc. right. by left. Qed.

Lemma dispatch_wp t reads writes w a :
  inv w → dispatchable w a →
  wp (dispatch react t reads writes a) (λ _ w', inv w' ∧ others_same a w w') E w.
Proof.
  intros Hinv [[ch Ha] Hlive]. unfold dispatch. apply wp_bind.
  unfold wp at 1, on_poller. rewrite (deref_channel_ok _ _ _ Ha).
  assert (mk_reactor (m_poller w) (conns w) = w) as -> by (by destruct w).
  apply wp_bind, wp_gets. change (id w) with w.
  destruct (conns w !! a) as [c|] eqn:Hc; [|apply wp_ret; by split].
  eapply wp_mono.
  { apply (on_conn_wp is_live is_live); [done|by eapply Hlive|apply live_settled|].
    intros i e fd c0 Hc0. revert c0 Hc0. induction (dispatched t ch) as [|x l IH]; intros c0 Hc0; [done|].
    apply wp_bind. eapply wp_mono; [by apply handler_live|]. intros [] c1 Hc1. by apply IH. }
  by intros [] w' (? & _ & ?).
Qed.

Lemma reported_dispatchable w p filled :
  inv w → epoll_wait_ok (m_poller w) (inr filled) → consistent p → reported filled (m_poller w) p →
  let w1 := mk_reactor p (conns w) in
  inv w1 ∧ ∀ a, a ∈ data_ptr <$> filled → dispatchable w1 a.
Proof.
  intros Hinv Hok Hp Hrep w1.
  assert (Hinv1 : inv w1).
  { split; [done|]. intros a c Hc. destruct (inv_conn _ Hinv a c Hc) as (ch & Ha & Hs).
    destruct (reported_back _ _ _ _ _ Hrep Ha) as [ch' Ha'].
    destruct (reported_lookup _ _ _ _ _ Hrep Ha') as (ch0 & Ha0 & E1 & E2 & E3 & _). simplify_eq.
    exists ch'. split; [done|]. unfold in_phase. by rewrite E1, E2, E3. }
  split; [done|]. intros a (ev & -> & Hev)%list_elem_of_fmap.
  destruct (proj1 Hrep ev Hev) as (c & _ & Hi & Hc). split; [by eexists|].
  intros d Hd. by eapply added_live.
Qed.

(** The connection and the channel at [a] are as they were. *)
Definition same_at a w w' : Prop :=
  conns w' !! a = conns w !! a ∧ channels (m_poller w') !! a = channels (m_poller w) !! a.

Lemma conn_in_same P a w w' : same_at a w w' → conn_in P a w → conn_in P a w'.
Proof. intros [E1 E2] (c & ch & ? & ? & ?). exists c, ch. by rewrite E1, E2. Qed.

(** One turn touches no other channels than the reported ones. *)
Lemma turn_wp t filled reads writes w :
  inv w → epoll_wait_ok (m_poller w) (inr filled) →
  wp (turn react t filled reads writes)
    (λ _ w', inv w' ∧ ∀ a, a ∉ data_ptr <$> filled → same_at a w w') E w.
Proof.
  intros Hinv Hok. destruct (poll_wp _ _ (inv_poller _ Hinv) Hok) as (p & Hrun & Hp & Hrep).
  unfold turn. apply wp_bind. unfold wp at 1, on_poller. rewrite Hrun.
  destruct (reported_dispatchable w p filled Hinv Hok Hp Hrep) as [Hinv1 Hall].
  destruct Hok as (_ & Hnd & _). set (w1 := mk_reactor p (conns w)) in *.
  eapply wp_mono.
  { apply (wp_for_each (λ l w', inv w' ∧ NoDup l ∧ l ⊆ data_ptr <$> filled ∧ (∀ a, a ∈ l → dispatchable w' a) ∧
      ∀ a, a ∉ data_ptr <$> filled → same_at a w1 w')); [by split_and!|].
    intros a l w2 (Hinv' & [Hnin Hnd']%NoDup_cons & Hsub & Hall' & Hothers).
    eapply wp_mono; [apply dispatch_wp; [done|apply Hall'; set_solver]|].
    intros [] w3 [Hinv3 Hsame]. split_and!; [done|done|set_solver|..].
    - intros b Hb. eapply dispatchable_same; [done| |apply Hall'; set_solver]. by intros ->.
    - intros b Hb. destruct (Hothers b Hb) as [E1 E2]. destruct (proj2 Hsame b) as [E3 E4].
      { intros ->. set_solver. }
      split; congruence. }
  intros [] w' (? & _ & _ & _ & Hothers). split; [done|]. intros a Ha. destruct (Hothers a Ha) as [E1 E2].
  split; [done|]. rewrite E2. cbn. by apply Hrep.
Qed.

Lemma conn_settled w a c : inv w → conns w !! a = Some c → conn_in settled a w.
Proof. intros Hinv Hc. destruct (inv_conn _ Hinv a c Hc) as (ch & ? & ?). by exists c, ch. Qed.

(** A connection's phase, known from its state. *)
Lemma conn_in_weaken (P Q : Z → Z → Z → conn → Prop) a w c :
  conns w !! a = Some c → conn_in P a w →
  (∀ i e fd c', P i e fd c' → m_state c' = m_state c → Q i e fd c') → conn_in Q a w.
Proof.
  intros Hc (c' & ch & Hc' & Ha & HP) HPQ. simplify_eq. exists c, ch. split_and!; [done..|]. by apply HPQ.
Qed.
Lemma inv_add a fd wc hw c w :
  inv w → TcpConnection_new fd wc hw = Ok c → channels (m_poller w) !! a = None →
  (∀ b ch, channels (m_poller w) !! b = Some ch → m_fd ch ≠ fd) → inv (add_conn a c w).
Proof.
  intros Hinv Hnew Hnone Hfresh. unfold TcpConnection_new in Hnew.
  apply outcome_bind_inv in Hnew as (i & _ & Hnew).
  apply outcome_bind_inv in Hnew as (o & _ & [= <-]). unfold add_conn. split; cbn.
  - by apply consistent_add; [apply Hinv|..].
  - intros b d [[<- <-]|[Hne Hd]]%lookup_insert_Some.
    + eexists. rewrite lookup_insert_eq. split; [done|]. left. by split_and!.
    + rewrite lookup_insert_ne by done. by apply Hinv.
Qed.

(** A channel that is not added is not in the kernel's list. *)
Lemma not_added_unlisted w a ch :
  inv w → channels (m_poller w) !! a = Some ch → m_index ch ≠ kAdded →
  registered (kernel (m_poller w)) !! m_fd ch = None.
Proof.
  intros Hinv Ha Hi. pose proof (inv_poller _ Hinv) as Hp.
  apply (unregistered _ a); [apply Hp|done..|by apply own_entry].
Qed.

(** A connection whose channel is removed. *)
Lemma removed_new w a c ch :
  inv w → conns w !! a = Some c → removed c = true → channels (m_poller w) !! a = Some ch →
  m_index ch = kNew ∧ m_fd (m_channel c) = m_fd ch.
Proof.
  intros Hinv Hc Hr Ha. destruct (inv_conn _ Hinv a c Hc) as (ch' & Ha' & Hs). simplify_eq.
  destruct Hs as [(_ & St & _)|[[(_ & St & _)|(_ & St & _)]|[(_ & _ & (I & _ & F) & _)|(_ & _ & (I & _ & F) & _)]]];
    cbn in *; try congruence; by split.
Qed.

Lemma removed_gone w a c :
  inv w → conns w !! a = Some c → removed c = true → m_state c = kDisconnected → conn_in is_gone a w.
Proof.
  intros Hinv Hc Hr Hs. destruct (inv_conn _ Hinv a c Hc) as (ch & Ha & Hset). exists c, ch. split_and!; [done..|].
  destruct Hset as [(_ & R & _)|[[(_ & R & _)|(_ & R & _)]|[?|(S & _)]]]; cbn in *; congruence || done.
Qed.

Lemma inv_free a c w : inv w → conns w !! a = Some c → removed c = true → inv (free_conn a w).
Proof.
  intros Hinv Hc Hr. destruct (inv_conn _ Hinv a c Hc) as (ch & Ha & _).
  destruct (removed_new w a c ch Hinv Hc Hr Ha) as [Hi Hfd]. unfold free_conn. rewrite Hc. split; cbn [m_poller conns].
  - destruct (consistent_delete _ a ch (inv_poller _ Hinv) Ha Hi) as [Hwf Hd]. split; [|exact Hd].
    apply wf_after_close; [done|]. rewrite Hfd. by apply (not_added_unlisted w a); [..|rewrite Hi].
  - intros b d [Hne Hd]%lookup_delete_Some. cbn. rewrite lookup_delete_ne by done. by apply Hinv.
Qed.

(** A change of a channel's interest. *)
Lemma on_poller_change_wf b f w w' :
  inv w → f ∈ [enable_reading; disable_reading; enable_writing; disable_writing; disable_all] →
  on_poller (change f b) w = Ok (tt, w') →
  ∃ x, channels (m_poller w') = <[b := x]> (channels (m_poller w)) ∧ w' = mk_reactor (m_poller w') (conns w) ∧
    consistent (m_poller w').
Proof.
  intros [[Hwf Hd] Hinv] Hf Hrun. unfold on_poller in Hrun.
  destruct (channels (m_poller w) !! b) as [ch|] eqn:Hch.
  2: { unfold change, store, deref in Hrun. cbn in Hrun. unfold mbind, M_bind, gets, id in Hrun.
       by rewrite Hch in Hrun. }
  assert (m_fd (f ch) = m_fd ch ∧ m_index (f ch) = m_index ch ∧ purpose (f ch) = purpose ch)
    as (Hfd & Hi & Hcb).
  { rewrite !elem_of_cons, elem_of_nil in Hf. by destruct Hf as [->|[->|[->|[->|[->|[]]]]]]. }
  pose proof (own_entry _ b ch (conj Hwf Hd) Hch) as Hown.
  pose proof (change_wp (m_poller w) b ch f Hwf Hch Hfd Hi Hown) as Hchange. unfold wp in Hchange.
  destruct (change f b (m_poller w)) as [[[] p]|]; [|done]. injection Hrun as <-.
  destruct Hchange as (Hwf' & Hch' & _). eexists. cbn. split_and!; [exact Hch'|done|].
  split; [done|]. eapply moved_distinct; [done..|]. eexists. by split_and!; [exact Hch'|..].
Qed.

Lemma inv_other b f w w' :
  inv w → conns w !! b = None →
  f ∈ [enable_reading; disable_reading; enable_writing; disable_writing; disable_all] →
  on_poller (change f b) w = Ok (tt, w') → inv w'.
Proof.
  intros Hinv Hb Hf Hrun. destruct (on_poller_change_wf b f w w' Hinv Hf Hrun) as (x & Hx & -> & Hp).
  split; [done|]. cbn. intros a c Hc. rewrite Hx, lookup_insert_ne by congruence. by apply Hinv.
Qed.

Lemma on_conn_some a op w r : on_conn a op w = Ok r → ∃ c, conns w !! a = Some c.
Proof. unfold on_conn. destruct (conns w !! a) as [c|]; [by exists c|done]. Qed.

(** An operation that leaves each phase as it is. *)
Lemma on_conn_settled op w w' a c :
  inv w → conns w !! a = Some c → on_conn a op w = Ok (tt, w') →
  (∀ i e fd, preserves E (is_open i e fd) op) → (∀ i e fd, preserves E (is_back i e fd) op) →
  (∀ P, (∀ c', P c' → m_state c' = m_state c ∧ open (m_state c) = false) → preserves E P op) →
  inv w'.
Proof.
  intros Hinv Hc Hrun Hopen Hback Hidle.
  pose (S := λ i e fd c', settled i e fd c' ∧ m_state c' = m_state c).
  assert (Hin : conn_in S a w).
  { eapply conn_in_weaken; [done|by eapply conn_settled|done]. }
  refine (proj1 (wp_ok _ _ _ _ _ _ Hrun (on_conn_wp S settled op w a Hinv Hin (λ _ _ _ _ Hs, Hs) _))).
  intros i e fd c' [Hs Hst]. destruct (open (m_state c)) eqn:Hopn.
  - destruct Hs as [(St & _)|[[Hs|(St & _)]|[(St & _)|Hs]]]; try by rewrite <- Hst, St in Hopn.
    + eapply wp_mono; [by apply Hopen|]. intros [] c1 H1. right. left. by left.
    + eapply wp_mono; [apply Hback; by left|]. intros [] c1 [H1|H1]; right; [by right; right|left; by left].
  - eapply wp_mono.
    { apply (Hidle (λ c', settled i e fd c' ∧ m_state c' = m_state c)); [by intros ? [_ ?]|by split]. }
    by intros [] c1 [? _].
Qed.

(** [connectDestroyed] of the connection at [a]: half closed and out of the poller, or
    gone. *)
Lemma destroyed_half_wp w a c :
  inv w → conns w !! a = Some c → m_state c = kDisconnecting →
  wp (on_conn a (connectDestroyed react)) (λ _ w', inv w' ∧ conn_in is_half a w' ∧ others_same a w w') E w.
Proof.
  intros Hinv Hc Hs.
  apply (on_conn_wp (λ i e fd c', m_state c' = kDisconnecting ∧ (is_open i e fd c' ∨ is_half i e fd c')));
    [exact _|done| |by right; right; right|by intros i e fd c' [? ?]; apply destroyed_half].
  eapply conn_in_weaken; [done|by eapply conn_settled|]. intros i e fd c' Hset St. rewrite Hs in St. split; [done|].
  destruct Hset as [(St' & _)|[[?|(St' & _)]|[(St' & _)|?]]]; try congruence; [by left|by right].
Qed.

Lemma destroyed_gone_wp w a c :
  inv w → conns w !! a = Some c → m_state c = kConnected ∨ m_state c = kDisconnected →
  wp (on_conn a (connectDestroyed react)) (λ _ w', inv w' ∧ conn_in is_gone a w' ∧ others_same a w w') E w.
Proof.
  intros Hinv Hc Hs.
  apply (on_conn_wp (λ i e fd c', (m_state c' = kConnected ∧ is_open i e fd c') ∨ is_closed i e fd c' ∨
    is_gone i e fd c')); [exact _|done| |by right; right; left|by intros i e fd c'; apply destroyed_gone].
  eapply conn_in_weaken; [done|by eapply conn_settled|]. intros i e fd c' Hset St. rewrite <- St in Hs.
  destruct Hset as [(St' & _)|[[Ho|?]|[?|(St' & _)]]]; [| |by right; left|by right; right|]; try by destruct Hs; congruence.
  left. split; [|done]. destruct Hs as [|Hs]; [done|]. destruct Ho as [Ho _]. by rewrite Hs in Ho.
Qed.

Lemma destroyed_inv w w' a c :
  inv w → conns w !! a = Some c → m_state c ≠ kConnecting →
  on_conn a (connectDestroyed react) w = Ok (tt, w') → inv w'.
Proof.
  intros Hinv Hc Hs Hrun. destruct (decide (m_state c = kDisconnecting)) as [Hd|Hd].
  - by destruct (wp_ok _ _ _ _ _ _ Hrun (destroyed_half_wp w a c Hinv Hc Hd)).
  - refine (proj1 (wp_ok _ _ _ _ _ _ Hrun (destroyed_gone_wp w a c Hinv Hc _))). destruct (m_state c); auto; done.
Qed.

Lemma reactor_inv_step w w' : inv w → step react w w' → inv w'.
Proof.
  intros Hinv Hstep.
  destruct Hstep as [a fd wc hw c Hnew Hnone Hfresh ->|a c Hc Hs Hrun|a c Hc Hs Hrun|a buf r Hrun
    |a c buf r Hc Hs Hrun|a Hrun|t filled reads writes Hok Hrun|a c Hc Hr ->|b f Hb Hf Hrun].
  - by eapply inv_add.
  - refine (proj1 (wp_ok _ _ _ _ _ _ Hrun (on_conn_wp is_new is_open _ w a Hinv _ _ _))).
    + eapply conn_in_weaken; [done|by eapply conn_settled|]. intros i e fd c' Hset St.
      destruct Hset as [?|[[(St' & _)|(St' & _)]|[(St' & _)|(St' & _)]]]; [done| |congruence..].
      by rewrite St, Hs in St'.
    + intros i e fd c' Ho. right. left. by left.
    + intros i e fd c'. by apply established_open.
  - by eapply destroyed_inv.
  - destruct (on_conn_some _ _ _ _ Hrun) as [c Hc].
    eapply (on_conn_settled (send buf r)); [done..| | |].
    + intros. by apply send_open.
    + intros. by apply send_back.
    + intros P HP. apply send_idle. intros c' [-> Ho]%HP. by intros St; rewrite St in Ho.
  - eapply (on_conn_settled (sendInLoop buf r)); [done..| | |].
    + intros. by apply sendInLoop_open.
    + intros. by apply sendInLoop_back.
    + intros P HP c' Hc'. destruct (HP c' Hc') as [St Ho].
      assert (m_state c' = kDisconnected) by (rewrite St; by destruct (m_state c)).
      unfold wp. by rewrite sendInLoop_closed.
  - destruct (on_conn_some _ _ _ _ Hrun) as [c Hc].
    eapply (on_conn_settled shutdown); [done..| | |].
    + intros. by apply shutdown_open.
    + intros. by apply shutdown_back.
    + intros P HP. apply shutdown_idle. intros c' [-> Ho]%HP. by intros St; rewrite St in Ho.
  - by destruct (wp_ok _ _ _ _ _ _ Hrun (turn_wp t filled reads writes w Hinv Hok)).
  - by eapply inv_free.
  - by eapply inv_other.
Qed.

(** An operation of one connection, whatever it is, leaves the others alone. *)
Lemma on_conn_others b op w w' a :
  inv w → on_conn b op w = Ok (tt, w') → a ≠ b → same_at a w w'.
Proof.
  intros Hinv Hrun Hne. destruct (on_conn_some _ _ _ _ Hrun) as [c Hc].
  destruct (inv_conn _ Hinv b c Hc) as (ch & Hch & _). unfold on_conn in Hrun. rewrite Hc in Hrun.
  destruct (op _) as [[[] c']|]; [|done]. unfold on_poller in Hrun. cbn [m_poller conns] in Hrun.
  pose proof (perform_all_wp (loop_calls c') (m_poller w) b ch (inv_poller _ Hinv) Hch) as Hall. unfold wp in Hall.
  destruct (for_each _ _ _) as [[[] p]|]; [|done]. injection Hrun as <-.
  destruct Hall as (_ & ch' & Hch' & _). split; cbn; [by rewrite lookup_insert_ne|by rewrite Hch', lookup_insert_ne].
Qed.

Lemma on_conn_gone op w w' a :
  inv w → conn_in is_gone a w → on_conn a op w = Ok (tt, w') →
  (∀ i e fd, preserves E (is_gone i e fd) op) → conn_in is_gone a w'.
Proof.
  intros Hinv Hg Hrun Hop.
  by destruct (wp_ok _ _ _ _ _ _ Hrun (on_conn_wp is_gone is_gone op w a Hinv Hg
    (λ _ _ _ _ Hc, or_intror (or_intror (or_introl Hc))) (λ i e fd c, Hop i e fd c))) as (_ & ? & _).
Qed.

(** A connection that is gone stays so until it is freed. *)
Lemma gone_stays w w' a c' :
  inv w → conn_in is_gone a w → step react w w' → conns w' !! a = Some c' → conn_in is_gone a w'.
Proof.
  intros Hinv Hg Hstep Hc'. pose proof Hg as (c & ch & Hc & Ha & (Hs & _ & (Hi & _) & _)). cbn in Hs, Hi.
  assert (Hon : ∀ b op, on_conn b op w = Ok (tt, w') →
    (∀ i e fd, preserves E (is_gone i e fd) op) → conn_in is_gone a w').
  { intros b op Hrun Hop. destruct (decide (a = b)) as [<-|Hne]; [by eapply on_conn_gone|].
    eapply conn_in_same; [by eapply on_conn_others|done]. }
  assert (Hidle : ∀ i e fd d, is_gone i e fd d → m_state d ≠ kConnected) by by intros i e fd d (-> & _).
  destruct Hstep as [b fd wc hw d Hnew Hnone Hfresh ->|b d Hd St Hrun|b d Hd St Hrun|b buf r Hrun
    |b d buf r Hd St Hrun|b Hrun|t filled reads writes Hok Hrun|b d Hd Hr ->|b f Hb Hf Hrun].
  - assert (a ≠ b) by congruence. eapply conn_in_same; [|done].
    split; cbn; by rewrite lookup_insert_ne.
  - destruct (decide (a = b)) as [<-|Hne]; [by simplify_eq; congruence|].
    eapply conn_in_same; [by eapply on_conn_others|done].
  - apply (Hon _ _ Hrun). intros i e fd d' Hd'. apply destroyed_gone; [done|by right; right].
  - apply (Hon _ _ Hrun). intros i e fd. apply send_idle, Hidle.
  - apply (Hon _ _ Hrun). intros i e fd d' Hd'. unfold wp. rewrite sendInLoop_closed; [done|apply Hd'].
  - apply (Hon _ _ Hrun). intros i e fd. apply shutdown_idle, Hidle.
  - destruct (wp_ok _ _ _ _ _ _ Hrun (turn_wp t filled reads writes w Hinv Hok)) as [_ Hothers].
    eapply conn_in_same; [apply Hothers|done]. intros (ev & Hev & Hin)%list_elem_of_fmap.
    destruct Hok as (_ & _ & Hreg). destruct (Hreg ev Hin) as (fd & mask & Hr).
    apply (wf_kernel _ (proj1 (inv_poller _ Hinv))) in Hr as (b & x & Hx & _ & Hix & [= _ Eb]).
    rewrite Hev, Eb in Ha. simplify_eq. by rewrite Hi in Hix.
  - cbn in Hc'. assert (a ≠ b) by (intros ->; by rewrite lookup_delete_eq in Hc').
    eapply conn_in_same; [|done]. unfold free_conn. rewrite Hd. split; cbn; by rewrite lookup_delete_ne.
  - assert (a ≠ b) by congruence. eapply conn_in_same; [|done].
    destruct (on_poller_change_wf b f w w' Hinv Hf Hrun) as (x & Hx & -> & _). split; cbn; [done|].
    by rewrite Hx, lookup_insert_ne.
Qed.
End invariant.

(** ** Properties *)
Section properties.
Context {K : Type} `{EpollLaws K} {mx : MutexImpl} (react : notification → conn → action).
Implicit Types (w : reactor K) (a : Z) (c : conn) (ch : Channel handler).

Lemma added_listed w a ch :
  inv w → channels (m_poller w) !! a = Some ch → m_index ch = kAdded →
  registered (kernel (m_poller w)) !! m_fd ch = Some (mk_event (m_events ch) a).
Proof. intros Hinv Ha Hi. apply (wf_kernel _ (proj1 (inv_poller _ Hinv))). by exists a, ch. Qed.

Lemma new_unmapped w a ch :
  inv w → channels (m_poller w) !! a = Some ch → m_index ch = kNew →
  m_channel_map (m_poller w) !! m_fd ch = None.
Proof.
  intros Hinv Ha Hi. pose proof (inv_poller _ Hinv) as [Hwf Hd].
  destruct (m_channel_map _ !! _) as [b|] eqn:Hb; [|done].
  apply (wf_map _ Hwf) in Hb as (d & Hb & Hfd & Hne). assert (b = a) as -> by (by eapply Hd).
  simplify_eq.
Qed.

Lemma reactor_inv w0 w :
  consistent (m_poller w0) → conns w0 = ∅ → rtc (step react) w0 w → inv w.
Proof.
  intros Hp Hnone Hsteps. revert w Hsteps. apply rtc_ind_r.
  - split; [done|]. intros a c. rewrite Hnone. by intros ?%lookup_empty_Some.
  - intros w1 w2 _ Hstep Hinv. eapply (reactor_inv_step react (λ _, True)); [|done..].
    intros n c. apply tame_any.
Qed.

(** What the kernel's list and the poller's map have for a connection, by its state. *)
Lemma conn_listed w a c :
  inv w → conns w !! a = Some c →
  let fd := m_fd (m_channel c) in
  let listed := registered (kernel (m_poller w)) !! fd in
  (m_state c = kConnecting → listed = None) ∧
  (open (m_state c) = true → removed c = false →
     listed = Some (mk_event (m_events (m_channel c)) a) ∧ isReading (m_channel c) = true) ∧
  (m_state c = kDisconnected → listed = None ∨ listed = Some (mk_event kNoneEvent a)) ∧
  (removed c = true →
     (m_state c = kDisconnected ∨ m_state c = kDisconnecting) ∧ listed = None ∧
     m_channel_map (m_poller w) !! fd = None).
Proof.
  intros Hinv Hc fd listed. destruct (inv_conn _ Hinv a c Hc) as (ch & Ha & Hs).
  assert (Hunlisted : m_fd ch = fd → m_index ch ≠ kAdded → listed = None).
  { intros Hfd Hi. unfold listed. rewrite <- Hfd. by apply (not_added_unlisted w a). }
  assert (Hlisted : m_fd ch = fd → m_index ch = kAdded → listed = Some (mk_event (m_events ch) a)).
  { intros Hfd Hi. unfold listed. rewrite <- Hfd. by apply (added_listed w). }
  assert (Hnew : m_fd ch = fd → m_index ch = kNew → listed = None ∧ m_channel_map (m_poller w) !! fd = None).
  { intros Hfd Hi. split; [by apply Hunlisted; [|rewrite Hi]|]. rewrite <- Hfd. by apply (new_unmapped w a). }
  destruct Hs as [(S & R & (I & E & F) & N)|[[(S & R & (I & E & F) & N)|(S & R & I & N)]
    |[(S & R & (I & E & F) & N)|(S & R & (I & E & F) & N)]]]; cbn in *; rewrite R.
  - rewrite S. destruct (Hnew (eq_sym F) I). by split_and!.
  - rewrite (Hlisted (eq_sym F) I), E. split_and!; try done; intros E'; by rewrite E' in S.
  - rewrite S. split_and!; try done. intros _. destruct I as [(I & E & F)|(I & E & F)].
    + right. rewrite (Hlisted (eq_sym F) I). cbn in E. by rewrite E, N.
    + left. cbn in I. by apply Hunlisted; [|rewrite I].
  - rewrite S. destruct (Hnew (eq_sym F) I). split_and!; try done; [by left|]. intros _. by split; [left|].
  - rewrite S. destruct (Hnew (eq_sym F) I). split_and!; try done. intros _. by split; [right|].
Qed.

(** C6. Connections and their poller agree in every state of a loop, whatever the
    callbacks do and the system calls answer. The kernel does not list a connection that
    is still connecting. It lists an open one (connected or half closed), unless it was
    taken down, under its own descriptor and channel, with the interest the channel has,
    which always includes reading. A closed one is out of the list or listed with an
    empty interest. While a connection is taken down ([removed]) neither the list nor the
    poller's map knows it; [connectDestroyed] leaves it so, closed or, if it was half
    closed, still half closed. One that is closed and taken down stays so in every
    later step, until it is freed: only one taken down half closed can be registered
    again ([half_closed_comes_back]). [epoll_wait] can only report channels that exist,
    and of connections only those that are established and not taken down. *)
Theorem connection_tracks_poller w0 w :
  consistent (m_poller w0) → conns w0 = ∅ → rtc (step react) w0 w →
  (∀ a c, conns w !! a = Some c →
     let fd := m_fd (m_channel c) in
     let listed := registered (kernel (m_poller w)) !! fd in
     (m_state c = kConnecting → listed = None) ∧
     (open (m_state c) = true → removed c = false →
        listed = Some (mk_event (m_events (m_channel c)) a) ∧ isReading (m_channel c) = true) ∧
     (m_state c = kDisconnected → listed = None ∨ listed = Some (mk_event kNoneEvent a)) ∧
     (removed c = true →
        (m_state c = kDisconnected ∨ m_state c = kDisconnecting) ∧ listed = None ∧
        m_channel_map (m_poller w) !! fd = None)) ∧
  (∀ a c w', conns w !! a = Some c → m_state c ≠ kConnecting →
     on_conn a (connectDestroyed react) w = Ok (tt, w') →
     ∃ c', conns w' !! a = Some c' ∧ removed c' = true ∧
       m_state c' = (if decide (m_state c = kDisconnecting) then kDisconnecting else kDisconnected)) ∧
  (∀ a c w' c', conns w !! a = Some c → removed c = true → m_state c = kDisconnected →
     step react w w' → conns w' !! a = Some c' → removed c' = true ∧ m_state c' = kDisconnected) ∧
  ∀ filled ev, epoll_wait_ok (m_poller w) (inr filled) → ev ∈ filled →
    is_Some (channels (m_poller w) !! data_ptr ev) ∧
    ∀ c, conns w !! data_ptr ev = Some c → m_state c ≠ kConnecting ∧ removed c = false.
Proof.
  intros Hp Hnone Hsteps. pose proof (reactor_inv w0 w Hp Hnone Hsteps) as Hinv.
  assert (Htame : ∀ n c, tame (λ _, True) (react n c)) by (intros; apply tame_any). split_and!.
  - intros a c Hc. by apply conn_listed.
  - intros a c w' Hc Hs Hrun. case_decide as Hd.
    + destruct (wp_ok _ _ _ _ _ _ Hrun (destroyed_half_wp react (λ _, True) w a c Hinv Hc Hd))
        as (_ & (c' & ch & Hc' & _ & (St & Hr & _)) & _). by exists c'.
    + assert (m_state c = kConnected ∨ m_state c = kDisconnected) as Hst by (destruct (m_state c); auto; done).
      destruct (wp_ok _ _ _ _ _ _ Hrun (destroyed_gone_wp react (λ _, True) Htame w a c Hinv Hc Hst))
        as (_ & (c' & ch & Hc' & _ & (St & Hr & _)) & _). by exists c'.
  - intros a c w' c' Hc Hr Hs Hstep Hc'.
    pose proof (removed_gone w a c Hinv Hc Hr Hs) as Hg.
    destruct (gone_stays react (λ _, True) Htame w w' a c' Hinv Hg Hstep Hc')
      as (d & ch & Hd & _ & (St & R & _)). simplify_eq. by split.
  - intros filled ev (_ & _ & Hreg) Hin. destruct (Hreg ev Hin) as (fd & mask & Hr).
    apply (wf_kernel _ (proj1 (inv_poller _ Hinv))) in Hr as (b & ch & Ha & _ & Hi & [= _ E]).
    rewrite E. split; [by eexists|]. intros c Hc.
    destruct (added_live w b c ch Hinv Hc Ha Hi) as (c' & ch' & Hc' & _ & Hlive). simplify_eq.
    destruct Hlive as [(S & R & _)|(S & R & _)]; cbn in S, R; split; try done.
    + by intros E; rewrite E in S.
    + congruence.
Qed.

(** [connectDestroyed] of a half-closed connection only removes its channel. *)
Lemma destroyed_half_closed w a c ch :
  inv w → conns w !! a = Some c → channels (m_poller w) !! a = Some ch →
  m_state c = kDisconnecting →
  ∃ p, on_conn a (connectDestroyed react) w =
      Ok (tt, mk_reactor p (<[a := set_loop_calls [RemoveChannel] (set_removed true c)]> (conns w))) ∧
    EpollPoller.wf p ∧ channels p = <[a := set_index kNew ch]> (channels (m_poller w)) ∧
    registered (kernel p) = delete (m_fd ch) (registered (kernel (m_poller w))) ∧
    m_channel_map p = delete (m_fd ch) (m_channel_map (m_poller w)).
Proof.
  intros Hinv Hc Ha Hs. pose proof (inv_poller _ Hinv) as Hp.
  destruct (removeChannel_ok _ a ch (proj1 Hp) Ha (own_entry _ _ _ Hp Ha))
    as (p & Hrun & Hwf & Hch & Hm & Hr & _).
  exists p. split_and!; try done. unfold on_conn. rewrite Hc. unfold connectDestroyed. mstep.
  change (m_state (id (set_loop_calls [] c))) with (m_state c). rewrite decide_False by congruence. mstep.
  unfold remove_channel. mstep. cbn. unfold on_poller. cbn. by rewrite (M_bind_ok _ _ _ _ _ Hrun).
Qed.

(** The turn in which one channel is reported that belongs to a connection. *)
Lemma turn_single t mask reads writes w a c ch :
  channels (m_poller w) !! a = Some ch → conns w !! a = Some c →
  ∃ p, turn react t [mk_event mask a] reads writes w =
    on_conn a (for_each (run_handler react (reads a) (writes a)) (dispatched t (set_revents mask ch)))
      (mk_reactor p (conns w)).
Proof.
  intros Ha Hc. unfold turn. set (p1 := set_channels (<[a := set_revents mask ch]> (channels (m_poller w))) (m_poller w)).
  assert (Hpoll : ∃ p, poll (inr [mk_event mask a]) [] (m_poller w) = Ok ([a], p) ∧ channels p = channels p1).
  { unfold poll. change (0 <? Z.of_nat (length [mk_event mask a])) with true. cbn [fillActiveChannels data_ptr events].
    rewrite (M_bind_ok _ _ (m_poller w) [a] p1).
    - mstep. change (id p1) with p1. destruct (_ =? _); by eexists.
    - by rewrite (M_bind_ok _ _ _ _ _ (store_ok (m_poller w) a _ _ Ha)). }
  destruct Hpoll as (p & Hpoll & Hch). exists p.
  rewrite (M_bind_ok _ _ w [a] (mk_reactor p (conns w))) by (unfold on_poller; by rewrite Hpoll).
  assert (Ha' : channels p !! a = Some (set_revents mask ch)) by (rewrite Hch; apply lookup_insert_eq).
  assert (Hend : ∀ m (x : reactor K), (for_each (λ _, m) [a] x : outcome (unit * reactor K)) = m x).
  { intros m x. cbn. unfold mbind, M_bind. by destruct (m x) as [[[] y]|]. }
  change (for_each (dispatch react t reads writes) [a]) with (for_each (λ _ : Z, dispatch react t reads writes a) [a]).
  rewrite Hend. unfold dispatch. rewrite (M_bind_ok _ _ (mk_reactor p (conns w)) (set_revents mask ch) (mk_reactor p (conns w))).
  - mstep. cbn [conns id]. by rewrite Hc.
  - unfold on_poller. cbn [m_poller]. by rewrite (deref_channel_ok _ _ _ Ha').
Qed.

(** Once a connection is freed its descriptor is closed: the kernel lists and reports it
    no more. The poller's map is as it was. *)
Lemma freed_unlisted w a c ch :
  EpollPoller.wf (m_poller w) → conns w !! a = Some c → channels (m_poller w) !! a = Some ch →
  m_fd (m_channel c) = m_fd ch →
  let w' := free_conn a w in
  registered (kernel (m_poller w')) !! m_fd (m_channel c) = None ∧
  m_channel_map (m_poller w') = m_channel_map (m_poller w) ∧ channels (m_poller w') !! a = None ∧
  ∀ filled ev, epoll_wait_ok (m_poller w') (inr filled) → ev ∈ filled → data_ptr ev ≠ a.
Proof.
  intros Hwf Hc Ha Hfd. unfold free_conn. rewrite Hc. cbn. rewrite close_leaves.
  split_and!; [apply lookup_delete_eq|done|apply lookup_delete_eq|].
  intros filled ev (_ & _ & Hall) Hin Ea. destruct (Hall ev Hin) as (d & m & Hd). cbn in Hd. apply lookup_delete_Some in Hd as [Hne Hd].
  apply (wf_kernel _ Hwf) in Hd as (b & x & Hx & Hxd & _ & [= _ Eb]). rewrite Ea in Eb. subst b. by simplify_eq.
Qed.

End properties.

(** ** One connection, from its accepting to a half close *)
Definition silent (_ : notification) (_ : conn) : action := Done.

Definition sample_new : conn :=
  match TcpConnection_new (mx := inert_mutex) 7 false false with Ok c => c | Err _ => sample_conn end.

Definition sample_empty : reactor (gmap Z epoll_event) :=
  mk_reactor (mk_poller ∅ ∅ ∅ KInitEventListSize) ∅.
Definition run_on (op : M conn unit) (w : reactor (gmap Z epoll_event)) : reactor (gmap Z epoll_event) :=
  match on_conn 100 op w with Ok (_, w') => w' | Err _ => w end.
Definition sample_open : reactor (gmap Z epoll_event) :=
  run_on (connectEstablished (mx := inert_mutex) silent) (add_conn 100 sample_new sample_empty).
Definition sample_half : reactor (gmap Z epoll_event) := run_on shutdown sample_open.

Lemma sample_consistent : consistent (m_poller sample_empty).
Proof. split; [by apply wf_new|]. intros a b x y. cbn. by intros ?%lookup_empty_Some. Qed.

Lemma sample_open_reachable : rtc (step (mx := inert_mutex) silent) sample_empty sample_open.
Proof.
  eapply rtc_l.
  { apply (step_accept _ _ _ 100 7 false false sample_new); [by vm_compute|done| |reflexivity].
    intros b ch. cbn. by intros ?%lookup_empty_Some. }
  eapply rtc_l; [|apply rtc_refl].
  apply (step_established _ _ _ 100 sample_new); by vm_compute.
Qed.

Lemma sample_half_reachable : rtc (step (mx := inert_mutex) silent) sample_empty sample_half.
Proof.
  eapply rtc_r; [apply sample_open_reachable|]. apply (step_shutdown _ _ _ 100). by vm_compute.
Qed.

(** The open connection is listed; half closed and taken down, it is not. *)
Lemma connection_tracks_poller_witness :
  registered (kernel (m_poller sample_open)) !! 7 = Some (mk_event kReadEvent 100) ∧
  ∃ w, on_conn 100 (connectDestroyed (mx := inert_mutex) silent) sample_half = Ok (tt, w) ∧
    ∃ c, conns w !! 100 = Some c ∧ removed c = true ∧ m_state c = kDisconnecting.
Proof.
  split.
  - assert (Hc : ∃ c, conns sample_open !! 100 = Some c ∧ open (m_state c) = true ∧ removed c = false ∧
      m_fd (m_channel c) = 7 ∧ m_events (m_channel c) = kReadEvent) by (eexists; by vm_compute).
    destruct Hc as (c & Hc & Hs & Hr & Hfd & He).
    destruct (connection_tracks_poller (mx := inert_mutex) silent sample_empty sample_open
      sample_consistent eq_refl sample_open_reachable) as [Hall _].
    destruct (Hall 100 c Hc) as (_ & Hopen & _). destruct (Hopen Hs Hr) as [Hl _].
    rewrite Hfd, He in Hl. exact Hl.
  - assert (Hc : ∃ c, conns sample_half !! 100 = Some c ∧ m_state c = kDisconnecting) by (eexists; by vm_compute).
    destruct Hc as (c & Hc & Hs).
    assert (Hrun : ∃ w, on_conn 100 (connectDestroyed (mx := inert_mutex) silent) sample_half = Ok (tt, w))
      by (eexists; by vm_compute).
    destruct Hrun as (w & Hrun). exists w. split; [exact Hrun|].
    destruct (connection_tracks_poller (mx := inert_mutex) silent sample_empty sample_half
      sample_consistent eq_refl sample_half_reachable) as (_ & Hdown & _).
    destruct (Hdown 100 c w Hc ltac:(rewrite Hs; discriminate) Hrun) as (c' & Hc' & Hr & Hs').
    exists c'. split; [exact Hc'|]. split; [exact Hr|]. rewrite Hs in Hs'. exact Hs'.
Defined.

