(* ===== verification/Decimal.v ===== *)
(** Decimal printing: what [snprintf] with ["%d"], ["%ld"] and
    [std::to_string] produce, and the facts about it that the printed
    timestamps and the connection names need. *)
From Stdlib Require Export Ascii.
From stdpp Require Export pretty.
From S2P Require Import Prelude.

(** [snprintf(buf, cap, ...)] keeps at most [cap - 1] characters. *)
Definition snprintf (cap : nat) (s : string) : string := String.substring 0 (cap - 1) s.

Lemma substring_all s n : (String.length s ≤ n)%nat → String.substring 0 n s = s.
Proof.
  revert n. induction s as [|c s IH]; intros [|n] Hn; cbn in *; try done; [lia|].
  rewrite IH by lia. done.
Qed.

Lemma snprintf_fits cap s : (String.length s < cap)%nat → snprintf cap s = s.
Proof. intros. apply substring_all. lia. Qed.

Lemma string_length_app s1 s2 :
  String.length (s1 +:+ s2) = (String.length s1 + String.length s2)%nat.
Proof. induction s1 as [|c s1 IH]; [done|]. cbn. by rewrite <- IH. Qed.

(** All characters of a string satisfy [P]. *)
Fixpoint all_chars (P : Ascii.ascii → Prop) (s : string) : Prop :=
  match s with
  | EmptyString => True
  | String c s => P c ∧ all_chars P s
  end.

Definition is_digit (c : Ascii.ascii) : Prop :=
  c ∈ ["0"; "1"; "2"; "3"; "4"; "5"; "6"; "7"; "8"; "9"]%char.

Definition is_numeric (c : Ascii.ascii) : Prop := is_digit c ∨ c = "-"%char.

#[export] Instance is_digit_dec c : Decision (is_digit c) := list_elem_of_dec _ _.
#[export] Instance is_numeric_dec c : Decision (is_numeric c).
Proof. unfold is_numeric. apply _. Defined.

Lemma dot_not_numeric : ¬ is_numeric "."%char.
Proof. by apply (bool_decide_unpack (¬ is_numeric "."%char)). Qed.

Lemma all_chars_impl (P Q : Ascii.ascii → Prop) s :
  (∀ c, P c → Q c) → all_chars P s → all_chars Q s.
Proof. intros HPQ. induction s; cbn; naive_solver. Qed.

Lemma pretty_N_char_digit n : is_digit (pretty_N_char n).
Proof.
  unfold is_digit, pretty_N_char.
  repeat case_match; repeat first [apply list_elem_of_here | apply list_elem_of_further].
Qed.

Lemma pretty_N_go_chars n s :
  all_chars is_digit s → all_chars is_digit (pretty_N_go n s).
Proof.
  revert s. induction (N.lt_wf_0 n) as [n _ IH]; intros s Hs.
  destruct (decide (n = 0)%N) as [->|Hn]; [done|].
  rewrite pretty_N_go_step by lia. apply IH.
  - apply N.div_lt; lia.
  - split; [apply pretty_N_char_digit|done].
Qed.

Lemma pretty_N_go_length k n s :
  (n < 10 ^ N.of_nat k)%N → (String.length (pretty_N_go n s) ≤ k + String.length s)%nat.
Proof.
  revert n s. induction k as [|k IH]; intros n s Hn.
  { assert (n = 0)%N as -> by (cbn in Hn; lia). done. }
  destruct (decide (n = 0)%N) as [->|Hne]; [rewrite pretty_N_go_0; lia|].
  rewrite pretty_N_go_step by lia. etransitivity; [apply IH|cbn; lia].
  rewrite Nat2N.inj_succ, N.pow_succ_r' in Hn. apply N.Div0.div_lt_upper_bound. lia.
Qed.

Lemma pretty_Z_chars (z : Z) : all_chars is_numeric (pretty z).
Proof.
  assert (HN : ∀ n : N, all_chars is_numeric (pretty n)).
  { intros n. unfold pretty, pretty_N. case_decide.
    - split; [left; apply list_elem_of_here|done].
    - eapply all_chars_impl; [by left|]. by apply pretty_N_go_chars. }
  destruct z; [split; [left; apply list_elem_of_here|done]|apply HN|].
  split; [by right|apply HN].
Qed.

Lemma pretty_pos_length p k :
  Z.pos p < 10 ^ Z.of_nat k → (String.length (pretty (N.pos p)) ≤ k)%nat.
Proof.
  intros Hp. unfold pretty, pretty_N. rewrite decide_False by lia.
  etransitivity; [apply pretty_N_go_length with (k := k)|cbn; lia].
  apply N2Z.inj_lt. rewrite N2Z.inj_pow, nat_N_Z. exact Hp.
Qed.

Lemma pretty_Z_length_nonneg (z : Z) k :
  (0 < k)%nat → 0 ≤ z < 10 ^ Z.of_nat k → (String.length (pretty z) ≤ k)%nat.
Proof.
  intros Hk Hz. destruct z as [|p|p]; [cbn; lia| |lia].
  change (pretty (Z.pos p)) with (pretty (N.pos p)). apply pretty_pos_length. lia.
Qed.

Lemma pretty_Z_length (z : Z) k :
  (0 < k)%nat → - 10 ^ Z.of_nat k < z < 10 ^ Z.of_nat k →
  (String.length (pretty z) ≤ k + 1)%nat.
Proof.
  intros Hk Hz. destruct (decide (0 ≤ z)).
  - pose proof (pretty_Z_length_nonneg z k ltac:(lia) ltac:(lia)). lia.
  - destruct z as [|p|p]; [lia..|].
    change (pretty (Z.neg p)) with (String "-"%char (pretty (N.pos p))). cbn [String.length].
    pose proof (pretty_pos_length p k ltac:(lia)). lia.
Qed.

(** A character none of the fields contains separates them. *)
Lemma split_at_separator sep a1 a2 b1 b2 :
  all_chars (λ c, c ≠ sep) a1 → all_chars (λ c, c ≠ sep) a2 →
  a1 +:+ String sep b1 = a2 +:+ String sep b2 → a1 = a2 ∧ b1 = b2.
Proof.
  revert a2. induction a1 as [|c1 a1 IH]; intros [|c2 a2]; cbn; intros H1 H2 He.
  - by injection He.
  - injection He as -> _. by destruct H2.
  - injection He as -> _. by destruct H1.
  - injection He as -> He. destruct (IH a2) as [-> ->]; naive_solver.
Qed.

Lemma pretty_Z_no sep (z : Z) : ¬ is_numeric sep → all_chars (λ c, c ≠ sep) (pretty z).
Proof.
  intros Hsep. eapply all_chars_impl; [|apply pretty_Z_chars]. by intros c Hc ->.
Qed.
