(* ===== verification/Thread.v ===== *)
(** [Thread] (Thread.h, Thread.cpp): names by a counter all threads share, and the life
    of one object: its owner's calls and its destruction interleaved with the lambda
    [start] gives to the new thread, which uses the object. *)
From S2P Require Import Prelude Decimal.
#[local] Open Scope Z_scope.

(** [Thread]; [m_thread] is empty or a [std::thread], joinable or not. *)
Record Thread := mk_Thread {
  m_started : bool;
  m_joined : bool;
  m_thread : option bool;
  m_tid : Z;
  m_name : string
}.

(** An [atomic_int] wraps around. *)
Definition next_count (m_numCount : Z) : Z := i32 (m_numCount + 1).

(** [setDefaultName], the counter at [num] after its increment. *)
Definition setDefaultName (m_name : string) (num : Z) : string :=
  if decide (m_name = "") then snprintf 32 ("Thread " +:+ pretty num) else m_name.

(** [Thread::Thread]: the new object and the new count. *)
Definition Thread_new (name : string) (m_numCount : Z) : Thread * Z :=
  let num := next_count m_numCount in
  (mk_Thread false false None 0 (setDefaultName name num), num).

(** A [shared_ptr] to a [std::thread] lets go of it. *)
Definition drop_thread (th : option bool) : outcome unit :=
  match th with Some true => Err Terminate | _ => Ok tt end.

(** [start] until it waits on its semaphore, the new thread's lambda not counted. *)
Definition start : M Thread unit :=
  modify (λ t, mk_Thread true (m_joined t) (m_thread t) (m_tid t) (m_name t));;
  t ← gets id;
  lift (drop_thread (m_thread t));;
  modify (λ t, mk_Thread (m_started t) (m_joined t) (Some true) (m_tid t) (m_name t)).

(** [join] until it waits for the thread. *)
Definition join : M Thread unit :=
  modify (λ t, mk_Thread (m_started t) true (m_thread t) (m_tid t) (m_name t));;
  t ← gets id;
  match m_thread t with
  | None => fail NullDeref
  | Some false => fail SystemError
  | Some true => mret tt
  end.

(** The thread joined has ended. *)
Definition join_returns (t : Thread) : Thread :=
  mk_Thread (m_started t) (m_joined t) (Some false) (m_tid t) (m_name t).

(** [~Thread], then the end of [m_thread]. *)
Definition Thread_destroy (t : Thread) : outcome unit :=
  th ← (if m_started t && negb (m_joined t) then
          match m_thread t with
          | None => Err NullDeref
          | Some false => Err SystemError
          | Some true => Ok (Some false)
          end
        else Ok (m_thread t));
  drop_thread th.

(** A call of the owner; [tid] is the id the new thread will have. *)
Inductive call := Start (tid : Z) | Join.

(** Where the owner is; the semaphore is a variable of [start]. *)
Inductive owner := Between | In_start (posted : bool) | In_join.

(** Where the lambda is; [Running n]: [m_funcs] and what it holds are used [n] times
    more before it returns. *)
Inductive worker := Created (tid : Z) | Identified | Running (uses : nat) | Ended.

(** The owner's remaining calls, after which it destroys the object ([None] then), and
    the thread started last. *)
Record state := mk_state {
  calls : list call;
  at_ : owner;
  object : option Thread;
  thread_ : option worker
}.

Definition made (name : string) (m_numCount : Z) (cs : list call) : state :=
  mk_state cs Between (Some (Thread_new name m_numCount).1) None.

(** The owner goes on, unless it has to wait ([None]) or has nothing left to do. *)
Definition own (s : state) : option (outcome state) :=
  match object s, at_ s, calls s with
  | None, _, _ => None
  | Some t, Between, [] =>
      Some (match Thread_destroy t with
            | Ok _ => Ok (mk_state [] Between None (thread_ s))
            | Err e => Err e
            end)
  | Some t, Between, Start tid :: cs =>
      Some (match start t with
            | Ok (_, t) => Ok (mk_state cs (In_start false) (Some t) (Some (Created tid)))
            | Err e => Err e
            end)
  | Some t, Between, Join :: cs =>
      Some (match join t with
            | Ok (_, t) => Ok (mk_state cs In_join (Some t) (thread_ s))
            | Err e => Err e
            end)
  | Some t, In_start true, cs => Some (Ok (mk_state cs Between (Some t) (thread_ s)))
  | Some _, In_start false, _ => None
  | Some t, In_join, cs =>
      match thread_ s with
      | Some Ended => Some (Ok (mk_state cs Between (Some (join_returns t)) (Some Ended)))
      | _ => None
      end
  end.

Section lambda.
  (** How often a call of [m_funcs] uses what it holds, once entered. *)
  Context (uses : nat).

(** The lambda: [m_tid] and [m_funcs] are reached through the object, the semaphore
    through [start]'s frame. *)
Definition work (s : state) : option (outcome state) :=
  match thread_ s with
  | Some (Created tid) =>
      Some (match object s with
            | Some t => Ok (mk_state (calls s) (at_ s)
                (Some (mk_Thread (m_started t) (m_joined t) (m_thread t) tid (m_name t)))
                (Some Identified))
            | None => Err UseAfterFree
            end)
  | Some Identified =>
      Some (match at_ s with
            | In_start _ => Ok (mk_state (calls s) (In_start true) (object s) (Some (Running (S uses))))
            | _ => Err UseAfterFree
            end)
  | Some (Running (S n)) =>
      Some (match object s with
            | Some _ => Ok (mk_state (calls s) (at_ s) (object s) (Some (Running n)))
            | None => Err UseAfterFree
            end)
  | Some (Running 0) => Some (Ok (mk_state (calls s) (at_ s) (object s) (Some Ended)))
  | Some Ended | None => None
  end.

Inductive move := Owner | Worker.

Definition step (m : move) : state → option (outcome state) :=
  match m with Owner => own | Worker => work end.

(** An interleaving; [None] if it is not one. A fault ends the program. *)
Fixpoint run (ms : list move) (s : state) : option (outcome state) :=
  match ms with
  | [] => Some (Ok s)
  | m :: ms =>
      match step m s with
      | Some (Ok s') => run ms s'
      | r => r
      end
  end.

(** The object is gone and the thread too. *)
Definition over (s : state) : Prop :=
  object s = None ∧ calls s = [] ∧ (thread_ s = None ∨ thread_ s = Some Ended).

(** Started, joined, started, ...: in turn. [detached]: the last may be left running,
    if nothing was joined before. *)
Fixpoint in_turn_from (detached started joined : bool) (cs : list call) : bool :=
  match cs, started with
  | [], _ => negb started || (detached && negb joined)
  | Start _ :: cs, false => in_turn_from detached true joined cs
  | Join :: cs, true => in_turn_from detached false true cs
  | _, _ => false
  end.
Definition in_turn : list call → bool := in_turn_from false false false.

(** The state of a thread that is in use, running or not, joined before or not. *)
Definition in_use (running joined : bool) (t : Thread) : Prop :=
  m_joined t = joined ∧
  match running, joined with
  | false, false => m_started t = false ∧ m_thread t = None
  | false, true => m_started t = true ∧ m_thread t = Some false
  | true, _ => m_started t = true ∧ m_thread t = Some true
  end.

Lemma start_spec joined t :
  in_use false joined t → ∃ t', start t = Ok (tt, t') ∧ in_use true joined t'.
Proof.
  intros (Hj & Ht). unfold start. mstep. cbn.
  destruct joined; destruct Ht as [Hs Hth]; rewrite Hth; mstep; eexists; (split; [done|by split]).
Qed.

Lemma join_spec joined t :
  in_use true joined t → ∃ t', join t = Ok (tt, t') ∧ in_use true true t'.
Proof. intros (Hj & Hs & Hth). unfold join. mstep. cbn. rewrite Hth. eexists. split; [done|by split]. Qed.

Lemma start_twice joined t : in_use true joined t → start t = Err Terminate.
Proof. intros (_ & _ & Hth). unfold start. mstep. cbn. by rewrite Hth. Qed.

Lemma join_unstarted joined t : in_use false joined t → ∃ e, join t = Err e.
Proof. intros (_ & Ht). unfold join. mstep. cbn. destruct joined; destruct Ht as [_ ->]; by eexists. Qed.

Lemma destroy_spec running joined t :
  in_use running joined t →
  Thread_destroy t = if running && joined then Err Terminate else Ok tt.
Proof.
  intros (Hj & Ht). unfold Thread_destroy.
  destruct running, joined; destruct Ht as [-> ->]; by rewrite Hj.
Qed.

(** ** What holds between the moves *)

Definition past_post (w : option worker) : Prop := (∃ n, w = Some (Running n)) ∨ w = Some Ended.
Definition idle (w : option worker) : Prop := w = None ∨ w = Some Ended.

Definition sound (d : bool) (s : state) : Prop :=
  match object s with
  | None => calls s = [] ∧ at_ s = Between ∧ (idle (thread_ s) ∨ d = true ∧ past_post (thread_ s))
  | Some t =>
      match at_ s with
      | Between => ∃ running joined, in_use running joined t ∧
          in_turn_from d running joined (calls s) = true ∧
          (if running : bool then past_post (thread_ s) else idle (thread_ s))
      | In_start p => ∃ joined, in_use true joined t ∧ in_turn_from d true joined (calls s) = true ∧
          (if p : bool then past_post (thread_ s)
           else (∃ tid, thread_ s = Some (Created tid)) ∨ thread_ s = Some Identified)
      | In_join => in_use true true t ∧ in_turn_from d false true (calls s) = true ∧ past_post (thread_ s)
      end
  end.

(** How many moves are left at most. *)
Definition left_ (s : state) : nat := (
  length (calls s) * (uses + 8) + (if object s then 1 else 0) +
  match at_ s with Between => 0 | _ => 1 end +
  match thread_ s with
  | Some (Created _) => uses + 4 | Some Identified => uses + 3
  | Some (Running n) => S n | _ => 0
  end)%nat.

Lemma sound_own d s r :
  sound d s → own s = Some r → ∃ s', r = Ok s' ∧ sound d s' ∧ (left_ s' < left_ s)%nat.
Proof.
  destruct s as [cs a [t|] w]; [|done]. unfold sound, own, left_. cbn. destruct a as [|[]|]; [| |done|].
  - intros (running & joined & Ht & Hcs & Hw). destruct cs as [|[tid|] cs]; intros [= <-].
    + rewrite (destroy_spec _ _ _ Ht). cbn in Hcs.
      destruct running, joined; cbn in *; try (destruct d; discriminate); eexists; (split; [done|]).
      all: split; [|cbn; lia]; cbn; split_and!; try done; try (by left).
      destruct d; [right; by split|done].
    + cbn in Hcs. destruct running; [done|]. destruct (start_spec _ _ Ht) as (t' & -> & Ht').
      eexists. split; [done|]. split; [|cbn; nia]. exists joined. split_and!; [done..|]. left. by eexists.
    + cbn in Hcs. destruct running; [|done]. destruct (join_spec _ _ Ht) as (t' & -> & Ht').
      eexists. split; [done|]. split; [by split_and!|]. cbn. nia.
  - intros (joined & Ht & Hcs & Hw) [= <-]. eexists. split; [done|].
    split; [by exists true, joined|]. cbn. lia.
  - intros (Ht & Hcs & Hw). destruct w as [[]|]; intros [= <-]. eexists. split; [done|].
    split; [|cbn; lia]. exists false, true. split_and!; [|done|by right].
    destruct Ht as (Hj & Hs & Hth). by split.
Qed.

Lemma sound_work d s r :
  sound d s → work s = Some r →
  (∃ s', r = Ok s' ∧ sound d s' ∧ (left_ s' < left_ s)%nat) ∨
  (r = Err UseAfterFree ∧ d = true ∧ object s = None).
Proof.
  destruct s as [cs a o [w|]]; [|done]. unfold sound, work, left_. cbn. destruct o as [t|].
  2: { intros (-> & -> & [[[=]|[= ->]]|(-> & [(n & [= ->])|[= ->]])]); [done| |done].
       destruct n; intros [= <-]; [left|by right].
       eexists. split; [done|]. split; [|cbn; lia]. cbn. split_and!; [done..|]. left. by right. }
  intros Hs Hw. left. destruct a as [|p|].
  - destruct Hs as (running & joined & Ht & Hcs & Hp). destruct running.
    2: by destruct Hp as [[=]|[= ->]].
    destruct Hp as [(n & [= ->])|[= ->]]; [|done].
    destruct n; injection Hw as <-; (eexists; split; [done|]); (split; [|cbn; lia]).
    all: exists true, joined; (split_and!; [done..|]); cbn; first [by right|left; by eexists].
  - destruct Hs as (joined & Ht & Hcs & Hp). destruct p.
    + destruct Hp as [(n & [= ->])|[= ->]]; [|done].
      destruct n; injection Hw as <-; (eexists; split; [done|]); (split; [|cbn; lia]).
      all: exists joined; (split_and!; [done..|]); cbn; first [by right|left; by eexists].
    + destruct Hp as [(tid & [= ->])|[= ->]]; injection Hw as <-; (eexists; split; [done|]); (split; [|cbn; lia]).
      all: exists joined; (split_and!; [done..|]); cbn; first [by right|left; by eexists].
  - destruct Hs as (Ht & Hcs & Hp). destruct Hp as [(n & [= ->])|[= ->]]; [|done].
    destruct n; injection Hw as <-; (eexists; split; [done|]); (split; [|cbn; lia]).
    all: cbn; (split_and!; [done..|]); first [by right|left; by eexists].
Qed.

Lemma sound_step d m s r :
  sound d s → step m s = Some r →
  (∃ s', r = Ok s' ∧ sound d s' ∧ (left_ s' < left_ s)%nat) ∨
  (r = Err UseAfterFree ∧ d = true ∧ object s = None).
Proof. destruct m; [intros ??; left; by eapply sound_own|apply sound_work]. Qed.

Lemma sound_run d ms s r :
  sound d s → run ms s = Some r →
  (∃ s', r = Ok s' ∧ sound d s' ∧ (left_ s' + length ms ≤ left_ s)%nat) ∨ (r = Err UseAfterFree ∧ d = true).
Proof.
  revert s. induction ms as [|m ms IH]; intros s Hs; cbn [run].
  - intros [= <-]. left. eexists. split_and!; [done..|]. cbn. lia.
  - destruct (step m s) as [r'|] eqn:Hm; [|done].
    destruct (sound_step _ _ _ _ Hs Hm) as [(s' & -> & Hs' & Hl)|(-> & -> & _)].
    + intros Hr. destruct (IH _ Hs' Hr) as [(s2 & -> & Hs2 & Hl2)|?]; [left|by right].
      eexists. split_and!; [done..|]. cbn. lia.
    + intros [= <-]. by right.
Qed.

Lemma sound_goes_on s : sound false s → over s ∨ ∃ m r, step m s = Some r.
Proof.
  destruct s as [cs a [t|] w]; unfold sound; cbn.
  - destruct a as [|p|].
    + intros _. right. exists Owner. destruct cs as [|[]]; cbn; eauto.
    + intros (joined & _ & _ & Hp). right. destruct p; [exists Owner; cbn; eauto|].
      exists Worker. destruct Hp as [(tid & ->)| ->]; cbn; eauto.
    + intros (_ & _ & Hw). right. destruct Hw as [(n & ->)| ->]; [exists Worker|exists Owner; cbn; eauto].
      destruct n; cbn; eauto.
  - intros (-> & -> & [Hw|[[=] _]]). left. by split_and!.
Qed.

Lemma sound_made d name m_numCount cs :
  in_turn_from d false false cs = true → sound d (made name m_numCount cs).
Proof. intros Hcs. unfold sound. cbn. exists false, false. split_and!; [done..|by left]. Qed.

Lemma run_app ms1 ms2 s :
  run (ms1 ++ ms2) s = match run ms1 s with Some (Ok s') => run ms2 s' | r => r end.
Proof.
  revert s. induction ms1 as [|m ms1 IH]; intros s; [done|]. cbn.
  destruct (step m s) as [[s'|e]|]; [apply IH|done..].
Qed.

Lemma run_ends cs a t n :
  run (replicate (S n) Worker) (mk_state cs a (Some t) (Some (Running n))) =
  Some (Ok (mk_state cs a (Some t) (Some Ended))).
Proof. induction n as [|n IH]; [done|]. exact IH. Qed.

Lemma in_use_tid running joined t tid :
  in_use running joined t →
  in_use running joined (mk_Thread (m_started t) (m_joined t) (m_thread t) tid (m_name t)).
Proof. by destruct running, joined. Qed.

(** A sequence of calls that is not in turn, or that leaves the thread running, faults
    in some interleaving. *)
Lemma out_of_turn_faults running joined cs t w :
  in_use running joined t → in_turn_from false running joined cs = false →
  (running = true → w = Some (Running (S uses))) →
  ∃ ms e, run ms (mk_state cs Between (Some t) w) = Some (Err e).
Proof.
  revert running joined t w. induction cs as [|[tid|] cs IH]; intros running joined t w Ht Hcs Hw.
  - destruct running; [|done]. rewrite Hw by done. exists [Owner; Worker]. cbn [run step own object at_ calls].
    rewrite (destroy_spec _ _ _ Ht). by destruct joined; eexists.
  - destruct running.
    + exists [Owner]. cbn [run step own object at_ calls]. rewrite (start_twice _ _ Ht). by eexists.
    + destruct (start_spec _ _ Ht) as (t' & Hst & Ht').
      destruct (IH true joined _ (Some (Running (S uses))) (in_use_tid _ _ _ tid Ht') Hcs ltac:(done)) as (ms & e & Hms).
      exists (Owner :: Worker :: Worker :: Owner :: ms), e. cbn [run step own work object at_ calls thread_].
      rewrite Hst. cbn [run step own work object at_ calls thread_]. exact Hms.
  - destruct running.
    + rewrite Hw by done. destruct (join_spec _ _ Ht) as (t' & Hjo & Ht').
      destruct (IH false true (join_returns t') (Some Ended)) as (ms & e & Hms); [|done..|].
      { destruct Ht' as (Hj & Hs & _). by split. }
      exists (Owner :: replicate (S (S uses)) Worker ++ Owner :: ms), e.
      cbn [run step own object at_ calls thread_]. rewrite Hjo. rewrite run_app, run_ends. exact Hms.
    + exists [Owner]. cbn [run step own object at_ calls]. destruct (join_unstarted _ _ Ht) as (e & ->). by eexists.
Qed.

End lambda.

(** C31. An object is made, used by its owner and destroyed, while the lambda of
    Thread.cpp:34-42 runs in the new thread. No interleaving faults exactly if the calls
    are [start], [join], ... in turn and end with a [join], or are none. Such a life never
    gets stuck and always ends, after a bounded number of moves. A single [start] whose
    thread is detached by [~Thread] can fault in one way only, the lambda using [m_funcs]
    of the object that is gone, and in some interleaving it does. *)
Theorem Thread_protocol (uses : nat) (name : string) (m_numCount : Z) (cs : list call) :
  ((∀ ms e, run uses ms (made name m_numCount cs) ≠ Some (Err e)) ↔ in_turn cs = true) ∧
  (in_turn cs = true → ∀ ms s, run uses ms (made name m_numCount cs) = Some (Ok s) →
     (length ms ≤ length cs * (uses + 8) + 1)%nat ∧
     (over s ∨ ∃ m s', step uses m s = Some (Ok s'))) ∧
  (∀ tid, cs = [Start tid] →
     (∀ ms e, run uses ms (made name m_numCount cs) = Some (Err e) → e = UseAfterFree) ∧
     run uses [Owner; Worker; Worker; Owner; Owner; Worker] (made name m_numCount cs) =
       Some (Err UseAfterFree)).
Proof.
  split_and!.
  - split.
    + intros Hno. destruct (in_turn cs) eqn:Hcs; [done|exfalso].
      destruct (out_of_turn_faults uses false false cs (Thread_new name m_numCount).1 None)
        as (ms & e & Hms); [done..|]. by eapply Hno.
    + intros Hcs ms e Hr.
      destruct (sound_run uses false ms _ _ (sound_made false name m_numCount cs Hcs) Hr)
        as [(s' & [=] & _)|[_ [=]]].
  - intros Hcs ms s Hr. pose proof (sound_made false name m_numCount cs Hcs) as Hm.
    destruct (sound_run uses false ms _ _ Hm Hr) as [(s' & [= <-] & Hs & Hl)|[_ [=]]].
    split; [unfold left_, made in Hl; cbn in Hl; lia|].
    destruct (sound_goes_on uses s Hs) as [?|(m & r & Hstep)]; [by left|right]. exists m.
    destruct (sound_step uses false m s r Hs Hstep) as [(s' & -> & _)|(_ & [=] & _)]. by exists s'.
  - intros tid ->. split; [|done]. intros ms e Hr.
    destruct (sound_run uses true ms _ _ (sound_made true name m_numCount [Start tid] eq_refl) Hr)
      as [(s' & [=] & _)|[[= ->] _]]. done.
Qed.

(** Its three parts on a life that joins and on one that detaches. *)
Lemma Thread_protocol_witness :
  in_turn [Start 7; Join] = true ∧
  (∀ ms s, run 2 ms (made "io" 0 [Start 7; Join]) = Some (Ok s) → (length ms ≤ 21)%nat) ∧
  run 2 [Owner; Worker; Worker; Owner; Owner; Worker] (made "io" 0 [Start 7]) = Some (Err UseAfterFree).
Proof.
  split_and!; [reflexivity| |].
  - intros ms s Hr. exact (proj1 (proj1 (proj2 (Thread_protocol 2 "io" 0 [Start 7; Join])) eq_refl ms s Hr)).
  - exact (proj2 (proj2 (proj2 (Thread_protocol 2 "io" 0 [Start 7])) 7 eq_refl)).
Defined.

(** Unnamed threads get different names while the counter does not wrap around. *)
Lemma default_names_differ (n1 n2 : Z) :
  0 ≤ n1 < 2 ^ 31 - 1 → 0 ≤ n2 < 2 ^ 31 - 1 →
  m_name (Thread_new "" n1).1 = m_name (Thread_new "" n2).1 → n1 = n2.
Proof.
  intros H1 H2. unfold Thread_new, setDefaultName, next_count. cbn [fst m_name].
  rewrite !decide_True by done.
  assert (Hi : ∀ n, 0 ≤ n < 2 ^ 31 - 1 → i32 (n + 1) = n + 1).
  { intros n Hn. unfold i32, wrap_signed. rewrite Z.mod_small; lia. }
  rewrite !Hi by done.
  assert (Hs : ∀ n, 0 ≤ n < 2 ^ 31 - 1 → snprintf 32 ("Thread " +:+ pretty (n + 1)) = "Thread " +:+ pretty (n + 1)).
  { intros n Hn. apply snprintf_fits. rewrite string_length_app. cbn [String.length].
    pose proof (pretty_Z_length (n + 1) 10 ltac:(lia)). change (Z.of_nat 10) with 10 in *. lia. }
  rewrite !Hs by done. intros He. apply (inj (String.app "Thread ")), (inj pretty) in He. lia.
Qed.
