(* ===== verification/EventLoopThread.v ===== *)
(** [EventLoopThread] over [Thread] (EventLoopThread.h, EventLoopThread.cpp,
    Thread.h, Thread.cpp): how the thread that owns the object and the thread it
    starts hand over the new loop, and how the destructor stops it. The two
    programs are interleaved by atomic steps; the state space is finite, so what
    can be reached is computed and checked. *)
From S2P Require Import Prelude.

(** The owner: in [startLoop], then holding its result, then in the destructor. *)
Inductive owner_pc :=
  | OBegin          (** about to call [m_thread.start()] *)
  | OSemWait        (** the thread is made; [sem_wait] *)
  | OLock           (** about to lock [m_mutex] *)
  | OTest           (** at [while (m_loop == nullptr)], with the lock *)
  | OWaiting        (** in [m_cond.wait], without the lock *)
  | OWoken          (** notified; must lock again *)
  | OReturned       (** [startLoop] has returned [tmp_loop] *)
  | OQuit           (** in the destructor, at [m_quit = true] of [m_loop->quit()] *)
  | OWake           (** in [quit], at [if (!isInLoopThread()) wakeUp();] *)
  | OJoin           (** at [m_thread.join()] *)
  | ODone.

(** The new thread, in [Thread::start]'s lambda and [threadFunc]. *)
Inductive thread_pc :=
  | TNone           (** not made yet *)
  | TPost           (** about to [sem_post] *)
  | TConstruct      (** about to construct [loop] *)
  | TInit           (** about to call the init callback *)
  | TLock           (** about to lock [m_mutex] *)
  | TPublish        (** at [m_loop = &loop], with the lock *)
  | TNotify         (** at [m_cond.notify_one()], with the lock *)
  | TUnlock
  | TLoop           (** about to call [loop.loop()], which clears [m_quit] *)
  | TLooping        (** at the loop's [while (!m_quit)] *)
  | TExitLock       (** the loop has returned; about to lock *)
  | TClear          (** at [m_loop = nullptr], with the lock *)
  | TExit           (** about to unlock and to destroy [loop] *)
  | TDone.

Inductive holder := Nobody | Owner | Thread.

#[global] Instance owner_pc_eq_decision : EqDecision owner_pc.
Proof. solve_decision. Defined.
#[global] Instance thread_pc_eq_decision : EqDecision thread_pc.
Proof. solve_decision. Defined.
#[global] Instance holder_eq_decision : EqDecision holder.
Proof. solve_decision. Defined.

Record state := mk_state {
  owner : owner_pc;
  thread : thread_pc;
  mutex : holder;
  sem : bool;               (** the semaphore's value *)
  m_loop : bool;            (** whether the pointer is set *)
  initialised : bool;       (** the init callback has been given the loop *)
  m_quit : bool;            (** of the loop *)
  result : bool;            (** whether [tmp_loop] is not null *)
  dangling : bool           (** a destroyed loop has been used *)
}.

#[global] Instance state_eq_decision : EqDecision state.
Proof. solve_decision. Defined.

Definition EventLoopThread_new : state :=
  mk_state OBegin TNone Nobody false false false false false false.

(** [loop] exists between its construction and the end of [threadFunc]. *)
Definition loop_alive (s : state) : bool :=
  match thread s with TNone | TPost | TConstruct | TDone => false | _ => true end.

Definition with_owner (o : owner_pc) (s : state) : state :=
  mk_state o (thread s) (mutex s) (sem s) (m_loop s) (initialised s) (m_quit s) (result s) (dangling s).
Definition with_thread (t : thread_pc) (s : state) : state :=
  mk_state (owner s) t (mutex s) (sem s) (m_loop s) (initialised s) (m_quit s) (result s) (dangling s).
Definition with_mutex (h : holder) (s : state) : state :=
  mk_state (owner s) (thread s) h (sem s) (m_loop s) (initialised s) (m_quit s) (result s) (dangling s).
Definition with_sem (b : bool) (s : state) : state :=
  mk_state (owner s) (thread s) (mutex s) b (m_loop s) (initialised s) (m_quit s) (result s) (dangling s).
Definition with_loop (b : bool) (s : state) : state :=
  mk_state (owner s) (thread s) (mutex s) (sem s) b (initialised s) (m_quit s) (result s) (dangling s).
Definition with_initialised (s : state) : state :=
  mk_state (owner s) (thread s) (mutex s) (sem s) (m_loop s) true (m_quit s) (result s) (dangling s).
Definition with_quit (b : bool) (s : state) : state :=
  mk_state (owner s) (thread s) (mutex s) (sem s) (m_loop s) (initialised s) b (result s) (dangling s).
Definition with_result (b : bool) (s : state) : state :=
  mk_state (owner s) (thread s) (mutex s) (sem s) (m_loop s) (initialised s) (m_quit s) b (dangling s).
Definition with_dangling (b : bool) (s : state) : state :=
  mk_state (owner s) (thread s) (mutex s) (sem s) (m_loop s) (initialised s) (m_quit s) (result s)
    (dangling s || b).

(** [Thread::start], in the owner: makes the thread and waits for its post. *)
Definition start_step (s : state) : option state :=
  match owner s with
  | OBegin => Some (with_owner OSemWait (with_thread TPost s))
  | OSemWait => if sem s then Some (with_owner OLock (with_sem false s)) else None
  | _ => None
  end.

(** The rest of [startLoop]: the wait on the condition variable. *)
Definition startLoop_step (s : state) : option state :=
  match owner s with
  | OLock | OWoken =>
      if decide (mutex s = Nobody) then Some (with_owner OTest (with_mutex Owner s)) else None
  | OTest =>
      if m_loop s then Some (with_owner OReturned (with_result true (with_mutex Nobody s)))
      else Some (with_owner OWaiting (with_mutex Nobody s))
  | _ => None
  end.

(** [~EventLoopThread]. Both halves of [quit] use the loop. *)
Definition destroy_step (s : state) : option state :=
  match owner s with
  | OReturned => Some (with_owner (if m_loop s then OQuit else ODone) s)
  | OQuit => Some (with_owner OWake (with_quit true (with_dangling (negb (loop_alive s)) s)))
  | OWake => Some (with_owner OJoin (with_dangling (negb (loop_alive s)) s))
  | OJoin => if decide (thread s = TDone) then Some (with_owner ODone s) else None
  | _ => None
  end.

(** The owner's next step: [m_thread.start()], [startLoop], then the destructor. *)
Definition owner_step (s : state) : option state :=
  match owner s with
  | OBegin | OSemWait => start_step s
  | OLock | OTest | OWaiting | OWoken => startLoop_step s
  | OReturned | OQuit | OWake | OJoin | ODone => destroy_step s
  end.

(** The new thread's next step; [None] while it is blocked, or goes on looping. *)
Definition thread_step (s : state) : option state :=
  match thread s with
  | TNone => None
  | TPost => Some (with_thread TConstruct (with_sem true s))
  | TConstruct => Some (with_thread TInit s)
  | TInit => Some (with_thread TLock (with_initialised s))
  | TLock =>
      if decide (mutex s = Nobody) then Some (with_thread TPublish (with_mutex Thread s)) else None
  | TPublish => Some (with_thread TNotify (with_loop true s))
  | TNotify =>
      Some (with_thread TUnlock (if decide (owner s = OWaiting) then with_owner OWoken s else s))
  | TUnlock => Some (with_thread TLoop (with_mutex Nobody s))
  | TLoop => Some (with_thread TLooping (with_quit false s))
  | TLooping => if m_quit s then Some (with_thread TExitLock s) else None
  | TExitLock =>
      if decide (mutex s = Nobody) then Some (with_thread TClear (with_mutex Thread s)) else None
  | TClear => Some (with_thread TExit (with_loop false s))
  | TExit => Some (with_thread TDone (with_mutex Nobody s))
  | TDone => None
  end.

(** [m_cond.wait] may return without a notification. *)
Definition spurious_step (s : state) : option state :=
  if decide (owner s = OWaiting) then Some (with_owner OWoken s) else None.

(** Somebody else calls [quit] on the loop. *)
Definition other_quit_step (s : state) : option state :=
  if loop_alive s && initialised s && negb (m_quit s) then Some (with_quit true s) else None.

(** [startLoop] has not returned yet. *)
Definition starting (s : state) : bool :=
  match owner s with OReturned | OQuit | OWake | OJoin | ODone => false | _ => true end.

(** The steps, where nobody else quits the loop unless [others] says so. *)
Definition next (others : bool) (s : state) : list state :=
  option_list (owner_step s) ++ option_list (thread_step s) ++ option_list (spurious_step s) ++
  (if others then option_list (other_quit_step s) else []).

Definition step (others : bool) (s s' : state) : Prop := s' ∈ next others s.

(** ** Reachable states, computed *)
Fixpoint explore (others : bool) (fuel : nat) (todo seen : list state) : list state :=
  match fuel, todo with
  | S fuel, s :: todo =>
      if decide (s ∈ seen) then explore others fuel todo seen
      else explore others fuel (next others s ++ todo) (s :: seen)
  | _, _ => seen
  end.

Definition reachable (others : bool) : list state := explore others 4000 [EventLoopThread_new] [].

Definition closed_under (others : bool) (l : list state) : bool :=
  forallb (λ s, forallb (λ s', bool_decide (s' ∈ l)) (next others s)) l.

Lemma closed_rtc others l s0 s :
  closed_under others l = true → s0 ∈ l → rtc (step others) s0 s → s ∈ l.
Proof.
  intros Hcl Hin Hst. induction Hst as [|s0 s1 s2 Hs _ IH]; [done|]. apply IH.
  pose proof (proj1 (forallb_forall _ _) Hcl s0 (proj1 (list_elem_of_In _ _) Hin)) as Hs0.
  pose proof (proj1 (forallb_forall _ _) Hs0 s1 (proj1 (list_elem_of_In _ _) Hs)) as Hs1.
  by apply bool_decide_eq_true in Hs1.
Qed.

Lemma reachable_closed others : closed_under others (reachable others) = true.
Proof. destruct others; by vm_compute. Qed.

Lemma reachable_new others : bool_decide (EventLoopThread_new ∈ reachable others) = true.
Proof. destruct others; by vm_compute. Qed.

(** A property of all reachable states, by computation. *)
Lemma check_reachable others (P : state → bool) s :
  forallb P (reachable others) = true → rtc (step others) EventLoopThread_new s → P s = true.
Proof.
  intros HP Hst. apply (proj1 (forallb_forall _ _) HP), list_elem_of_In.
  eapply closed_rtc; [apply reachable_closed| |exact Hst].
  apply (bool_decide_eq_true_1 _ (reachable_new others)).
Qed.

(** ** Progress

    How many steps [startLoop] may still take, apart from spurious wake-ups. *)
Definition owner_left (o : owner_pc) : nat :=
  match o with OBegin => 6 | OSemWait => 5 | OLock => 4 | OWoken => 4 | OTest => 3 | OWaiting => 2 | _ => 0 end.

Definition thread_left (t : thread_pc) : nat :=
  match t with
  | TNone => 16 | TPost => 14 | TConstruct => 13 | TInit => 12 | TLock => 11 | TPublish => 10
  | TNotify => 9 | TUnlock => 5 | TLoop => 4 | TLooping => 3 | TExitLock => 2 | TClear => 1
  | _ => 0
  end.

Definition left (s : state) : nat := owner_left (owner s) + thread_left (thread s).

(** Something can happen, and whatever happens brings the end nearer. *)
Definition progresses (s : state) : bool :=
  negb (starting s) ||
  (match option_list (owner_step s) ++ option_list (thread_step s) with
   | [] => false
   | l => forallb (λ s', (left s' <? left s)%nat) l
   end).

(** ** Schedules *)
Inductive move := MOwner | MThread | MOther.

Definition move_step (m : move) (s : state) : option state :=
  match m with MOwner => owner_step s | MThread => thread_step s | MOther => other_quit_step s end.

Fixpoint run (others : bool) (ms : list move) (s : state) : option state :=
  match ms with
  | [] => Some s
  | MOther :: ms => if others then s ← other_quit_step s; run others ms s else None
  | m :: ms => s ← move_step m s; run others ms s
  end.

Lemma run_rtc others ms s s' : run others ms s = Some s' → rtc (step others) s s'.
Proof.
  revert s. induction ms as [|m ms IH]; intros s Hrun; cbn [run] in Hrun.
  { injection Hrun as <-. apply rtc_refl. }
  assert (Hin : ∀ s1, move_step m s = Some s1 → (m = MOther → others = true) → s1 ∈ next others s).
  { intros s1 Hs Ho. unfold next. rewrite !elem_of_app. destruct m; cbn in Hs.
    - left. rewrite Hs. cbn. set_solver.
    - right. left. rewrite Hs. cbn. set_solver.
    - rewrite (Ho eq_refl), Hs. right. right. right. cbn. set_solver. }
  destruct m; try destruct others; try done;
    apply bind_Some in Hrun as (s1 & Hs & Hrun); (eapply rtc_l; [by apply Hin|by apply IH]).
Qed.

(** Up to the point where the thread has published its loop and the owner, who had
    to wait, has been notified. *)
Definition handshake : list move :=
  [MOwner; MThread; MOwner; MOwner; MOwner; MThread; MThread; MThread; MThread; MThread; MThread].

(** ** Properties *)

(** What [startLoop] promises its caller. *)
Definition delivered (s : state) : bool :=
  (starting s || (result s && initialised s)) &&
  (negb (bool_decide (owner s = OReturned)) || loop_alive s).

(** C21. The start-up handshake: [startLoop] cannot block for ever, for while it has
    not returned some step of the two threads is possible and every one, spurious
    wake-ups apart, brings the end nearer, so that no notification is lost; what
    it returns is not null and is the new thread's loop, alive and already passed
    to the init callback. This is as long as nobody quits that loop meanwhile. *)
Theorem startLoop_handshake (s : state) :
  rtc (step false) EventLoopThread_new s →
  (owner s = OReturned →
   result s = true ∧ initialised s = true ∧ loop_alive s = true) ∧
  (starting s = true →
   (∃ s', owner_step s = Some s' ∨ thread_step s = Some s') ∧
   ∀ s', owner_step s = Some s' ∨ thread_step s = Some s' → (left s' < left s)%nat).
Proof.
  intros Hst.
  pose proof (check_reachable false delivered s ltac:(by vm_compute) Hst) as Hd.
  pose proof (check_reachable false progresses s ltac:(by vm_compute) Hst) as Hp.
  unfold delivered in Hd. unfold progresses in Hp.
  apply andb_true_iff in Hd as [Hd1 Hd3]. split_and!.
  - intros Ho. unfold starting in Hd1. rewrite Ho in Hd1. apply andb_true_iff in Hd1 as [? ?].
    by rewrite bool_decide_true in Hd3.
  - intros Hs. rewrite Hs in Hp. cbn [negb orb] in Hp.
    destruct (option_list (owner_step s) ++ option_list (thread_step s)) as [|s1 l] eqn:Hl; [done|].
    rewrite <- Hl in Hp. rewrite forallb_app in Hp. apply andb_true_iff in Hp as [Ho Ht].
    rewrite forallb_forall in Ho, Ht. split.
    + destruct (owner_step s) as [so|]; [by exists so; left|].
      destruct (thread_step s) as [st|]; [by exists st; right|done].
    + intros s' [Hs'|Hs']; rewrite Hs' in *; apply Nat.ltb_lt; [apply Ho|apply Ht]; by left.
Qed.

(** C38. What can go wrong around it. The destructor's [quit] may come before the
    thread enters [loop], which clears it: then no step is left, the owner in
    [join] and the loop running for ever. The loop may see [m_quit] and be gone
    before [quit] has finished with it, so that the destructor uses a loop that no
    longer exists. And if somebody else quits the loop early, [startLoop] may wait
    for a thread that has ended. *)
Theorem stop_races :
  (∃ s, rtc (step false) EventLoopThread_new s ∧ owner s = OJoin ∧ thread s = TLooping ∧
     next false s = []) ∧
  (∃ s, rtc (step false) EventLoopThread_new s ∧ dangling s = true) ∧
  (∃ s, rtc (step true) EventLoopThread_new s ∧ owner s = OWaiting ∧ thread s = TDone ∧
     result s = false).
Proof.
  split_and!.
  - destruct (run false (handshake ++ [MOwner; MOwner; MOwner; MOwner; MOwner; MThread]) EventLoopThread_new)
      as [s|] eqn:Hrun; [|by vm_compute in Hrun].
    exists s. split; [by eapply run_rtc|]. vm_compute in Hrun. by injection Hrun as <-.
  - destruct (run false (handshake ++ [MOwner; MOwner; MOwner; MThread; MOwner; MThread;
      MThread; MThread; MThread; MOwner]) EventLoopThread_new) as [s|] eqn:Hrun;
      [|by vm_compute in Hrun].
    exists s. split; [by eapply run_rtc|]. vm_compute in Hrun. by injection Hrun as <-.
  - destruct (run true (handshake ++ [MThread; MOther; MThread; MThread; MThread; MThread; MOwner;
      MOwner]) EventLoopThread_new) as [s|] eqn:Hrun; [|by vm_compute in Hrun].
    exists s. split; [by eapply run_rtc|]. vm_compute in Hrun. by injection Hrun as <-.
Qed.

Lemma startLoop_handshake_witness :
  ∃ s, rtc (step false) EventLoopThread_new s ∧ owner s = OReturned ∧ loop_alive s = true.
Proof.
  destruct (run false (handshake ++ [MOwner; MOwner]) EventLoopThread_new) as [s|] eqn:Hrun;
    [|by vm_compute in Hrun].
  assert (Hst : rtc (step false) EventLoopThread_new s) by (eapply run_rtc; exact Hrun).
  assert (Ho : owner s = OReturned) by (vm_compute in Hrun; injection Hrun as <-; reflexivity).
  exists s. split; [exact Hst|]. split; [exact Ho|].
  apply (startLoop_handshake s Hst). exact Ho.
Defined.
