(* ===== verification/EventLoopThreadPool.v ===== *)
(** [EventLoopThreadPool] (EventLoopThreadPool.h, EventLoopThreadPool.cpp): the
    loops of the pool's threads, started in order and handed out in turn. A loop
    is its address. *)
From S2P Require Import Prelude Decimal.
#[local] Open Scope Z_scope.

Record pool := mk_pool {
  m_baseLoop : Z;
  m_name : string;
  m_started : bool;
  m_numThread : Z;
  m_next : Z;                       (** an [int] *)
  m_eventLoopThreads : list string; (** the threads, by name *)
  m_eventloops : list Z;
  inits : list Z                    (** the loops the init callback has been called with *)
}.

Definition EventLoopThreadPool_new (baseLoop : Z) (name : string) : pool :=
  mk_pool baseLoop name false 0 0 [] [] [].

Definition setThreadNum (num : Z) (p : pool) : pool :=
  mk_pool (m_baseLoop p) (m_name p) (m_started p) num (m_next p) (m_eventLoopThreads p)
    (m_eventloops p) (inits p).

(** The name of the [i]-th thread, in a buffer of [m_name.size() + 32]. *)
Definition thread_name (name : string) (i : Z) : string :=
  snprintf (String.length name + 32) (name +:+ pretty i).

(** One turn of the loop in [start]: [startLoop] answers the loop [l] of the new
    thread, which has already passed it to the init callback, if there is one. *)
Definition start_thread (cb : bool) (i l : Z) (p : pool) : pool :=
  mk_pool (m_baseLoop p) (m_name p) (m_started p) (m_numThread p) (m_next p)
    (m_eventLoopThreads p ++ [thread_name (m_name p) i])
    (m_eventloops p ++ [l]) (if cb then inits p ++ [l] else inits p).

(** [for (int i = 0; i < m_numThread; i++)], with the turns still to do as fuel. *)
Fixpoint start_threads (cb : bool) (startLoop : Z → Z) (todo : nat) (i : Z) (p : pool) : pool :=
  match todo with
  | O => p
  | S todo => start_threads cb startLoop todo (i + 1) (start_thread cb i (startLoop i) p)
  end.

(** [start]; [startLoop i] is the loop that the [i]-th thread creates, and [cb]
    tells whether an init callback is set. *)
Definition start (cb : bool) (startLoop : Z → Z) (p : pool) : pool :=
  let p := mk_pool (m_baseLoop p) (m_name p) true (m_numThread p) (m_next p)
             (m_eventLoopThreads p) (m_eventloops p) (inits p) in
  let p := start_threads cb startLoop (Z.to_nat (m_numThread p)) 0 p in
  if (m_numThread p =? 0) && cb then
    mk_pool (m_baseLoop p) (m_name p) (m_started p) (m_numThread p) (m_next p)
      (m_eventLoopThreads p) (m_eventloops p) (inits p ++ [m_baseLoop p])
  else p.

Definition set_next (n : Z) (p : pool) : pool :=
  mk_pool (m_baseLoop p) (m_name p) (m_started p) (m_numThread p) n (m_eventLoopThreads p)
    (m_eventloops p) (inits p).

(** [getNextLoop]: indexing outside the vector is undefined. *)
Definition getNextLoop : M pool Z :=
  p ← gets id;
  if decide (m_eventloops p = []) then mret (m_baseLoop p)
  else
    match (if 0 <=? m_next p then m_eventloops p !! Z.to_nat (m_next p) else None) with
    | None => fail OutOfBounds
    | Some tmp_loop =>
        let n := m_next p + 1 in
        modify (set_next (if Z.of_nat (length (m_eventloops p)) <=? n then 0 else n));;
        mret tmp_loop
    end.

Definition getAllLoops (p : pool) : list Z :=
  if decide (m_eventloops p = []) then [m_baseLoop p] else m_eventloops p.

(** [n] calls of [getNextLoop]. *)
Fixpoint next_loops (n : nat) : M pool (list Z) :=
  match n with
  | O => mret []
  | S n => l ← getNextLoop; ls ← next_loops n; mret (l :: ls)
  end.

(** [m_next] points into the loops, if there are any. *)
Definition wf (p : pool) : Prop :=
  0 ≤ m_next p ∧ (m_eventloops p ≠ [] → m_next p < Z.of_nat (length (m_eventloops p))).

Lemma start_threads_loops cb startLoop todo i p :
  let p' := start_threads cb startLoop todo i p in
  m_eventloops p' = m_eventloops p ++ (startLoop <$> seqZ i (Z.of_nat todo)) ∧
  m_next p' = m_next p ∧ m_numThread p' = m_numThread p ∧ m_baseLoop p' = m_baseLoop p ∧
  m_started p' = m_started p ∧
  inits p' = (if cb then inits p ++ (startLoop <$> seqZ i (Z.of_nat todo)) else inits p).
Proof.
  revert i p. induction todo as [|todo IH]; intros i p; cbn [start_threads].
  { cbn. rewrite app_nil_r. by destruct cb; rewrite ?app_nil_r. }
  specialize (IH (i + 1) (start_thread cb i (startLoop i) p)) as (E1 & E2 & E3 & E4 & E5 & E6).
  cbv zeta. rewrite E1, E2, E3, E4, E5, E6. rewrite (seqZ_cons i (Z.of_nat (S todo))) by lia.
  replace (Z.pred (Z.of_nat (S todo))) with (Z.of_nat todo) by lia.
  replace (Z.succ i) with (i + 1) by lia. cbn.
  destruct cb; by rewrite <- ?app_assoc.
Qed.

(** The loop that call number [k] from here on answers. *)
Definition turn (p : pool) (k : nat) : Z :=
  nth (Z.to_nat ((m_next p + Z.of_nat k) mod Z.of_nat (length (getAllLoops p)))) (getAllLoops p) 0.

Lemma getNextLoop_ok p :
  wf p → m_next p < Z.of_nat (length (getAllLoops p)) →
  ∃ p', getNextLoop p = Ok (turn p 0, p') ∧ wf p' ∧ getAllLoops p' = getAllLoops p ∧
    m_next p' < Z.of_nat (length (getAllLoops p)) ∧ ∀ k, turn p' k = turn p (S k).
Proof.
  intros [Hpos Hlt] Hn. unfold getNextLoop. mstep. change (id p) with p. unfold turn.
  destruct (decide (m_eventloops p = [])) as [He|He].
  - exists p. unfold getAllLoops in *. rewrite decide_True in * by done. cbn in *.
    assert (m_next p = 0) as E by lia. rewrite E. split_and!; try done; try lia.
    intros k. by rewrite !Z.mod_1_r.
  - unfold getAllLoops in *. rewrite decide_False in * by done. zbool.
    destruct (lookup_lt_is_Some_2 (m_eventloops p) (Z.to_nat (m_next p))) as [l Hl]; [lia|].
    rewrite Hl. mstep.
    set (n' := if _ <=? _ then 0 else _). exists (set_next n' p). cbn [m_eventloops set_next m_next].
    assert (Hn' : n' = (m_next p + 1) mod Z.of_nat (length (m_eventloops p))).
    { unfold n'. zcase; [|by rewrite Z.mod_small by lia].
      replace (m_next p + 1) with (Z.of_nat (length (m_eventloops p))) by lia. by rewrite Z.mod_same by lia. }
    pose proof (Z.mod_pos_bound (m_next p + 1) (Z.of_nat (length (m_eventloops p)))) as Hb.
    split_and!.
    + rewrite Z.add_0_r, Z.mod_small by lia. by rewrite (nth_lookup_Some _ _ _ _ Hl).
    + split; cbn; lia.
    + by rewrite decide_False.
    + lia.
    + intros k. rewrite decide_False by done. rewrite Hn', Zplus_mod_idemp_l.
      do 3 f_equal. lia.
Qed.

(** The loops a server asks for, and the pool after [start]. *)
Definition requested_loops (base num : Z) (startLoop : Z → Z) : list Z :=
  if num =? 0 then [base] else startLoop <$> seqZ 0 num.

Lemma requested_loops_some base num startLoop :
  0 ≤ num → (0 < length (requested_loops base num startLoop))%nat.
Proof.
  intros Hnum. unfold requested_loops.
  destruct (Z.eqb_spec num 0); [cbn; lia|]. rewrite length_fmap, length_seqZ. lia.
Qed.

Lemma start_ok (base : Z) (name : string) (num : Z) (cb : bool) (startLoop : Z → Z) :
  0 ≤ num →
  let p := start cb startLoop (setThreadNum num (EventLoopThreadPool_new base name)) in
  let loops := requested_loops base num startLoop in
  getAllLoops p = loops ∧ inits p = (if cb then loops else []) ∧ m_next p = 0 ∧ wf p ∧
  m_baseLoop p = base.
Proof.
  intros Hnum p loops.
  unfold p, start. set (p0 := mk_pool _ _ _ _ _ _ _ _).
  pose proof (start_threads_loops cb startLoop (Z.to_nat num) 0 p0) as (E1 & E2 & E3 & E4 & E5 & E6).
  change (m_numThread p0) with num. set (p1 := start_threads _ _ _ _ _) in *.
  rewrite E3. rewrite Z2Nat.id in * by done. change (m_numThread p0) with num in *.
  unfold loops, requested_loops. destruct (Z.eqb_spec num 0) as [->|Hne]; cbn in E1, E2, E4, E6.
  - destruct cb; cbn [andb]; unfold getAllLoops, wf; cbn; rewrite ?E1, ?E2, ?E4, ?E6; done.
  - cbn [andb]. unfold getAllLoops, wf. rewrite E1, E2, E4, E6.
    assert (startLoop <$> seqZ 0 num ≠ []).
    { intros Hnil%(f_equal length). rewrite length_fmap, length_seqZ in Hnil. cbn in Hnil. lia. }
    rewrite decide_False by done. split_and!; try done.
    rewrite length_fmap, length_seqZ. cbn. lia.
Qed.

(** After [start] there is one loop per requested thread, in the order of
    creation, each passed to the init callback once (the base loop, if no thread
    is asked for); and [getNextLoop] hands them out in turn for ever: call number
    [k] answers loop [k] modulo their number, within the bounds of the vector. *)
Theorem pool_round_robin (base : Z) (name : string) (num : Z) (cb : bool) (startLoop : Z → Z)
    (calls : nat) :
  0 ≤ num →
  let p := start cb startLoop (setThreadNum num (EventLoopThreadPool_new base name)) in
  let loops := requested_loops base num startLoop in
  getAllLoops p = loops ∧ inits p = (if cb then loops else []) ∧
  ∃ p', next_loops calls p =
    Ok ((λ k, nth (Z.to_nat (Z.of_nat k mod Z.of_nat (length loops))) loops 0) <$> seq 0 calls, p').
Proof.
  intros Hnum p loops.
  destruct (start_ok base name num cb startLoop Hnum) as (Hall & Hin & Hnext & Hwf & _).
  fold p in Hall, Hin, Hnext, Hwf.
  split; [done|]. split; [done|].
  pose proof (requested_loops_some base num startLoop Hnum) as Hlen. fold loops in Hlen.
  assert (Hgen : ∀ n q, wf q → m_next q < Z.of_nat (length (getAllLoops q)) →
    ∃ q', next_loops n q = Ok (turn q <$> seq 0 n, q')).
  { intros n. induction n as [|n IH]; intros q Hq Hlt; [by exists q|]. cbn [next_loops].
    destruct (getNextLoop_ok q Hq Hlt) as (q1 & Hrun & Hq1 & Hall1 & Hlt1 & Hturn).
    rewrite (M_bind_ok _ _ _ _ _ Hrun).
    destruct (IH q1 Hq1 ltac:(by rewrite Hall1)) as (q2 & Hrun2).
    rewrite (M_bind_ok _ _ _ _ _ Hrun2). exists q2. cbn [seq fmap list_fmap]. mstep. do 3 f_equal.
    rewrite <- fmap_S_seq, <- list_fmap_compose. apply list_fmap_ext. intros i k _. cbn. apply Hturn. }
  destruct (Hgen calls p Hwf) as [p' Hrun]; [rewrite Hall, Hnext; fold loops; lia|].
  exists p'. rewrite Hrun. do 2 f_equal. apply list_fmap_ext. intros i k _.
  unfold turn. by rewrite Hall, Hnext, Z.add_0_l.
Qed.

Lemma pool_round_robin_witness :
  ∃ p', next_loops 5 (start false (λ i, 100 + i) (setThreadNum 3 (EventLoopThreadPool_new 7 "io"))) =
    Ok ([100; 101; 102; 100; 101], p').
Proof. apply (pool_round_robin 7 "io" 3 false (λ i, 100 + i) 5 ltac:(lia)). Defined.
