(* ===== verification/StringPiece.v ===== *)
(** [StringPiece] (StringPiece.h): a pointer into somebody else's characters and a
    length; its comparisons, which read through [memcmp], against the
    lexicographic order of the characters. *)
From S2P Require Import Prelude.

(** [ptr_] is an object and an offset into it; [length_] is an [int]. *)
Record StringPiece := mk_StringPiece { object : list byte; offset : Z; length_ : Z }.

Definition byte_val (b : byte) : Z := Z.of_N (Byte.to_N b).

(** What [memcmp] answers for two ranges of the same length. Only its sign is specified:
    that of the difference of the first two bytes that differ. *)
Fixpoint cmp_bytes (a b : list byte) : Z :=
  match a, b with
  | x :: a, y :: b =>
      if byte_val x <? byte_val y then -1
      else if byte_val y <? byte_val x then 1
      else cmp_bytes a b
  | _, _ => 0
  end.

Class MemCmp := memcmp_bytes : list byte → list byte → Z.
Class MemCmpLaws (mc : MemCmp) :=
  memcmp_sign : ∀ a b, length a = length b → Z.sgn (memcmp_bytes a b) = cmp_bytes a b.

(** [memcmp(ptr_, x.ptr_, n)], [n] converted to [size_t]. *)
Definition memcmp `{MemCmp} (p x : StringPiece) (n : Z) : outcome Z :=
  a ← mem_read (object p) (offset p) (u64 n);
  b ← mem_read (object x) (offset x) (u64 n);
  Ok (memcmp_bytes a b).

(** The constructors: of nothing, of a [string], of an address and a length, and of a
    string that ends with a zero byte ([const char*] and [const unsigned char*]). *)
Definition StringPiece_new : StringPiece := mk_StringPiece [] 0 0.
Definition StringPiece_of (s : list byte) : StringPiece :=
  mk_StringPiece s 0 (i32 (Z.of_nat (length s))).
Definition StringPiece_at (buffer : list byte) (off len : Z) : StringPiece := mk_StringPiece buffer off len.

(** [strlen]: a string that does not end in its object is read beyond it. *)
Fixpoint zero_at (s : list byte) : option Z :=
  match s with
  | [] => None
  | b :: s => if decide (b = Byte.x00) then Some 0 else Z.succ <$> zero_at s
  end.
Definition strlen (buffer : list byte) (off : Z) : outcome Z :=
  if 0 <=? off then
    match zero_at (drop (Z.to_nat off) buffer) with Some n => Ok n | None => Err OutOfBounds end
  else Err OutOfBounds.
Definition StringPiece_c_str (buffer : list byte) (off : Z) : outcome StringPiece :=
  n ← strlen buffer off; Ok (mk_StringPiece buffer off (i32 n)).
Definition size (p : StringPiece) : Z := length_ p.
Definition empty (p : StringPiece) : bool := length_ p =? 0.
Definition clear (p : StringPiece) : StringPiece := mk_StringPiece [] 0 0.
Definition set (buffer : list byte) (off len : Z) (p : StringPiece) : StringPiece :=
  mk_StringPiece buffer off len.
Definition set_c_str (buffer : list byte) (off : Z) (p : StringPiece) : outcome StringPiece :=
  n ← strlen buffer off; Ok (mk_StringPiece buffer off (i32 n)).

(** [operator[]] *)
Definition at_ (p : StringPiece) (i : Z) : outcome (list byte) :=
  mem_read (object p) (offset p + i) 1.

Definition remove_prefix (n : Z) (p : StringPiece) : StringPiece :=
  mk_StringPiece (object p) (offset p + n) (length_ p - n).
Definition remove_suffix (n : Z) (p : StringPiece) : StringPiece :=
  mk_StringPiece (object p) (offset p) (length_ p - n).

Definition equal `{MemCmp} (p x : StringPiece) : outcome bool :=
  if length_ p =? length_ x then r ← memcmp p x (length_ p); Ok (r =? 0) else Ok false.
Definition not_equal `{MemCmp} (p x : StringPiece) : outcome bool := b ← equal p x; Ok (negb b).

(** [STRINGPIECE_BINARY_PREDICATE(cmp, auxcmp)] *)
Definition binary_predicate `{MemCmp} (cmp auxcmp : Z → Z → bool) (p x : StringPiece) : outcome bool :=
  r ← memcmp p x (if length_ p <? length_ x then length_ p else length_ x);
  Ok (auxcmp r 0 || ((r =? 0) && cmp (length_ p) (length_ x))).
Definition less `{MemCmp} : StringPiece → StringPiece → outcome bool := binary_predicate Z.ltb Z.ltb.
Definition less_equal `{MemCmp} : StringPiece → StringPiece → outcome bool := binary_predicate Z.leb Z.ltb.
Definition greater_equal `{MemCmp} : StringPiece → StringPiece → outcome bool :=
  binary_predicate Z.geb Z.gtb.
Definition greater `{MemCmp} : StringPiece → StringPiece → outcome bool := binary_predicate Z.gtb Z.gtb.

Definition compare `{MemCmp} (p x : StringPiece) : outcome Z :=
  r ← memcmp p x (if length_ p <? length_ x then length_ p else length_ x);
  Ok (if r =? 0 then
        if length_ p <? length_ x then -1 else if length_ x <? length_ p then 1 else r
      else r).

Definition as_string (p : StringPiece) : outcome (list byte) :=
  mem_read (object p) (offset p) (u64 (length_ p)).

(** [CopyToString] and [CopyToStdString]: the characters [target] is assigned. *)
Definition CopyToString (p : StringPiece) (target : list byte) : outcome (list byte) :=
  mem_read (object p) (offset p) (u64 (length_ p)).

Definition starts_with `{MemCmp} (p x : StringPiece) : outcome bool :=
  if length_ x <=? length_ p then r ← memcmp p x (length_ x); Ok (r =? 0) else Ok false.

(** ** Reference: the lexicographic order of byte strings *)
Fixpoint lex (a b : list byte) : comparison :=
  match a, b with
  | [], [] => Eq
  | [], _ => Lt
  | _, [] => Gt
  | x :: a, y :: b => match byte_val x ?= byte_val y with Eq => lex a b | c => c end
  end.

Record wf (p : StringPiece) : Prop := {
  wf_offset : 0 ≤ offset p;
  wf_length : 0 ≤ length_ p < 2 ^ 31;
  wf_inside : offset p + length_ p ≤ Z.of_nat (length (object p))
}.

(** The characters a piece stands for. *)
Definition chars (p : StringPiece) : list byte :=
  take (Z.to_nat (length_ p)) (drop (Z.to_nat (offset p)) (object p)).

Lemma byte_val_inj x y : byte_val x = byte_val y → x = y.
Proof.
  unfold byte_val. intros H%N2Z.inj. apply (f_equal Byte.of_N) in H.
  rewrite !Byte.of_to_N in H. by injection H.
Qed.

Lemma length_chars p : wf p → Z.of_nat (length (chars p)) = length_ p.
Proof. intros [H1 H2 H3]. unfold chars. rewrite length_take, length_drop. lia. Qed.

Lemma read_chars p n :
  wf p → 0 ≤ n ≤ length_ p →
  mem_read (object p) (offset p) (u64 n) = Ok (take (Z.to_nat n) (chars p)).
Proof.
  intros [H1 H2 H3] Hn. rewrite u64_small by lia. rewrite mem_read_ok by lia.
  unfold chars. rewrite take_take. do 2 f_equal. lia.
Qed.

(** A string that ends with a zero byte is taken up to the first one; from a [string],
    [StringPiece_of] takes those after it too. *)
Lemma zero_at_app s t : Byte.x00 ∉ s → zero_at (s ++ Byte.x00 :: t) = Some (Z.of_nat (length s)).
Proof.
  induction s as [|b s IH]; intros Hs; cbn; [done|]. rewrite not_elem_of_cons in Hs. destruct Hs as [Hb Hs].
  case_decide; [congruence|]. rewrite IH by done. cbn. f_equal. lia.
Qed.

Theorem c_str_stops pre s post :
  Byte.x00 ∉ s → Z.of_nat (length s) < 2 ^ 31 →
  ∃ p, StringPiece_c_str (pre ++ s ++ Byte.x00 :: post) (Z.of_nat (length pre)) = Ok p ∧ wf p ∧ chars p = s ∧
    as_string p = Ok s ∧ ∀ target, CopyToString p target = Ok s.
Proof.
  intros Hs Hlen. unfold StringPiece_c_str, strlen. rewrite (proj2 (Z.leb_le _ _)), Nat2Z.id, drop_app_length by lia.
  rewrite zero_at_app by done. eexists. split; [reflexivity|]. rewrite i32_small by lia.
  assert (Hwf : wf (mk_StringPiece (pre ++ s ++ Byte.x00 :: post) (Z.of_nat (length pre)) (Z.of_nat (length s)))).
  { split; cbn [offset length_ object]; [lia..|]. rewrite !length_app. cbn. lia. }
  assert (Hc : chars (mk_StringPiece (pre ++ s ++ Byte.x00 :: post) (Z.of_nat (length pre)) (Z.of_nat (length s))) = s).
  { unfold chars. cbn [offset length_ object]. by rewrite !Nat2Z.id, drop_app_length, take_app_length. }
  split; [done|]. split; [done|]. pose proof (read_chars _ (Z.of_nat (length s)) Hwf) as Hread.
  rewrite Hc, Nat2Z.id, firstn_all in Hread. split; [|intros target]; apply Hread; cbn; lia.
Qed.

Lemma c_str_stops_witness :
  ∃ p, StringPiece_c_str [Byte.x61; Byte.x62; Byte.x00; Byte.x63] 1 = Ok p ∧ as_string p = Ok [Byte.x62].
Proof.
  destruct (c_str_stops [Byte.x61] [Byte.x62] [Byte.x63]
    ltac:(intros ?%list_elem_of_singleton; discriminate) ltac:(cbn; lia)) as (p & Hp & _ & _ & Hs & _).
  exists p. split; [exact Hp|exact Hs].
Defined.

Lemma memcmp_ok `{MemCmp} p x n :
  wf p → wf x → 0 ≤ n → n ≤ length_ p → n ≤ length_ x →
  memcmp p x n = Ok (memcmp_bytes (take (Z.to_nat n) (chars p)) (take (Z.to_nat n) (chars x))).
Proof. intros Hp Hx H0 H1 H2. unfold memcmp. by rewrite !read_chars by (done || lia). Qed.

Lemma cmp_bytes_eq a b : length a = length b → cmp_bytes a b = 0 ↔ a = b.
Proof.
  revert b. induction a as [|x a IH]; intros [|y b] Hl; cbn in *; try done.
  injection Hl as Hl. destruct (Z.ltb_spec (byte_val x) (byte_val y)).
  { split; [done|]. intros [= -> ->]. lia. }
  destruct (Z.ltb_spec (byte_val y) (byte_val x)).
  { split; [done|]. intros [= -> ->]. lia. }
  rewrite IH by done. assert (x = y) as -> by (apply byte_val_inj; lia). naive_solver.
Qed.

Lemma memcmp_zero `{MemCmpLaws} a b : length a = length b → memcmp_bytes a b = 0 ↔ a = b.
Proof. intros Hl. by rewrite <- Z.sgn_null_iff, memcmp_sign, cmp_bytes_eq. Qed.

(** [memcmp] on the common length, then the lengths: the lexicographic order. *)
Lemma lex_memcmp a b :
  let n := Nat.min (length a) (length b) in
  let r := cmp_bytes (take n a) (take n b) in
  (r = -1 ∨ r = 0 ∨ r = 1) ∧
  lex a b = if r =? 0 then Z.of_nat (length a) ?= Z.of_nat (length b) else r ?= 0.
Proof.
  revert b. induction a as [|x a IH]; intros [|y b]; cbn [length Nat.min take cmp_bytes lex];
    [by split; [auto|]..|].
  - specialize (IH b). cbn zeta in IH. destruct IH as [Hr IH].
    destruct (Z.compare_spec (byte_val x) (byte_val y)) as [E|E|E]; zbool; auto.
    split; [done|]. rewrite IH. destruct (_ =? 0); [|done].
    rewrite !Nat2Z.inj_succ. destruct (Z.compare_spec (Z.of_nat (length a)) (Z.of_nat (length b))) as [F|F|F].
    + rewrite F. by rewrite Z.compare_refl.
    + symmetry. apply Z.compare_lt_iff. lia.
    + symmetry. apply Z.compare_gt_iff. lia.
Qed.

Lemma lex_refl a : lex a a = Eq.
Proof. induction a as [|x a IH]; cbn; [done|]. by rewrite Z.compare_refl. Qed.

Lemma lex_eq a b : lex a b = Eq → a = b.
Proof.
  revert b. induction a as [|x a IH]; intros [|y b]; cbn; try done.
  destruct (Z.compare_spec (byte_val x) (byte_val y)) as [E|E|E]; try done.
  intros H%IH. apply byte_val_inj in E. congruence.
Qed.

Lemma lex_antisym a b : lex b a = CompOpp (lex a b).
Proof.
  revert b. induction a as [|x a IH]; intros [|y b]; cbn; try done.
  rewrite (Z.compare_antisym (byte_val x)). destruct (byte_val x ?= byte_val y); cbn; auto.
Qed.

Lemma lex_trans a b c : lex a b = Lt → lex b c = Lt → lex a c = Lt.
Proof.
  revert b c. induction a as [|x a IH]; intros [|y b] [|z c]; cbn; try done.
  destruct (Z.compare_spec (byte_val x) (byte_val y)) as [E|E|E]; try done;
  destruct (Z.compare_spec (byte_val y) (byte_val z)) as [F|F|F]; try done; intros H1 H2.
  - rewrite E, F, Z.compare_refl. by eapply IH.
  - rewrite E. by rewrite (proj2 (Z.compare_lt_iff _ _) F).
  - rewrite <- F. by rewrite (proj2 (Z.compare_lt_iff _ _) E).
  - by rewrite (proj2 (Z.compare_lt_iff (byte_val x) (byte_val z)) ltac:(lia)).
Qed.

(** C37. On pieces that lie within their objects every comparison stays within
    them, and together they are the lexicographic order of the characters, which
    is a total order: [==] is equality, [<], [<=], [>], [>=] and the sign of
    [compare] agree with it and with each other, whatever [memcmp] answers beyond the
    sign, and [starts_with] is the prefix relation. *)
Theorem StringPiece_order `{MemCmpLaws} (p x : StringPiece) :
  wf p → wf x →
  let c := lex (chars p) (chars x) in
  equal p x = Ok (bool_decide (chars p = chars x)) ∧
  (c = Eq ↔ chars p = chars x) ∧ lex (chars x) (chars p) = CompOpp c ∧
  less p x = Ok (if c is Lt then true else false) ∧
  less_equal p x = Ok (if c is Gt then false else true) ∧
  greater p x = Ok (if c is Gt then true else false) ∧
  greater_equal p x = Ok (if c is Lt then false else true) ∧
  (∃ r, compare p x = Ok r ∧ (r ?= 0) = c) ∧
  starts_with p x = Ok (bool_decide (chars x `prefix_of` chars p)).
Proof.
  intros Hp Hx c. pose proof (length_chars p Hp) as Lp. pose proof (length_chars x Hx) as Lx.
  pose proof (wf_length p Hp). pose proof (wf_length x Hx).
  destruct (lex_memcmp (chars p) (chars x)) as [_ Hc]. fold c in Hc.
  rewrite <- memcmp_sign in Hc by (rewrite !length_take; lia).
  set (r := memcmp_bytes (take _ _) (take _ _)) in Hc.
  assert (Hmin : memcmp p x (if length_ p <? length_ x then length_ p else length_ x) = Ok r).
  { rewrite memcmp_ok by (done || (zcase; lia)). unfold r. do 2 f_equal; f_equal; zcase; lia. }
  rewrite Lp, Lx in Hc.
  assert (Hpred : c = if r =? 0 then length_ p ?= length_ x else r ?= 0) by (by destruct r).
  clear Hc. clearbody r.
  split_and!.
  - unfold equal. destruct (Z.eqb_spec (length_ p) (length_ x)) as [E|E].
    + rewrite memcmp_ok by (done || lia). rewrite !take_ge by lia. rewrite outcome_bind_ok. f_equal.
      pose proof (memcmp_zero (chars p) (chars x) ltac:(lia)).
      destruct (Z.eqb_spec (memcmp_bytes (chars p) (chars x)) 0); [rewrite bool_decide_true|rewrite bool_decide_false]; tauto.
    + rewrite bool_decide_false; [done|]. intros Heq. rewrite Heq in Lp. lia.
  - split; [apply lex_eq|]. intros E. unfold c. rewrite E. apply lex_refl.
  - apply lex_antisym.
  - unfold less, binary_predicate. rewrite Hmin, outcome_bind_ok, Hpred. f_equal.
    destruct r; cbn; try done; unfold Z.ltb; by destruct (_ ?= _).
  - unfold less_equal, binary_predicate. rewrite Hmin, outcome_bind_ok, Hpred. f_equal.
    destruct r; cbn; try done; unfold Z.leb; by destruct (_ ?= _).
  - unfold greater, binary_predicate. rewrite Hmin, outcome_bind_ok, Hpred. f_equal.
    destruct r; cbn; try done; unfold Z.gtb; by destruct (_ ?= _).
  - unfold greater_equal, binary_predicate. rewrite Hmin, outcome_bind_ok, Hpred. f_equal.
    destruct r; cbn; try done; unfold Z.geb; by destruct (_ ?= _).
  - unfold compare. rewrite Hmin, outcome_bind_ok, Hpred. eexists. split; [done|].
    destruct r; cbn; try done.
    destruct (Z.compare_spec (length_ p) (length_ x)); zbool; done.
  - unfold starts_with. destruct (Z.leb_spec (length_ x) (length_ p)) as [E|E].
    + rewrite memcmp_ok by (done || lia). rewrite outcome_bind_ok. f_equal.
      rewrite (take_ge (chars x)) by lia.
      pose proof (memcmp_zero (take (Z.to_nat (length_ x)) (chars p)) (chars x)
        ltac:(rewrite length_take; lia)) as Hcmp.
      destruct (Z.eqb_spec (memcmp_bytes (take (Z.to_nat (length_ x)) (chars p)) (chars x)) 0) as [F|F].
      * symmetry. apply bool_decide_true. exists (drop (Z.to_nat (length_ x)) (chars p)).
        rewrite <- (proj1 Hcmp F) at 1. by rewrite take_drop.
      * symmetry. apply bool_decide_false. intros [k Hk]. apply F, Hcmp. rewrite Hk.
        replace (Z.to_nat (length_ x)) with (length (chars x)) by lia. by rewrite take_app_length.
    + rewrite bool_decide_false; [done|]. intros Hpre%prefix_length. lia.
Qed.

(** A [memcmp] that answers the difference of the bytes. *)
#[local] Instance difference_memcmp : MemCmp :=
  fix diff a b :=
    match a, b with
    | x :: a, y :: b => if byte_val x =? byte_val y then diff a b else byte_val x - byte_val y
    | _, _ => 0
    end.
#[local] Instance difference_memcmp_laws : MemCmpLaws difference_memcmp.
Proof.
  intros a. induction a as [|x a IH]; intros [|y b] Hl; cbn in *; try done.
  injection Hl as Hl. destruct (Z.eqb_spec (byte_val x) (byte_val y)) as [E|E].
  - rewrite E, Z.ltb_irrefl. by apply IH.
  - destruct (Z.ltb_spec (byte_val x) (byte_val y)); [apply Z.sgn_neg; lia|].
    rewrite (proj2 (Z.ltb_lt _ _)) by lia. apply Z.sgn_pos. lia.
Qed.

Lemma StringPiece_order_witness :
  let ab := mk_StringPiece [Byte.x78; Byte.x61; Byte.x62] 1 2 in
  let ac := StringPiece_of [Byte.x61; Byte.x63] in
  less ab ac = Ok true ∧ starts_with ab ac = Ok false.
Proof.
  intros ab ac.
  assert (Hab : wf ab) by (split; by vm_compute).
  assert (Hac : wf ac) by (split; by vm_compute).
  destruct (StringPiece_order ab ac Hab Hac) as (_ & _ & _ & Hlt & _ & _ & _ & _ & Hpre).
  split; [exact Hlt|]. rewrite Hpre. by vm_compute.
Defined.

(** Cutting a piece cuts its characters. *)
Lemma remove_prefix_chars n p :
  wf p → 0 ≤ n ≤ length_ p →
  wf (remove_prefix n p) ∧ chars (remove_prefix n p) = drop (Z.to_nat n) (chars p).
Proof.
  intros [H1 H2 H3] Hn. split; [split; cbn; lia|]. unfold chars. cbn.
  rewrite skipn_firstn_comm, drop_drop. f_equal; [lia|]. f_equal. lia.
Qed.

Lemma remove_suffix_chars n p :
  wf p → 0 ≤ n ≤ length_ p →
  wf (remove_suffix n p) ∧
  chars (remove_suffix n p) = take (Z.to_nat (length_ p - n)) (chars p).
Proof.
  intros [H1 H2 H3] Hn. split; [split; cbn; lia|]. unfold chars. cbn. rewrite take_take. f_equal. lia.
Qed.
