(* ===== verification/InetAddress.v ===== *)
(** Byte order (Endian.h) and socket addresses (InetAddress.h, InetAddress.cpp).
    The text form of an IPv4 address is the system's: [inet_ntop] is a parameter. *)
From S2P Require Import Prelude Decimal.
#[local] Open Scope Z_scope.

(** [n] bytes of an integer, the lowest first, and back. *)
Fixpoint bytes_le (n : nat) (z : Z) : list Z :=
  match n with
  | O => []
  | S n => u8 z :: bytes_le n (Z.shiftr z 8)
  end.

Fixpoint of_bytes_le (bs : list Z) : Z :=
  match bs with
  | [] => 0
  | b :: bs => Z.lor b (Z.shiftl (of_bytes_le bs) 8)
  end.

(** [htobe16] to [be64toh]: the identity where the host is big-endian, else the
    bytes in reverse. *)
Definition htobe (big_endian_host : bool) (n : nat) (host : Z) : Z :=
  if big_endian_host then host else of_bytes_le (rev (bytes_le n host)).
Definition betoh : bool → nat → Z → Z := htobe.

Section endian.
Context (big_endian_host : bool).

Definition hostToNetwork64 (host64 : Z) : Z := htobe big_endian_host 8 host64.
Definition hostToNetwork32 (host32 : Z) : Z := htobe big_endian_host 4 host32.
Definition hostToNetwork16 (host16 : Z) : Z := htobe big_endian_host 2 host16.
Definition networkToHost64 (net64 : Z) : Z := betoh big_endian_host 8 net64.
Definition networkToHost32 (net32 : Z) : Z := betoh big_endian_host 4 net32.
Definition networkToHost16 (net16 : Z) : Z := betoh big_endian_host 2 net16.

(** An integer's bytes in the host's memory, by increasing address. *)
Definition in_memory (n : nat) (z : Z) : list Z :=
  if big_endian_host then rev (bytes_le n z) else bytes_le n z.
End endian.

Lemma length_bytes_le n z : length (bytes_le n z) = n.
Proof. revert z. induction n as [|n IH]; intros z; cbn; [done|]. by rewrite IH. Qed.

Lemma bytes_le_range n z b : b ∈ bytes_le n z → 0 ≤ b < 2 ^ 8.
Proof.
  revert z. induction n as [|n IH]; intros z; cbn; [by rewrite elem_of_nil|].
  intros [->|?]%elem_of_cons; [by apply Z.mod_pos_bound|by eapply IH].
Qed.

Lemma lor_shift b z : 0 ≤ b < 2 ^ 8 → Z.lor b (Z.shiftl z 8) = b + z * 2 ^ 8.
Proof.
  intros Hb. rewrite Z.shiftl_mul_pow2 by lia.
  assert (Hland : Z.land b (z * 2 ^ 8) = 0).
  { apply Z.bits_inj'. intros i Hi. rewrite Z.land_spec, Z.bits_0.
    destruct (Z.ltb_spec i 8).
    - rewrite Z.mul_pow2_bits_low by lia. apply andb_false_r.
    - rewrite <- (Z.mod_small b (2 ^ 8)) by done. by rewrite Z.mod_pow2_bits_high by lia. }
  by rewrite Z.add_nocarry_lxor, Z.lxor_lor.
Qed.

Lemma of_bytes_le_bytes n z : 0 ≤ z < 2 ^ (8 * Z.of_nat n) → of_bytes_le (bytes_le n z) = z.
Proof.
  revert z. induction n as [|n IH]; intros z Hz; cbn [bytes_le of_bytes_le].
  { cbn in Hz. lia. }
  rewrite Z.shiftr_div_pow2 by lia.
  replace (8 * Z.of_nat (S n)) with (8 + 8 * Z.of_nat n) in Hz by lia.
  rewrite Z.pow_add_r in Hz by lia.
  rewrite IH.
  2: { split; [apply Z.div_pos; lia|]. apply Z.div_lt_upper_bound; lia. }
  rewrite lor_shift by apply Z.mod_pos_bound, eq_refl. unfold u8.
  pose proof (Z.div_mod z (2 ^ 8)). lia.
Qed.

Lemma bytes_of_bytes_le bs :
  (∀ b, b ∈ bs → 0 ≤ b < 2 ^ 8) → bytes_le (length bs) (of_bytes_le bs) = bs.
Proof.
  induction bs as [|b bs IH]; intros Hb; [done|]. cbn [length bytes_le of_bytes_le].
  assert (H0 : 0 ≤ b < 2 ^ 8) by (apply Hb; set_solver). rewrite lor_shift by done. f_equal.
  - unfold u8. rewrite Z_mod_plus_full. by apply Z.mod_small.
  - rewrite Z.shiftr_div_pow2, Z.div_add, Z.div_small, Z.add_0_l by lia. apply IH. set_solver.
Qed.

Lemma of_bytes_le_range bs :
  (∀ b, b ∈ bs → 0 ≤ b < 2 ^ 8) → 0 ≤ of_bytes_le bs < 2 ^ (8 * Z.of_nat (length bs)).
Proof.
  induction bs as [|b bs IH]; intros Hb; cbn [of_bytes_le length]; [done|].
  assert (H0 : 0 ≤ b < 2 ^ 8) by (apply Hb; set_solver). rewrite lor_shift by done.
  destruct IH as [H1 H2]; [set_solver|].
  replace (8 * Z.of_nat (S (length bs))) with (8 + 8 * Z.of_nat (length bs)) by lia.
  rewrite Z.pow_add_r by lia. nia.
Qed.

Lemma htobe_spec big n z :
  0 ≤ z < 2 ^ (8 * Z.of_nat n) →
  0 ≤ htobe big n z < 2 ^ (8 * Z.of_nat n) ∧ htobe big n (htobe big n z) = z ∧
  in_memory big n (htobe big n z) = rev (bytes_le n z).
Proof.
  intros Hz. unfold htobe, in_memory. destruct big; [done|].
  assert (Hrev : ∀ b, b ∈ rev (bytes_le n z) → 0 ≤ b < 2 ^ 8).
  { intros b. rewrite list_elem_of_In, <- in_rev, <- list_elem_of_In. apply bytes_le_range. }
  assert (Hlen : length (rev (bytes_le n z)) = n) by by rewrite length_rev, length_bytes_le.
  assert (Hback : bytes_le n (of_bytes_le (rev (bytes_le n z))) = rev (bytes_le n z)).
  { rewrite <- Hlen at 1. by apply bytes_of_bytes_le. }
  split_and!.
  - pose proof (of_bytes_le_range _ Hrev) as [? _]. done.
  - pose proof (of_bytes_le_range _ Hrev) as [_ H]. by rewrite Hlen in H.
  - rewrite Hback, rev_involutive. by apply of_bytes_le_bytes.
  - exact Hback.
Qed.

(** Conversion to network order lays the bytes of a 16, 32 or 64-bit value out
    in memory with the highest first, on hosts of either order, and conversion back
    undoes it. *)
Theorem byte_order_round_trip (big : bool) (x16 x32 x64 : Z) :
  0 ≤ x16 < 2 ^ 16 → 0 ≤ x32 < 2 ^ 32 → 0 ≤ x64 < 2 ^ 64 →
  (networkToHost16 big (hostToNetwork16 big x16) = x16 ∧
   networkToHost32 big (hostToNetwork32 big x32) = x32 ∧
   networkToHost64 big (hostToNetwork64 big x64) = x64) ∧
  in_memory big 2 (hostToNetwork16 big x16) = rev (bytes_le 2 x16) ∧
  in_memory big 4 (hostToNetwork32 big x32) = rev (bytes_le 4 x32) ∧
  in_memory big 8 (hostToNetwork64 big x64) = rev (bytes_le 8 x64).
Proof.
  intros H16 H32 H64. destruct (htobe_spec big 2 x16 H16) as (_ & ? & ?).
  destruct (htobe_spec big 4 x32 H32) as (_ & ? & ?).
  by destruct (htobe_spec big 8 x64 H64) as (_ & ? & ?).
Qed.

Lemma byte_order_round_trip_witness :
  networkToHost32 false (hostToNetwork32 false 0x01020304) = 0x01020304 ∧
  in_memory false 4 (hostToNetwork32 false 0x01020304) = [1; 2; 3; 4].
Proof.
  destruct (byte_order_round_trip false 0 0x01020304 0 ltac:(lia) ltac:(lia) ltac:(lia))
    as ((_ & H1 & _) & _ & H2 & _).
  split; [exact H1|exact H2].
Defined.

(** ** Addresses *)

(** [sockaddr_in]: port and address in network order. *)
Record InetAddress := mk_InetAddress { sin_port : Z; s_addr : Z }.
#[export] Instance InetAddress_eq_decision : EqDecision InetAddress.
Proof. solve_decision. Defined.

Section address.
Context (big_endian_host : bool).
(** [inet_addr], and [inet_ntop] for [AF_INET]. *)
Context (inet_addr : string → Z) (inet_ntop : Z → string).

(** [InetAddress(std::string, short)]: [htons] converts the [short] to 16 bits
    without a sign. *)
Definition InetAddress_of (ipv4 : string) (port : Z) : InetAddress :=
  mk_InetAddress (hostToNetwork16 big_endian_host (u16 port)) (inet_addr ipv4).

Definition toIp (a : InetAddress) : string := inet_ntop (s_addr a).

(** [short toPort() const] *)
Definition toPort (a : InetAddress) : Z := i16 (networkToHost16 big_endian_host (sin_port a)).

Definition toIpPort (a : InetAddress) : string := toIp a +:+ ":" +:+ pretty (toPort a).

Lemma toPort_range a : - 2 ^ 15 ≤ toPort a < 2 ^ 15.
Proof.
  unfold toPort, i16, wrap_signed. pose proof (Z.mod_pos_bound
    (networkToHost16 big_endian_host (sin_port a) + 2 ^ (16 - 1)) (2 ^ 16)). lia.
Qed.

(** [inet_ntop] writes at most 15 characters for an IPv4 address. *)
Lemma toIpPort_length a :
  (∀ s, String.length (inet_ntop s) ≤ 15)%nat → (String.length (toIpPort a) ≤ 22)%nat.
Proof.
  intros Hip. unfold toIpPort, toIp. rewrite !string_length_app. cbn [String.length].
  pose proof (toPort_range a). pose proof (pretty_Z_length (toPort a) 5 ltac:(lia)).
  change (Z.of_nat 5) with 5 in *. specialize (Hip (s_addr a)). lia.
Qed.

(** [toPort] gives back the [short] an address was made from. The port of an
    address filled in by the system is right up to 32767 only: from 32768 on it
    comes out negative, 65536 too small. *)
Theorem toPort_signed (ipv4 : string) (port : Z) :
  (- 2 ^ 15 ≤ port < 2 ^ 15 → toPort (InetAddress_of ipv4 port) = port) ∧
  (0 ≤ port < 2 ^ 16 →
   toPort (mk_InetAddress (hostToNetwork16 big_endian_host port) 0) =
     if port <? 2 ^ 15 then port else port - 2 ^ 16).
Proof.
  assert (Hround : ∀ x, 0 ≤ x < 2 ^ 16 →
    toPort (mk_InetAddress (hostToNetwork16 big_endian_host x) 0) =
      if x <? 2 ^ 15 then x else x - 2 ^ 16).
  { intros x Hx. unfold toPort. cbn [sin_port].
    destruct (htobe_spec big_endian_host 2 x Hx) as (_ & Hback & _).
    unfold networkToHost16, hostToNetwork16, betoh. rewrite Hback. unfold i16, wrap_signed.
    change (16 - 1) with 15. destruct (Z.ltb_spec x (2 ^ 15)).
    - rewrite Z.mod_small by lia. lia.
    - replace (x + 2 ^ 15) with (x - 2 ^ 15 + 1 * 2 ^ 16) by lia.
      rewrite Z_mod_plus_full, Z.mod_small by lia. lia. }
  split; [|apply Hround]. intros Hp.
  change (toPort (InetAddress_of ipv4 port))
    with (toPort (mk_InetAddress (hostToNetwork16 big_endian_host (u16 port)) 0)).
  rewrite Hround by (apply Z.mod_pos_bound; lia). unfold u16.
  destruct (decide (0 ≤ port)).
  - rewrite Z.mod_small by lia. by zbool.
  - assert (port mod 2 ^ 16 = port + 2 ^ 16) as ->.
    { rewrite <- (Z_mod_plus_full port 1 (2 ^ 16)), Z.mod_small by lia. lia. }
    zbool. lia.
Qed.
End address.

Lemma toPort_signed_witness :
  toPort false (mk_InetAddress (hostToNetwork16 false 40000) 0) = -25536.
Proof. apply (toPort_signed false (λ _, 0) "127.0.0.1" 40000). lia. Defined.
