(* ===== verification/Timestamp.v ===== *)
(** Points in time (Timestamp.h, Timestamp.cpp): microseconds since the epoch in
    a 64-bit integer, intervals as IEEE double precision numbers. *)
From Stdlib Require Export SpecFloat.
From S2P Require Import Prelude Decimal.
#[local] Open Scope Z_scope.

Definition kMicroSecondsPerSecond : Z := 1000 * 1000.

(** A [Timestamp] is its only member, [m_microSecondsSinceEpoch]. *)
Definition Timestamp_invalid : Z := 0.

Definition valid (t : Z) : bool := 0 <? t.

(** [operator<], [operator==] *)
Definition timestamp_lt (lhs rhs : Z) : bool := lhs <? rhs.
Definition timestamp_eq (lhs rhs : Z) : bool := lhs =? rhs.

Definition secondsSinceEpoch (t : Z) : Z := Z.quot t kMicroSecondsPerSecond.

(** [Timestamp::now] from what [gettimeofday] stores. *)
Definition Timestamp_now (tv_sec tv_usec : Z) : outcome Z :=
  s ← checked_i64 (tv_sec * kMicroSecondsPerSecond);
  checked_i64 (s + tv_usec).

(** ["%ld.%ld"] of quotient and remainder, both rounded towards zero. *)
Definition toString (t : Z) : string :=
  let seconds := Z.quot t kMicroSecondsPerSecond in
  let microseconds := Z.rem t kMicroSecondsPerSecond in
  snprintf 32 (pretty seconds +:+ "." +:+ pretty microseconds).

(** ** Doubles *)
Abbreviation double := spec_float.

Definition double_of_Z (z : Z) : double := binary_normalize 53 1024 z 0 false.
Definition double_mul (x y : double) : double := SFmul 53 1024 x y.
Definition double_gt0 (x : double) : bool := SFltb (S754_zero false) x.

(** [static_cast<int64_t>]: towards zero, undefined out of range. *)
Definition double_to_i64 (x : double) : outcome Z :=
  match x with
  | S754_zero _ => Ok 0
  | S754_finite s m e =>
      let a := if 0 <=? e then Z.pos m * 2 ^ e else Z.pos m / 2 ^ (- e) in
      let z := if s then - a else a in
      if in_i64 z then Ok z else Err BadCast
  | _ => Err BadCast
  end.

Definition addTime (timestamp : Z) (seconds : double) : outcome Z :=
  delta ← double_to_i64 (double_mul seconds (double_of_Z kMicroSecondsPerSecond));
  checked_i64 (timestamp + delta).

(** ** Printing *)

Lemma in_i64_iff z : in_i64 z = true ↔ - 2 ^ 63 ≤ z < 2 ^ 63.
Proof. unfold in_i64. rewrite andb_true_iff, Z.leb_le, Z.ltb_lt. done. Qed.

(** The two fields of a printed timestamp. *)
Lemma toString_fields t :
  in_i64 t = true →
  toString t = pretty (Z.quot t 1000000) +:+ "." +:+ pretty (Z.rem t 1000000).
Proof.
  intros Ht%in_i64_iff. unfold toString. change kMicroSecondsPerSecond with 1000000.
  apply snprintf_fits. rewrite !string_length_app.
  pose proof (Z.quot_rem' t 1000000). pose proof (Z.rem_bound_abs t 1000000 ltac:(done)).
  assert (Hq : (String.length (pretty (Z.quot t 1000000)) ≤ 14)%nat).
  { apply (pretty_Z_length _ 13); [lia|]. change (Z.of_nat 13) with 13. lia. }
  assert (Hr : (String.length (pretty (Z.rem t 1000000)) ≤ 7)%nat).
  { apply (pretty_Z_length _ 6); [lia|]. change (Z.of_nat 6) with 6. lia. }
  cbn [String.length]. lia.
Qed.

(** A printed timestamp is the quotient and the remainder by a million,
    both towards zero and neither padded, with a dot between; the 32-byte buffer
    always holds it; and no two 64-bit timestamps print alike. *)
Theorem toString_injective (t1 t2 : Z) :
  in_i64 t1 = true → in_i64 t2 = true →
  toString t1 = pretty (Z.quot t1 1000000) +:+ "." +:+ pretty (Z.rem t1 1000000) ∧
  (toString t1 = toString t2 → t1 = t2).
Proof.
  intros H1 H2. split; [by apply toString_fields|]. rewrite !toString_fields by done. intros He.
  apply split_at_separator in He as [Hq%(inj pretty) Hr%(inj pretty)].
  - rewrite (Z.quot_rem' t1 1000000), (Z.quot_rem' t2 1000000). congruence.
  - apply pretty_Z_no, dot_not_numeric.
  - apply pretty_Z_no, dot_not_numeric.
Qed.

(** Five microseconds after one second print as [1.5]. *)
Lemma toString_injective_witness : toString 1000005 = "1.5" ∧ toString 1500000 ≠ "1.5".
Proof.
  split.
  - apply (toString_injective 1000005 0 eq_refl eq_refl).
  - intros He. assert (1500000 = 1000005); [|done].
    by apply (toString_injective 1500000 1000005 eq_refl eq_refl).
Defined.

(** ** Adding an interval *)

Lemma double_mul_sign s x y :
  double_mul x y = s → double_gt0 x = true →
  (∃ m e, y = S754_finite false m e) →
  match s with S754_finite b _ _ => b = false | _ => True end.
Proof.
  intros <- Hx (m & e & ->). unfold double_mul, double_gt0, SFltb in *.
  destruct x as [| [] | |[] mx ex]; try done. cbn [SFmul xorb].
  unfold binary_round_aux. destruct (shr_fexp _ _ _ _ _) as [mrs1 e1].
  destruct (shr_fexp _ _ _ _ _) as [mrs2 e2].
  destruct (shr_m mrs2); [done| |done]. by destruct (e2 <=? 1024 - 53).
Qed.

(** A positive interval never moves a point in time back. *)
Lemma addTime_forward t x t' :
  double_gt0 x = true → addTime t x = Ok t' → t ≤ t' ∧ in_i64 t' = true.
Proof.
  intros Hx (delta & Hd & Ht)%outcome_bind_inv.
  assert (0 ≤ delta).
  { assert (Hk : ∃ m e, double_of_Z kMicroSecondsPerSecond = S754_finite false m e)
      by (by eexists _, _).
    pose proof (double_mul_sign _ _ _ eq_refl Hx Hk) as Hs.
    unfold double_to_i64 in Hd.
    destruct (double_mul _ _) as [| | |s m e]; try done; [by injection Hd as <-|].
    subst s. case_match; [|done]. injection Hd as <-.
    destruct (Z.leb_spec 0 e); [|apply Z.div_pos]; lia || nia. }
  unfold checked_i64 in Ht. case_match; [|done]. injection Ht as <-. split; [lia|done].
Qed.

Lemma addTime_faults t x e : addTime t x = Err e → e = BadCast ∨ e = IntOverflow.
Proof.
  unfold addTime, mbind, outcome_bind, double_to_i64, checked_i64.
  repeat case_match; intros; simplify_eq; auto.
Qed.
