(* ===== verification/Logger.v ===== *)
(** The logger (Logger.h, Logger.cpp): one object shared by all threads, whose level
    the macros set before they print. A macro is a sequence of steps; those of
    different threads interleave, a call of [operator<<] on [std::cout] being one. *)
From S2P Require Import Prelude Decimal Timestamp.
#[local] Open Scope Z_scope.

Inductive LOGGERLEVEL := INFO | ERROR | DEBUG | FATAL.
#[global] Instance LOGGERLEVEL_eq_decision : EqDecision LOGGERLEVEL.
Proof. solve_decision. Defined.

(** The enumerator as an [int]. *)
Definition level_code (l : LOGGERLEVEL) : Z :=
  match l with INFO => 0 | ERROR => 1 | DEBUG => 2 | FATAL => 3 end.

(** What the [switch] of [log] prints. *)
Definition prefix (m_logLevel : Z) : string :=
  match m_logLevel with
  | 0 => "[INFO] "
  | 1 => "[ERROR] "
  | 2 => "[DEBUG] "
  | 3 => "[FATAL] "
  | _ => ""
  end.

(** The arguments of [operator<<]. *)
Inductive piece :=
  | Prefix (level : Z)
  | Time (now : Z)                (** [Timestamp::now().toString()] *)
  | Text (msg : string).

Definition piece_string (p : piece) : string :=
  match p with Prefix l => prefix l | Time t => toString t | Text s => s end.

Inductive instr :=
  | SetLevel (level : Z)
  | Switch                        (** read [m_logLevel], to print its prefix next *)
  | Now                           (** read the time, to print it next *)
  | Put (p : piece)
  | Exit.

Definition setLogLevel (level : Z) : list instr := [SetLevel level].
Definition log (msg : string) : list instr := [Switch; Now; Put (Text msg)].

Section macros.
(** Whether [MUDEBUG] is defined. *)
Context (mudebug : bool).

(** [LOG_INFO] to [LOG_DEBUG]; [text] is what the format and its arguments make,
    of which a buffer of 1024 bytes is filled. *)
Definition LOG (call : LOGGERLEVEL * string) : list instr :=
  let '(level, text) := call in
  if decide (level = DEBUG ∧ mudebug = false) then []
  else
    setLogLevel (level_code level) ++
    let buf := snprintf 1024 text in
    log buf ++
    (if decide (level = FATAL) then [Exit] else []).

Record world := mk_world {
  m_logLevel : Z;                 (** of the only instance *)
  cout : list (nat * piece);      (** what is printed, and by which thread *)
  threads : list (list instr);
  exited : bool
}.

(** The instance is static: its level starts as zero. *)
Definition start (calls : list (list (LOGGERLEVEL * string))) : world :=
  mk_world 0 [] ((λ cs, cs ≫= LOG) <$> calls) false.

Definition goes_on (t : nat) (rest : list instr) (w : world) : world :=
  mk_world (m_logLevel w) (cout w) (<[t := rest]> (threads w)) (exited w).

Definition exec (t : nat) (now : Z) (i : instr) (rest : list instr) (w : world) : world :=
  match i with
  | SetLevel level => goes_on t rest (mk_world level (cout w) (threads w) (exited w))
  | Switch => goes_on t (Put (Prefix (m_logLevel w)) :: rest) w
  | Now => goes_on t (Put (Time now) :: rest) w
  | Put p => goes_on t rest (mk_world (m_logLevel w) (cout w ++ [(t, p)]) (threads w) (exited w))
  | Exit => goes_on t rest (mk_world (m_logLevel w) (cout w) (threads w) true)
  end.

Inductive step (w w' : world) : Prop :=
  | step_thread t now i rest :
      exited w = false → threads w !! t = Some (i :: rest) → w' = exec t now i rest w → step w w'.

(** What a thread has printed, and the standard output. *)
Definition written (t : nat) (w : world) : list piece := (filter (λ x, x.1 = t) (cout w)).*2.
Definition output (w : world) : string :=
  foldr (λ x s, piece_string x.2 +:+ s) "" (cout w).

(** ** Shapes: what is printed but for the time *)
Inductive shape := SPrefix (level : Z) | STime | SText (msg : string).

Definition shape_of (p : piece) : shape :=
  match p with Prefix l => SPrefix l | Time _ => STime | Text s => SText s end.

(** What the steps print when no other thread sets the level. *)
Fixpoint shapes (level : Z) (l : list instr) : list shape :=
  match l with
  | [] => []
  | SetLevel level' :: l => shapes level' l
  | Switch :: l => SPrefix level :: shapes level l
  | Now :: l => STime :: shapes level l
  | Put p :: l => shape_of p :: shapes level l
  | Exit :: l => shapes level l
  end.

(** The line of a call: prefix, time and the text cut to the buffer. *)
Definition line (call : LOGGERLEVEL * string) : list shape :=
  if decide (call.1 = DEBUG ∧ mudebug = false) then []
  else [SPrefix (level_code call.1); STime; SText (snprintf 1024 call.2)].

Definition same_line (x y : shape) : Prop :=
  match x, y with
  | SPrefix _, SPrefix _ | STime, STime => True
  | SText s, SText s' => s = s'
  | _, _ => False
  end.

#[export] Instance same_line_preorder : PreOrder same_line.
Proof. split; [by intros []|intros [] [] []; cbn; congruence || done]. Qed.

Lemma shapes_LOG level c l :
  ∃ level', shapes level (LOG c ++ l) = line c ++ shapes level' l.
Proof.
  destruct c as [lv text]. unfold LOG, line. cbn [fst snd].
  destruct (decide (lv = DEBUG ∧ mudebug = false)); [by exists level|].
  exists (level_code lv). rewrite <- !app_assoc. cbn. by case_decide.
Qed.

Lemma shapes_calls level cs : shapes level (cs ≫= LOG) = cs ≫= line.
Proof.
  revert level. induction cs as [|c cs IH]; intros level; [done|]. rewrite !bind_cons.
  destruct (shapes_LOG level c (cs ≫= LOG)) as [level' ->]. f_equal. apply IH.
Qed.

(** The level only matters for prefixes. *)
Lemma shapes_same level level' l : Forall2 same_line (shapes level l) (shapes level' l).
Proof.
  revert level level'. induction l as [|[]]; intros; cbn; repeat constructor; done || auto.
Qed.

(** ** Invariants of the interleaving *)

Lemma goes_on_threads t rest w t' :
  is_Some (threads w !! t) →
  threads (goes_on t rest w) !! t' = if decide (t' = t) then Some rest else threads w !! t'.
Proof.
  intros [x Ht]. cbn. case_decide as E.
  - subst. apply list_lookup_insert_eq. by eapply lookup_lt_Some.
  - by apply list_lookup_insert_ne.
Qed.

(** What a step prints and what it leaves to do. *)
Lemma exec_shapes t now i rest w :
  is_Some (threads w !! t) →
  ∃ ps rest', cout (exec t now i rest w) = cout w ++ (pair t <$> ps) ∧
    (∀ t', threads (exec t now i rest w) !! t' = if decide (t' = t) then Some rest' else threads w !! t') ∧
    (shape_of <$> ps) ++ shapes (m_logLevel (exec t now i rest w)) rest' =
      shapes (m_logLevel w) (i :: rest).
Proof.
  intros Ht. destruct i; cbn [exec];
    [exists [], rest|exists [], (Put (Prefix (m_logLevel w)) :: rest)
    |exists [], (Put (Time now) :: rest)|exists [p], rest|exists [], rest];
    (split; [cbn; by rewrite ?app_nil_r|]; split; [intros t'; by rewrite goes_on_threads|done]).
Qed.

Lemma written_app t w ps t' :
  (filter (λ x, x.1 = t) (cout w ++ (pair t' <$> ps))).*2 =
  written t w ++ (if decide (t = t') then ps else []).
Proof.
  rewrite filter_app, fmap_app. f_equal. induction ps as [|p ps IH]; [by case_decide|].
  cbn [fmap list_fmap]. case_decide as E.
  - subst. rewrite filter_cons_True by done. cbn. by rewrite IH.
  - rewrite filter_cons_False by naive_solver. exact IH.
Qed.

(** Of each thread: what it printed and has yet to print is its calls' lines, the
    levels apart. *)
Definition in_order (calls : list (list (LOGGERLEVEL * string))) (w : world) : Prop :=
  ∀ t cs, calls !! t = Some cs → ∃ rest, threads w !! t = Some rest ∧
    Forall2 same_line ((shape_of <$> written t w) ++ shapes (m_logLevel w) rest) (cs ≫= line).

Lemma in_order_start calls : in_order calls (start calls).
Proof.
  intros t cs Hcs. exists (cs ≫= LOG). split; [cbn; by rewrite list_lookup_fmap, Hcs|].
  cbn [written cout start m_logLevel]. unfold written. cbn. by rewrite shapes_calls.
Qed.

Lemma in_order_step calls w w' : in_order calls w → step w w' → in_order calls w'.
Proof.
  intros Hw [t now i rest _ Ht ->] t' cs Hcs. destruct (Hw _ _ Hcs) as (rest' & Ht' & Hall).
  destruct (exec_shapes t now i rest w ltac:(by eexists)) as (ps & l & Hout & Hth & Hsh).
  unfold written. rewrite Hout, written_app, Hth, fmap_app.
  case_decide as E.
  - subst t'. rewrite Ht in Ht'. injection Ht' as <-. exists l. split; [done|].
    by rewrite <- app_assoc, Hsh.
  - exists rest'. split; [done|]. cbn [fmap list_fmap]. rewrite app_nil_r.
    etrans; [|exact Hall]. apply Forall2_app; [done|apply shapes_same].
Qed.

(** A thread sets the level before it prints one. *)
Fixpoint sets_first (l : list instr) : Prop :=
  match l with
  | [] | SetLevel _ :: _ => True
  | Switch :: _ | Put (Prefix _) :: _ => False
  | _ :: l => sets_first l
  end.

(** Every level set, kept, or on its way to the output satisfies [P]. *)
Section levels.
Context (P : Z → Prop).

Definition instr_level (i : instr) : Prop :=
  match i with SetLevel l | Put (Prefix l) => P l | _ => True end.
Definition piece_level (p : piece) : Prop := match p with Prefix l => P l | _ => True end.

Definition levels_in (w : world) : Prop :=
  Forall (λ x, piece_level x.2) (cout w) ∧
  (∀ t l, threads w !! t = Some l → Forall instr_level l) ∧
  (P (m_logLevel w) ∨ ∀ t l, threads w !! t = Some l → sets_first l).

Lemma LOG_levels c : P (level_code c.1) → Forall instr_level (LOG c).
Proof.
  destruct c as [lv text]. cbn. intros HP. unfold LOG. case_decide; [done|].
  repeat (constructor; [done|]). by case_decide; repeat constructor.
Qed.

Lemma LOG_sets_first c l : sets_first l → sets_first (LOG c ++ l).
Proof. destruct c as [lv text]. unfold LOG. case_decide; [exact id|done]. Qed.

Lemma levels_in_start calls :
  (∀ cs c, cs ∈ calls → c ∈ cs → P (level_code c.1)) → levels_in (start calls).
Proof.
  intros HP. split; [by constructor|]. cbn [start threads]. split.
  - intros t l. rewrite list_lookup_fmap. intros (cs & Hcs & ->)%fmap_Some.
    apply list_elem_of_lookup_2 in Hcs. apply Forall_bind, Forall_forall.
    intros c Hc. apply LOG_levels. by eapply HP.
  - right. intros t l. rewrite list_lookup_fmap. intros (cs & _ & ->)%fmap_Some.
    induction cs as [|c cs IH]; [done|]. by apply LOG_sets_first.
Qed.

Lemma levels_in_step w w' : levels_in w → step w w' → levels_in w'.
Proof.
  intros (Hout & Hth & Hlev) [t now i rest _ Ht ->].
  pose proof (Hth _ _ Ht) as [Hi Hrest]%Forall_cons.
  assert (Hset : ∀ m l, threads m = threads w → Forall instr_level l → ∀ t' l',
    threads (goes_on t l m) !! t' = Some l' → Forall instr_level l').
  { intros m l Hm Hl t' l' Hl'. rewrite goes_on_threads in Hl' by (rewrite Hm; eauto).
    case_decide; [by simplify_eq|]. rewrite Hm in Hl'. by eapply Hth. }
  assert (Hfirst : ∀ m l, threads m = threads w → (sets_first (i :: rest) → sets_first l) →
    P (m_logLevel w) ∨ ∀ t' l', threads (goes_on t l m) !! t' = Some l' → sets_first l').
  { intros m l Hm Hl. destruct Hlev as [|Hf]; [by left|right]. intros t' l' Hl'.
    rewrite goes_on_threads in Hl' by (rewrite Hm; eauto).
    case_decide; [simplify_eq; by apply Hl, (Hf t)|]. rewrite Hm in Hl'. by eapply Hf. }
  destruct i as [lv| | |p|]; cbn [exec].
  - split_and!; [done|by apply Hset|by left].
  - destruct Hlev as [Hl|Hf]; [|by destruct (Hf _ _ Ht)].
    split_and!; [done|apply Hset; [done|by constructor]|by left].
  - split_and!; [done|apply Hset; [done|by constructor]|by apply Hfirst].
  - split_and!; [|by apply Hset|apply Hfirst; [done|by destruct p]].
    cbn. apply Forall_app. split; [done|]. constructor; [|done]. by destruct p.
  - split_and!; [done|by apply Hset|by apply Hfirst].
Qed.
End levels.

(** With nobody else logging, the lines of a thread are those of its calls. *)
Definition alone (t : nat) (calls : list (list (LOGGERLEVEL * string))) : Prop :=
  ∀ t' cs, calls !! t' = Some cs → t' ≠ t → cs = [].

Definition own_lines (t : nat) (cs : list (LOGGERLEVEL * string)) (w : world) : Prop :=
  (∀ t' l, threads w !! t' = Some l → t' ≠ t → l = []) ∧
  ∃ rest, threads w !! t = Some rest ∧
    (shape_of <$> written t w) ++ shapes (m_logLevel w) rest = cs ≫= line.

Lemma own_lines_start t cs calls :
  calls !! t = Some cs → alone t calls → own_lines t cs (start calls).
Proof.
  intros Hcs Halone. split; cbn [start threads].
  - intros t' l Hl Hne. rewrite list_lookup_fmap in Hl. apply fmap_Some in Hl as (cs' & Hcs' & ->).
    by rewrite (Halone _ _ Hcs').
  - exists (cs ≫= LOG). rewrite list_lookup_fmap, Hcs. split; [done|].
    unfold written. cbn. apply shapes_calls.
Qed.

Lemma own_lines_step t cs w w' : own_lines t cs w → step w w' → own_lines t cs w'.
Proof.
  intros (Hother & rest & Hrest & Hall) [t' now i rest' _ Ht ->].
  destruct (decide (t' = t)) as [->|Hne]; [|by apply Hother in Ht].
  rewrite Ht in Hrest. injection Hrest as <-.
  destruct (exec_shapes t now i rest' w ltac:(by eexists)) as (ps & l & Hout & Hth & Hsh).
  split.
  - intros t' l' Hl' Hne. rewrite Hth, decide_False in Hl' by done. by eapply Hother.
  - exists l. rewrite Hth, decide_True by done. split; [done|].
    unfold written. rewrite Hout, written_app, decide_True, fmap_app, <- app_assoc by done. by rewrite Hsh.
Qed.

(** ** What a thread prints up to its first [LOG_FATAL] *)

Fixpoint until_fatal (cs : list (LOGGERLEVEL * string)) : list (LOGGERLEVEL * string) :=
  match cs with
  | [] => []
  | c :: cs => c :: (if decide (c.1 = FATAL) then [] else until_fatal cs)
  end.

Fixpoint until_exit (l : list instr) : list instr :=
  match l with
  | [] | Exit :: _ => []
  | i :: l => i :: until_exit l
  end.

Lemma until_exit_calls level cs : shapes level (until_exit (cs ≫= LOG)) = until_fatal cs ≫= line.
Proof.
  revert level. induction cs as [|[lv text] cs IH]; intros level; [done|].
  rewrite bind_cons. cbn [until_fatal fst]. rewrite bind_cons.
  unfold LOG at 1, line at 1. cbn [fst snd].
  destruct (decide (lv = DEBUG ∧ mudebug = false)) as [[-> _]|]; [apply IH|].
  rewrite <- !app_assoc. cbn [setLogLevel log app until_exit shapes shape_of].
  do 3 f_equal. case_decide; [done|]. apply IH.
Qed.

(** A step that is not [exit], up to the thread's [exit]. *)
Lemma exec_until_exit t now i rest w :
  is_Some (threads w !! t) → i ≠ Exit →
  ∃ ps rest', cout (exec t now i rest w) = cout w ++ (pair t <$> ps) ∧
    exited (exec t now i rest w) = exited w ∧
    (∀ t', threads (exec t now i rest w) !! t' = if decide (t' = t) then Some rest' else threads w !! t') ∧
    (shape_of <$> ps) ++ shapes (m_logLevel (exec t now i rest w)) (until_exit rest') =
      shapes (m_logLevel w) (until_exit (i :: rest)) ∧
    (Exit ∈ rest' → Exit ∈ i :: rest).
Proof.
  intros Ht Hi. destruct i; cbn [exec]; [| | | |done];
    [exists [], rest|exists [], (Put (Prefix (m_logLevel w)) :: rest)
    |exists [], (Put (Time now) :: rest)|exists [p], rest];
    (split; [cbn; by rewrite ?app_nil_r|]; split; [done|]; split;
     [intros t'; by rewrite goes_on_threads|split; [done|]]);
    rewrite ?elem_of_cons; naive_solver.
Qed.

(** Up to [exit], [rest] is what the calls [cs] have yet to do. *)
Definition on_the_way (cs : list (LOGGERLEVEL * string)) (t : nat) (w : world) (rest : list instr) : Prop :=
  Forall2 same_line ((shape_of <$> written t w) ++ shapes (m_logLevel w) (until_exit rest))
    (until_fatal cs ≫= line) ∧
  (Exit ∈ rest → FATAL ∈ cs.*1).

(** A thread has printed a beginning of its lines up to its first [LOG_FATAL], and all of
    them if it is the one that has called [exit]. *)
Definition none_after_fatal (calls : list (list (LOGGERLEVEL * string))) (w : world) : Prop :=
  (∀ t cs, calls !! t = Some cs →
     ∃ tail, Forall2 same_line ((shape_of <$> written t w) ++ tail) (until_fatal cs ≫= line)) ∧
  (exited w = true → ∃ t cs, calls !! t = Some cs ∧ FATAL ∈ cs.*1 ∧
     Forall2 same_line (shape_of <$> written t w) (until_fatal cs ≫= line)).

Definition fatal_inv calls (w : world) : Prop :=
  length (threads w) = length calls ∧
  if exited w then none_after_fatal calls w
  else ∀ t cs, calls !! t = Some cs → ∃ rest, threads w !! t = Some rest ∧ on_the_way cs t w rest.

Lemma fatal_inv_holds calls w : fatal_inv calls w → none_after_fatal calls w.
Proof.
  intros [_ Hw]. destruct (exited w) eqn:He; [done|]. split; [|congruence].
  intros t cs Hcs. destruct (Hw _ _ Hcs) as (rest & _ & Hall & _). by eexists.
Qed.

Lemma fatal_inv_start calls : fatal_inv calls (start calls).
Proof.
  split; [apply length_fmap|]. cbn [exited start]. intros t cs Hcs. exists (cs ≫= LOG).
  split; [cbn; by rewrite list_lookup_fmap, Hcs|]. split.
  - cbn [m_logLevel start]. unfold written. cbn [cout start]. cbn [app]. by rewrite until_exit_calls.
  - intros ([lv text] & Hin & Hc)%list_elem_of_bind. apply list_elem_of_fmap. exists (lv, text). split; [|done].
    unfold LOG in Hin. case_decide; [by apply not_elem_of_nil in Hin|].
    rewrite elem_of_app in Hin. case_decide; [done|]. set_solver.
Qed.

Lemma fatal_inv_step calls w w' : fatal_inv calls w → step w w' → fatal_inv calls w'.
Proof.
  intros [Hlen Hw] [t now i rest He Ht ->]. rewrite He in Hw.
  assert (Hcalls : ∃ cs, calls !! t = Some cs).
  { apply lookup_lt_is_Some. rewrite <- Hlen. by eapply lookup_lt_Some. }
  assert (Hdec : i = Exit ∨ i ≠ Exit) by (destruct i; auto).
  destruct Hdec as [->|Hi].
  - destruct Hcalls as [cs Hcs]. split; [cbn; by rewrite length_insert|]. cbn [exec goes_on exited].
    split; [|intros _; exists t, cs].
    + intros t' cs' Hcs'. destruct (Hw _ _ Hcs') as (rest' & _ & Hall & _). by eexists.
    + destruct (Hw _ _ Hcs) as (rest' & Hr & Hall & Hex). rewrite Ht in Hr. injection Hr as <-.
      split; [done|]. split; [apply Hex, list_elem_of_here|]. cbn [until_exit shapes] in Hall.
      by rewrite app_nil_r in Hall.
  - destruct (exec_until_exit t now i rest w ltac:(by eexists) Hi) as (ps & l & Hout & Hex & Hth & Hsh & Hin).
    split; [destruct i; cbn; by rewrite length_insert|]. rewrite Hex, He.
    intros t' cs' Hcs'. destruct (Hw _ _ Hcs') as (rest' & Ht' & Hall & Hfatal). unfold on_the_way, written.
    rewrite Hout, written_app, Hth, fmap_app. case_decide as E.
    + subst t'. rewrite Ht in Ht'. injection Ht' as <-. exists l. split; [done|].
      rewrite <- app_assoc, Hsh. by split; [|auto].
    + exists rest'. split; [done|]. cbn [fmap list_fmap]. rewrite app_nil_r. split; [|done].
      etrans; [|exact Hall]. apply Forall2_app; [done|apply shapes_same].
Qed.
End macros.

(** ** What is promised of the lines *)

(** C29. Whatever the threads log and however their steps interleave, a thread that
    has nothing left to do has printed, in the order of its calls, a prefix, a time
    and the text of each call, the text cut to 1023 characters; debug calls print
    nothing unless they are compiled in. Every prefix is that of some call's level;
    the thread's own if no other thread logs. At any time a thread has printed a beginning
    of the lines of its calls up to its first [LOG_FATAL], and so nothing that follows it;
    when the program has exited, some thread has printed them all, the fatal one last.
    (Another thread can print after the fatal line: [prints_after_fatal].) *)
Theorem lines_complete (mudebug : bool) calls (w : world) :
  rtc step (start mudebug calls) w →
  (∀ t cs, calls !! t = Some cs → threads w !! t = Some [] →
    Forall2 same_line (shape_of <$> written t w) (cs ≫= line mudebug) ∧
    (alone t calls → shape_of <$> written t w = cs ≫= line mudebug)) ∧
  (∀ t level, (t, Prefix level) ∈ cout w →
    ∃ cs c, cs ∈ calls ∧ c ∈ cs ∧ level = level_code c.1) ∧
  (∀ t cs, calls !! t = Some cs → ∃ tail,
    Forall2 same_line ((shape_of <$> written t w) ++ tail) (until_fatal cs ≫= line mudebug)) ∧
  (exited w = true → ∃ t cs, calls !! t = Some cs ∧ FATAL ∈ cs.*1 ∧
    Forall2 same_line (shape_of <$> written t w) (until_fatal cs ≫= line mudebug)).
Proof.
  intros Hrun. split_and!.
  - intros t cs Hcs Hdone. split.
    + assert (Hw : in_order mudebug calls w).
      { revert w Hrun Hdone. intros w Hrun _. revert w Hrun.
        apply rtc_ind_r; [apply in_order_start|]. intros w1 w2 _ Hs Hw. by eapply in_order_step. }
      destruct (Hw _ _ Hcs) as (rest & Hrest & Hall). rewrite Hdone in Hrest. injection Hrest as <-.
      by rewrite app_nil_r in Hall.
    + intros Halone. assert (Hw : own_lines mudebug t cs w).
      { revert w Hrun Hdone. intros w Hrun _. revert w Hrun.
        apply rtc_ind_r; [by apply own_lines_start|]. intros w1 w2 _ Hs Hw. by eapply own_lines_step. }
      destruct Hw as (_ & rest & Hrest & Hall). rewrite Hdone in Hrest. injection Hrest as <-.
      by rewrite app_nil_r in Hall.
  - intros t level Hin.
    assert (Hw : levels_in (λ l, ∃ cs c, cs ∈ calls ∧ c ∈ cs ∧ l = level_code c.1) w).
    { revert w Hrun Hin. intros w Hrun _. revert w Hrun.
      apply rtc_ind_r; [apply levels_in_start; eauto|]. intros w1 w2 _ Hs Hw. by eapply levels_in_step. }
    destruct Hw as [Hout _]. rewrite Forall_forall in Hout. exact (Hout _ Hin).
  - apply (fatal_inv_holds mudebug calls w). revert w Hrun. apply rtc_ind_r; [apply fatal_inv_start|].
    intros w1 w2 _ Hs Hw. by eapply fatal_inv_step.
  - apply (fatal_inv_holds mudebug calls w). revert w Hrun. apply rtc_ind_r; [apply fatal_inv_start|].
    intros w1 w2 _ Hs Hw. by eapply fatal_inv_step.
Qed.

(** One step of a given thread, computed. *)
Definition run_thread (t : nat) (now : Z) (w : world) : option world :=
  match threads w !! t with
  | Some (i :: rest) => if exited w then None else Some (exec t now i rest w)
  | _ => None
  end.

Lemma run_thread_step t now w w' : run_thread t now w = Some w' → step w w'.
Proof.
  unfold run_thread. intros H. destruct (threads w !! t) as [[|i rest]|] eqn:Ht; [done| |done].
  destruct (exited w) eqn:He; [done|]. injection H as <-. by eapply step_thread.
Qed.

Fixpoint run_threads (now : Z) (schedule : list nat) (w : world) : option world :=
  match schedule with
  | [] => Some w
  | t :: schedule => run_thread t now w ≫= run_threads now schedule
  end.

Lemma run_threads_steps now schedule w w' :
  run_threads now schedule w = Some w' → rtc step w w'.
Proof.
  revert w. induction schedule as [|t schedule IH]; intros w; cbn.
  - intros [= ->]. apply rtc_refl.
  - intros (w1 & Hw1 & Hrun)%bind_Some. eapply rtc_l; [by eapply run_thread_step|by apply IH].
Qed.

Lemma string_app_nil_r (s : string) : s +:+ "" = s.
Proof. induction s as [|c s IH]; [done|]. cbn. by rewrite <- IH at 2. Qed.

#[local] Opaque snprintf.

(** Setting the level and printing are not one step for other threads: if a
    second thread logs in between, the message of the first is printed, whole, under
    the level of the second. *)
Theorem level_of_another_thread (mudebug : bool) (level1 level2 : LOGGERLEVEL) (msg1 msg2 : string)
    (now : Z) :
  level1 ≠ DEBUG → level2 ≠ DEBUG →
  ∃ w, rtc step (start mudebug [[(level1, msg1)]; [(level2, msg2)]]) w ∧
    written 0 w = [Prefix (level_code level2); Time now; Text (snprintf 1024 msg1)] ∧
    output w = prefix (level_code level2) +:+ toString now +:+ snprintf 1024 msg1.
Proof.
  intros H1 H2.
  assert (Hrun : ∃ w, run_threads now [0; 1; 0; 0; 0; 0; 0]%nat
      (start mudebug [[(level1, msg1)]; [(level2, msg2)]]) = Some w ∧
    cout w = [(0%nat, Prefix (level_code level2)); (0%nat, Time now); (0%nat, Text (snprintf 1024 msg1))]).
  { destruct level1; [| |done|]; (destruct level2; [| |done|]); (eexists; split; reflexivity). }
  destruct Hrun as (w & Hrun & Hout). exists w. split; [by eapply run_threads_steps|].
  unfold written, output. rewrite Hout. split; [done|]. cbn [foldr snd piece_string].
  by rewrite string_app_nil_r.
Qed.

(** The text of a fatal line and [exit] are not one step either: a second thread can
    print a whole line in between. *)
Theorem prints_after_fatal (mudebug : bool) (msg1 msg2 : string) (now : Z) :
  ∃ w, rtc step (start mudebug [[(FATAL, msg1)]; [(INFO, msg2)]]) w ∧ exited w = true ∧
    output w = prefix 3 +:+ toString now +:+ snprintf 1024 msg1 +:+
               prefix 0 +:+ toString now +:+ snprintf 1024 msg2.
Proof.
  assert (Hrun : ∃ w, run_threads now [0; 0; 0; 0; 0; 0; 1; 1; 1; 1; 1; 1; 0]%nat
      (start mudebug [[(FATAL, msg1)]; [(INFO, msg2)]]) = Some w ∧ exited w = true ∧
    cout w = [(0%nat, Prefix 3); (0%nat, Time now); (0%nat, Text (snprintf 1024 msg1));
              (1%nat, Prefix 0); (1%nat, Time now); (1%nat, Text (snprintf 1024 msg2))]).
  { assert (Hstart : start mudebug [[(FATAL, msg1)]; [(INFO, msg2)]] =
      mk_world 0 [] [[SetLevel 3; Switch; Now; Put (Text (snprintf 1024 msg1)); Exit];
                     [SetLevel 0; Switch; Now; Put (Text (snprintf 1024 msg2))]] false) by reflexivity.
    rewrite Hstart. generalize (snprintf 1024 msg1) (snprintf 1024 msg2). intros text1 text2.
    eexists. split; [vm_compute; reflexivity|]. split; vm_compute; reflexivity. }
  destruct Hrun as (w & Hrun & He & Hout). exists w. split; [by eapply run_threads_steps|]. split; [done|].
  change (prefix 3) with (piece_string (Prefix 3)). change (prefix 0) with (piece_string (Prefix 0)).
  change (toString now) with (piece_string (Time now)).
  change (snprintf 1024 msg1) with (piece_string (Text (snprintf 1024 msg1))).
  change (snprintf 1024 msg2) with (piece_string (Text (snprintf 1024 msg2))).
  unfold output. rewrite Hout. generalize piece_string. intros f. cbn. by rewrite string_app_nil_r.
Qed.

#[local] Transparent snprintf.

(** An error of one thread printed as information. *)
Lemma level_of_another_thread_witness :
  ∃ w, rtc step (start false [[(ERROR, "accept err:24")]; [(INFO, "up")]]) w ∧
    output w = "[INFO] 1.500000accept err:24".
Proof.
  destruct (level_of_another_thread false ERROR INFO "accept err:24" "up" 1500000) as (w & Hw & _ & Ho);
    [done|done|]. exists w. split; [exact Hw|]. rewrite Ho. by vm_compute.
Defined.

(** Two threads; the second logs nothing but a debug message. *)
Lemma lines_complete_witness :
  ∃ w, rtc step (start false [[(INFO, "up"); (FATAL, "bind")]; [(DEBUG, "x")]]) w ∧
    exited w = true ∧
    Forall2 same_line (shape_of <$> written 0 w)
      [SPrefix 0; STime; SText "up"; SPrefix 3; STime; SText "bind"].
Proof.
  destruct (run_threads 7 (replicate 13 0%nat) (start false [[(INFO, "up"); (FATAL, "bind")]; [(DEBUG, "x")]]))
    as [w|] eqn:Hrun; [|by vm_compute in Hrun].
  pose proof (run_threads_steps _ _ _ _ Hrun) as Hsteps. exists w. split; [exact Hsteps|].
  assert (Hw : exited w = true ∧ threads w !! 0%nat = Some []).
  { vm_compute in Hrun. by injection Hrun as <-. }
  destruct Hw as [He Hdone]. split; [exact He|].
  destruct (lines_complete false _ w Hsteps) as [Hlines _].
  destruct (Hlines 0%nat [(INFO, "up"); (FATAL, "bind")] eq_refl Hdone) as [Hall _]. exact Hall.
Defined.
