(* ===== verification/Sockets.v ===== *)
(** The wrappers of the socket calls (SocketOps.h, SocketOps.cpp) and the owner of a
    descriptor (Socket.h, Socket.cpp). The kernel's sockets are a parameter: the class
    [SocketApi] has the system calls, [SocketLaws] what their manual pages promise of
    the table of open descriptors; [table_sockets] is an instance. *)
From S2P Require Import Prelude Decimal InetAddress Channel Logger.
#[local] Open Scope Z_scope.

Definition AF_INET : Z := 2.
Definition SOCK_STREAM : Z := 1.
Definition SOCK_NONBLOCK : Z := 2048.
Definition SOCK_CLOEXEC : Z := 524288.
Definition IPPROTO_TCP : Z := 6.
Definition TCP_NODELAY : Z := 1.
Definition SOL_SOCKET : Z := 1.
Definition SO_REUSEADDR : Z := 2.
Definition SO_KEEPALIVE : Z := 9.
Definition SO_REUSEPORT : Z := 15.
Definition SHUT_WR : Z := 1.
Definition SOMAXCONN : Z := 4096.
Definition INET_ADDRSTRLEN : Z := 16.

Definition EPERM : Z := 1.
Definition EINTR : Z := 4.
Definition EBADF : Z := 9.
Definition EAGAIN : Z := 11.
Definition ENOMEM : Z := 12.
Definition EFAULT : Z := 14.
Definition EINVAL : Z := 22.
Definition ENFILE : Z := 23.
Definition EMFILE : Z := 24.
Definition EPROTO : Z := 71.
Definition ENOTSOCK : Z := 88.
Definition EOPNOTSUPP : Z := 95.
Definition ECONNABORTED : Z := 103.
Definition ENOBUFS : Z := 105.

(** [struct sockaddr_in]; [sin] is its port and its address. *)
Record sockaddr_in := mk_sockaddr { sin_family : Z; sin : InetAddress }.

Definition zero_sockaddr : sockaddr_in := mk_sockaddr 0 (mk_InetAddress 0 0).

(** What the kernel knows of an open socket. *)
Record file := mk_file {
  nonblocking : bool;
  cloexec : bool;
  options : gmap (Z * Z) Z;             (** by level and name *)
  local_addr : option sockaddr_in;
  peer_addr : option sockaddr_in;
  backlog : option Z;                   (** listening, with room for so many *)
  wr_shut : bool
}.

Definition new_file (flags : Z) (local peer : option sockaddr_in) : file :=
  mk_file (has flags SOCK_NONBLOCK) (has flags SOCK_CLOEXEC) ∅ local peer None false.
Definition set_local a f := mk_file (nonblocking f) (cloexec f) (options f) (Some a) (peer_addr f)
  (backlog f) (wr_shut f).
Definition set_backlog n f := mk_file (nonblocking f) (cloexec f) (options f) (local_addr f)
  (peer_addr f) (Some n) (wr_shut f).
Definition set_option level name v f := mk_file (nonblocking f) (cloexec f)
  (<[(level, name) := v]> (options f)) (local_addr f) (peer_addr f) (backlog f) (wr_shut f).
Definition set_wr_shut f := mk_file (nonblocking f) (cloexec f) (options f) (local_addr f)
  (peer_addr f) (backlog f) true.

(** The system calls: [inl errno] where they return -1. *)
Class SocketApi (K : Type) := {
  files : K → gmap Z file;                      (** the open descriptors *)
  pending : K → Z → list sockaddr_in;           (** connections waiting to be accepted *)
  sys_socket : K → Z → Z → Z → (Z + Z) * K;
  sys_bind : K → Z → sockaddr_in → (Z + Z) * K;
  sys_listen : K → Z → Z → (Z + Z) * K;
  sys_connect : K → Z → sockaddr_in → (Z + Z) * K;
  sys_accept4 : K → Z → Z → (Z + Z * sockaddr_in) * K;
  sys_close : K → Z → (Z + Z) * K;
  sys_shutdown : K → Z → Z → (Z + Z) * K;
  sys_setsockopt : K → Z → Z → Z → Z → (Z + Z) * K;
  sys_so_error : K → Z → (Z + Z) * K;           (** [getsockopt] of [SO_ERROR] *)
  sys_getsockname : K → Z → Z + sockaddr_in;
  sys_getpeername : K → Z → Z + sockaddr_in;
  log_errno : K → Z → Z                         (** what [errno] is after a line was logged *)
}.

(** A call that succeeds with zero and changes one open descriptor, or fails and
    changes nothing. *)
Definition changes {K} `{SocketApi K} (k : K) (fd : Z) (f : file → file) (r : (Z + Z) * K) : Prop :=
  match r.1 with
  | inr v => v = 0 ∧ is_Some (files k !! fd) ∧ files r.2 = alter f fd (files k)
  | inl _ => files r.2 = files k
  end ∧ pending r.2 = pending k.

(** The address a socket has after it was bound to [addr]: [addr], but with a port of the
    kernel's choice if it asks for port 0. *)
Definition bound_to (addr bound : sockaddr_in) : Prop :=
  sin_family bound = sin_family addr ∧ s_addr (sin bound) = s_addr (sin addr) ∧
  (sin_port (sin addr) ≠ 0 → bound = addr).

(** The open descriptor has an address; [listen] gives one to a socket that has none. *)
Definition bound {K} `{SocketApi K} (k : K) (fd : Z) : Prop :=
  ∀ f, files k !! fd = Some f → is_Some (local_addr f).

(** socket(2), bind(2), listen(2), accept4(2), close(2), shutdown(2), setsockopt(2).
    Linux releases the descriptor also when close reports an error. *)
Class SocketLaws (K : Type) `{SocketApi K} := {
  socket_law k domain type protocol :
    let r := sys_socket k domain type protocol in
    pending r.2 = pending k ∧
    match r.1 with
    | inr fd => 0 ≤ fd ∧ files k !! fd = None ∧ files r.2 = <[fd := new_file type None None]> (files k)
    | inl _ => files r.2 = files k
    end;
  bind_law k fd addr :
    ∃ local, bound_to addr local ∧ changes k fd (set_local local) (sys_bind k fd addr);
  listen_law k fd n : bound k fd → changes k fd (set_backlog n) (sys_listen k fd n);
  shutdown_law k fd : changes k fd set_wr_shut (sys_shutdown k fd SHUT_WR);
  setsockopt_law k fd level name v :
    changes k fd (set_option level name v) (sys_setsockopt k fd level name v);
  accept_law k fd flags :
    let r := sys_accept4 k fd flags in
    match r.1 with
    | inr (connfd, addr) =>
        0 ≤ connfd ∧ files k !! connfd = None ∧
        (∃ local, files r.2 = <[connfd := new_file flags local (Some addr)]> (files k)) ∧
        pending k fd = addr :: pending r.2 fd
    | inl e => files r.2 = files k ∧ (e = EMFILE → pending r.2 = pending k)
    end;
  close_law k fd :
    let r := sys_close k fd in
    (files k !! fd = None → r.1 = inl EBADF) ∧ files r.2 = delete fd (files k)
}.

(** The calling process. *)
Record process (K : Type) := mk_process {
  net : K;
  errno : Z;
  logged : list (LOGGERLEVEL * string)
}.
Arguments mk_process {K}.
Arguments net {K}.
Arguments errno {K}.
Arguments logged {K}.

Section operations.
Context {K : Type} `{SocketApi K}.
Implicit Types (p : process K).

Definition set_net k p : process K := mk_process k (errno p) (logged p).
Definition set_errno e p : process K := mk_process (net p) e (logged p).

(** A system call: -1 and [errno], or its value. *)
Definition sys (call : K → (Z + Z) * K) : M (process K) Z := λ p,
  let '(r, k) := call (net p) in
  match r with
  | inr v => Ok (v, set_net k p)
  | inl e => Ok (-1, set_errno e (set_net k p))
  end.

(** The same with an address stored through a pointer if the call succeeds. *)
Definition sys_addr (call : K → (Z + Z * sockaddr_in) * K) (addr : sockaddr_in)
    : M (process K) (Z * sockaddr_in) := λ p,
  let '(r, k) := call (net p) in
  match r with
  | inr (v, addr') => Ok ((v, addr'), set_net k p)
  | inl e => Ok ((-1, addr), set_errno e (set_net k p))
  end.

Definition LOG_ERROR (text : string) : M (process K) unit := modify (λ p,
  mk_process (net p) (log_errno (net p) (errno p)) (logged p ++ [(ERROR, text)])).
Definition LOG_FATAL (text : string) : M (process K) unit := fail FatalExit.

(** ** [namespace sockets], as compiled without [VALGRIND] *)

Definition createNonblockingOrDie : M (process K) Z :=
  sockfd ← sys (λ k, sys_socket k AF_INET (Z.lor (Z.lor SOCK_STREAM SOCK_NONBLOCK) SOCK_CLOEXEC)
                       IPPROTO_TCP);
  (if sockfd <? 0 then LOG_FATAL "createNonblockingOrDie" else mret tt);;
  mret sockfd.

Definition connect (sockfd : Z) (addr : sockaddr_in) : M (process K) Z :=
  sys (λ k, sys_connect k sockfd addr).

Definition bindOrDie (sockfd : Z) (addr : sockaddr_in) : M (process K) unit :=
  ret ← sys (λ k, sys_bind k sockfd addr);
  if ret <? 0 then LOG_FATAL "bindOrDie()" else mret tt.

Definition listenOrDie (sockfd : Z) : M (process K) unit :=
  ret ← sys (λ k, sys_listen k sockfd SOMAXCONN);
  if ret <? 0 then LOG_FATAL "listenOrDie()" else mret tt.

(** [accept]; [addr] is what [*addr] holds. *)
Definition accept (sockfd : Z) (addr : sockaddr_in) : M (process K) (Z * sockaddr_in) :=
  r ← sys_addr (λ k, sys_accept4 k sockfd (Z.lor SOCK_NONBLOCK SOCK_CLOEXEC)) addr;
  let '(connfd, addr) := r in
  (if connfd <? 0 then
     p ← gets id;
     let savedErrno := errno p in
     LOG_FATAL "accept()";;
     if decide (savedErrno ∈ [EAGAIN; ECONNABORTED; EINTR; EPROTO; EPERM; EMFILE]) then
       modify (set_errno savedErrno)
     else if decide (savedErrno ∈ [EBADF; EFAULT; EINVAL; ENFILE; ENOBUFS; ENOMEM; ENOTSOCK; EOPNOTSUPP])
     then LOG_FATAL "unexpected error of ::accept "
     else LOG_FATAL "unknown error of ::accept "
   else mret tt);;
  mret (connfd, addr).

Definition close (sockfd : Z) : M (process K) unit :=
  ret ← sys (λ k, sys_close k sockfd);
  if ret <? 0 then LOG_ERROR "close()" else mret tt.

Definition shutdownWrite (sockfd : Z) : M (process K) unit :=
  ret ← sys (λ k, sys_shutdown k sockfd SHUT_WR);
  if ret <? 0 then LOG_ERROR "sockets::shutdownWrite" else mret tt.

Definition getSocketError (sockfd : Z) : M (process K) Z := λ p,
  match sys_so_error (net p) sockfd with
  | (inl e, k) => Ok (e, set_errno e (set_net k p))
  | (inr optval, k) => Ok (optval, set_net k p)
  end.

Definition getLocalAddr (sockfd : Z) : M (process K) sockaddr_in :=
  let localaddr := zero_sockaddr in
  r ← sys_addr (λ k, (match sys_getsockname k sockfd with inl e => inl e | inr a => inr (0, a) end, k))
        localaddr;
  (if r.1 <? 0 then LOG_ERROR "sockets::getLocalAddr" else mret tt);;
  mret r.2.

Definition getPeerAddr (sockfd : Z) : M (process K) sockaddr_in :=
  let peeraddr := zero_sockaddr in
  r ← sys_addr (λ k, (match sys_getpeername k sockfd with inl e => inl e | inr a => inr (0, a) end, k))
        peeraddr;
  (if r.1 <? 0 then LOG_ERROR "sockets::getPeerAddr" else mret tt);;
  mret r.2.

Definition isSelfConnect (sockfd : Z) : M (process K) bool :=
  localaddr ← getLocalAddr sockfd;
  peeraddr ← getPeerAddr sockfd;
  mret ((sin_port (sin localaddr) =? sin_port (sin peeraddr)) &&
        (s_addr (sin localaddr) =? s_addr (sin peeraddr))).

(** ** [class Socket] *)

Definition Socket_destroy (m_sockfd : Z) : M (process K) unit :=
  ret ← sys (λ k, sys_close k m_sockfd); mret tt.

Definition bindAddress (m_sockfd : Z) (localaddr : sockaddr_in) : M (process K) unit :=
  ret ← sys (λ k, sys_bind k m_sockfd localaddr);
  if negb (0 =? ret) then LOG_FATAL ("bind sockfd:" +:+ pretty m_sockfd +:+ " fail ") else mret tt.

Definition listen (m_sockfd : Z) : M (process K) unit :=
  ret ← sys (λ k, sys_listen k m_sockfd 1024);
  if negb (0 =? ret) then LOG_FATAL ("listen sockfd:" +:+ pretty m_sockfd +:+ " fail ") else mret tt.

Definition Socket_accept (m_sockfd : Z) (peeraddr : sockaddr_in) : M (process K) (Z * sockaddr_in) :=
  r ← sys_addr (λ k, sys_accept4 k m_sockfd (Z.lor SOCK_NONBLOCK SOCK_CLOEXEC)) zero_sockaddr;
  let '(connfd, addr) := r in
  mret (connfd, if connfd >=? 0 then addr else peeraddr).

Definition Socket_shutdownWrite (m_sockfd : Z) : M (process K) unit :=
  ret ← sys (λ k, sys_shutdown k m_sockfd SHUT_WR);
  if ret <? 0 then LOG_ERROR "shutdownWrite error" else mret tt.

Definition set_sockopt (level name m_sockfd : Z) (on : bool) : M (process K) unit :=
  let optval := if on then 1 else 0 in
  ret ← sys (λ k, sys_setsockopt k m_sockfd level name optval); mret tt.
Definition set_tcpNoDelay : Z → bool → M (process K) unit := set_sockopt IPPROTO_TCP TCP_NODELAY.
Definition set_reuseAddr : Z → bool → M (process K) unit := set_sockopt SOL_SOCKET SO_REUSEADDR.
Definition set_reusePort : Z → bool → M (process K) unit := set_sockopt SOL_SOCKET SO_REUSEPORT.
Definition set_keepAlive : Z → bool → M (process K) unit := set_sockopt SOL_SOCKET SO_KEEPALIVE.
End operations.

(** ** Addresses as text *)
Section addresses.
Context {K : Type} `{SocketApi K} (big_endian_host : bool).
(** [inet_ntop] and [inet_pton] for [AF_INET]. *)
Context (inet_ntop : Z → string) (inet_pton : string → option Z).

Definition toIp (size : Z) (addr : sockaddr_in) : outcome string :=
  if INET_ADDRSTRLEN <=? size then Ok (inet_ntop (s_addr (sin addr))) else Err AssertFailed.

Definition toIpPort (size : Z) (addr : sockaddr_in) : outcome string :=
  host ← toIp INET_ADDRSTRLEN addr;
  let port := networkToHost16 big_endian_host (sin_port (sin addr)) in
  Ok (snprintf (Z.to_nat size) (host +:+ ":" +:+ pretty port)).

(** [fromIpPort]; [addr] is what [*addr] holds. *)
Definition fromIpPort (ip : string) (port : Z) (addr : sockaddr_in) : M (process K) sockaddr_in :=
  let net_port := hostToNetwork16 big_endian_host (u16 port) in
  match inet_pton ip with
  | Some a => mret (mk_sockaddr AF_INET (mk_InetAddress net_port a))
  | None =>
      LOG_ERROR "sockets::fromIpPort";;
      mret (mk_sockaddr AF_INET (mk_InetAddress net_port (s_addr (sin addr))))
  end.
End addresses.

(** ** Runs *)
Section runs.
Context {K : Type} `{SocketLaws K}.
Implicit Types (p : process K).

(** [m] makes [call]: it returns iff the kernel did [f] to the descriptor, and has
    the program exit iff the kernel refused. *)
Definition done_or_exit (m : M (process K) unit) (call : K → (Z + Z) * K) (fd : Z) (f : file → file)
    p : Prop :=
  match (call (net p)).1 with
  | inr _ => ∃ p', m p = Ok (tt, p') ∧ is_Some (files (net p) !! fd) ∧
      files (net p') = alter f fd (files (net p)) ∧ errno p' = errno p ∧ logged p' = logged p
  | inl _ => m p = Err FatalExit
  end.

(** The system call of the descriptor and what it answered. *)
Lemma sys_changes p fd f call :
  changes (net p) fd f (call (net p)) →
  (∃ k, call (net p) = (inr 0, k) ∧ sys call p = Ok (0, set_net k p) ∧
     is_Some (files (net p) !! fd) ∧ files k = alter f fd (files (net p)) ∧ pending k = pending (net p)) ∨
  (∃ e k, call (net p) = (inl e, k) ∧ sys call p = Ok (-1, set_errno e (set_net k p)) ∧
     files k = files (net p) ∧ pending k = pending (net p)).
Proof.
  unfold changes, sys. destruct (call (net p)) as [[e|v] k]; cbn.
  - intros [Hf Hp]. right. by exists e, k.
  - intros [(-> & Hs & Hf) Hp]. left. by exists k.
Qed.

Lemma done_or_exit_intro p fd f call (m : Z → M (process K) unit) :
  changes (net p) fd f (call (net p)) →
  (∀ q, m 0 q = Ok (tt, q)) → (∀ q, m (-1) q = Err FatalExit) →
  done_or_exit (sys call ≫= m) call fd f p.
Proof.
  intros Hc Hok Hno. unfold done_or_exit.
  destruct (sys_changes _ _ _ _ Hc) as [(k & Hk & Hrun & Hs & Hf & _)|(e & k & Hk & Hrun & Hf & _)];
    rewrite Hk; cbn [fst]; rewrite (M_bind_ok _ _ _ _ _ Hrun).
  - rewrite Hok. by eexists.
  - by rewrite Hno.
Qed.

(** What [accept4] gives a caller that passes these flags. *)
Definition nonblocking_flags : Z := Z.lor SOCK_NONBLOCK SOCK_CLOEXEC.

Lemma Socket_accept_run p fd peer :
  match sys_accept4 (net p) fd nonblocking_flags with
  | (inr (connfd, addr), k) =>
      Socket_accept fd peer p = Ok ((connfd, addr), set_net k p) ∧
      0 ≤ connfd ∧ files (net p) !! connfd = None ∧
      (∃ local, files k = <[connfd := new_file nonblocking_flags local (Some addr)]> (files (net p))) ∧
      pending (net p) fd = addr :: pending k fd
  | (inl e, k) =>
      Socket_accept fd peer p = Ok ((-1, peer), set_errno e (set_net k p)) ∧
      files k = files (net p) ∧ (e = EMFILE → pending k = pending (net p))
  end.
Proof.
  pose proof (accept_law (net p) fd nonblocking_flags) as Hlaw. cbv zeta in Hlaw.
  unfold Socket_accept. fold nonblocking_flags.
  set (m := sys_addr _ _). assert (Hm : m p = sys_addr (λ k, sys_accept4 k fd nonblocking_flags) zero_sockaddr p) by done.
  unfold sys_addr in Hm. cbv beta in Hm.
  destruct (sys_accept4 (net p) fd nonblocking_flags) as [[e|[connfd addr]] k]; cbn [fst snd] in Hlaw.
  - rewrite (M_bind_ok _ _ _ _ _ Hm). by destruct Hlaw.
  - destruct Hlaw as (Hpos & Hfresh & Hfiles & Hpend). rewrite (M_bind_ok _ _ _ _ _ Hm). cbv iota beta.
    rewrite (proj2 (Z.geb_le _ _)) by lia. done.
Qed.

(** [getLocalAddr] and [getPeerAddr]: the name, or zeroes and a line in the log. *)
Lemma named_or_zero (query : K → Z → Z + sockaddr_in) (text : string) p fd :
  let m : M (process K) sockaddr_in :=
    r ← sys_addr (λ k, (match query k fd with inl e => inl e | inr a => inr (0, a) end, k)) zero_sockaddr;
    (if r.1 <? 0 then LOG_ERROR text else mret tt);;
    mret r.2 in
  match query (net p) fd with
  | inr a => m p = Ok (a, p)
  | inl _ => ∃ p', m p = Ok (zero_sockaddr, p') ∧ net p' = net p ∧ logged p' = logged p ++ [(ERROR, text)]
  end.
Proof.
  unfold sys_addr, mbind, M_bind. destruct (query (net p) fd) as [e|a]; [by eexists|]. by destruct p.
Qed.

Lemma getLocalAddr_run p fd : ∃ a p', getLocalAddr fd p = Ok (a, p') ∧ net p' = net p.
Proof.
  pose proof (named_or_zero sys_getsockname "sockets::getLocalAddr" p fd) as Hrun. cbv zeta in Hrun.
  destruct (sys_getsockname (net p) fd) as [e|a]; [|by exists a, p].
  destruct Hrun as (p' & Hrun & Hnet & _). by exists zero_sockaddr, p'.
Qed.
End runs.

(** ** Properties *)
Section properties.
Context {K : Type} `{SocketLaws K}.
Implicit Types (p : process K).

(** The functions that set a listening socket up either have done so when they
    return or have the program exit, and exit only if the kernel refuses: a new
    descriptor that blocks neither calls nor survives [exec]; the address asked for, with
    a port of the kernel's choice for port 0; a backlog, for a socket with an address. *)
Theorem set_up_or_exit p (fd : Z) (addr : sockaddr_in) :
  (match sys_socket (net p) AF_INET (Z.lor SOCK_STREAM nonblocking_flags) IPPROTO_TCP with
   | (inr _, _) => ∃ sockfd p' f, createNonblockingOrDie p = Ok (sockfd, p') ∧ 0 ≤ sockfd ∧
       files (net p) !! sockfd = None ∧ files (net p') = <[sockfd := f]> (files (net p)) ∧
       nonblocking f = true ∧ cloexec f = true
   | (inl _, _) => createNonblockingOrDie p = Err FatalExit
   end) ∧
  (∃ local, bound_to addr local ∧
     done_or_exit (bindOrDie fd addr) (λ k, sys_bind k fd addr) fd (set_local local) p ∧
     done_or_exit (bindAddress fd addr) (λ k, sys_bind k fd addr) fd (set_local local) p) ∧
  (bound (net p) fd →
     done_or_exit (listenOrDie fd) (λ k, sys_listen k fd SOMAXCONN) fd (set_backlog SOMAXCONN) p ∧
     done_or_exit (listen fd) (λ k, sys_listen k fd 1024) fd (set_backlog 1024) p).
Proof.
  split.
  { pose proof (socket_law (net p) AF_INET (Z.lor SOCK_STREAM nonblocking_flags) IPPROTO_TCP) as Hlaw.
    cbv zeta in Hlaw. unfold createNonblockingOrDie, sys, mbind, M_bind.
    change (Z.lor (Z.lor SOCK_STREAM SOCK_NONBLOCK) SOCK_CLOEXEC) with (Z.lor SOCK_STREAM nonblocking_flags).
    destruct (sys_socket _ _ _ _) as [[e|v] k]; cbn [fst snd] in Hlaw; [done|].
    destruct Hlaw as (_ & Hpos & Hfresh & Hfiles). zbool.
    eexists v, (set_net k p), _. split_and!; [done..|exact Hfiles|done|done]. }
  split.
  - destruct (bind_law (net p) fd addr) as (local & Hlocal & Hc). exists local. split; [done|].
    by split; apply done_or_exit_intro.
  - intros Hb. by split; apply done_or_exit_intro; try apply listen_law.
Qed.

(** C30. On success the two ways to accept agree: the next waiting connection, on a
    new descriptor that does not block. Whatever the error, [sockets::accept] has
    the program exit, also for the errors it lists as expected, while
    [Socket::accept] returns -1, leaves [errno] and opens nothing. *)
Theorem accept_errors p (fd : Z) (addr : sockaddr_in) :
  match sys_accept4 (net p) fd nonblocking_flags with
  | (inr (connfd, peer), _) =>
      ∃ p' f, accept fd addr p = Ok ((connfd, peer), p') ∧ Socket_accept fd addr p = Ok ((connfd, peer), p') ∧
        files (net p) !! connfd = None ∧ files (net p') = <[connfd := f]> (files (net p)) ∧
        nonblocking f = true ∧ pending (net p) fd = peer :: pending (net p') fd
  | (inl e, _) =>
      accept fd addr p = Err FatalExit ∧
      ∃ p', Socket_accept fd addr p = Ok ((-1, addr), p') ∧ errno p' = e ∧ files (net p') = files (net p)
  end.
Proof.
  pose proof (Socket_accept_run p fd addr) as Hrun.
  assert (Hm : accept fd addr p =
    match sys_accept4 (net p) fd nonblocking_flags with
    | (inr (connfd, peer), k) =>
        if connfd <? 0 then Err FatalExit else Ok ((connfd, peer), set_net k p)
    | (inl e, k) => Err FatalExit
    end).
  { unfold accept, sys_addr, mbind, M_bind. fold nonblocking_flags.
    destruct (sys_accept4 _ _ _) as [[e|[c a]] k]; [done|]. by destruct (c <? 0). }
  destruct (sys_accept4 _ _ _) as [[e|[connfd peer]] k].
  - destruct Hrun as (Hs & Hf & _). rewrite Hm. split; [done|]. eexists. split; [exact Hs|done].
  - destruct Hrun as (Hs & Hpos & Hfresh & (local & Hf) & Hp).
    rewrite Hm. zbool. eexists _, _. split_and!; [done|exact Hs|done|exact Hf|done|done].
Qed.

(** The comparison at the end of [isSelfConnect]. *)
Definition isSelfConnect_result (a b : sockaddr_in) : M (process K) bool :=
  mret ((sin_port (sin a) =? sin_port (sin b)) && (s_addr (sin a) =? s_addr (sin b))).

Lemma isSelfConnect_local fd p a p1 :
  getLocalAddr fd p = Ok (a, p1) →
  isSelfConnect fd p = (getPeerAddr fd ≫= isSelfConnect_result a) p1.
Proof. intros Ha. unfold isSelfConnect. by rewrite (M_bind_ok _ _ _ _ _ Ha). Qed.

(** [isSelfConnect] compares the two ends of a connection if both are known.
    If neither is, it says yes. *)
Theorem isSelfConnect_compares p (fd : Z) :
  match sys_getsockname (net p) fd, sys_getpeername (net p) fd with
  | inr l, inr r => isSelfConnect fd p = Ok (bool_decide (sin l = sin r), p)
  | inl _, inl _ => ∃ p', isSelfConnect fd p = Ok (true, p') ∧
      logged p' = logged p ++ [(ERROR, "sockets::getLocalAddr"); (ERROR, "sockets::getPeerAddr")]
  | inr a, inl _ | inl _, inr a =>
      ∃ p', isSelfConnect fd p = Ok (bool_decide (sin a = sin zero_sockaddr), p')
  end.
Proof.
  assert (Hcmp : ∀ a b q, isSelfConnect_result a b q = Ok (bool_decide (sin a = sin b), q)).
  { intros [fa [pa sa]] [fb [pb sb]] q. unfold isSelfConnect_result. cbn [sin sin_port s_addr].
    do 2 f_equal. repeat zcase; case_bool_decide; try done; congruence. }
  pose proof (named_or_zero sys_getsockname "sockets::getLocalAddr" p fd) as Hl.
  destruct (sys_getsockname (net p) fd) as [e1|l]; [destruct Hl as (p1 & Hl & Hnet & Hlog)|].
  - rewrite (isSelfConnect_local _ _ _ _ Hl).
    pose proof (named_or_zero sys_getpeername "sockets::getPeerAddr" p1 fd) as Hr. rewrite Hnet in Hr.
    destruct (sys_getpeername (net p) fd) as [e2|r]; [destruct Hr as (p2 & Hr & _ & Hlog')|].
    + exists p2. rewrite (M_bind_ok _ _ _ _ _ Hr), Hlog', Hlog, <- app_assoc. done.
    + exists p1. rewrite (M_bind_ok _ _ _ _ _ Hr), Hcmp. do 2 f_equal. apply bool_decide_ext. by split.
  - rewrite (isSelfConnect_local _ _ _ _ Hl).
    pose proof (named_or_zero sys_getpeername "sockets::getPeerAddr" p fd) as Hr.
    destruct (sys_getpeername (net p) fd) as [e2|r]; [destruct Hr as (p2 & Hr & _)|].
    + exists p2. by rewrite (M_bind_ok _ _ _ _ _ Hr), Hcmp.
    + by rewrite (M_bind_ok _ _ _ _ _ Hr), Hcmp.
Qed.
End properties.

Section address_text.
Context {K : Type} `{SocketApi K} (big : bool) (inet_ntop : Z → string) (inet_pton : string → option Z).

(** C39. An address made from text and a port prints as that text and port, for all
    16-bit ports, in any buffer of 22 bytes or more; the same address in an
    [InetAddress] prints a negative port from 32768 on. Text that is no address is
    logged and leaves the address as it was. *)
Theorem address_text_round_trip (p : process K) (ip : string) (port size : Z) (addr : sockaddr_in) :
  0 ≤ port < 2 ^ 16 → 22 ≤ size →
  match inet_pton ip with
  | Some a =>
      inet_ntop a = ip → (String.length ip ≤ 15)%nat →
      ∃ s, fromIpPort big inet_pton ip port addr p = Ok (s, p) ∧
        toIpPort big inet_ntop size s = Ok (ip +:+ ":" +:+ pretty port) ∧
        InetAddress.toIpPort big inet_ntop (sin s) =
          ip +:+ ":" +:+ pretty (if port <? 2 ^ 15 then port else port - 2 ^ 16)
  | None =>
      ∃ s p', fromIpPort big inet_pton ip port addr p = Ok (s, p') ∧
        s_addr (sin s) = s_addr (sin addr) ∧ logged p' = logged p ++ [(ERROR, "sockets::fromIpPort")]
  end.
Proof.
  intros Hport Hsize. unfold fromIpPort. destruct (inet_pton ip) as [a|] eqn:Hip; [|by eexists _, _].
  intros Hback Hlen. eexists. split; [done|].
  destruct (htobe_spec big 2 port Hport) as (_ & Hnet & _).
  assert (u16 port = port) as -> by by apply Z.mod_small. split.
  - unfold toIpPort, toIp. change (INET_ADDRSTRLEN <=? INET_ADDRSTRLEN) with true. cbn [sin s_addr sin_port].
    rewrite outcome_bind_ok, Hback. unfold networkToHost16, hostToNetwork16, betoh. rewrite Hnet.
    f_equal. apply snprintf_fits. rewrite !string_length_app. cbn [String.length].
    pose proof (pretty_Z_length_nonneg port 5 ltac:(lia)). change (Z.of_nat 5) with 5 in *. lia.
  - unfold InetAddress.toIpPort, InetAddress.toIp. cbn [sin s_addr]. rewrite Hback.
    change (InetAddress.toPort big (mk_InetAddress (hostToNetwork16 big port) a))
      with (InetAddress.toPort big (mk_InetAddress (hostToNetwork16 big port) 0)).
    by rewrite (proj2 (toPort_signed big (λ _, 0) ip port) Hport).
Qed.
End address_text.

(** ** A table of descriptors *)
Record table := mk_table {
  tab : gmap Z file;
  queue : gmap Z (list sockaddr_in);
  limit : nat                           (** of open descriptors *)
}.

Definition lowest_free (k : table) : option Z :=
  head (filter (λ fd, tab k !! fd = None) (seqZ 0 (Z.of_nat (limit k)))).

Definition with_tab m (k : table) : table := mk_table m (queue k) (limit k).

Definition change_file (k : table) (fd : Z) (f : file → file) : (Z + Z) * table :=
  match tab k !! fd with
  | Some _ => (inr 0, with_tab (alter f fd (tab k)) k)
  | None => (inl EBADF, k)
  end.

Definition table_accept (k : table) (fd flags : Z) : (Z + Z * sockaddr_in) * table :=
  match tab k !! fd, default [] (queue k !! fd), lowest_free k with
  | None, _, _ => (inl EBADF, k)
  | Some _, [], _ => (inl EAGAIN, k)
  | Some _, _, None => (inl EMFILE, k)
  | Some f, addr :: rest, Some connfd =>
      (inr (connfd, addr),
       mk_table (<[connfd := new_file flags (local_addr f) (Some addr)]> (tab k))
         (<[fd := rest]> (queue k)) (limit k))
  end.

Definition name_of (k : table) (fd : Z) (get : file → option sockaddr_in) : Z + sockaddr_in :=
  match tab k !! fd ≫= get with Some a => inr a | None => inl EBADF end.

Definition chosen_port (addr : sockaddr_in) : sockaddr_in :=
  if sin_port (sin addr) =? 0
  then mk_sockaddr (sin_family addr) (mk_InetAddress 32768 (s_addr (sin addr))) else addr.

#[export] Instance table_sockets : SocketApi table := {
  files := tab;
  pending k fd := default [] (queue k !! fd);
  sys_socket k _ type _ :=
    match lowest_free k with
    | Some fd => (inr fd, with_tab (<[fd := new_file type None None]> (tab k)) k)
    | None => (inl EMFILE, k)
    end;
  sys_bind k fd addr := change_file k fd (set_local (chosen_port addr));
  sys_listen k fd n := change_file k fd (set_backlog n);
  sys_connect k fd addr := change_file k fd id;
  sys_accept4 := table_accept;
  sys_close k fd :=
    (match tab k !! fd with Some _ => inr 0 | None => inl EBADF end, with_tab (delete fd (tab k)) k);
  sys_shutdown k fd _ := change_file k fd set_wr_shut;
  sys_setsockopt k fd level name v := change_file k fd (set_option level name v);
  sys_so_error k fd := (inr 0, k);
  sys_getsockname k fd := name_of k fd local_addr;
  sys_getpeername k fd := name_of k fd peer_addr;
  log_errno _ e := e
}.

Lemma lowest_free_ok k fd : lowest_free k = Some fd → 0 ≤ fd ∧ tab k !! fd = None.
Proof.
  intros Hfd%head_Some_elem_of. apply list_elem_of_filter in Hfd as [? ?%elem_of_seqZ]. split; [lia|done].
Qed.

Lemma change_file_changes (k : table) fd f : changes k fd f (change_file k fd f).
Proof.
  unfold change_file, changes. destruct (tab k !! fd) eqn:E; cbn; [|done].
  split; [|done]. split_and!; [done| |done]. by eexists.
Qed.

#[export] Instance table_sockets_laws : SocketLaws table.
Proof.
  split; try (intros; apply change_file_changes).
  - intros k d t pr. cbn. destruct (lowest_free k) as [fd|] eqn:E; [|done].
    apply lowest_free_ok in E as [? ?]. by split_and!.
  - intros k fd addr. exists (chosen_port addr). split; [|apply change_file_changes].
    unfold bound_to, chosen_port. destruct (Z.eqb_spec (sin_port (sin addr)) 0); by split_and!.
  - intros k fd flags. cbn. unfold table_accept.
    destruct (tab k !! fd) as [f|] eqn:Hf; [|done].
    destruct (default [] (queue k !! fd)) as [|a rest] eqn:Hq; [done|].
    destruct (lowest_free k) as [c|] eqn:E; [|done]. apply lowest_free_ok in E as [? ?]. cbn.
    split_and!; [done..|by eexists|]. by rewrite lookup_insert_eq.
  - intros k fd. cbn. split; [|done]. by intros ->.
Qed.

(** A process with three descriptors open, of at most five. *)
Definition sample_process : process table :=
  mk_process (mk_table (list_to_map ((λ fd, (fd, new_file 0 None None)) <$> seqZ 0 3)) ∅ 5) 0 [].

Lemma address_text_round_trip_witness :
  ∃ s, fromIpPort false (λ _, Some 16777343) "127.0.0.1" 40000 zero_sockaddr sample_process =
         Ok (s, sample_process) ∧
    toIpPort false (λ _, "127.0.0.1") 22 s = Ok "127.0.0.1:40000" ∧
    InetAddress.toIpPort false (λ _, "127.0.0.1") (sin s) = "127.0.0.1:-25536".
Proof.
  destruct (address_text_round_trip false (λ _, "127.0.0.1") (λ _, Some 16777343) sample_process
    "127.0.0.1" 40000 22 zero_sockaddr ltac:(lia) ltac:(lia) eq_refl ltac:(cbn; lia)) as (s & H1 & H2 & H3).
  exists s. split; [exact H1|]. split; [exact H2|exact H3].
Defined.


(** Nothing is waiting: [EAGAIN]. *)
Lemma accept_errors_witness :
  accept 2 zero_sockaddr sample_process = Err FatalExit ∧
  ∃ p, Socket_accept 2 zero_sockaddr sample_process = Ok ((-1, zero_sockaddr), p) ∧ errno p = EAGAIN.
Proof.
  pose proof (accept_errors sample_process 2 zero_sockaddr) as H.
  assert (Hacc : ∃ k, sys_accept4 (net sample_process) 2 nonblocking_flags = (inl EAGAIN, k))
    by (eexists; by vm_compute).
  destruct Hacc as [k Hacc]. rewrite Hacc in H. destruct H as (Hex & p & Hrun & He & _).
  split; [exact Hex|]. exists p. split; [exact Hrun|exact He].
Defined.
