(* ===== verification/Acceptor.v ===== *)
(** The [Acceptor] (Acceptor.h, Acceptor.cpp): the listening socket and its channel in
    the base loop's poller. What becomes of an accepted descriptor is up to the
    callback, an operation on the client's state. *)
From S2P Require Import Prelude Decimal InetAddress Channel EpollPoller Logger Sockets.
#[local] Open Scope Z_scope.

(** [m_acceptSocket] by its descriptor, [m_acceptChannel] by its address. *)
Record Acceptor := mk_Acceptor {
  m_acceptSocket : Z;
  m_acceptChannel : Z;
  m_newConnectionCallback : bool;       (** set or empty *)
  m_listenning : bool
}.

(** The base loop's thread: the process' sockets, the loop's poller, the acceptor and
    what its callback works on. *)
Record world (K Ke S : Type) := mk_world {
  proc : process K;
  loop : poller Ke handler;
  acceptor : Acceptor;
  client : S
}.
Arguments mk_world {K Ke S}.
Arguments proc {K Ke S}.
Arguments loop {K Ke S}.
Arguments acceptor {K Ke S}.
Arguments client {K Ke S}.

Section operations.
Context {K Ke S : Type} `{SocketApi K} `{Epoll Ke}.
(** [__FILE__], and the callback: [TcpServer::newConnection]. *)
Context (file_name : string) (newConnection : Z → sockaddr_in → M S unit).
Implicit Types (w : world K Ke S).

Definition on_proc {A} (m : M (process K) A) : M (world K Ke S) A := λ w,
  match m (proc w) with
  | Ok (a, p) => Ok (a, mk_world p (loop w) (acceptor w) (client w))
  | Err e => Err e
  end.
Definition on_loop {A} (m : M (poller Ke handler) A) : M (world K Ke S) A := λ w,
  match m (loop w) with
  | Ok (a, l) => Ok (a, mk_world (proc w) l (acceptor w) (client w))
  | Err e => Err e
  end.
Definition on_client {A} (m : M S A) : M (world K Ke S) A := λ w,
  match m (client w) with
  | Ok (a, s) => Ok (a, mk_world (proc w) (loop w) (acceptor w) s)
  | Err e => Err e
  end.
Definition set_acceptor (f : Acceptor → Acceptor) : M (world K Ke S) unit :=
  modify (λ w, mk_world (proc w) (loop w) (f (acceptor w)) (client w)).

Definition createSockWithNonBlock : M (process K) Z :=
  sockfd ← sys (λ k, sys_socket k AF_INET (Z.lor (Z.lor SOCK_STREAM SOCK_NONBLOCK) SOCK_CLOEXEC) 0);
  (if sockfd <? 0 then LOG_FATAL "listenSocket create err" else mret tt);;
  mret sockfd.

(** The constructor; [channel] is the address of the member [m_acceptChannel]. *)
Definition Acceptor_new (listenAddr : sockaddr_in) (reusePort : bool) (channel : Z)
    : M (world K Ke S) unit :=
  sockfd ← on_proc createSockWithNonBlock;
  on_loop (modify (λ s, set_channels (<[channel := Channel_new sockfd]> (channels s)) s));;
  set_acceptor (λ _, mk_Acceptor sockfd channel false false);;
  on_proc (set_reuseAddr sockfd true);;
  on_proc (set_reusePort sockfd true);;
  on_proc (bindAddress sockfd listenAddr);;
  on_loop (store channel (setReadCallBack AcceptorHandleRead)).

Definition setNewConnectionCallback : M (world K Ke S) unit :=
  set_acceptor (λ a, mk_Acceptor (m_acceptSocket a) (m_acceptChannel a) true (m_listenning a)).

Definition listen : M (world K Ke S) unit :=
  a ← gets acceptor;
  set_acceptor (λ a, mk_Acceptor (m_acceptSocket a) (m_acceptChannel a) (m_newConnectionCallback a) true);;
  on_proc (Sockets.listen (m_acceptSocket a));;
  on_loop (enableReading (m_acceptChannel a)).

(** ["%s:%s:%d"] of [__FILE__], [__FUNCTION__] and [__LINE__]. *)
Definition here (line : Z) : string := file_name +:+ ":handleRead:" +:+ pretty line.

Definition handleRead (peerAddr : sockaddr_in) : M (world K Ke S) unit :=
  a ← gets acceptor;
  r ← on_proc (Socket_accept (m_acceptSocket a) peerAddr);
  let '(connfd, peerAddr) := r in
  if connfd >=? 0 then
    if m_newConnectionCallback a then on_client (newConnection connfd peerAddr)
    else on_proc (ret ← sys (λ k, sys_close k connfd); mret tt)
  else
    p ← gets proc;
    on_proc (LOG_ERROR (here 73 +:+ " accept err:" +:+ pretty (errno p) +:+ " "));;
    p ← gets proc;
    if errno p =? EMFILE then on_proc (LOG_ERROR (here 76 +:+ " sockfd reached limit! ")) else mret tt.

(** The destructor, then those of the members, the last one first. *)
Definition Acceptor_destroy : M (world K Ke S) unit :=
  a ← gets acceptor;
  on_loop (unwatch (m_acceptChannel a));;
  on_proc (Socket_destroy (m_acceptSocket a)).
End operations.

(** ** Runs *)
Section runs.
Context {K Ke S : Type} `{SocketLaws K} `{EpollLaws Ke}.
Context (file_name : string) (newConnection : Z → sockaddr_in → M S unit).
Implicit Types (w : world K Ke S) (p : process K).

Definition with_proc p w : world K Ke S := mk_world p (loop w) (acceptor w) (client w).
Definition with_loop l w : world K Ke S := mk_world (proc w) l (acceptor w) (client w).

Lemma wp_on_proc {A} (m : M (process K) A) (Q : A → world K Ke S → Prop) E w :
  wp m (λ a p, Q a (with_proc p w)) E (proc w) → wp (on_proc m) Q E w.
Proof. unfold wp, on_proc. by destruct (m (proc w)) as [[]|]. Qed.

Lemma wp_on_loop {A} (m : M (poller Ke handler) A) (Q : A → world K Ke S → Prop) E w :
  wp m (λ a l, Q a (with_loop l w)) E (loop w) → wp (on_loop m) Q E w.
Proof. unfold wp, on_loop. by destruct (m (loop w)) as [[]|]. Qed.

Definition fatal (e : fault) : Prop := e = FatalExit.

(** The process [p] has the descriptors of [base] and [fd]. *)
Definition owns (base : gmap Z file) (fd : Z) (f : file) p : Prop := files (net p) = <[fd := f]> base.

Lemma wp_sys_owned base fd f g call (Q : Z → process K → Prop) E p :
  owns base fd f p → changes (net p) fd g (call (net p)) →
  (∀ k v, (call (net p)).1 = inr v → owns base fd (g f) (set_net k p) → Q 0 (set_net k p)) →
  (∀ k e, (call (net p)).1 = inl e → owns base fd f (set_net k p) → Q (-1) (set_errno e (set_net k p))) →
  wp (sys call) Q E p.
Proof.
  intros Hown Hc Hok Hno. unfold owns in *.
  destruct (sys_changes _ _ _ _ Hc) as [(k & Hk & Hrun & _ & Hf & _)|(e & k & Hk & Hrun & Hf & _)];
    unfold wp; rewrite Hrun; rewrite Hk in *.
  - apply (Hok k 0); [done|]. cbn. by rewrite Hf, Hown, alter_insert_eq.
  - apply (Hno k e); [done|]. cbn. by rewrite Hf.
Qed.

(** Whether the kernel lets the options of open sockets be set. *)
Definition grants_options : Prop := ∀ (k : K) fd level name v,
  is_Some (files k !! fd) → ∃ v', (sys_setsockopt k fd level name v).1 = inr v'.

Lemma set_sockopt_wp base level name fd on f E p :
  owns base fd f p →
  wp (set_sockopt level name fd on)
    (λ _ p', ∃ f', owns base fd f' p' ∧
       (f' = set_option level name (if on then 1 else 0) f ∨ f' = f ∧ ¬ grants_options)) E p.
Proof.
  intros Hown. apply wp_bind.
  eapply wp_sys_owned; [exact Hown|apply setsockopt_law| |]; cbn beta.
  - intros k v _ Hk. apply wp_ret. eexists. by split; [|left].
  - intros k e Hr Hk. apply wp_ret. exists f. split; [done|right]. split; [done|]. intros Hg.
    destruct (Hg (net p) fd level name (if on then 1 else 0)) as [v Hv].
    { rewrite Hown, lookup_insert_eq. by eexists. }
    congruence.
Qed.

Lemma createSockWithNonBlock_wp p :
  wp createSockWithNonBlock
    (λ fd p', 0 ≤ fd ∧ files (net p) !! fd = None ∧
       owns (files (net p)) fd (mk_file true true ∅ None None None false) p') fatal p.
Proof.
  pose proof (socket_law (net p) AF_INET (Z.lor (Z.lor SOCK_STREAM SOCK_NONBLOCK) SOCK_CLOEXEC) 0) as Hlaw.
  cbv zeta in Hlaw. unfold createSockWithNonBlock, sys, wp, mbind, M_bind.
  destruct (sys_socket _ _ _ _) as [[e|v] k]; cbn [fst snd] in Hlaw; [done|].
  destruct Hlaw as (_ & Hpos & Hfresh & Hfiles). zbool. by split_and!.
Qed.

Lemma bindAddress_wp base fd addr f p :
  owns base fd f p →
  wp (bindAddress fd addr)
    (λ _ p', ∃ local, bound_to addr local ∧ owns base fd (set_local local f) p') fatal p.
Proof.
  intros Hown. destruct (bind_law (net p) fd addr) as (local & Hlocal & Hc).
  apply wp_bind. eapply wp_sys_owned; [exact Hown|exact Hc| |done].
  intros k v _ Hk. apply wp_ret. by exists local.
Qed.

Lemma listen_wp base fd f p :
  owns base fd f p → is_Some (local_addr f) →
  wp (Sockets.listen fd) (λ _ p', owns base fd (set_backlog 1024 f) p') fatal p.
Proof.
  intros Hown Hlocal. apply wp_bind. eapply wp_sys_owned; [exact Hown|apply listen_law|done|done].
  intros f'. rewrite Hown, lookup_insert_eq. by intros [= <-].
Qed.

Lemma close_wp fd p (E : fault → Prop) :
  wp (ret ← sys (λ k, sys_close k fd); mret tt)
    (λ _ p', files (net p') = delete fd (files (net p)) ∧ logged p' = logged p) E p.
Proof.
  pose proof (close_law (net p) fd) as Hlaw. cbv zeta in Hlaw. unfold wp, sys, mbind, M_bind.
  destruct (sys_close (net p) fd) as [[e|v] k]; cbn [fst snd] in Hlaw; by destruct Hlaw.
Qed.

(** ** Invariant *)

(** The poller is well formed, and all it watches is open. *)
Record sound w : Prop := {
  sound_wf : wf (loop w);
  sound_open fd a : m_channel_map (loop w) !! fd = Some a → is_Some (files (net (proc w)) !! fd)
}.

(** The acceptor has its socket and its channel; the poller watches it iff it is
    listening. *)
Record ready w : Prop := {
  ready_sound : sound w;
  ready_channel : ∃ ch, channels (loop w) !! m_acceptChannel (acceptor w) = Some ch ∧
    m_fd ch = m_acceptSocket (acceptor w) ∧
    m_index ch = (if m_listenning (acceptor w) then kAdded else kNew) ∧
    m_events ch = (if m_listenning (acceptor w) then kReadEvent else kNoneEvent);
  ready_map : m_channel_map (loop w) !! m_acceptSocket (acceptor w) =
    (if m_listenning (acceptor w) then Some (m_acceptChannel (acceptor w)) else None);
  ready_open : 0 ≤ m_acceptSocket (acceptor w) ∧
    is_Some (files (net (proc w)) !! m_acceptSocket (acceptor w))
}.

(** ** Construction *)

(** Of the channels only the acceptor's is new; it has a read callback and no other. *)
Definition adds_channel w w' channel : Prop := ∃ ch,
  channels (loop w') = <[channel := ch]> (channels (loop w)) ∧
  m_fd ch = m_acceptSocket (acceptor w') ∧ m_readCallBack ch = Some AcceptorHandleRead ∧
  m_writeCallBack ch = None ∧ m_errorCallBack ch = None ∧ m_closeCallBack ch = None.

(** The acceptor of [w'] is new and has the socket [f]; it has touched nothing else
    of [w]. *)
Record constructed (w w' : world K Ke S) (channel : Z) (f : file) : Prop := {
  constructed_ready : ready w';
  constructed_acceptor : acceptor w' = mk_Acceptor (m_acceptSocket (acceptor w')) channel false false;
  constructed_fresh : files (net (proc w)) !! m_acceptSocket (acceptor w') = None;
  constructed_owns : owns (files (net (proc w))) (m_acceptSocket (acceptor w')) f (proc w');
  constructed_kernel : registered (kernel (loop w')) = registered (kernel (loop w));
  constructed_client : client w' = client w;
  constructed_channels : adds_channel w w' channel
}.

Lemma Acceptor_new_wp w listenAddr reusePort channel :
  sound w → channels (loop w) !! channel = None →
  wp (Acceptor_new listenAddr reusePort channel)
    (λ _ w', ∃ f, constructed w w' channel f ∧
       (∃ opts local, bound_to listenAddr local ∧ f = mk_file true true opts (Some local) None None false ∧
          (grants_options → opts = {[ (SOL_SOCKET, SO_REUSEADDR) := 1; (SOL_SOCKET, SO_REUSEPORT) := 1 ]})))
    fatal w.
Proof.
  intros [Hwf Hopen] Hnone. unfold Acceptor_new.
  apply wp_bind, wp_on_proc. eapply wp_mono; [apply createSockWithNonBlock_wp|].
  intros fd p1 (Hpos & Hfresh & Hown).
  apply wp_bind, wp_on_loop, wp_modify. apply wp_bind, wp_modify.
  apply wp_bind, wp_on_proc. eapply wp_mono; [by apply set_sockopt_wp|]. intros [] p2 (f2 & Hown2 & Hf2).
  apply wp_bind, wp_on_proc. eapply wp_mono; [by apply set_sockopt_wp|]. intros [] p3 (f3 & Hown3 & Hf3).
  apply wp_bind, wp_on_proc. eapply wp_mono; [by apply bindAddress_wp|].
  intros [] p4 (local & Hlocal & Hown4).
  apply wp_on_loop. set (l1 := set_channels _ _).
  assert (Hch : channels l1 !! channel = Some (Channel_new fd)) by apply lookup_insert_eq.
  unfold wp. rewrite (store_ok l1 _ _ _ Hch).
  exists (set_local local f3). split; [split|].
  - assert (Hmap : m_channel_map (loop w) !! fd = None).
    { destruct (m_channel_map (loop w) !! fd) as [a|] eqn:Ha; [|done].
      apply Hopen in Ha as [x Hx]. congruence. }
    assert (Hwf1 : wf l1) by (apply wf_add_channel; [done|cbn; by rewrite Hnone|done]).
    split; cbn [with_proc with_loop loop proc acceptor m_acceptSocket m_acceptChannel m_listenning].
    + split; cbn [with_proc with_loop loop proc].
      * apply wf_add_channel; [done| |done]. rewrite Hch. by intros d [= <-].
      * intros fd' a Ha. rewrite Hown4. apply lookup_insert_is_Some'. right. by eapply Hopen.
    + eexists. split; [apply lookup_insert_eq|done].
    + exact Hmap.
    + split; [done|]. rewrite Hown4, lookup_insert_eq. by eexists.
  - done.
  - exact Hfresh.
  - exact Hown4.
  - done.
  - done.
  - eexists. cbn. rewrite insert_insert_eq. by split_and!.
  - exists (options f3), local. split; [done|].
    destruct Hf2 as [->|[-> Hno]], Hf3 as [->|[-> Hno']]; (split; [done|]);
      intros Hg; try by destruct (Hno Hg) || destruct (Hno' Hg).
    by vm_compute.
Qed.

(** ** Listening *)

Lemma sound_change w p l fd a :
  sound w → wf l → (∀ d b, m_channel_map l !! d = Some b → d = fd ∨ m_channel_map (loop w) !! d = Some b) →
  is_Some (files (net p) !! fd) →
  (∀ d, is_Some (files (net (proc w)) !! d) → is_Some (files (net p) !! d)) →
  sound (mk_world p l a (client w)).
Proof.
  intros [_ Hopen] Hwf Hmap Hfd Hfiles. split; [done|]. cbn. intros d b [->|Hd]%Hmap; [done|].
  by eapply Hfiles, Hopen.
Qed.

(** A listening socket before and after [listen]. *)
Lemma listen_open_wp p fd f :
  files (net p) !! fd = Some f → is_Some (local_addr f) →
  wp (Sockets.listen fd)
    (λ _ p', files (net p') = <[fd := set_backlog 1024 f]> (files (net p))) fatal p.
Proof.
  intros Hf Hlocal. apply (listen_wp (files (net p)) fd f); [|done]. unfold owns. symmetry. by apply insert_id.
Qed.

Lemma listen_ready w f :
  ready w → files (net (proc w)) !! m_acceptSocket (acceptor w) = Some f → is_Some (local_addr f) →
  let a := acceptor w in
  wp listen
    (λ _ w', ready w' ∧
       acceptor w' = mk_Acceptor (m_acceptSocket a) (m_acceptChannel a) (m_newConnectionCallback a) true ∧
       files (net (proc w')) = <[m_acceptSocket a := set_backlog 1024 f]> (files (net (proc w))) ∧
       registered (kernel (loop w')) =
         <[m_acceptSocket a := mk_event kReadEvent (m_acceptChannel a)]> (registered (kernel (loop w))) ∧
       client w' = client w ∧
       (∀ ch, channels (loop w) !! m_acceptChannel a = Some ch →
          channels (loop w') = <[m_acceptChannel a := set_index kAdded (enable_reading ch)]> (channels (loop w))))
    fatal w.
Proof.
  intros [Hsound (ch & Hch & Hfd & Hi & He) Hmap [Hpos Hopen]] Hf Hlocal a. unfold listen.
  apply wp_bind, wp_gets. apply wp_bind, wp_modify.
  apply wp_bind, wp_on_proc. eapply wp_mono; [apply listen_open_wp; [exact Hf|exact Hlocal]|]. intros [] p1 Hp1.
  apply wp_on_loop. cbn [with_proc loop]. fold a in Hch, Hfd, Hi, He, Hmap, Hf |- *.
  pose proof (change_wp (loop w) (m_acceptChannel a) ch enable_reading (sound_wf _ Hsound) Hch eq_refl eq_refl)
    as Hwp.
  rewrite Hfd, Hmap in Hwp. specialize (Hwp ltac:(destruct (m_listenning a); auto)). cbv zeta in Hwp.
  assert (Hmask : m_events (enable_reading ch) = kReadEvent).
  { cbn. rewrite He. by destruct (m_listenning a). }
  assert (Hnext : next_index (m_index ch) kReadEvent = kAdded).
  { rewrite Hi. by destruct (m_listenning a). }
  rewrite Hmask, Hnext in Hwp. unfold wp in *. unfold enableReading.
  destruct (change enable_reading (m_acceptChannel a) (loop w)) as [[[] l]|e]; [|by destruct Hwp].
  destruct Hwp as (Hwf & Hchs & Hmap' & Hreg & _).
  assert (Hfds : ∀ d, is_Some (files (net (proc w)) !! d) → is_Some (files (net p1) !! d)).
  { intros d Hd. rewrite Hp1. apply lookup_insert_is_Some'. by right. }
  assert (Hfd1 : is_Some (files (net p1) !! m_acceptSocket a)).
  { rewrite Hp1, lookup_insert_eq. by eexists. }
  split_and!; [split|done|exact Hp1|exact Hreg|done|].
  - apply (sound_change w p1 l (m_acceptSocket a)); [done|done| |done|done].
    intros d b. cbn. rewrite Hmap'. intros [[<- _]|[_ Hd]]%lookup_insert_Some; auto.
  - cbn. exists (set_index kAdded (enable_reading ch)). rewrite Hchs. split; [apply lookup_insert_eq|].
    split; [exact Hfd|]. split; [done|]. exact Hmask.
  - cbn. rewrite Hmap'. apply lookup_insert_eq.
  - done.
  - cbn. intros x Hx. by simplify_eq.
Qed.

(** ** Accepting and closing *)

(** More open descriptors do no harm. *)
Lemma ready_more_files w p s :
  ready w → (∀ d, is_Some (files (net (proc w)) !! d) → is_Some (files (net p) !! d)) →
  ready (mk_world p (loop w) (acceptor w) s).
Proof.
  intros [[Hwf Hopen] Hch Hmap [Hpos Hfd]] Hmore. split; cbn; auto.
  split; cbn; [done|]. intros d a Ha. eapply Hmore, Hopen, Ha.
Qed.

(** Handing a descriptor over, or closing it: what is open then. *)
Lemma close_new_wp fd f p base (E : fault → Prop) :
  owns base fd f p → base !! fd = None →
  wp (ret ← sys (λ k, sys_close k fd); mret tt)
    (λ _ p', files (net p') = base ∧ logged p' = logged p) E p.
Proof.
  intros Hown Hnone. eapply wp_mono; [apply close_wp|]. cbn beta. intros [] p' [Hf Hl].
  split; [|done]. rewrite Hf, Hown. by apply delete_insert_id.
Qed.

Lemma Acceptor_destroy_wp w :
  ready w →
  let a := acceptor w in
  wp Acceptor_destroy
    (λ _ w', sound w' ∧ files (net (proc w')) = delete (m_acceptSocket a) (files (net (proc w))) ∧
       channels (loop w') = delete (m_acceptChannel a) (channels (loop w)) ∧
       m_channel_map (loop w') = delete (m_acceptSocket a) (m_channel_map (loop w)) ∧
       registered (kernel (loop w')) = delete (m_acceptSocket a) (registered (kernel (loop w))) ∧
       client w' = client w)
    (λ e, fatal e ∧ m_listenning a = false) w.
Proof.
  intros [Hsound (ch & Hch & Hfd & Hi & He) Hmap [Hpos Hopen]] a. unfold Acceptor_destroy.
  fold a in Hch, Hfd, Hi, He, Hmap, Hopen. apply wp_bind, wp_gets. fold a. apply wp_bind, wp_on_loop.
  pose proof (unwatch_wp (loop w) (m_acceptChannel a) ch (sound_wf _ Hsound) Hch) as Hwp.
  rewrite Hfd, Hmap in Hwp. specialize (Hwp ltac:(destruct (m_listenning a); auto)).
  unfold wp at 1. unfold wp in Hwp.
  destruct (unwatch (m_acceptChannel a) (loop w)) as [[[] l]|e].
  2: { destruct Hwp as [-> Hni]. split; [done|]. rewrite Hi in Hni. by destruct (m_listenning a). }
  destruct Hwp as (Hwf & Hch' & Hm & Hr & _). apply wp_on_proc. unfold Socket_destroy.
  eapply wp_mono; [apply close_wp|]. cbn [with_loop with_proc loop proc client acceptor].
  intros [] p' [Hfiles _]. split_and!; try done. split; cbn; [done|].
  intros d b. rewrite Hm, Hfiles. intros [Hne Hd]%lookup_delete_Some.
  rewrite lookup_delete_ne by done. by eapply (sound_open _ Hsound).
Qed.

(** [handleRead], by what [accept4] answers. *)
Lemma handleRead_run w (addr : sockaddr_in) :
  let fd := m_acceptSocket (acceptor w) in
  match sys_accept4 (net (proc w)) fd nonblocking_flags with
  | (inr (connfd, peer), k) =>
      pending (net (proc w)) fd = peer :: pending k fd ∧ files (net (proc w)) !! connfd = None ∧
      if m_newConnectionCallback (acceptor w) then
        match newConnection connfd peer (client w) with
        | Ok (_, s) => ∃ p f,
            handleRead file_name newConnection addr w = Ok (tt, mk_world p (loop w) (acceptor w) s) ∧
            files (net p) = <[connfd := f]> (files (net (proc w))) ∧
            nonblocking f = true ∧ peer_addr f = Some peer
        | Err e => handleRead file_name newConnection addr w = Err e
        end
      else ∃ p,
        handleRead file_name newConnection addr w = Ok (tt, mk_world p (loop w) (acceptor w) (client w)) ∧
        files (net p) = files (net (proc w))
  | (inl e, k) => ∃ p,
      handleRead file_name newConnection addr w = Ok (tt, mk_world p (loop w) (acceptor w) (client w)) ∧
      files (net p) = files (net (proc w)) ∧ (e = EMFILE → pending (net p) = pending (net (proc w))) ∧
      logged p = logged (proc w) ++
        (ERROR, here file_name 73 +:+ " accept err:" +:+ pretty e +:+ " ") ::
        (if log_errno k e =? EMFILE then [(ERROR, here file_name 76 +:+ " sockfd reached limit! ")] else [])
  end.
Proof.
  intros fd. pose proof (Socket_accept_run (proc w) fd addr) as Hrun.
  unfold handleRead. rewrite bind_gets. fold fd.
  assert (Hbind : ∀ A (g : Z * sockaddr_in → M (world K Ke S) A) r p,
    Socket_accept fd addr (proc w) = Ok (r, p) →
    (on_proc (Socket_accept fd addr) ≫= g) w = g r (with_proc p w)).
  { intros A g r p Hr. unfold mbind, M_bind, on_proc. by rewrite Hr. }
  destruct (sys_accept4 _ fd nonblocking_flags) as [[e|[connfd peer]] k].
  - destruct Hrun as (Hs & Hf & Hp). rewrite (Hbind _ _ _ _ Hs). cbv beta iota.
    change (-1 >=? 0) with false. cbv iota. rewrite bind_gets.
    set (p1 := set_errno e _) in *. set (w1 := with_proc p1 w).
    set (txt := here file_name 73 +:+ _).
    assert (Hlog : ∀ B (g : unit → M (world K Ke S) B), (on_proc (LOG_ERROR txt) ≫= g) w1 =
      g tt (with_proc (mk_process k (log_errno k e) (logged (proc w) ++ [(ERROR, txt)])) w)) by done.
    rewrite Hlog, bind_gets. cbn [with_proc proc errno]. destruct (_ =? EMFILE).
    + eexists. split; [done|]. split_and!; try done. cbn. by rewrite <- app_assoc.
    + eexists. split; [done|]. by split_and!.
  - destruct Hrun as (Hs & Hpos & Hfresh & (local & Hf) & Hp). split; [done|]. split; [done|].
    rewrite (Hbind _ _ _ _ Hs). cbv beta iota. rewrite (proj2 (Z.geb_le _ _)) by lia.
    destruct (m_newConnectionCallback (acceptor w)).
    + unfold on_client. cbn [with_proc client].
      destruct (newConnection connfd peer (client w)) as [[[] s]|e]; [|done].
      eexists _, _. split; [done|]. split_and!; [exact Hf|done|done].
    + pose proof (close_new_wp connfd _ (set_net k (proc w)) _ (λ _, False) Hf Hfresh) as Hwp.
      unfold wp in Hwp. unfold on_proc. cbn [with_proc proc].
      destruct ((ret ← sys (λ k, sys_close k connfd); mret tt) (set_net k (proc w))) as [[[] p]|e];
        [|done]. exists p. by destruct Hwp.
Qed.

(** Construction, the callback and [listen], as [TcpServer] does them. *)
Lemma set_up_wp w (listenAddr : sockaddr_in) (reusePort : bool) (channel : Z) :
  sound w → channels (loop w) !! channel = None →
  wp (Acceptor_new listenAddr reusePort channel;; setNewConnectionCallback;; listen)
    (λ _ w', ∃ fd opts local,
       bound_to listenAddr local ∧ ready w' ∧ acceptor w' = mk_Acceptor fd channel true true ∧
       files (net (proc w)) !! fd = None ∧
       files (net (proc w')) =
         <[fd := mk_file true true opts (Some local) None (Some 1024) false]> (files (net (proc w))) ∧
       (grants_options →
        opts = {[ (SOL_SOCKET, SO_REUSEADDR) := 1; (SOL_SOCKET, SO_REUSEPORT) := 1 ]}) ∧
       registered (kernel (loop w')) = <[fd := mk_event kReadEvent channel]> (registered (kernel (loop w))) ∧
       client w' = client w ∧ adds_channel w w' channel)
    fatal w.
Proof.
  intros Hsound Hnone. apply wp_bind. eapply wp_mono; [by apply Acceptor_new_wp|].
  intros [] w1 (f & [Hready Hacc Hfresh Hown Hk Hcl (ch & Hch & Hpurpose)] & opts & local & Hlocal & -> & Hopts).
  apply wp_bind, wp_modify. set (w2 := mk_world _ _ _ _). unfold owns in Hown.
  assert (Hready2 : ready w2) by (destruct Hready as [[] ? ? ?]; by split; [split|..]).
  eapply wp_mono; [eapply (listen_ready w2); [exact Hready2| |]|].
  { cbn. rewrite Hown. apply lookup_insert_eq. }
  { by eexists. }
  intros [] w3 (Hready3 & Hacc3 & Hfiles & Hreg & Hcl3 & Hch3). cbn in Hacc3, Hfiles, Hreg, Hcl3, Hch3.
  assert (Hchan : m_acceptChannel (acceptor w1) = channel) by (by rewrite Hacc).
  rewrite Hchan in Hacc3, Hreg, Hch3. rewrite Hown, insert_insert_eq in Hfiles. rewrite Hk in Hreg.
  exists (m_acceptSocket (acceptor w1)), opts, local. split_and!; try done; [congruence|].
  exists (set_index kAdded (enable_reading ch)). rewrite (Hch3 ch), Hch, insert_insert_eq, Hacc3; [done|].
  rewrite Hch. apply lookup_insert_eq.
Qed.
End runs.

(** ** Properties *)
Section properties.
Context {K Ke S : Type} `{SocketLaws K} `{EpollLaws Ke}.
Context (file_name : string) (newConnection : Z → sockaddr_in → M S unit).
Implicit Types (w : world K Ke S).

(** C25. An acceptor made and told to listen either has the program exit or is set
    up: a new descriptor, non-blocking and closed on [exec], bound to the address (with a
    port of the kernel's choice if it asks for port 0), with a backlog of 1024; the poller has it in the kernel's list for reading under
    its channel's address; nothing else has changed. Both options are set if the
    kernel lets them be, whatever [reusePort] says. *)
Theorem Acceptor_listens w (listenAddr : sockaddr_in) (reusePort : bool) (channel : Z) :
  sound w → channels (loop w) !! channel = None →
  wp (Acceptor_new listenAddr reusePort channel;; setNewConnectionCallback;; listen)
    (λ _ w', ∃ fd opts local,
       bound_to listenAddr local ∧ ready w' ∧ acceptor w' = mk_Acceptor fd channel true true ∧
       files (net (proc w)) !! fd = None ∧
       files (net (proc w')) =
         <[fd := mk_file true true opts (Some local) None (Some 1024) false]> (files (net (proc w))) ∧
       (grants_options (K := K) →
        opts = {[ (SOL_SOCKET, SO_REUSEADDR) := 1; (SOL_SOCKET, SO_REUSEPORT) := 1 ]}) ∧
       registered (kernel (loop w')) = <[fd := mk_event kReadEvent channel]> (registered (kernel (loop w))) ∧
       client w' = client w)
    fatal w.
Proof.
  intros Hsound Hnone. eapply wp_mono; [by apply set_up_wp|].
  intros [] w' (fd & opts & local & ? & ? & ? & ? & ? & ? & ? & ? & _). exists fd, opts, local. by split_and!.
Qed.

(** C18. When a connection waits and a descriptor is free, [handleRead] takes the
    first one and runs the callback with its new, non-blocking descriptor; if there
    is no callback it closes the descriptor again. Nothing else changes. When [accept] fails nothing is
    opened, no callback runs, and the error is logged; the line about the limit of
    descriptors depends on [errno] as logging the first line has left it, and for want of
    a descriptor the connection goes on waiting. *)
Theorem handleRead_hands_over w (addr : sockaddr_in) :
  let fd := m_acceptSocket (acceptor w) in
  match sys_accept4 (net (proc w)) fd nonblocking_flags with
  | (inr (connfd, peer), k) =>
      pending (net (proc w)) fd = peer :: pending k fd ∧ files (net (proc w)) !! connfd = None ∧
      if m_newConnectionCallback (acceptor w) then
        match newConnection connfd peer (client w) with
        | Ok (_, s) => ∃ p f,
            handleRead file_name newConnection addr w = Ok (tt, mk_world p (loop w) (acceptor w) s) ∧
            files (net p) = <[connfd := f]> (files (net (proc w))) ∧
            nonblocking f = true ∧ peer_addr f = Some peer
        | Err e => handleRead file_name newConnection addr w = Err e
        end
      else ∃ p,
        handleRead file_name newConnection addr w = Ok (tt, mk_world p (loop w) (acceptor w) (client w)) ∧
        files (net p) = files (net (proc w))
  | (inl e, k) => ∃ p,
      handleRead file_name newConnection addr w = Ok (tt, mk_world p (loop w) (acceptor w) (client w)) ∧
      files (net p) = files (net (proc w)) ∧ (e = EMFILE → pending (net p) = pending (net (proc w))) ∧
      logged p = logged (proc w) ++
        (ERROR, here file_name 73 +:+ " accept err:" +:+ pretty e +:+ " ") ::
        (if log_errno k e =? EMFILE then [(ERROR, here file_name 76 +:+ " sockfd reached limit! ")] else [])
  end.
Proof. apply handleRead_run. Qed.

(** Destroying an acceptor releases what it had and nothing else: its descriptor
    is closed after the poller, its map and the kernel's list have forgotten it, and
    the poller stays well formed over open descriptors. It fails only for an
    acceptor that never listened, whose [disableAll] registers the descriptor. *)
Theorem Acceptor_destroy_releases w :
  ready w →
  let a := acceptor w in
  wp Acceptor_destroy
    (λ _ w', sound w' ∧ files (net (proc w')) = delete (m_acceptSocket a) (files (net (proc w))) ∧
       m_channel_map (loop w') = delete (m_acceptSocket a) (m_channel_map (loop w)) ∧
       registered (kernel (loop w')) = delete (m_acceptSocket a) (registered (kernel (loop w))) ∧
       client w' = client w)
    (λ e, fatal e ∧ m_listenning a = false) w.
Proof.
  intros Hready a. eapply wp_mono; [by apply Acceptor_destroy_wp|]. intros [] w' (? & ? & _ & ? & ? & ?).
  by split_and!.
Qed.
End properties.

(** ** A process that accepts two connections and has room for one *)
Definition collect (fd : Z) (peer : sockaddr_in) : M (list Z) unit := modify (λ l, l ++ [fd]).

Definition sample_world : world table (gmap Z epoll_event) (list Z) :=
  mk_world sample_process (mk_poller ∅ ∅ ∅ KInitEventListSize) (mk_Acceptor (-1) 0 false false) [].

Definition sample_addr : sockaddr_in := mk_sockaddr AF_INET (mk_InetAddress 80 16777343).
Definition sample_peer : sockaddr_in := mk_sockaddr AF_INET (mk_InetAddress 4660 33620010).

Definition result_of {A} (w : world table (gmap Z epoll_event) (list Z)) (m : M _ A) :=
  match m w with Ok (_, w') => w' | Err _ => w end.

Definition sample_listening := result_of sample_world
  (Acceptor_new sample_addr false 4096;; setNewConnectionCallback;; listen).

Lemma sample_sound : sound sample_world.
Proof.
  split; [by apply wf_new|]. intros fd a Ha. change ((∅ : gmap Z Z) !! fd = Some a) in Ha.
  by apply lookup_empty_Some in Ha.
Qed.

Lemma sample_listening_ready : ready sample_listening.
Proof.
  pose proof (set_up_wp sample_world sample_addr false 4096 sample_sound eq_refl) as Hwp.
  unfold sample_listening, result_of. unfold wp in Hwp.
  destruct ((Acceptor_new sample_addr false 4096;; setNewConnectionCallback;; listen) sample_world)
    as [[[] w]|e] eqn:Hrun; [|by vm_compute in Hrun].
  by destruct Hwp as (fd & opts & local & _ & Hready & _).
Qed.

Lemma Acceptor_listens_witness :
  match (Acceptor_new sample_addr false 4096;; setNewConnectionCallback;; listen) sample_world with
  | Ok (_, w) => kernel (loop w) = {[ 3 := mk_event kReadEvent 4096 ]} ∧
      options <$> files (net (proc w)) !! 3 =
        Some {[ (SOL_SOCKET, SO_REUSEADDR) := 1; (SOL_SOCKET, SO_REUSEPORT) := 1 ]}
  | Err _ => False
  end.
Proof.
  pose proof (Acceptor_listens sample_world sample_addr false 4096 sample_sound eq_refl) as Hwp.
  unfold wp in Hwp.
  assert (Hrun : ∃ w, (Acceptor_new sample_addr false 4096;; setNewConnectionCallback;; listen) sample_world =
    Ok (tt, w) ∧ m_acceptSocket (acceptor w) = 3) by (eexists; split; by vm_compute).
  destruct Hrun as (w & Hrun & Hfd). rewrite Hrun in Hwp |- *.
  destruct Hwp as (fd & opts & local & _ & _ & Hacc & _ & Hfiles & Hopts & Hreg & _).
  rewrite Hacc in Hfd. cbn in Hfd. subst fd. split; [exact Hreg|].
  rewrite Hfiles, lookup_insert_eq. cbn. rewrite Hopts; [reflexivity|].
  intros k fd level name v [x Hx]. cbn. unfold change_file. cbn in Hx. rewrite Hx. by eexists.
Defined.

(** One connection is waiting. *)
Definition with_waiting (l : list sockaddr_in) (w : world table (gmap Z epoll_event) (list Z)) :=
  with_proc (mk_process (mk_table (tab (net (proc w))) {[ 3 := l ]} (limit (net (proc w)))) 0 []) w.

Lemma handleRead_hands_over_witness :
  ∃ w', handleRead "Acceptor.cpp" collect zero_sockaddr (with_waiting [sample_peer] sample_listening) =
          Ok (tt, w') ∧
    client w' = [4] ∧ peer_addr <$> files (net (proc w')) !! 4 = Some (Some sample_peer).
Proof.
  set (w := with_waiting [sample_peer] sample_listening).
  pose proof (handleRead_hands_over "Acceptor.cpp" collect w zero_sockaddr) as H.
  assert (Hacc : ∃ k, sys_accept4 (net (proc w)) (m_acceptSocket (acceptor w)) nonblocking_flags =
    (inr (4, sample_peer), k)) by (eexists; by vm_compute).
  destruct Hacc as [k Hacc]. cbv zeta in H. rewrite Hacc in H. destruct H as (_ & _ & H).
  assert (Hcb : m_newConnectionCallback (acceptor w) = true) by by vm_compute. rewrite Hcb in H.
  cbv iota in H. unfold collect in H at 1. rewrite run_modify in H.
  destruct H as (p & f & Hrun & Hf & _ & Hp). eexists.
  split; [exact Hrun|]. split; [by vm_compute|]. cbn [proc]. rewrite Hf, lookup_insert_eq. cbn. by rewrite Hp.
Defined.

Lemma Acceptor_destroy_releases_witness :
  match Acceptor_destroy sample_listening with
  | Ok (_, w') => kernel (loop w') !! 3 = None ∧ files (net (proc w')) !! 3 = None
  | Err _ => False
  end.
Proof.
  pose proof (Acceptor_destroy_releases sample_listening sample_listening_ready) as Hwp. unfold wp in Hwp.
  assert (Hfd : m_acceptSocket (acceptor sample_listening) = 3 ∧
    m_listenning (acceptor sample_listening) = true) by (vm_compute; by split).
  destruct Hfd as [Hfd Hl]. cbv zeta in Hwp. rewrite Hfd, Hl in Hwp.
  generalize dependent sample_listening. intros w Hwp _ _. destruct (Acceptor_destroy w) as [[[] w']|e]; [|by destruct Hwp].
  destruct Hwp as (_ & Hf & _ & Hr & _). cbn [registered map_epoll] in Hr. rewrite Hf, Hr.
  split; apply lookup_delete_eq.
Defined.
