(* ===== verification/TcpServer.v ===== *)
(** [TcpServer] (TcpServer.h, TcpServer.cpp): naming connections, spreading them over
    the pool's loops, and taking them down. Work handed to a loop is recorded as
    posted to it; [EventLoop] says what becomes of it there. [Accepting] puts the
    [Acceptor] in front. *)
From S2P Require Import Prelude Decimal InetAddress EventLoopThreadPool.
#[local] Open Scope Z_scope.

Inductive task :=
  | Listen                             (** [Acceptor::listen] *)
  | ConnectEstablished (conn : Z)      (** [TcpConnection::connectEstablished] *)
  | RemoveConnectionInLoop (conn : Z)
  | ConnectDestroyed (conn : Z).

#[global] Instance task_eq_decision : EqDecision task.
Proof. solve_decision. Defined.

(** What the server knows of a [TcpConnection]. *)
Record connection := mk_connection {
  name : string;
  getLoop : Z;
  sockfd : Z;
  localAddress : InetAddress;
  peerAddress : InetAddress
}.

Record server := mk_server {
  m_ipPort : string;
  m_serverName : string;                (** [m_name] *)
  m_started_n : Z;                      (** an [atomic_int] *)
  m_threadPool : pool;
  m_nextConnId : Z;                     (** an [int] *)
  m_connections : gmap string Z;
  connections : gmap Z connection;      (** the [TcpConnection]s made, by address *)
  posted : list (Z * task)              (** the work handed to loops *)
}.

Definition set_pool p s := mk_server (m_ipPort s) (m_serverName s) (m_started_n s) p (m_nextConnId s)
  (m_connections s) (connections s) (posted s).
Definition set_started n s := mk_server (m_ipPort s) (m_serverName s) n (m_threadPool s)
  (m_nextConnId s) (m_connections s) (connections s) (posted s).
Definition set_nextConnId n s := mk_server (m_ipPort s) (m_serverName s) (m_started_n s)
  (m_threadPool s) n (m_connections s) (connections s) (posted s).
Definition set_m_connections m s := mk_server (m_ipPort s) (m_serverName s) (m_started_n s)
  (m_threadPool s) (m_nextConnId s) m (connections s) (posted s).
Definition set_connections m s := mk_server (m_ipPort s) (m_serverName s) (m_started_n s)
  (m_threadPool s) (m_nextConnId s) (m_connections s) m (posted s).
Definition set_posted l s := mk_server (m_ipPort s) (m_serverName s) (m_started_n s)
  (m_threadPool s) (m_nextConnId s) (m_connections s) (connections s) l.

(** [TcpServer::TcpServer], given [listenAddr.toIpPort()]. *)
Definition TcpServer_new (ipPort name : string) (loop : Z) : server :=
  mk_server ipPort name 0 (EventLoopThreadPool_new loop name) 1 ∅ ∅ [].

(** [runInLoop] and [queueInLoop] of a loop. *)
Definition post (loop : Z) (t : task) : M server unit :=
  modify (λ s, set_posted (posted s ++ [(loop, t)]) s).

Definition on_pool {A} (m : M pool A) : M server A := λ s,
  match m (m_threadPool s) with
  | Ok (a, p) => Ok (a, set_pool p s)
  | Err e => Err e
  end.

Definition setThreadNum (n : Z) : M server unit :=
  on_pool (modify (EventLoopThreadPool.setThreadNum n)).

Definition start (cb : bool) (startLoop : Z → Z) : M server unit :=
  s ← gets id;
  modify (set_started (i32 (m_started_n s + 1)));;
  if m_started_n s =? 0 then
    on_pool (modify (EventLoopThreadPool.start cb startLoop));;
    s ← gets id;
    post (m_baseLoop (m_threadPool s)) Listen
  else mret tt.

(** The suffix of a connection's name, in a buffer of 64 bytes. *)
Definition conn_suffix (ipPort : string) (id : Z) : string :=
  snprintf 64 ("-" +:+ ipPort +:+ "#" +:+ pretty id).

(** [newConnection]; [localAddr] is what the kernel answers, and [conn] the address of
    the new [TcpConnection]. *)
Definition newConnection (sockfd : Z) (peerAddr localAddr : InetAddress) (conn : Z) : M server unit :=
  ioLoop ← on_pool getNextLoop;
  s ← gets id;
  let buf := conn_suffix (m_ipPort s) (m_nextConnId s) in
  (if m_nextConnId s =? 2 ^ 31 - 1 then fail IntOverflow
   else modify (set_nextConnId (m_nextConnId s + 1)));;
  let connName := m_serverName s +:+ buf in
  modify (λ s, set_connections
    (<[conn := mk_connection connName ioLoop sockfd localAddr peerAddr]> (connections s)) s);;
  modify (λ s, set_m_connections (<[connName := conn]> (m_connections s)) s);;
  post ioLoop (ConnectEstablished conn).

Definition deref (conn : Z) : M server connection :=
  s ← gets id;
  match connections s !! conn with Some c => mret c | None => fail UseAfterFree end.

Definition removeConnection (conn : Z) : M server unit :=
  s ← gets id;
  post (m_baseLoop (m_threadPool s)) (RemoveConnectionInLoop conn).

Definition removeConnectionInLoop (conn : Z) : M server unit :=
  c ← deref conn;
  modify (λ s, set_m_connections (delete (name c) (m_connections s)) s);;
  post (getLoop c) (ConnectDestroyed conn).

(** [~TcpServer], the map in any order. *)
Definition TcpServer_destroy (items : list (string * Z)) : M server unit :=
  for_each (λ item : string * Z, c ← deref item.2; post (getLoop c) (ConnectDestroyed item.2)) items.

(** ** Names *)
Definition conn_name (ipPort server_name : string) (id : Z) : string :=
  server_name +:+ "-" +:+ ipPort +:+ "#" +:+ pretty id.

(** The buffer is large enough for an address of [InetAddress] and an [int]. *)
Lemma conn_suffix_fits ipPort id :
  (String.length ipPort ≤ 22)%nat → 0 ≤ id < 2 ^ 31 →
  conn_suffix ipPort id = "-" +:+ ipPort +:+ "#" +:+ pretty id.
Proof.
  intros Hip Hid. apply snprintf_fits. rewrite !string_length_app. cbn [String.length].
  pose proof (pretty_Z_length id 10 ltac:(lia)). change (Z.of_nat 10) with 10 in *. lia.
Qed.

Lemma conn_name_inj ipPort server_name id1 id2 :
  conn_name ipPort server_name id1 = conn_name ipPort server_name id2 → id1 = id2.
Proof.
  unfold conn_name. intros H. apply (inj (String.app server_name)) in H.
  apply (inj (String.app "-")), (inj (String.app ipPort)), (inj (String.app "#")) in H.
  by apply (inj pretty).
Qed.

(** ** Invariant *)

(** The setting up and the taking down of a connection, as posted. *)
Definition life_of (conn : Z) (s : server) : list (Z * task) :=
  filter (λ x, x.2 = ConnectEstablished conn ∨ x.2 = ConnectDestroyed conn) (posted s).

(** What must have been posted for a connection that was taken down [n] times; more than
    once if its close callback was called more than once. *)
Definition expected_life (conn : Z) (n : nat) (s : server) : list (Z * task) :=
  match connections s !! conn with
  | None => []
  | Some c => (getLoop c, ConnectEstablished conn) :: replicate n (getLoop c, ConnectDestroyed conn)
  end.

(** It is in the map as long as it was not taken down. *)
Definition lived (conn : Z) (s : server) : Prop := ∃ n,
  life_of conn s = expected_life conn n s ∧
  ∀ c, connections s !! conn = Some c → (n = 0%nat ↔ m_connections s !! name c = Some conn).

Record wf (s : server) : Prop := {
  wf_pool : EventLoopThreadPool.wf (m_threadPool s) ∧
    m_next (m_threadPool s) < Z.of_nat (length (getAllLoops (m_threadPool s)));
  wf_id : 1 ≤ m_nextConnId s < 2 ^ 31;
  wf_ip : (String.length (m_ipPort s) ≤ 22)%nat;
  wf_names a c : connections s !! a = Some c →
    (∃ i, 1 ≤ i < m_nextConnId s ∧ name c = conn_name (m_ipPort s) (m_serverName s) i) ∧
    getLoop c ∈ getAllLoops (m_threadPool s);
  wf_inj a b c d : connections s !! a = Some c → connections s !! b = Some d →
    name c = name d → a = b;
  wf_map n a : m_connections s !! n = Some a →
    ∃ c, connections s !! a = Some c ∧ name c = n;
  wf_life a : lived a s
}.

(** The name a connection gets is not in use. *)
Lemma next_name_fresh s a c :
  wf s → connections s !! a = Some c →
  name c ≠ conn_name (m_ipPort s) (m_serverName s) (m_nextConnId s).
Proof.
  intros Hwf Hc He. destruct (wf_names _ Hwf _ _ Hc) as [(i & Hi & Hn) _].
  rewrite Hn in He. apply conn_name_inj in He. lia.
Qed.

(** The server after [newConnection]. *)
Definition connected (s : server) (p : pool) (c : connection) (conn : Z) : server :=
  mk_server (m_ipPort s) (m_serverName s) (m_started_n s) p (m_nextConnId s + 1)
    (<[name c := conn]> (m_connections s)) (<[conn := c]> (connections s))
    (posted s ++ [(getLoop c, ConnectEstablished conn)]).

(** What [newConnection] needs of the server. *)
Record can_connect (s : server) : Prop := {
  can_pool : EventLoopThreadPool.wf (m_threadPool s) ∧
    m_next (m_threadPool s) < Z.of_nat (length (getAllLoops (m_threadPool s)));
  can_id : 1 ≤ m_nextConnId s < 2 ^ 31;
  can_ip : (String.length (m_ipPort s) ≤ 22)%nat
}.

Lemma wf_can_connect s : wf s → can_connect s.
Proof. by intros []. Qed.

Lemma newConnection_run s fd peer local conn :
  can_connect s → m_nextConnId s ≠ 2 ^ 31 - 1 →
  ∃ p, getAllLoops p = getAllLoops (m_threadPool s) ∧ m_baseLoop p = m_baseLoop (m_threadPool s) ∧
    (EventLoopThreadPool.wf p ∧ m_next p < Z.of_nat (length (getAllLoops p))) ∧
    (∀ k, turn p k = turn (m_threadPool s) (S k)) ∧
    newConnection fd peer local conn s =
      Ok (tt, connected s p (mk_connection (conn_name (m_ipPort s) (m_serverName s) (m_nextConnId s))
                               (turn (m_threadPool s) 0) fd local peer) conn).
Proof.
  intros [[Hp Hn] Hids Hip] Hid.
  destruct (getNextLoop_ok _ Hp Hn) as (p & Hrun & Hp' & Hall & Hlt & Hturn).
  exists p. split; [done|]. split.
  { clear -Hrun. unfold getNextLoop in Hrun. revert Hrun. mstep. case_decide; mstep; [by intros [= _ <-]|].
    destruct (if _ : bool then _ else _); mstep; [|done]. by intros [= _ <-]. }
  split; [by rewrite Hall|]. split; [done|]. unfold newConnection.
  assert (Hpool : on_pool getNextLoop s = Ok (turn (m_threadPool s) 0, set_pool p s)).
  { unfold on_pool. by rewrite Hrun. }
  rewrite (M_bind_ok _ _ _ _ _ Hpool). mstep.
  change (m_nextConnId (id (set_pool p s))) with (m_nextConnId s).
  destruct (Z.eqb_spec (m_nextConnId s) (2 ^ 31 - 1)); [done|]. mstep. unfold post. mstep.
  unfold connected. cbn. rewrite conn_suffix_fits by (done || lia). done.
Qed.

Lemma newConnection_ok s fd peer local conn :
  wf s → m_nextConnId s ≠ 2 ^ 31 - 1 →
  ∃ p, getAllLoops p = getAllLoops (m_threadPool s) ∧
    (EventLoopThreadPool.wf p ∧ m_next p < Z.of_nat (length (getAllLoops p))) ∧
    (∀ k, turn p k = turn (m_threadPool s) (S k)) ∧
    newConnection fd peer local conn s =
      Ok (tt, connected s p (mk_connection (conn_name (m_ipPort s) (m_serverName s) (m_nextConnId s))
                               (turn (m_threadPool s) 0) fd local peer) conn).
Proof.
  intros Hwf Hid.
  destruct (newConnection_run s fd peer local conn (wf_can_connect _ Hwf) Hid) as (p & ? & _ & ? & ? & ?).
  by exists p.
Qed.

Lemma turn_in_loops p : m_next p < Z.of_nat (length (getAllLoops p)) → 0 ≤ m_next p →
  turn p 0 ∈ getAllLoops p.
Proof.
  intros Hlt Hpos. unfold turn. rewrite Z.add_0_r, Z.mod_small by lia.
  apply list_elem_of_In, nth_In. lia.
Qed.

Lemma life_of_snoc conn l t s :
  life_of conn (set_posted (posted s ++ [(l, t)]) s) =
  life_of conn s ++ (if decide (t = ConnectEstablished conn ∨ t = ConnectDestroyed conn)
                     then [(l, t)] else []).
Proof.
  unfold life_of. cbn [posted set_posted]. rewrite filter_app. f_equal.
Qed.

Lemma wf_connected s p c conn :
  wf s → connections s !! conn = None →
  getAllLoops p = getAllLoops (m_threadPool s) →
  (EventLoopThreadPool.wf p ∧ m_next p < Z.of_nat (length (getAllLoops p))) →
  m_nextConnId s ≠ 2 ^ 31 - 1 →
  name c = conn_name (m_ipPort s) (m_serverName s) (m_nextConnId s) →
  getLoop c ∈ getAllLoops p →
  wf (connected s p c conn).
Proof.
  intros Hwf Hnone Hall Hp Hid Hname Hloop. pose proof (wf_id _ Hwf). split; cbn.
  - exact Hp.
  - lia.
  - apply Hwf.
  - intros a d [[<- <-]|[_ Hd]]%lookup_insert_Some.
    { split; [exists (m_nextConnId s); split; [lia|done]|done]. }
    destruct (wf_names _ Hwf _ _ Hd) as [(i & Hi & Hn) Hl]. rewrite Hall.
    split; [exists i; split; [lia|done]|done].
  - intros a b d1 d2 [[<- <-]|[Ha Hd1]]%lookup_insert_Some [[<- <-]|[Hb Hd2]]%lookup_insert_Some He.
    + done.
    + symmetry in He. rewrite Hname in He. by destruct (next_name_fresh _ _ _ Hwf Hd2 He).
    + rewrite Hname in He. by destruct (next_name_fresh _ _ _ Hwf Hd1 He).
    + by apply (wf_inj _ Hwf a b d1 d2).
  - intros n a [[<- <-]|[Hn Ha]]%lookup_insert_Some.
    { exists c. by rewrite lookup_insert_eq. }
    destruct (wf_map _ Hwf _ _ Ha) as (d & Hd & He). exists d. split; [|done].
    rewrite lookup_insert_ne; [done|]. intros <-. congruence.
  - intros a. destruct (wf_life _ Hwf a) as (n & Hlife & Hn).
    change (∃ n, life_of a (set_posted (posted s ++ [(getLoop c, ConnectEstablished conn)]) s) =
      expected_life a n (connected s p c conn) ∧ ∀ d, connections (connected s p c conn) !! a = Some d →
      (n = 0%nat ↔ m_connections (connected s p c conn) !! name d = Some a)).
    rewrite life_of_snoc, Hlife. unfold expected_life. cbn.
    destruct (decide (a = conn)) as [->|Hne].
    + exists 0%nat. rewrite Hnone, lookup_insert_eq. rewrite decide_True by auto. split; [done|].
      intros d [= <-]. by rewrite lookup_insert_eq.
    + exists n. rewrite lookup_insert_ne by done. rewrite (decide_False (P := _ ∨ _)) by naive_solver.
      rewrite app_nil_r. split; [done|]. intros d Hd. rewrite lookup_insert_ne; [by apply Hn|].
      rewrite Hname. intros He. symmetry in He. by destruct (next_name_fresh _ _ _ Hwf Hd He).
Qed.

(** The server after [removeConnectionInLoop]. *)
Lemma removeConnectionInLoop_ok s c conn :
  connections s !! conn = Some c →
  removeConnectionInLoop conn s =
    Ok (tt, set_posted (posted s ++ [(getLoop c, ConnectDestroyed conn)])
              (set_m_connections (delete (name c) (m_connections s)) s)).
Proof.
  intros Hc. unfold removeConnectionInLoop, deref. mstep. change (id s) with s. rewrite Hc. by mstep.
Qed.

(** It needs a connection that exists. *)
Lemma removeConnectionInLoop_some s s' conn :
  removeConnectionInLoop conn s = Ok (tt, s') → ∃ c, connections s !! conn = Some c.
Proof.
  unfold removeConnectionInLoop, deref. mstep. change (id s) with s.
  destruct (connections s !! conn) as [c|]; [by exists c|done].
Qed.

Lemma wf_removed s c conn :
  wf s → connections s !! conn = Some c →
  wf (set_posted (posted s ++ [(getLoop c, ConnectDestroyed conn)])
        (set_m_connections (delete (name c) (m_connections s)) s)).
Proof.
  intros Hwf Hc. split; cbn; try apply Hwf.
  - intros n a [_ Ha]%lookup_delete_Some. by apply Hwf.
  - intros a. destruct (wf_life _ Hwf a) as (n & Hlife & Hn). set (s1 := set_m_connections _ s).
    change (∃ n, life_of a (set_posted (posted s1 ++ [(getLoop c, ConnectDestroyed conn)]) s1) =
      expected_life a n s1 ∧ ∀ d, connections s !! a = Some d →
      (n = 0%nat ↔ m_connections s1 !! name d = Some a)).
    rewrite life_of_snoc. change (life_of a s1) with (life_of a s). rewrite Hlife. unfold expected_life. cbn.
    destruct (decide (a = conn)) as [->|Hne].
    + exists (S n). rewrite Hc. rewrite (decide_True (P := _ ∨ _)) by auto. split.
      * cbn. by rewrite <- replicate_cons_app.
      * intros d [= <-]. by rewrite lookup_delete_eq.
    + exists n. rewrite (decide_False (P := _ ∨ _)) by naive_solver. rewrite app_nil_r. split; [done|].
      intros d Hd. rewrite lookup_delete_ne; [by apply Hn|]. intros He. apply Hne. by apply (wf_inj _ Hwf a conn d c).
Qed.

(** ** The life of a server *)

(** The first [start] starts the pool and has the acceptor listen. *)
Lemma server_start_ok s cb startLoop :
  m_started_n s = 0 →
  let p := EventLoopThreadPool.start cb startLoop (m_threadPool s) in
  start cb startLoop s =
    Ok (tt, set_posted (posted s ++ [(m_baseLoop p, Listen)]) (set_pool p (set_started 1 s))).
Proof. intros H0 p. unfold start. mstep. change (m_started_n (id s)) with (m_started_n s). by rewrite H0. Qed.

Lemma wf_started ipPort server_name base num cb startLoop s :
  0 ≤ num → (String.length ipPort ≤ 22)%nat →
  (setThreadNum num;; start cb startLoop) (TcpServer_new ipPort server_name base) = Ok (tt, s) →
  wf s ∧ connections s = ∅ ∧
  getAllLoops (m_threadPool s) = requested_loops base num startLoop ∧
  posted s = [(base, Listen)] ∧ m_next (m_threadPool s) = 0.
Proof.
  intros Hnum Hip Hrun.
  destruct (EventLoopThreadPool.start_ok base server_name num cb startLoop Hnum)
    as (Hall & _ & Hnext & Hwf & Hbase).
  set (s0 := set_pool (EventLoopThreadPool.setThreadNum num (EventLoopThreadPool_new base server_name))
               (TcpServer_new ipPort server_name base)).
  change (start cb startLoop s0 = Ok (tt, s)) in Hrun. rewrite server_start_ok in Hrun by done.
  injection Hrun as <-. cbn. rewrite Hbase.
  pose proof (requested_loops_some base num startLoop Hnum).
  split_and!; try done. split; cbn; try done.
  - rewrite Hall, Hnext. split; [done|lia].
  - intros a. by exists 0%nat.
Qed.

(** What happens to a started server: connections come, and connections that exist are
    taken out of the map, whether they are in it or not. *)
Inductive step (s s' : server) : Prop :=
  | step_connect fd peer local conn :
      connections s !! conn = None → newConnection fd peer local conn s = Ok (tt, s') → step s s'
  | step_remove conn : removeConnectionInLoop conn s = Ok (tt, s') → step s s'.

Lemma newConnection_overflows s fd peer local conn :
  can_connect s → m_nextConnId s = 2 ^ 31 - 1 → newConnection fd peer local conn s = Err IntOverflow.
Proof.
  intros [[Hp Hn] _ _] Hid.
  destruct (getNextLoop_ok _ Hp Hn) as (p & Hrun & _). unfold newConnection.
  assert (Hpool : on_pool getNextLoop s = Ok (turn (m_threadPool s) 0, set_pool p s)).
  { unfold on_pool. by rewrite Hrun. }
  rewrite (M_bind_ok _ _ _ _ _ Hpool). mstep.
  change (m_nextConnId (id (set_pool p s))) with (m_nextConnId s). by rewrite Hid.
Qed.

Lemma wf_step s s' :
  wf s → step s s' → wf s' ∧ getAllLoops (m_threadPool s') = getAllLoops (m_threadPool s).
Proof.
  intros Hwf [fd peer local conn Hnone Hrun|conn Hrun].
  - destruct (decide (m_nextConnId s = 2 ^ 31 - 1)) as [Hid|Hid].
    { by rewrite newConnection_overflows in Hrun by (done || by apply wf_can_connect). }
    destruct (newConnection_ok s fd peer local conn Hwf Hid) as (p & Hall & Hp & _ & Hok).
    rewrite Hok in Hrun. injection Hrun as <-. split; [|exact Hall].
    apply wf_connected; try done. cbn. rewrite Hall.
    destruct (wf_pool _ Hwf) as [[? _] ?]. by apply turn_in_loops.
  - destruct (removeConnectionInLoop_some _ _ _ Hrun) as (c & Hc).
    rewrite (removeConnectionInLoop_ok _ _ _ Hc) in Hrun. injection Hrun as <-.
    split; [by apply wf_removed|done].
Qed.

(** A new connection gets the next loop of the pool and the name
    [server-ip:port#number], whole, which no connection in the map has: nothing is
    overwritten. Its set-up is posted to that loop and nothing else is. *)
Theorem newConnection_registers (s : server) (fd : Z) (peer local : InetAddress) (conn : Z) :
  wf s → connections s !! conn = None → m_nextConnId s < 2 ^ 31 - 1 →
  let n := conn_name (m_ipPort s) (m_serverName s) (m_nextConnId s) in
  let ioLoop := turn (m_threadPool s) 0 in
  m_connections s !! n = None ∧
  ∃ s', newConnection fd peer local conn s = Ok (tt, s') ∧ wf s' ∧
    m_connections s' = <[n := conn]> (m_connections s) ∧
    connections s' = <[conn := mk_connection n ioLoop fd local peer]> (connections s) ∧
    posted s' = posted s ++ [(ioLoop, ConnectEstablished conn)] ∧
    ∀ k, turn (m_threadPool s') k = turn (m_threadPool s) (S k).
Proof.
  intros Hwf Hnone Hid n ioLoop. split.
  - destruct (m_connections s !! n) as [a|] eqn:Ha; [|done].
    destruct (wf_map _ Hwf _ _ Ha) as (c & Hc & Hn). by destruct (next_name_fresh _ _ _ Hwf Hc).
  - destruct (newConnection_ok s fd peer local conn Hwf ltac:(lia)) as (p & Hall & Hp & Hturn & Hok).
    eexists. split; [exact Hok|]. split_and!; try done.
    apply wf_connected; try done; [lia|]. cbn. rewrite Hall.
    destruct (wf_pool _ Hwf) as [[? _] ?]. by apply turn_in_loops.
Qed.

(** In every state of a started server: no two connections share a name; each belongs
    to a loop of the pool; and that loop has been handed its [connectEstablished] exactly
    once, and after it [connectDestroyed]: not at all while the connection is in the map,
    and once for each time it was taken out since (more than once if it was closed more
    than once). *)
Theorem server_lifecycle ipPort server_name base num cb startLoop s0 s :
  0 ≤ num → (String.length ipPort ≤ 22)%nat →
  (setThreadNum num;; start cb startLoop) (TcpServer_new ipPort server_name base) = Ok (tt, s0) →
  rtc step s0 s →
  (∀ a b c d, connections s !! a = Some c → connections s !! b = Some d → name c = name d → a = b) ∧
  ∀ conn c, connections s !! conn = Some c →
    getLoop c ∈ requested_loops base num startLoop ∧
    ∃ n, life_of conn s =
        (getLoop c, ConnectEstablished conn) :: replicate n (getLoop c, ConnectDestroyed conn) ∧
      (n = 0%nat ↔ m_connections s !! name c = Some conn).
Proof.
  intros Hnum Hip Hrun Hsteps.
  destruct (wf_started _ _ _ _ _ _ _ Hnum Hip Hrun) as (Hwf0 & _ & Hall0 & _).
  assert (H : wf s ∧ getAllLoops (m_threadPool s) = requested_loops base num startLoop).
  { revert s Hsteps. apply rtc_ind_r; [done|]. intros s1 s2 _ Hstep [Hwf Hall].
    destruct (wf_step _ _ Hwf Hstep) as [? Hall']. by rewrite Hall', Hall. }
  destruct H as [Hwf Hall]. split; [apply (wf_inj _ Hwf)|]. intros conn c Hc. split.
  - rewrite <- Hall. by apply (wf_names _ Hwf conn).
  - destruct (wf_life _ Hwf conn) as (n & Hlife & Hn). unfold expected_life in Hlife. rewrite Hc in Hlife.
    exists n. split; [done|by apply Hn].
Qed.

(** ** A small server: two loops, two connections, the first of which was closed twice *)
Definition sample_started : server :=
  match (setThreadNum 2;; start false (λ i, 100 + i)) (TcpServer_new "10.0.0.1:80" "web" 7) with
  | Ok (_, s) => s
  | Err _ => TcpServer_new "" "" 0
  end.

Lemma sample_run :
  (setThreadNum 2;; start false (λ i, 100 + i)) (TcpServer_new "10.0.0.1:80" "web" 7) =
  Ok (tt, sample_started).
Proof. reflexivity. Qed.

Lemma sample_started_wf : wf sample_started.
Proof. by apply (wf_started "10.0.0.1:80" "web" 7 2 false (λ i, 100 + i) sample_started
  ltac:(lia) ltac:(cbn; lia) sample_run). Qed.

Lemma newConnection_registers_witness :
  ∃ s', newConnection 9 (mk_InetAddress 0 0) (mk_InetAddress 0 0) 4096 sample_started = Ok (tt, s') ∧
    m_connections s' !! "web-10.0.0.1:80#1" = Some 4096 ∧
    posted s' = [(7, Listen); (100, ConnectEstablished 4096)].
Proof.
  destruct (newConnection_registers sample_started 9 (mk_InetAddress 0 0) (mk_InetAddress 0 0) 4096 sample_started_wf eq_refl
    ltac:(by vm_compute)) as (_ & s' & Hrun & _ & Hm & _ & Hp & _).
  exists s'. split; [exact Hrun|]. split; [|exact Hp]. rewrite Hm. by vm_compute.
Defined.

Lemma server_lifecycle_witness :
  ∃ s, rtc step sample_started s ∧
    (∃ n, life_of 4096 s = (100, ConnectEstablished 4096) :: replicate n (100, ConnectDestroyed 4096) ∧ n ≠ 0%nat) ∧
    life_of 8192 s = [(101, ConnectEstablished 8192)].
Proof.
  assert (Hsteps : ∃ s, rtc step sample_started s ∧
    connections s !! 4096 = Some (mk_connection "web-10.0.0.1:80#1" 100 9 (mk_InetAddress 0 0) (mk_InetAddress 0 0)) ∧
    connections s !! 8192 = Some (mk_connection "web-10.0.0.1:80#2" 101 10 (mk_InetAddress 0 0) (mk_InetAddress 0 0)) ∧
    m_connections s !! "web-10.0.0.1:80#1" = None ∧
    m_connections s !! "web-10.0.0.1:80#2" = Some 8192).
  { eexists. split.
    - eapply rtc_l; [eapply (step_connect _ _ 9 (mk_InetAddress 0 0) (mk_InetAddress 0 0) 4096); by vm_compute|].
      eapply rtc_l; [eapply (step_connect _ _ 10 (mk_InetAddress 0 0) (mk_InetAddress 0 0) 8192); by vm_compute|].
      eapply rtc_l; [eapply (step_remove _ _ 4096); by vm_compute|].
      eapply rtc_l; [|apply rtc_refl]. eapply (step_remove _ _ 4096); by vm_compute.
    - by vm_compute. }
  destruct Hsteps as (s & Hs & H1 & H2 & Hm1 & Hm2). exists s. split; [exact Hs|].
  destruct (server_lifecycle "10.0.0.1:80" "web" 7 2 false (λ i, 100 + i) sample_started s
    ltac:(lia) ltac:(cbn; lia) sample_run Hs) as [_ Hlife].
  destruct (Hlife 4096 _ H1) as (_ & n1 & E1 & N1). destruct (Hlife 8192 _ H2) as (_ & n2 & E2 & N2).
  cbn [name getLoop] in E1, E2, N1, N2. rewrite Hm1 in N1. rewrite (proj2 N2 Hm2) in E2. split; [|exact E2].
  exists n1. split; [exact E1|]. intros Hz. discriminate (proj1 N1 Hz).
Defined.
