(* ===== verification/Accepting.v ===== *)
(** The [Acceptor] with [TcpServer::newConnection] as its callback, and the sockets
    the connections own: from the kernel's queue to the map of connections, and back
    to the kernel when a [TcpConnection] is destroyed and its [Socket] closes the
    descriptor. *)
From S2P Require Import Prelude InetAddress EventLoopThreadPool Channel EpollPoller Sockets Acceptor TcpServer.
#[local] Open Scope Z_scope.

Section accepting.
Context {K Ke : Type} `{SocketLaws K} `{EpollLaws Ke}.
Context (file_name : string).
(** What [getsockname] answers for an accepted descriptor, or zeroes. *)
Context (local_of : Z → InetAddress).
(** Where the next [TcpConnection] is made: where none is. *)
Context (alloc : server → Z) (alloc_fresh : ∀ s, connections s !! alloc s = None).

(** The callback the server gives its acceptor. *)
Definition on_accepted (fd : Z) (peer : sockaddr_in) : M server unit := λ s,
  newConnection fd (sin peer) (local_of fd) (alloc s) s.

Record system := mk_system {
  base : world K Ke server;
  released : gset Z                (** the connections destroyed, by address *)
}.

(** A connection that exists. *)
Definition live (y : system) (a : Z) (c : connection) : Prop :=
  connections (client (base y)) !! a = Some c ∧ a ∉ released y.

Inductive step (y y' : system) : Prop :=
  | step_accept addr w :
      handleRead file_name on_accepted addr (base y) = Ok (tt, w) → y' = mk_system w (released y) →
      step y y'
  | step_remove a c s :
      live y a c →
      on_client (removeConnectionInLoop a) (base y) = Ok (tt, s) → y' = mk_system s (released y) →
      step y y'
  (** The last reference goes after the connection has left the map. *)
  | step_release a c w :
      live y a c → m_connections (client (base y)) !! name c ≠ Some a →
      on_proc (Socket_destroy (sockfd c)) (base y) = Ok (tt, w) →
      y' = mk_system w ({[a]} ∪ released y) → step y y'.

Abbreviation open_fds y := (files (net (proc (base y)))).

(** [others] are the descriptors of the rest of the program, [fd] the listening one. *)
Record inv (others : gmap Z file) (fd : Z) (y : system) : Prop := {
  inv_ready : ready (base y);
  inv_acceptor : m_acceptSocket (acceptor (base y)) = fd ∧ m_newConnectionCallback (acceptor (base y)) = true;
  inv_server : TcpServer.wf (client (base y));
  inv_map d a : m_channel_map (loop (base y)) !! d = Some a → d = fd ∨ is_Some (others !! d);
  inv_others d f : others !! d = Some f → d ≠ fd ∧ open_fds y !! d = Some f;
  inv_live a c : live y a c → ∃ f peer, open_fds y !! sockfd c = Some f ∧ nonblocking f = true ∧
    peer_addr f = Some peer ∧ sin peer = peerAddress c ∧ sockfd c ≠ fd ∧ others !! sockfd c = None;
  inv_inj a b c d : live y a c → live y b d → sockfd c = sockfd d → a = b;
  inv_all d : is_Some (open_fds y !! d) →
    is_Some (others !! d) ∨ d = fd ∨ ∃ a c, live y a c ∧ sockfd c = d;
  inv_released a : a ∈ released y → is_Some (connections (client (base y)) !! a)
}.

(** A new connection on a new descriptor. *)
Lemma inv_accepted others fd y w s connfd peer f c :
  inv others fd y → ready w → m_acceptSocket (acceptor w) = fd → m_newConnectionCallback (acceptor w) = true →
  loop w = loop (base y) → client w = s → TcpServer.wf s →
  connections s = <[alloc (client (base y)) := c]> (connections (client (base y))) →
  sockfd c = connfd → peerAddress c = sin peer →
  open_fds y !! connfd = None → files (net (proc w)) = <[connfd := f]> (open_fds y) →
  nonblocking f = true → peer_addr f = Some peer →
  inv others fd (mk_system w (released y)).
Proof.
  intros Hinv Hready Hfd Hcb Hloop <- Hwf Hconns Hsock Hpeer Hfresh Hfiles Hnb Hp.
  set (a0 := alloc (client (base y))) in *. subst connfd.
  assert (Hlive : ∀ a d, live (mk_system w (released y)) a d → a = a0 ∧ d = c ∨ a ≠ a0 ∧ live y a d).
  { unfold live. cbn. rewrite Hconns. intros a d [[[<- <-]|[? ?]]%lookup_insert_Some ?]; auto. }
  assert (Hother : ∀ a d, live y a d → sockfd d ≠ sockfd c).
  { intros a d Hd He. destruct (inv_live _ _ _ Hinv _ _ Hd) as (x & _ & Hx & _). congruence. }
  assert (Hfdne : sockfd c ≠ fd).
  { intros He. destruct (ready_open _ (inv_ready _ _ _ Hinv)) as [_ [x Hx]].
    destruct (inv_acceptor _ _ _ Hinv) as [E _]. congruence. }
  split; cbn [base released]; try done.
  - intros d a. rewrite Hloop. apply Hinv.
  - intros d g Hd. destruct (inv_others _ _ _ Hinv d g Hd) as [Hne Ho]. split; [done|].
    rewrite Hfiles, lookup_insert_ne; [done|]. congruence.
  - intros a d [[-> ->]|[_ Hd]]%Hlive.
    + exists f, peer. rewrite Hfiles, lookup_insert_eq. split_and!; try done.
      destruct (others !! sockfd c) as [g|] eqn:Hg; [|done].
      apply (inv_others _ _ _ Hinv) in Hg as [_ Hg]. congruence.
    + destruct (inv_live _ _ _ Hinv _ _ Hd) as (g & q & Hg & Hrest). exists g, q.
      rewrite Hfiles, lookup_insert_ne by (by apply not_eq_sym, (Hother a)). done.
  - intros a b d e [[-> ->]|[_ Hd]]%Hlive [[-> ->]|[_ He]]%Hlive Heq; [done|..].
    + by destruct (Hother _ _ He).
    + by destruct (Hother _ _ Hd).
    + by eapply (inv_inj _ _ _ Hinv).
  - intros d. rewrite Hfiles. intros [<-|Hd]%lookup_insert_is_Some'.
    + right; right. exists a0, c. split; [|done]. split; cbn; [by rewrite Hconns, lookup_insert_eq|].
      intros Ha%(inv_released _ _ _ Hinv). unfold a0 in Ha. rewrite alloc_fresh in Ha. by destruct Ha.
    + destruct (inv_all _ _ _ Hinv d Hd) as [?|[->|(a & e & [He Hr] & <-)]]; [by left|by right; left|].
      right; right. exists a, e. split; [|done]. split; [|done]. cbn. rewrite Hconns, lookup_insert_ne; [done|].
      intros <-. unfold a0 in He. by rewrite alloc_fresh in He.
  - intros a Ha. rewrite Hconns. apply lookup_insert_is_Some'. right. by apply Hinv.
Qed.

(** Taking a connection out of the map leaves the sockets alone. *)
Lemma inv_server_step others fd y s :
  inv others fd y → TcpServer.wf s → connections s = connections (client (base y)) →
  inv others fd (mk_system (mk_world (proc (base y)) (loop (base y)) (acceptor (base y)) s) (released y)).
Proof.
  intros Hinv Hwf Hconns.
  assert (Hlive : ∀ a c, live (mk_system (mk_world (proc (base y)) (loop (base y)) (acceptor (base y)) s)
    (released y)) a c ↔ live y a c) by (unfold live; cbn; by rewrite Hconns).
  destruct Hinv as [Hready Hacc _ Hmap Hothers Hl Hinj Hall Hrel]. split; cbn [base released]; try done.
  - by apply (ready_more_files (base y)).
  - intros a c Hc%Hlive. by apply (Hl a c).
  - intros a b c d Hc%Hlive Hd%Hlive. by apply (Hinj a b c d).
  - intros d [?|[?|(a & c & Hc & ?)]]%Hall; [by left|by right; left|right; right].
    exists a, c. by rewrite Hlive.
  - intros a Ha%Hrel. cbn. by rewrite Hconns.
Qed.

Lemma inv_accept others fd y addr w :
  inv others fd y → handleRead file_name on_accepted addr (base y) = Ok (tt, w) →
  inv others fd (mk_system w (released y)) ∧ rtc TcpServer.step (client (base y)) (client w).
Proof.
  intros Hinv Hrun. pose proof (handleRead_run file_name on_accepted (base y) addr) as H'.
  destruct (inv_acceptor _ _ _ Hinv) as [Hfd Hcb]. cbv zeta in H'. rewrite Hfd, Hcb in H'.
  destruct (sys_accept4 (net (proc (base y))) fd nonblocking_flags) as [[e|[connfd peer]] k].
  - destruct H' as (p & Hrun' & Hf & _). rewrite Hrun in Hrun'. injection Hrun' as ->.
    split; [|apply rtc_refl]. pose proof (inv_ready _ _ _ Hinv) as Hready.
    destruct Hinv as [_ Hacc Hwf Hmap Hothers Hl Hinj Hall Hrel].
    split; cbn [base released proc loop acceptor client]; rewrite ?Hf; try done.
    apply (ready_more_files (base y)); [done|]. by rewrite Hf.
  - destruct H' as (_ & Hfresh & H'). cbv iota in H'. unfold on_accepted at 1 in H'.
    set (s := client (base y)) in *. pose proof (inv_server _ _ _ Hinv) as Hwf. fold s in Hwf.
    destruct (decide (m_nextConnId s = 2 ^ 31 - 1)) as [Hid|Hid].
    { rewrite newConnection_overflows in H' by (done || by apply wf_can_connect). congruence. }
    destruct (newConnection_ok s connfd (sin peer) (local_of connfd) (alloc s) Hwf Hid) as (pl & Hall & Hp & _ & Hok).
    rewrite Hok in H'. destruct H' as (p & f & Hrun' & Hf & Hnb & Hpeer). rewrite Hrun in Hrun'.
    injection Hrun' as ->.
    assert (Hstep : TcpServer.step s (connected s pl (mk_connection (conn_name (m_ipPort s) (m_serverName s)
        (m_nextConnId s)) (turn (m_threadPool s) 0) connfd (local_of connfd) (sin peer)) (alloc s))).
    { by eapply step_connect. }
    split; [|by apply rtc_once]. eapply inv_accepted; try done.
    + apply (ready_more_files (base y)); [apply Hinv|]. intros d Hd. rewrite Hf.
      apply lookup_insert_is_Some'. by right.
    + by destruct (wf_step _ _ Hwf Hstep).
Qed.

Lemma inv_release others fd y a c w :
  inv others fd y → live y a c → m_connections (client (base y)) !! name c ≠ Some a →
  on_proc (Socket_destroy (sockfd c)) (base y) = Ok (tt, w) →
  inv others fd (mk_system w ({[a]} ∪ released y)) ∧ client w = client (base y).
Proof.
  intros Hinv Hc Hname Hrun. pose proof (close_wp (sockfd c) (proc (base y)) (λ _, False)) as Hwp.
  unfold wp in Hwp. unfold on_proc, Socket_destroy in Hrun.
  destruct ((ret ← sys (λ k, sys_close k (sockfd c)); mret tt) (proc (base y))) as [[[] p]|]; [|done].
  injection Hrun as <-. destruct Hwp as [Hf _]. split; [|done].
  destruct (inv_live _ _ _ Hinv _ _ Hc) as (f0 & peer0 & _ & _ & _ & _ & Hnfd & Hnoth).
  assert (Hlive : ∀ b d, live (mk_system (mk_world p (loop (base y)) (acceptor (base y)) (client (base y)))
    ({[a]} ∪ released y)) b d → live y b d ∧ sockfd d ≠ sockfd c).
  { unfold live. cbn. intros b d [Hd Hnot]. assert (Hb : live y b d) by (split; [done|set_solver]).
    split; [done|]. intros He. apply Hnot. rewrite (inv_inj _ _ _ Hinv _ _ _ _ Hb Hc He). set_solver. }
  destruct Hinv as [Hready Hacc Hwf Hmap Hothers Hl Hinj Hall Hrel].
  assert (Hkeep : ∀ d, d ≠ sockfd c → files (net p) !! d = open_fds y !! d).
  { intros d Hd. rewrite Hf. by rewrite lookup_delete_ne. }
  split; cbn [base released proc loop acceptor client]; try done.
  - destruct Hacc as [Hfd _]. destruct Hready as [[Hwfl Hopen] Hch Hm [Hpos Hlfd]].
    split; cbn [proc loop acceptor client]; [split; cbn [proc loop]| | |]; try done.
    + intros d b Hd. rewrite Hkeep; [by eapply Hopen|]. intros ->. destruct (Hmap _ _ Hd) as [?|[x Hx]]; congruence.
    + split; [done|]. rewrite Hkeep; [done|]. congruence.
  - intros d g Hd. destruct (Hothers d g Hd) as [? Ho]. split; [done|]. rewrite Hkeep; [done|]. congruence.
  - intros b d [Hd Hne]%Hlive. destruct (Hl _ _ Hd) as (f & peer & Hfd & Hrest). exists f, peer.
    by rewrite Hkeep.
  - intros b1 b2 d1 d2 [H1' _]%Hlive [H2' _]%Hlive. by apply (Hinj b1 b2 d1 d2).
  - intros d. rewrite Hf. intros [x [Hne Hx]%lookup_delete_Some].
    destruct (Hall d ltac:(by eexists)) as [?|[?|(b & e & [Hb Hr] & <-)]]; [by left|by right; left|].
    right; right. exists b, e. split; [|done]. split; [done|]. cbn. intros [->%elem_of_singleton|?]%elem_of_union; [|done].
    destruct Hc as [Hc _]. simplify_eq.
  - intros b [->%elem_of_singleton|Hb]%elem_of_union; [|by apply Hrel]. destruct Hc as [Hc _]. by eexists.
Qed.

Lemma accepting_inv_step others fd y y' :
  inv others fd y → step y y' →
  inv others fd y' ∧ rtc TcpServer.step (client (base y)) (client (base y')).
Proof.
  intros Hinv [addr w Hrun ->|a c w [Hc _] Hrun ->|a c w Hc Hname Hrun ->].
  - by eapply inv_accept.
  - pose proof (inv_server _ _ _ Hinv) as Hwf. unfold on_client in Hrun.
    destruct (removeConnectionInLoop a (client (base y))) as [[[] s]|] eqn:Hs; [|done]. injection Hrun as <-.
    assert (Hstep : TcpServer.step (client (base y)) s) by by eapply TcpServer.step_remove.
    split; [|by apply rtc_once]. apply inv_server_step; [done|by apply (wf_step (client (base y)))|].
    rewrite (removeConnectionInLoop_ok _ _ _ Hc) in Hs.
    by injection Hs as <-.
  - destruct (inv_release _ _ _ _ _ _ Hinv Hc Hname Hrun) as [? Hcl]. split; [done|]. cbn [base]. by rewrite Hcl.
Qed.

(** A server whose acceptor has just been told to listen. *)
Lemma inv_listening w0 w1 listenAddr reusePort channel :
  sound w0 → channels (loop w0) !! channel = None → TcpServer.wf (client w0) → connections (client w0) = ∅ →
  (Acceptor_new listenAddr reusePort channel;; setNewConnectionCallback;; listen) w0 = Ok (tt, w1) →
  inv (files (net (proc w0))) (m_acceptSocket (acceptor w1)) (mk_system w1 ∅) ∧ client w1 = client w0.
Proof.
  intros Hsound Hnone Hwf Hconns Hrun.
  destruct (wp_ok _ _ _ _ _ _ Hrun (set_up_wp w0 listenAddr reusePort channel Hsound Hnone))
    as (fd & opts & local & _ & Hready & Hacc & Hfresh & Hfiles & _ & _ & Hcl & _).
  assert (Hlive : ∀ a c, ¬ live (mk_system w1 ∅) a c).
  { intros a c [Ha _]. cbn in Ha. rewrite Hcl, Hconns in Ha. by apply lookup_empty_Some in Ha. }
  rewrite Hacc. cbn [m_acceptSocket]. split; [|done]. split; cbn [base released]; try done.
  - by rewrite Hacc.
  - by rewrite Hcl.
  - intros d a Ha. destruct (sound_open _ (ready_sound _ Hready) d a Ha) as [x Hx]. rewrite Hfiles in Hx.
    apply lookup_insert_Some in Hx as [[<- _]|[_ Hx]]; [by left|right; by eexists].
  - intros d f Hd. assert (d ≠ fd) by congruence. rewrite Hfiles. by rewrite lookup_insert_ne.
  - intros a c Hc. by destruct (Hlive a c).
  - intros a b c d Hc. by destruct (Hlive a c).
  - intros d. rewrite Hfiles. intros [<-|Hd]%lookup_insert_is_Some'; [by right; left|by left].
Qed.

(** From the moment a started server listens: the open descriptors are those of
    the rest of the program, the listening one and one for each connection that
    exists, no two of them the same; each connection's is the non-blocking socket of
    its peer. So destroying a connection closes its own socket and no other, and no
    accepted socket is lost. The server itself only does what [TcpServer.step] says. *)
Theorem descriptors_owned w0 w1 listenAddr reusePort channel ipPort server_name loop0 num cb startLoop y :
  sound w0 → channels (loop w0) !! channel = None →
  0 ≤ num → (String.length ipPort ≤ 22)%nat →
  (setThreadNum num;; start cb startLoop) (TcpServer_new ipPort server_name loop0) = Ok (tt, client w0) →
  (Acceptor_new listenAddr reusePort channel;; setNewConnectionCallback;; listen) w0 = Ok (tt, w1) →
  rtc step (mk_system w1 ∅) y →
  let others := files (net (proc w0)) in
  let fd := m_acceptSocket (acceptor w1) in
  (∀ d, is_Some (open_fds y !! d) ↔
     is_Some (others !! d) ∨ d = fd ∨ ∃ a c, live y a c ∧ sockfd c = d) ∧
  (∀ a c, live y a c → sockfd c ≠ fd ∧ others !! sockfd c = None ∧
     ∃ f peer, open_fds y !! sockfd c = Some f ∧ nonblocking f = true ∧
       peer_addr f = Some peer ∧ sin peer = peerAddress c) ∧
  (∀ a b c d, live y a c → live y b d → sockfd c = sockfd d → a = b) ∧
  rtc TcpServer.step (client w0) (client (base y)).
Proof.
  intros Hsound Hnone Hnum Hip Hstart Hrun Hsteps others fd.
  destruct (wf_started _ _ _ _ _ _ _ Hnum Hip Hstart) as (Hwf & Hconns & _).
  destruct (inv_listening _ _ _ _ _ Hsound Hnone Hwf Hconns Hrun) as [Hinv0 Hcl].
  assert (Hy : inv others fd y ∧ rtc TcpServer.step (client w0) (client (base y))).
  { revert y Hsteps. apply rtc_ind_r.
    - split; [exact Hinv0|]. cbn [base]. rewrite Hcl. apply rtc_refl.
    - intros y1 y2 _ Hstep [Hinv Hr]. destruct (accepting_inv_step _ _ _ _ Hinv Hstep) as [? Hr'].
      split; [done|by etrans]. }
  destruct Hy as [Hinv Hr]. split_and!; [|..|done].
  - intros d. split; [apply Hinv|]. intros [[f Hf]|[->|(a & c & Hc & <-)]].
    + destruct (inv_others _ _ _ Hinv d f Hf) as [_ Ho]. by eexists.
    + destruct (inv_acceptor _ _ _ Hinv) as [Hfd _]. rewrite <- Hfd. apply (ready_open _ (inv_ready _ _ _ Hinv)).
    + destruct (inv_live _ _ _ Hinv _ _ Hc) as (f & peer & Hf & _). by eexists.
  - intros a c Hc. destruct (inv_live _ _ _ Hinv _ _ Hc) as (f & peer & Hf & Hnb & Hp & Hs & Hne & Ho).
    split_and!; [done..|]. by exists f, peer.
  - apply Hinv.
Qed.
End accepting.

(** ** A server that closes one of two connections and accepts a third *)
Definition sample_local (_ : Z) : InetAddress := sin sample_addr.
Definition sample_alloc (s : server) : Z := fresh (dom (connections s) : gset Z).

Lemma sample_alloc_fresh s : connections s !! sample_alloc s = None.
Proof. apply (not_elem_of_dom (D := gset Z)). exact (is_fresh (dom (connections s) : gset Z)). Qed.

Definition server_world : world table (gmap Z epoll_event) server :=
  mk_world (mk_process (mk_table (list_to_map ((λ fd, (fd, new_file 0 None None)) <$> seqZ 0 3))
              {[ 3 := [sample_peer; sample_addr; sample_peer] ]} 6) 0 [])
    (mk_poller ∅ ∅ ∅ KInitEventListSize) (mk_Acceptor (-1) 0 false false) sample_started.

Lemma server_world_sound : sound server_world.
Proof.
  split; [by apply wf_new|]. intros fd a Ha. change ((∅ : gmap Z Z) !! fd = Some a) in Ha.
  by apply lookup_empty_Some in Ha.
Qed.

(** A step that is computed. *)
Definition ok_or {A S} (m : M S A) (s : S) : S := match m s with Ok (_, s') => s' | Err _ => s end.

Definition accept_one (y : system) : system (K := table) (Ke := gmap Z epoll_event) :=
  mk_system (ok_or (handleRead "" (on_accepted sample_local sample_alloc) zero_sockaddr) (base y)) (released y).
Definition remove_one (a : Z) (y : system) : system (K := table) (Ke := gmap Z epoll_event) :=
  mk_system (ok_or (on_client (removeConnectionInLoop a)) (base y)) (released y).
Definition release_one (a fd : Z) (y : system) : system (K := table) (Ke := gmap Z epoll_event) :=
  mk_system (ok_or (on_proc (Socket_destroy fd)) (base y)) ({[a]} ∪ released y).

Lemma ok_or_run {S} (m : M S unit) (s : S) : is_ok (m s) = true → m s = Ok (tt, ok_or m s).
Proof. unfold ok_or. by destruct (m s) as [[[] s']|]. Qed.

Abbreviation sample_step := (step "" sample_local sample_alloc).

Lemma accept_one_step y :
  is_ok (handleRead "" (on_accepted sample_local sample_alloc) zero_sockaddr (base y)) = true → sample_step y (accept_one y).
Proof. intros Hok. eapply step_accept; [by apply ok_or_run|done]. Qed.

Lemma remove_one_step a c y :
  live y a c →
  is_ok (on_client (removeConnectionInLoop a) (base y)) = true → sample_step y (remove_one a y).
Proof. intros Hn Hok. eapply step_remove; [exact Hn|by apply ok_or_run|done]. Qed.

Lemma release_one_step a c y :
  live y a c → m_connections (client (base y)) !! name c ≠ Some a →
  is_ok (on_proc (Socket_destroy (sockfd c)) (base y)) = true → sample_step y (release_one a (sockfd c) y).
Proof. intros Hc Hn Hok. eapply step_release; [exact Hc|exact Hn|by apply ok_or_run|done]. Qed.

Definition sample_served : world table (gmap Z epoll_event) server :=
  ok_or (Acceptor_new sample_addr false 4096;; setNewConnectionCallback;; listen) server_world.
Definition sample_two := accept_one (accept_one (mk_system sample_served ∅)).
Definition sample_reused := accept_one (release_one 0 4 (remove_one 0 sample_two)).

Lemma sample_reused_reachable : rtc sample_step (mk_system sample_served ∅) sample_reused.
Proof.
  eapply rtc_l; [apply accept_one_step; by vm_compute|].
  eapply rtc_l; [apply accept_one_step; by vm_compute|].
  eapply rtc_l; [apply (remove_one_step 0 (mk_connection "web-10.0.0.1:80#1" 100 4 (sin sample_addr) (sin sample_peer)));
    [split; [by vm_compute|set_solver]|by vm_compute]|].
  eapply rtc_l; [|apply rtc_once, accept_one_step; by vm_compute].
  apply (release_one_step 0 (mk_connection "web-10.0.0.1:80#1" 100 4 (sin sample_addr) (sin sample_peer)));
    [split; [by vm_compute|set_solver]|by vm_compute|by vm_compute].
Qed.

(** Descriptor 4, closed with the first connection, is the third one's alone. *)
Lemma descriptors_owned_witness :
  live sample_reused 2 (mk_connection "web-10.0.0.1:80#3" 100 4 (sin sample_addr) (sin sample_peer)) ∧
  (∃ f, files (net (proc (base sample_reused))) !! 4 = Some f ∧ nonblocking f = true) ∧
  rtc TcpServer.step sample_started (client (base sample_reused)).
Proof.
  assert (Hlive : live sample_reused 2 (mk_connection "web-10.0.0.1:80#3" 100 4 (sin sample_addr) (sin sample_peer))).
  { split; [by vm_compute|]. change (released sample_reused) with ({[0]} ∪ ∅ : gset Z). set_solver. }
  assert (Hrun : (Acceptor_new sample_addr false 4096;; setNewConnectionCallback;; listen) server_world =
    Ok (tt, sample_served)) by (apply ok_or_run; by vm_compute).
  destruct (descriptors_owned "" sample_local sample_alloc sample_alloc_fresh server_world sample_served sample_addr false 4096
    "10.0.0.1:80" "web" 7 2 false (λ i, 100 + i) sample_reused server_world_sound eq_refl ltac:(lia) ltac:(cbn; lia)
    sample_run Hrun sample_reused_reachable) as (_ & Hown & _ & Hsteps).
  split; [exact Hlive|]. split; [|exact Hsteps].
  destruct (Hown _ _ Hlive) as (_ & _ & f & _ & Hf & Hnb & _). exists f. split; [exact Hf|exact Hnb].
Defined.
