(* ===== verification/ServerLoops.v ===== *)
(** [TcpServer] together with the loops of its pool: what the server hands to a
    loop with [runInLoop] or [queueInLoop] goes through that loop's queue, as
    [EventLoop] models it, among the functors of everybody else, and is run by the
    loop's thread. The server's code runs on the thread of the base loop, which is
    thread 0 of every other loop. *)
From S2P Require Import Prelude InetAddress EventLoopThreadPool EventLoop TcpServer.

(** A functor in a loop's queue: the server's, or somebody else's. *)
Definition job (U : Type) : Type := (task + U)%type.

Section jobs.
Context {U : Type}.

Definition task_of (j : job U) : option task := match j with inl t => Some t | inr _ => None end.
Definition tasks (l : list (job U)) : list task := omap task_of l.

(** The server's task that an action is about to queue. *)
Definition intent (i : instr (job U)) : option task :=
  match i with PushPending j => task_of j | _ => None end.
Definition intents_of (l : list (instr (job U))) : list task := omap intent l.
Definition intents {E} (s : EventLoop.state E (job U)) : list task :=
  intents_of (todo s) ++ (threads s ≫= intents_of).

Lemma tasks_app (l1 l2 : list (job U)) : tasks (l1 ++ l2) = tasks l1 ++ tasks l2.
Proof. apply omap_app. Qed.
Lemma intents_of_cons i l : intents_of (i :: l) = option_list (intent i) ++ intents_of l.
Proof. unfold intents_of. cbn. by destruct (intent i). Qed.
Lemma intents_of_app l1 l2 : intents_of (l1 ++ l2) = intents_of l1 ++ intents_of l2.
Proof. apply omap_app. Qed.
End jobs.

Section system.
Context {E U : Type} `{EventFdLaws E} (body : job U → list (call (job U))).

Record system := mk_system {
  srv : server;
  loops : gmap Z (EventLoop.state E (job U))   (** the pool's, by address *)
}.

(** A call of the server's into a loop, from the base loop's thread. *)
Definition begin_call (t : task) (s : EventLoop.state E (job U)) : EventLoop.state E (job U) :=
  set_threads (<[0%nat := compile false (QueueInLoop (inl t))]> (threads s)) s.

(** Nobody but thread 0 is about to queue a task of the server's. *)
Definition only_server (s : EventLoop.state E (job U)) : Prop :=
  intents_of (todo s) = [] ∧ ∀ t l, threads s !! S t = Some l → intents_of l = [].

(** A step of a loop in which nobody but the server queues the server's tasks. *)
Definition user_step (ls ls' : EventLoop.state E (job U)) : Prop :=
  EventLoop.step body ls ls' ∧ only_server ls' ∧ intents ls' ⊆+ intents ls.

(** The server takes a step, which hands one task to one loop; or a loop takes one. *)
Inductive system_step (w w' : system) : Prop :=
  | sys_server s l t ls :
      TcpServer.step (srv w) s → posted s = posted (srv w) ++ [(l, t)] →
      loops w !! l = Some ls → threads ls !! 0%nat = Some [] →
      w' = mk_system s (<[l := begin_call t ls]> (loops w)) → system_step w w'
  | sys_loop l ls ls' :
      loops w !! l = Some ls → user_step ls ls' →
      w' = mk_system (srv w) (<[l := ls']> (loops w)) → system_step w w'.

(** ** What a loop's step does to the tasks on their way *)

Lemma intents_threads t l (s : EventLoop.state E (job U)) old :
  threads s !! t = Some old →
  intents_of old ++ intents (set_threads (<[t := l]> (threads s)) s) ≡ₚ intents_of l ++ intents s.
Proof.
  intros Ht. unfold intents. cbn [todo threads set_threads].
  rewrite insert_take_drop by by eapply lookup_lt_Some.
  rewrite <- (take_drop_middle (threads s) t old Ht) at 3.
  rewrite !bind_app. cbn [mbind list_bind]. solve_Permutation.
Qed.

(** The effect of an action on the queue and on what is on its way. *)
Lemma exec_intents b i (s : EventLoop.state E (job U)) :
  todo (exec b i s) = todo s ∧ threads (exec b i s) = threads s ∧
  match i with
  | PushPending j => submitted (exec b i s) = submitted s ++ [j]
  | _ => submitted (exec b i s) = submitted s ∧ intent i = None
  end.
Proof. destruct i; cbn; repeat case_match; done. Qed.

Lemma intents_todo (l : list (instr (job U))) (s : EventLoop.state E (job U)) :
  intents_of (todo s) ++ intents (set_todo l s) ≡ₚ intents_of l ++ intents s.
Proof. unfold intents. cbn [todo threads set_todo]. solve_Permutation. Qed.

(** A step queues one functor, or puts tasks on their way that were not. *)
Definition moves_intents (s s' : EventLoop.state E (job U)) : Prop :=
  (submitted s' = submitted s ∧ ∃ fresh, intents s' ≡ₚ fresh ++ intents s) ∨
  (∃ j, submitted s' = submitted s ++ [j] ∧ tasks [j] ++ intents s' ≡ₚ intents s).

Lemma tasks_one (j : job U) : tasks [j] = option_list (task_of j).
Proof. unfold tasks. cbn. by destruct (task_of j). Qed.

Lemma exec_moves b i (rest l : list (instr (job U))) (s : EventLoop.state E (job U)) (I : list task) :
  intents_of (i :: rest) ++ I ≡ₚ intents_of l ++ intents s →
  (∃ fresh, intents_of l = fresh ++ intents_of rest ∧ (fresh = [] ∨ ∀ j, i ≠ PushPending j)) →
  ∀ s', submitted s' = submitted (exec b i s) → intents s' = I → moves_intents s s'.
Proof.
  intros HI (fresh & Hl & Hfresh) s' Hsub Hint. destruct (exec_intents b i s) as (_ & _ & Hi).
  rewrite intents_of_cons, Hl, <- !app_assoc in HI.
  assert (option_list (intent i) ++ I ≡ₚ fresh ++ intents s) as HI'.
  { apply (Permutation_app_inv_l (intents_of rest)). rewrite (app_assoc _ (option_list _)).
    rewrite (Permutation_app_comm (intents_of rest) (option_list _)), <- app_assoc, HI.
    solve_Permutation. }
  destruct i as [j| | | | |j]; cbn in Hi, HI';
    try (left; split; [by rewrite Hsub; apply Hi|exists fresh; by rewrite Hint]).
  right. exists j. rewrite Hsub, Hint, tasks_one. by destruct Hfresh as [->|[]%(λ Hi, Hi j)].
Qed.

Lemma step_intents (s s' : EventLoop.state E (job U)) :
  EventLoop.inv s → EventLoop.step body s s' → moves_intents s s'.
Proof.
  intros Hinv Hstep.
  assert (Hsame : ∀ s1 : EventLoop.state E (job U), submitted s1 = submitted s → todo s1 = todo s →
    threads s1 = threads s → moves_intents s s1).
  { intros s1 Hs Ht Hth. left. split; [done|]. exists []. unfold intents. by rewrite Ht, Hth. }
  assert (Htodo : ∀ l (s1 : EventLoop.state E (job U)), todo s = [] → submitted s1 = submitted s →
    todo s1 = l → threads s1 = threads s → moves_intents s s1).
  { intros l s1 Hnil Hs Ht Hth. left. split; [done|]. exists (intents_of l).
    unfold intents. by rewrite Ht, Hth, Hnil. }
  destruct Hstep as [t c Ht|t i rest Ht|i rest Ht|c Hat Ht|Hat Ht|Hat|before after Hat Hr|cs Hat|Hat Ht
    |Hat|f fs Hat Ht Hfs|Hat Ht Hfs].
  - left. split; [done|]. exists (intents_of (compile false c)). apply (intents_threads _ _ _ _ Ht).
  - destruct (exec_intents false i s) as (E1 & E2 & _).
    eapply (exec_moves false i rest rest); [apply (intents_threads _ rest _ _ Ht)|exists []; auto|done|].
    unfold intents. cbn. by rewrite E1.
  - destruct (exec_intents true i s) as (E1 & E2 & _).
    eapply (exec_moves true i rest (unroll body i ++ rest)).
    + rewrite <- Ht. apply intents_todo.
    + exists (intents_of (unroll body i)). rewrite intents_of_app. split; [done|]. by destruct i; auto.
    + done.
    + unfold intents. cbn -[unroll]. by rewrite E2.
  - by eapply Htodo.
  - by apply Hsame.
  - apply Hsame; by destruct (m_quit s).
  - eapply Htodo; [|done..]. apply (inv_idle _ Hinv). auto.
  - eapply Htodo; [|done..]. apply (inv_idle _ Hinv). auto.
  - by apply Hsame.
  - by apply Hsame.
  - left. split; [done|]. exists []. unfold intents. cbn. by rewrite Ht.
  - by apply Hsame.
Qed.

(** ** Invariant *)

(** What the server has handed to a loop. *)
Definition posted_to (l : Z) (s : server) : list task := (filter (λ x, x.1 = l) (posted s)).*2.

Lemma only_server_intents (s : EventLoop.state E (job U)) :
  only_server s → intents s = intents_of (default [] (threads s !! 0%nat)).
Proof.
  intros [Htodo Hrest]. unfold intents. rewrite Htodo. destruct (threads s) as [|l0 ls] eqn:Hls; [done|].
  assert (ls ≫= intents_of = []) as Hnil.
  { apply bind_all_nil. intros l [t Ht]%list_elem_of_lookup. by apply (Hrest t). }
  change (intents_of l0 ++ (ls ≫= intents_of) = intents_of l0). by rewrite Hnil, app_nil_r.
Qed.

Record flows (l : Z) (s : server) (ls : EventLoop.state E (job U)) : Prop := {
  flows_inv : EventLoop.inv ls;
  flows_only : only_server ls;
  flows_one : (length (intents ls) ≤ 1)%nat;
  flows_order : tasks (submitted ls) ++ intents ls = posted_to l s
}.

Lemma begin_call_flows l s s' t ls :
  flows l s ls → posted s' = posted s ++ [(l, t)] → threads ls !! 0%nat = Some [] →
  flows l s' (begin_call t ls).
Proof.
  intros [Hinv Honly _ Horder] Hpost Hidle.
  assert (Hnone : intents ls = []) by (by rewrite only_server_intents, Hidle).
  assert (Honly' : only_server (begin_call t ls)).
  { split; [apply Honly|]. intros k x Hk. cbn in Hk. rewrite list_lookup_insert_ne in Hk by done.
    by eapply Honly. }
  assert (Hint : intents (begin_call t ls) = [t]).
  { rewrite only_server_intents by done. cbn [threads begin_call set_threads].
    by rewrite list_lookup_insert_eq by by eapply lookup_lt_Some. }
  split; [|done| |].
  - eapply (EventLoop.inv_step body); [done|]. by apply (thread_call _ _ 0 (QueueInLoop (inl t))).
  - by rewrite Hint.
  - rewrite Hint. cbn [submitted begin_call set_threads]. unfold posted_to.
    rewrite Hpost, filter_app, fmap_app. fold (posted_to l s). rewrite <- Horder, Hnone, app_nil_r.
    by rewrite filter_cons_True.
Qed.

Lemma loop_step_flows l s ls ls' :
  flows l s ls → EventLoop.step body ls ls' → only_server ls' → intents ls' ⊆+ intents ls →
  flows l s ls'.
Proof.
  intros [Hinv Honly Hone Horder] Hstep Honly' Hsub. pose proof (submseteq_length _ _ Hsub) as Hlen.
  assert (Hsame : tasks (submitted ls') ++ intents ls' = tasks (submitted ls) ++ intents ls).
  { destruct (step_intents _ _ Hinv Hstep) as [[-> [fresh Hp]]|(j & -> & Hp)].
    - f_equal. apply Permutation_length in Hp as Hl. rewrite length_app in Hl.
      assert (fresh = []) as -> by (destruct fresh; cbn in Hl; [done|lia]). cbn in Hp.
      destruct (intents ls) as [|t []]; [by apply Permutation_nil_r in Hp| |cbn in Hone; lia].
      by apply Permutation_singleton_r in Hp.
    - rewrite tasks_app, <- app_assoc. f_equal. rewrite tasks_one in *.
      destruct (intents ls) as [|t []]; [by apply Permutation_nil_r in Hp| |cbn in Hone; lia].
      by apply Permutation_singleton_r in Hp. }
  split; [by eapply (EventLoop.inv_step body)|done|lia|congruence].
Qed.

Lemma other_flows l s s' k t ls :
  flows l s ls → posted s' = posted s ++ [(k, t)] → k ≠ l → flows l s' ls.
Proof.
  intros [Hinv Honly Hone Horder] Hpost Hne. split; [done..|].
  rewrite Horder. unfold posted_to. rewrite Hpost, filter_app, fmap_app.
  by rewrite filter_cons_False, app_nil_r.
Qed.

Lemma flows_new l s e n : posted_to l s = [] → flows l s (EventLoop_new e n).
Proof.
  intros Hnone.
  assert (Hint : intents (EventLoop_new (F := job U) e n) = []).
  { apply bind_all_nil. by intros x [-> _]%elem_of_replicate. }
  split.
  - apply loop_inv_new.
  - split; [done|]. intros t x Hx. cbn in Hx. by apply lookup_replicate in Hx as [-> _].
  - rewrite Hint. cbn. lia.
  - by rewrite Hnone, Hint.
Qed.

Definition inv (w : system) : Prop :=
  TcpServer.wf (srv w) ∧ ∀ l ls, loops w !! l = Some ls → flows l (srv w) ls.

Lemma inv_system_step w w' : inv w → system_step w w' → inv w'.
Proof.
  intros [Hwf Hflows] [s l t ls Hstep Hpost Hl Hidle ->|l ls ls' Hl (Hstep & Honly & Hsub) ->]; split; cbn.
  - by eapply wf_step.
  - intros k x [[<- <-]|[Hne Hx]]%lookup_insert_Some.
    + eapply begin_call_flows; [by apply Hflows|done..].
    + eapply other_flows; [by apply Hflows|done..].
  - done.
  - intros k x [[<- <-]|[Hne Hx]]%lookup_insert_Some; [|by apply Hflows].
    eapply loop_step_flows; [by apply Hflows|done..].
Qed.
End system.

(** ** Properties *)
Definition about (conn : Z) (t : task) : Prop := t = ConnectEstablished conn ∨ t = ConnectDestroyed conn.

Lemma filter_posted conn l (ps : list (Z * task)) :
  filter (about conn) ((filter (λ x, x.1 = l) ps).*2) =
  (filter (λ x, x.1 = l) (filter (λ x, about conn x.2) ps)).*2.
Proof.
  induction ps as [|[k t] ps IH]; [done|].
  destruct (decide (k = l)) as [Hk|Hk], (decide (about conn t)) as [Ht|Ht];
    repeat first [rewrite filter_cons_True by done | rewrite filter_cons_False by done
      | rewrite fmap_cons | rewrite IH]; done.
Qed.

Lemma filter_replicate_same {A} (P : A → Prop) `{∀ x, Decision (P x)} n x :
  P x → filter P (replicate n x) = replicate n x.
Proof. intros Hx. induction n as [|n IH]; [done|]. cbn [replicate]. by rewrite filter_cons_True, IH. Qed.
Lemma filter_replicate_other {A} (P : A → Prop) `{∀ x, Decision (P x)} n x :
  ¬ P x → filter P (replicate n x) = [].
Proof. intros Hx. induction n as [|n IH]; [done|]. cbn [replicate]. by rewrite filter_cons_False, IH. Qed.

Section properties.
Context {E U : Type} `{EventFdLaws E} (body : job U → list (call (job U))).

(** A loop runs queued functors in [doPendingFunctors] only. *)
Lemma executes_calling (s s' : EventLoop.state E (job U)) :
  EventLoop.step body s s' → executed s' ≠ executed s → at_ s = Calling ∧ todo s = [].
Proof.
  assert (Hexec : ∀ b i, executed (exec b i s) = executed s) by (intros b i; apply exec_frame).
  intros Hstep Hne.
  destruct Hstep as [t c Ht|t i rest Ht|i rest Ht|c Hat Ht|Hat Ht|Hat|before after Hat Hr|cs Hat|Hat Ht
    |Hat|f fs Hat Ht Hfs|Hat Ht Hfs]; try (by destruct Hne).
  - destruct Hne. apply Hexec.
  - destruct Hne. apply Hexec.
  - by destruct (m_quit s).
  - done.
Qed.

End properties.

(** ** A server with two loops, the first of which sets up a connection *)
Definition sample_loops : gmap Z (EventLoop.state N (job unit)) :=
  {[ 100 := EventLoop_new 0%N 1; 101 := EventLoop_new 0%N 1 ]}.

Definition sample_connected : server :=
  match newConnection 9 (mk_InetAddress 0 0) (mk_InetAddress 0 0) 4096 sample_started with Ok (_, s) => s | Err _ => sample_started end.

(** The loop that has run the connection's set-up. *)
Definition sample_ran : EventLoop.state N (job unit) :=
  mk_state 0%N [] true true false Calling [Invoke (inl (ConnectEstablished 4096))] [] [[WakeAfterQueue]]
    [inl (ConnectEstablished 4096)] [inl (ConnectEstablished 4096)] false.

Lemma loop_run body w l (ls ls' : EventLoop.state N (job unit)) :
  rtc (user_step body) ls ls' → loops w !! l = Some ls →
  rtc (system_step body) w (mk_system (srv w) (<[l := ls']> (loops w))).
Proof.
  intros Hrun. revert w. induction Hrun as [ls|ls ls1 ls' Hstep _ IH]; intros w Hl.
  - rewrite insert_id by done. destruct w. apply rtc_refl.
  - eapply rtc_l; [by eapply (sys_loop body)|]. set (w1 := mk_system _ _).
    specialize (IH w1 ltac:(apply lookup_insert_eq)). cbn in IH. by rewrite insert_insert_eq in IH.
Qed.

Lemma sample_loop_runs :
  rtc (user_step (λ _, [])) (begin_call (ConnectEstablished 4096) (EventLoop_new 0%N 1)) sample_ran.
Proof.
  assert (Huser : ∀ ls ls' : EventLoop.state N (job unit), EventLoop.step (λ _, []) ls ls' →
    intents_of (todo ls') = [] → length (threads ls') = 1%nat → intents ls' ⊆+ intents ls →
    user_step (λ _, []) ls ls').
  { intros ls ls' Hs Ht Hlen Hsub. split; [done|]. split; [|done]. split; [done|].
    intros t l Hl%lookup_lt_Some. lia. }
  eapply rtc_l; [by apply Huser; [by apply loop_begin|..]|].
  eapply rtc_l; [by apply Huser; [by apply loop_test|..]|].
  eapply rtc_l; [apply Huser; [by apply (thread_step _ _ 0)|done..|apply submseteq_nil_l]|].
  eapply rtc_l; [by apply Huser; [by apply (poll_other _ _ [])|..]|].
  eapply rtc_l; [by apply Huser; [by apply do_pending|..]|].
  eapply rtc_l; [by apply Huser; [by apply do_swap|..]|].
  eapply rtc_l; [by apply Huser; [by apply do_functor|..]|].
  apply rtc_refl.
Qed.

