(* ===== verification/WholeServer.v ===== *)
(** The server as a whole: [TcpServer] with its [Acceptor], the sockets, and for each
    loop its poller, its connections, the channels it is handling and the functors in
    its queue. A step is what one loop's thread does between two points where
    another thread, or the end of an object, can come in: a [poll], the handling of
    one active channel, the swap of the queue, one functor, a call of the user's, or
    the release of a connection nobody refers to. What goes on inside the queues is
    in [EventLoop]. A [TcpConnection] and its [Channel] have one address here. *)
From S2P Require Import Prelude Kfifo Channel EpollPoller TcpConnection Reactor InetAddress EventLoopThreadPool Sockets Acceptor TcpServer.
#[local] Open Scope Z_scope.

(** A functor in a loop's queue: a task of the server's, or a callback of the
    connection's user. Both hold a reference to the connection. *)
Inductive job :=
  | Task (t : task)
  | Callback (conn : Z) (f : TcpConnection.functor).

#[global] Instance functor_eq_decision : EqDecision TcpConnection.functor.
Proof. solve_decision. Defined.
#[global] Instance notification_eq_decision : EqDecision notification.
Proof. solve_decision. Defined.
#[global] Instance job_eq_decision : EqDecision job.
Proof. solve_decision. Defined.

(** A loop; the first of [active] is the channel to be handled next. *)
Record io_loop (Ke : Type) := mk_io_loop {
  reactor_of : reactor Ke;
  active : list Z;                   (** the rest of [m_activeChannels] *)
  functors : list job;               (** those [doPendingFunctors] has still to run *)
  pendingFunctors : list job
}.
Arguments mk_io_loop {Ke}.
Arguments reactor_of {Ke}.
Arguments active {Ke}.
Arguments functors {Ke}.
Arguments pendingFunctors {Ke}.

Record system (K Ke : Type) := mk_system {
  proc : process K;
  m_acceptor : Acceptor;
  srv : server;
  loops : gmap Z (io_loop Ke)
}.
Arguments mk_system {K Ke}.
Arguments proc {K Ke}.
Arguments m_acceptor {K Ke}.
Arguments srv {K Ke}.
Arguments loops {K Ke}.

Section operations.
Context {K Ke : Type} `{SocketApi K} `{Epoll Ke} {mx : MutexImpl}.
(** [__FILE__] of Acceptor.cpp, and what [InetAddress peerAddr] is at first. *)
Context (file_name : string) (default_addr : sockaddr_in).
(** How the user's callbacks react: those of a connection's events, and those that
    were queued. [wc] tells whether a write-complete callback is set. *)
Context (react : notification → conn → TcpConnection.action)
  (later : TcpConnection.functor → conn → TcpConnection.action) (wc : bool).
(** Where the next [TcpConnection] is made. *)
Context (alloc : system K Ke → Z).
Implicit Types (w : system K Ke) (here a l : Z).

(** ** Parts of the state *)
Definition on_proc {A} (m : M (process K) A) : M (system K Ke) A := λ w,
  match m (proc w) with
  | Ok (x, p) => Ok (x, mk_system p (m_acceptor w) (srv w) (loops w))
  | Err e => Err e
  end.
Definition on_srv {A} (m : M server A) : M (system K Ke) A := λ w,
  match m (srv w) with
  | Ok (x, s) => Ok (x, mk_system (proc w) (m_acceptor w) s (loops w))
  | Err e => Err e
  end.
Definition on_io l {A} (m : M (io_loop Ke) A) : M (system K Ke) A := λ w,
  match loops w !! l with
  | None => Err UseAfterFree
  | Some io =>
      match m io with
      | Ok (x, io') => Ok (x, mk_system (proc w) (m_acceptor w) (srv w) (<[l := io']> (loops w)))
      | Err e => Err e
      end
  end.
Definition in_reactor {A} (m : M (reactor Ke) A) : M (io_loop Ke) A := λ io,
  match m (reactor_of io) with
  | Ok (x, r) => Ok (x, mk_io_loop r (active io) (functors io) (pendingFunctors io))
  | Err e => Err e
  end.
Definition on_reactor l {A} (m : M (reactor Ke) A) : M (system K Ke) A := on_io l (in_reactor m).

(** The acceptor's code runs on the base loop's thread; the calls it makes of its
    callback are listed. *)
Definition on_acceptor here (m : M (world K Ke (list (Z * sockaddr_in))) unit)
    : M (system K Ke) (list (Z * sockaddr_in)) := λ w,
  match loops w !! here with
  | None => Err UseAfterFree
  | Some io =>
      match m (mk_world (proc w) (Reactor.m_poller (reactor_of io)) (m_acceptor w) []) with
      | Ok (_, v) =>
          let r := mk_reactor (Acceptor.loop v) (conns (reactor_of io)) in
          Ok (client v, mk_system (Acceptor.proc v) (Acceptor.acceptor v) (srv w)
            (<[here := mk_io_loop r (active io) (functors io) (pendingFunctors io)]> (loops w)))
      | Err e => Err e
      end
  end.

(** ** Handing work to a loop *)
Definition queue l (j : job) : M (system K Ke) unit :=
  on_io l (modify (λ io, mk_io_loop (reactor_of io) (active io) (functors io) (pendingFunctors io ++ [j]))).

(** [EventLoop::runInLoop], called on the thread of the loop [here]. *)
Definition runInLoop here (run : task → M (system K Ke) unit) (x : Z * task) : M (system K Ke) unit :=
  if x.1 =? here then run x.2 else queue x.1 (Task x.2).

(** What the server's code has just handed over. *)
Definition handed_over : M (system K Ke) (list (Z * task)) :=
  on_srv (s ← gets id; modify (set_posted []);; mret (posted s)).

(** ** Connections *)

(** [TcpServer::removeConnectionInLoop], which ends in [queueInLoop]. *)
Definition removeConnectionInLoop a : M (system K Ke) unit :=
  on_srv (TcpServer.removeConnectionInLoop a);;
  xs ← handed_over;
  for_each (λ x, queue x.1 (Task x.2)) xs.

(** [TcpServer::removeConnection], which ends in [runInLoop]; it hands over nothing
    else. *)
Definition removeConnection here a : M (system K Ke) unit :=
  on_srv (TcpServer.removeConnection a);;
  xs ← handed_over;
  for_each (runInLoop here (λ t, if t is RemoveConnectionInLoop a then removeConnectionInLoop a else mret tt)) xs.

(** What a connection's code has told its user and server, and queued. *)
Definition outbox a : M (reactor Ke) (list notification * list TcpConnection.functor) := λ r,
  match conns r !! a with
  | None => Err UseAfterFree
  | Some c =>
      Ok ((notified c, queued c),
          mk_reactor (Reactor.m_poller r) (<[a := set_notified [] (set_queued [] c)]> (conns r)))
  end.

(** Code of the connection at [a], on its loop's thread, with its calls of the poller
    and the functors it queues; what it said is returned. *)
Definition in_connection here a (op : M conn unit) : M (system K Ke) (list notification) :=
  on_reactor here (on_conn a op);;
  box ← on_reactor here (outbox a);
  for_each (λ f, queue here (Callback a f)) box.2;;
  mret box.1.

(** The same with the close callback, which is bound to [TcpServer::removeConnection]
    and is the last thing [handleClose] calls. *)
Definition on_connection here a (op : M conn unit) : M (system K Ke) unit :=
  ns ← in_connection here a op;
  for_each (λ n, if n is CloseCallback then removeConnection here a else mret tt) ns.

(** ** Tasks *)
Definition run_task here (t : task) : M (system K Ke) unit :=
  match t with
  | Listen => calls ← on_acceptor here Acceptor.listen; mret tt
  | ConnectEstablished a => on_connection here a (connectEstablished react)
  | RemoveConnectionInLoop a => removeConnectionInLoop a
  | ConnectDestroyed a => on_connection here a (connectDestroyed react)
  end.

(** [TcpServer::newConnection] with the [TcpConnection] it makes; what it does to learn
    the local address is that of [sockets::getLocalAddr], written out again. *)
Definition newConnection here (fd : Z) (peer : sockaddr_in) : M (system K Ke) unit :=
  a ← gets alloc;
  local ← on_proc (getLocalAddr fd);
  on_srv (TcpServer.newConnection fd (sin peer) (sin local) a);;
  c ← on_srv (TcpServer.deref a);
  new ← lift (TcpConnection_new fd wc false);
  on_reactor (getLoop c) (modify (add_conn a new));;
  on_proc (set_keepAlive fd true);;
  xs ← handed_over;
  for_each (runInLoop here (run_task here)) xs.

(** [Acceptor::handleRead]; the callback is the last thing it does. *)
Definition accept here : M (system K Ke) unit :=
  calls ← on_acceptor here
    (Acceptor.handleRead file_name (λ fd peer, modify (λ calls, calls ++ [(fd, peer)])) default_addr);
  for_each (λ x, newConnection here x.1 x.2) calls.

(** ** The loop *)
Definition callback here a (r : read_result) (wr : write_result) (x : handler * option Z)
    : M (system K Ke) unit :=
  match x.1 with
  | HandleRead | HandleWrite | HandleClose | HandleError => on_connection here a (run_handler react r wr x)
  | AcceptorHandleRead => accept here
  | LoopHandleRead | TimerHandleRead => mret tt      (* in EventLoop and TimerQueue *)
  end.

Definition poll here (filled : list epoll_event) : M (system K Ke) unit :=
  activeChannels ← on_reactor here (on_poller (EpollPoller.poll (inr filled) []));
  on_io here (modify (λ io, mk_io_loop (reactor_of io) activeChannels (functors io) (pendingFunctors io))).

(** [handleEvent] of the next active channel. *)
Definition handleEvent here (t : Z) (r : read_result) (wr : write_result) : M (system K Ke) unit :=
  activeChannels ← on_io here (gets active);
  match activeChannels with
  | [] => mret tt
  | a :: rest =>
      on_io here (modify (λ io, mk_io_loop (reactor_of io) rest (functors io) (pendingFunctors io)));;
      ch ← on_reactor here (on_poller (EpollPoller.deref a));
      for_each (callback here a r wr) (dispatched t ch)
  end.

Definition doPendingFunctors here : M (system K Ke) unit :=
  on_io here (modify (λ io, mk_io_loop (reactor_of io) (active io) (pendingFunctors io) [])).

Definition run_job here (j : job) : M (system K Ke) unit :=
  match j with
  | Task t => run_task here t
  | Callback a f => on_connection here a (c ← gets id; run_action (later f c))
  end.

(** [functor()] for the next of the batch. *)
Definition run_functor here : M (system K Ke) unit :=
  batch ← on_io here (gets functors);
  match batch with
  | [] => mret tt
  | j :: rest =>
      on_io here (modify (λ io, mk_io_loop (reactor_of io) (active io) rest (pendingFunctors io)));;
      run_job here j
  end.

(** The last reference goes: [~TcpConnection], which destroys the channel and closes
    the socket. *)
Definition release a : M (system K Ke) unit :=
  c ← on_srv (TcpServer.deref a);
  on_reactor (getLoop c) (modify (free_conn a));;
  on_proc (Socket_destroy (sockfd c));;
  on_srv (modify (λ s, set_connections (delete a (connections s)) s)).

(** ** Steps *)
Inductive event :=
  | Poll here (filled : list epoll_event)
  | HandleEvent here (t : Z) (r : read_result) (wr : write_result)
  | DoPendingFunctors here
  | RunFunctor here
  | UserCall here a (act : TcpConnection.action)
  | Release a.

Definition exec (e : event) : M (system K Ke) unit :=
  match e with
  | Poll here filled => poll here filled
  | HandleEvent here t r wr => handleEvent here t r wr
  | DoPendingFunctors here => doPendingFunctors here
  | RunFunctor here => run_functor here
  | UserCall here a act => on_connection here a (run_action act)
  | Release a => release a
  end.

Definition about (j : job) : option Z :=
  match j with
  | Task Listen => None
  | Task (ConnectEstablished a) | Task (RemoveConnectionInLoop a) | Task (ConnectDestroyed a)
  | Callback a _ => Some a
  end.

(** The functors a loop has still to run. *)
Definition jobs w l : list job :=
  match loops w !! l with Some io => functors io ++ pendingFunctors io | None => [] end.

(** Neither the map nor a queue refers to the connection. *)
Definition unreferenced w a : Prop :=
  (∀ n, m_connections (srv w) !! n ≠ Some a) ∧ ∀ l j, j ∈ jobs w l → about j ≠ Some a.

(** When a step can happen. A loop polls, then handles what is active, then runs its
    functors. The user calls [send] or [shutdown] through a reference it holds. *)
Definition enabled (E : fault → Prop) w (e : event) : Prop :=
  match e with
  | Poll here filled => ∃ io, loops w !! here = Some io ∧ active io = [] ∧ functors io = [] ∧
      epoll_wait_ok (Reactor.m_poller (reactor_of io)) (inr filled)
  | HandleEvent here _ _ _ => ∃ io, loops w !! here = Some io ∧ active io ≠ []
  | DoPendingFunctors here => ∃ io, loops w !! here = Some io ∧ active io = [] ∧ functors io = []
  | RunFunctor here => ∃ io, loops w !! here = Some io ∧ active io = [] ∧ functors io ≠ []
  | UserCall here a act => tame E act ∧ ∃ io, loops w !! here = Some io ∧ is_Some (conns (reactor_of io) !! a)
  | Release a => is_Some (connections (srv w) !! a) ∧ unreferenced w a
  end.

Definition step (E : fault → Prop) w w' : Prop := ∃ e, enabled E w e ∧ exec e w = Ok (tt, w').
End operations.
