(* ===== verification/ServerStages.v ===== *)
(** What holds of the whole server between two steps, and how the operations of one
    connection move it from one stage of its life to the next. *)
From S2P Require Import Prelude Kfifo Channel EpollPoller TcpConnection Reactor InetAddress EventLoopThreadPool Sockets Acceptor TcpServer WholeServer.
#[local] Open Scope Z_scope.

(** ** Invariant *)

(** How often [j] is among [js]. *)
Definition occ (j : job) (js : list job) : nat := length (filter (λ x, x = j) js).

Lemma occ_app j js js' : occ j (js ++ js') = (occ j js + occ j js')%nat.
Proof. unfold occ. by rewrite filter_app, length_app. Qed.
Lemma occ_cons j x js : occ j (x :: js) = ((if decide (x = j) then 1 else 0) + occ j js)%nat.
Proof. unfold occ. rewrite filter_cons. by case_decide. Qed.
Lemma occ_one j x : occ j [x] = if decide (x = j) then 1%nat else 0%nat.
Proof. rewrite occ_cons. by case_decide. Qed.
Lemma occ_other j x : about j ≠ about x → occ j [x] = 0%nat.
Proof. intros Hne. rewrite occ_cons. case_decide; [by subst|done]. Qed.
Lemma occ_if (P : Prop) `{Decision P} j x :
  occ j (if decide P then [x] else []) = if decide (P ∧ x = j) then 1%nat else 0%nat.
Proof.
  destruct (decide P); [rewrite occ_one|]; repeat case_decide; naive_solver.
Qed.
Lemma occ_elem j js : (0 < occ j js)%nat ↔ j ∈ js.
Proof.
  unfold occ. split.
  - destruct (filter _ js) as [|x l] eqn:Hf; cbn; [lia|]. intros _.
    assert (x ∈ filter (λ x, x = j) js) as Hx by (rewrite Hf; left).
    by apply list_elem_of_filter in Hx as [-> ?].
  - intros Hj. assert (j ∈ filter (λ x, x = j) js) as Hx by by apply list_elem_of_filter.
    destruct (filter _ js); [by apply not_elem_of_nil in Hx|cbn; lia].
Qed.

(** A connection's channel, and those of acceptor, loop and timer queue. *)
Definition own_handlers (ch : Channel handler) : Prop :=
  m_readCallBack ch = Some HandleRead ∧ m_writeCallBack ch = Some HandleWrite ∧
  m_errorCallBack ch = Some HandleError ∧ m_closeCallBack ch = Some HandleClose.
Definition other_handlers (ch : Channel handler) : Prop :=
  m_readCallBack ch ∈ Some <$> [AcceptorHandleRead; LoopHandleRead; TimerHandleRead] ∧
  m_writeCallBack ch = None ∧ m_errorCallBack ch = None ∧ m_closeCallBack ch = None.

(** The life of a connection, as the server goes through it: made, set up, closed but
    still in the map, out of the map, out of its poller. *)
Inductive life := Unborn | Connecting | Up | Closing | Leaving | Gone.

#[global] Instance life_eq_decision : EqDecision life.
Proof. solve_decision. Defined.

Inductive next_life : life → life → Prop :=
  | born : next_life Unborn Connecting
  | comes_up : next_life Connecting Up
  | closes : next_life Up Closing
  | leaves : next_life Closing Leaving
  | is_over : next_life Leaving Gone.

(** What is allowed of a connection's life, and stays so as it goes on. *)
Class Onward (allowed : Z → life → Prop) : Prop := onward a s s' :
  next_life s s' → allowed a s → allowed a s'.
#[export] Instance onward_any : Onward (λ _ _, True).
Proof. done. Qed.

(** How the user's callbacks react: with calls that only such faults can stop. *)
Class Reacts {mx : MutexImpl} (E : fault → Prop) (react : notification → conn → TcpConnection.action) : Prop :=
  react_tame n d : tame E (react n d).

Section invariant.
Context {K Ke : Type} `{SocketLaws K} `{EpollLaws Ke} {mx : MutexImpl}.
(** The descriptors of the rest of the program, and the listening one. *)
Context {others : gmap Z file} {listenfd : Z}.
Context {allowed : Z → life → Prop} `{!Onward allowed}.
Implicit Types (w : system K Ke) (l a : Z) (io : io_loop Ke) (c : connection).

Definition base w : Z := m_baseLoop (m_threadPool (srv w)).
Definition open_fds w : gmap Z file := files (net (proc w)).
Definition mapped w a c : Prop := m_connections (srv w) !! name c = Some a.

Definition set_loop l io w : system K Ke :=
  mk_system (proc w) (m_acceptor w) (srv w) (<[l := io]> (loops w)).
Definition with_srv s w : system K Ke := mk_system (proc w) (m_acceptor w) s (loops w).

(** The connection at [a] is in the loop [l], in the phase [P]. *)
Definition conn_phase (P : Z → Z → Z → conn → Prop) w l a : Prop :=
  ∃ io, loops w !! l = Some io ∧ conn_in P a (reactor_of io).

(** A loop by itself: its connections and its poller agree, the channels still to be
    handled exist, and nothing a connection said or queued is forgotten. *)
Record loop_ok io : Prop := {
  lo_reactor : Reactor.inv (reactor_of io);
  lo_active a : a ∈ active io → dispatchable (reactor_of io) a;
  lo_said a d : conns (reactor_of io) !! a = Some d → notified d = [] ∧ TcpConnection.queued d = []
}.

(** Functors are in the right queue, and what they refer to exists. *)
Definition located (s : server) l (j : job) : Prop :=
  match j with
  | Task Listen => False
  | Task (RemoveConnectionInLoop a) => l = m_baseLoop (m_threadPool s) ∧ is_Some (connections s !! a)
  | Task (ConnectEstablished a) | Task (ConnectDestroyed a) | Callback a _ =>
      ∃ c, connections s !! a = Some c ∧ getLoop c = l
  end.

(** The sockets: the descriptors open are [others], [listenfd] and one for each
    connection. *)
Record sockets_ok (fs : gmap Z file) (cs : gmap Z connection) : Prop := {
  so_others d f : others !! d = Some f → d ≠ listenfd ∧ fs !! d = Some f;
  so_listen : is_Some (fs !! listenfd);
  so_conn a c : cs !! a = Some c → sockfd c ≠ listenfd ∧ others !! sockfd c = None ∧
    ∃ f peer, fs !! sockfd c = Some f ∧ nonblocking f = true ∧ peer_addr f = Some peer ∧
      sin peer = peerAddress c;
  so_inj a b c d : cs !! a = Some c → cs !! b = Some d → sockfd c = sockfd d → a = b;
  so_all d : is_Some (fs !! d) →
    is_Some (others !! d) ∨ d = listenfd ∨ ∃ a c, cs !! a = Some c ∧ sockfd c = d
}.

(** The server's own tables. *)
Record names_ok (s : server) : Prop := {
  na_name a c : connections s !! a = Some c →
    ∃ i, 1 ≤ i < m_nextConnId s ∧ name c = conn_name (m_ipPort s) (m_serverName s) i;
  na_inj a b c d : connections s !! a = Some c → connections s !! b = Some d → name c = name d → a = b;
  na_map n a : m_connections s !! n = Some a → ∃ c, connections s !! a = Some c ∧ name c = n
}.

(** What a channel is for: a connection's, or on a descriptor of the program's own. *)
Definition channel_ok io a (ch : Channel handler) : Prop :=
  match conns (reactor_of io) !! a with
  | Some _ => own_handlers ch
  | None => other_handlers ch ∧ (is_Some (others !! m_fd ch) ∨ m_fd ch = listenfd)
  end.

(** All but where the single connections are in their lives. *)
Record frame w : Prop := {
  fr_loop l io : loops w !! l = Some io → loop_ok io;
  fr_pool l : l ∈ base w :: getAllLoops (m_threadPool (srv w)) → is_Some (loops w !! l);
  fr_can : can_connect (srv w);
  fr_posted : posted (srv w) = [];
  fr_conn a c : connections (srv w) !! a = Some c →
    ∃ io ch, loops w !! getLoop c = Some io ∧ is_Some (conns (reactor_of io) !! a) ∧
      channels (Reactor.m_poller (reactor_of io)) !! a = Some ch ∧ m_fd ch = sockfd c;
  fr_own l io a : loops w !! l = Some io → is_Some (conns (reactor_of io) !! a) →
    ∃ c, connections (srv w) !! a = Some c ∧ getLoop c = l;
  fr_chan l io a ch : loops w !! l = Some io →
    channels (Reactor.m_poller (reactor_of io)) !! a = Some ch → channel_ok io a ch;
  fr_names : names_ok (srv w);
  fr_job l j : j ∈ jobs w l → located (srv w) l j;
  fr_sockets : sockets_ok (open_fds w) (connections (srv w));
  fr_unborn a : connections (srv w) !! a = None → allowed a Unborn
}.

(** The functors in the queues that will set up and take down a connection. *)
Definition established_jobs w a c : nat := occ (Task (ConnectEstablished a)) (jobs w (getLoop c)).
Definition remove_jobs w a : nat := occ (Task (RemoveConnectionInLoop a)) (jobs w (base w)).
Definition destroyed_jobs w a c : nat := occ (Task (ConnectDestroyed a)) (jobs w (getLoop c)).

(** These functors, the connection's phase and whether the server's map has it, at
    each time of its life. *)
Definition at_life (s : life) w a c : Prop :=
  let l := getLoop c in
  match s with
  | Unborn => False
  | Connecting => conn_phase is_new w l a ∧ mapped w a c ∧
      established_jobs w a c = 1%nat ∧ remove_jobs w a = 0%nat ∧ destroyed_jobs w a c = 0%nat
  | Up => conn_phase is_open w l a ∧ mapped w a c ∧
      established_jobs w a c = 0%nat ∧ remove_jobs w a = 0%nat ∧ destroyed_jobs w a c = 0%nat
  | Closing => conn_phase is_closed w l a ∧ mapped w a c ∧
      established_jobs w a c = 0%nat ∧ (0 < remove_jobs w a)%nat ∧ destroyed_jobs w a c = 0%nat
  | Leaving => conn_phase is_closed w l a ∧ ¬ mapped w a c ∧
      established_jobs w a c = 0%nat ∧ (0 < destroyed_jobs w a c)%nat
  | Gone => conn_phase is_gone w l a ∧ ¬ mapped w a c ∧ established_jobs w a c = 0%nat
  end.

Definition stage w a c : Prop := ∃ s, at_life s w a c ∧ allowed a s.

(** The invariant, but for the connection a step is about. *)
Definition inv_but (x : option Z) w : Prop :=
  frame w ∧ ∀ a c, Some a ≠ x → connections (srv w) !! a = Some c → stage w a c.

(** *** Changes of one loop *)

Lemma jobs_set_loop w l l' io :
  jobs (set_loop l io w) l' = if decide (l' = l) then functors io ++ pendingFunctors io else jobs w l'.
Proof.
  unfold jobs. cbn. case_decide; [subst; by rewrite lookup_insert_eq|by rewrite lookup_insert_ne].
Qed.

Lemma jobs_at w l io : loops w !! l = Some io → jobs w l = functors io ++ pendingFunctors io.
Proof. intros Hl. unfold jobs. by rewrite Hl. Qed.

(** The purposes of channels, looked up. *)
Lemma purpose_lookup (m m' : gmap Z (Channel handler)) a ch' :
  purpose <$> m' = purpose <$> m → m' !! a = Some ch' →
  ∃ ch, m !! a = Some ch ∧ purpose ch' = purpose ch.
Proof.
  intros Hm Ha. assert (Hp : (purpose <$> m) !! a = Some (purpose ch')).
  { by rewrite <- Hm, lookup_fmap, Ha. }
  rewrite lookup_fmap in Hp. destruct (m !! a) as [ch|]; [|done]. injection Hp as Hp.
  exists ch. split; [done|]. unfold purpose. congruence.
Qed.

Lemma channel_ok_purpose io io' a ch ch' :
  (is_Some (conns (reactor_of io') !! a) ↔ is_Some (conns (reactor_of io) !! a)) →
  purpose ch' = purpose ch → channel_ok io a ch → channel_ok io' a ch'.
Proof.
  unfold channel_ok, own_handlers, other_handlers, purpose. intros Hs [= E1 E2 E3 E4 E5].
  rewrite E1, E2, E3, E4, E5.
  destruct (conns (reactor_of io) !! a), (conns (reactor_of io') !! a); try done.
  - by destruct (proj2 Hs ltac:(by eexists)).
  - by destruct (proj1 Hs ltac:(by eexists)).
Qed.

(** The frame when one loop has changed, with the same connections and channels. *)
Lemma frame_loop w l io io' :
  frame w → loops w !! l = Some io → loop_ok io' →
  (∀ a, is_Some (conns (reactor_of io') !! a) ↔ is_Some (conns (reactor_of io) !! a)) →
  purpose <$> channels (Reactor.m_poller (reactor_of io')) =
    purpose <$> channels (Reactor.m_poller (reactor_of io)) →
  (∀ j, j ∈ functors io' ++ pendingFunctors io' → located (srv w) l j) →
  frame (set_loop l io' w).
Proof.
  intros Hfr Hl Hok Hconns Hch Hjobs. split; cbn [set_loop loops srv]; try apply Hfr.
  - intros l' x [[<- <-]|[_ Hx]]%lookup_insert_Some; [done|by apply (fr_loop _ Hfr l')].
  - intros l' Hl'. apply lookup_insert_is_Some'. right. by apply (fr_pool _ Hfr).
  - intros a c Hc. destruct (fr_conn _ Hfr a c Hc) as (x & ch & Hx & Hs & Ha & Hfd).
    destruct (decide (l = getLoop c)) as [E|Hne].
    + rewrite <- E in Hx |- *. simplify_eq. exists io'. rewrite lookup_insert_eq.
      destruct (purpose_lookup _ _ a ch (eq_sym Hch) Ha) as (ch' & Ha' & Hp). exists ch'.
      split_and!; [done|by apply Hconns|done|]. unfold purpose in Hp. congruence.
    + exists x, ch. by rewrite lookup_insert_ne.
  - intros l' x a [[<- <-]|[_ Hx]]%lookup_insert_Some Hs; [|by apply (fr_own _ Hfr l' x)].
    apply (fr_own _ Hfr l io); [done|]. by apply Hconns.
  - intros l' x a ch [[<- <-]|[_ Hx]]%lookup_insert_Some Ha; [|by apply (fr_chan _ Hfr l')].
    destruct (purpose_lookup _ _ a ch Hch Ha) as (ch0 & Ha0 & Hp).
    apply (channel_ok_purpose io io' a ch0 ch); [done..|]. by apply (fr_chan _ Hfr l).
  - intros l' j. rewrite jobs_set_loop. case_decide; [subst; apply Hjobs|apply (fr_job _ Hfr)].
Qed.

(** *** Functors come and go *)

(** Only functors about [x] differ. *)
Definition same_jobs (x : option Z) w w' : Prop :=
  ∀ l j, about j ≠ x → occ j (jobs w' l) = occ j (jobs w l).

(** Connections other than [x] are where they were. *)
Definition same_phases (x : option Z) w w' : Prop :=
  ∀ P l a, Some a ≠ x → conn_phase P w l a → conn_phase P w' l a.

Lemma stage_same x w w' a c :
  Some a ≠ x → same_jobs x w w' → same_phases x w w' → base w' = base w →
  (mapped w' a c ↔ mapped w a c) → stage w a c → stage w' a c.
Proof.
  intros Hne Hjobs Hph Hbase Hmap (s & Hs & Ha). exists s. split; [|done]. revert Hs.
  unfold at_life, established_jobs, remove_jobs, destroyed_jobs.
  destruct s; [done|rewrite ?Hbase, !Hjobs, !Hmap by done; intros (? & ?); (split; [by apply Hph|done])..].
Qed.

(** The same connections, but for what their loops have in their queues. *)
Lemma conn_phase_loop P w l l' io io' a :
  loops w !! l = Some io → reactor_of io' = reactor_of io →
  conn_phase P (set_loop l io' w) l' a ↔ conn_phase P w l' a.
Proof.
  intros Hl Hr. unfold conn_phase. cbn. destruct (decide (l' = l)) as [->|Hne].
  - rewrite lookup_insert_eq. split; intros (x & Hx & Hp); simplify_eq.
    + exists io. by rewrite <- Hr.
    + exists io'. by rewrite Hr.
  - by rewrite lookup_insert_ne.
Qed.

Lemma loop_ok_queue io fs ps :
  loop_ok io → loop_ok (mk_io_loop (reactor_of io) (active io) fs ps).
Proof. by intros []. Qed.

(** The queues of a loop replaced. *)
Lemma inv_queues x w l io fs ps :
  inv_but x w → loops w !! l = Some io →
  let w' := set_loop l (mk_io_loop (reactor_of io) (active io) fs ps) w in
  (∀ j, j ∈ fs ++ ps → located (srv w) l j) →
  (∀ j, about j ≠ x → occ j (fs ++ ps) = occ j (jobs w l)) →
  inv_but x w' ∧ ∀ P l' a, conn_phase P w' l' a ↔ conn_phase P w l' a.
Proof.
  intros [Hfr Hst] Hl w' Hloc Hocc.
  assert (Hph : ∀ P l' a, conn_phase P w' l' a ↔ conn_phase P w l' a).
  { intros P l' a. by apply (conn_phase_loop P w l l' io). }
  split; [|done]. split.
  - apply (frame_loop w l io); try done. by apply loop_ok_queue, (fr_loop _ Hfr l).
  - intros a c Hne Hc. apply (stage_same x w); [done| |by intros P l' b _ ?%Hph|done|done|by apply Hst].
    intros l' j Hj. unfold w'. rewrite jobs_set_loop. case_decide; [subst|done]. by apply Hocc.
Qed.

(** A loop changed, but for its functors; only the connection [x] may be in another
    phase. *)
Lemma inv_loop x w l io io' :
  inv_but x w → loops w !! l = Some io → loop_ok io' →
  (∀ a, is_Some (conns (reactor_of io') !! a) ↔ is_Some (conns (reactor_of io) !! a)) →
  purpose <$> channels (Reactor.m_poller (reactor_of io')) =
    purpose <$> channels (Reactor.m_poller (reactor_of io)) →
  functors io' ++ pendingFunctors io' = functors io ++ pendingFunctors io →
  (∀ P b, Some b ≠ x → conn_in P b (reactor_of io) → conn_in P b (reactor_of io')) →
  inv_but x (set_loop l io' w) ∧ ∀ k, jobs (set_loop l io' w) k = jobs w k.
Proof.
  intros [Hfr Hst] Hl Hok Hconns Hch Hq Hph.
  assert (Hjobs : ∀ k, jobs (set_loop l io' w) k = jobs w k).
  { intros k. rewrite jobs_set_loop, Hq. case_decide; [subst|done]. by rewrite (jobs_at w _ io Hl). }
  split; [|done]. split.
  - apply (frame_loop w l io); try done. intros j. rewrite Hq, <- (jobs_at w l io Hl). apply (fr_job _ Hfr).
  - intros a c Hne Hc. apply (stage_same x w); [done|by intros k j _; rewrite Hjobs| |done|done|by apply Hst].
    intros P k b Hb (y & Hy & Hp). destruct (decide (l = k)) as [<-|Hk].
    + simplify_eq. exists io'. cbn. rewrite lookup_insert_eq. split; [done|by apply Hph].
    + exists y. cbn. by rewrite lookup_insert_ne.
Qed.

Definition queued l (j : job) io : io_loop Ke :=
  mk_io_loop (reactor_of io) (active io) (functors io) (pendingFunctors io ++ [j]).

Lemma queue_ok x w l io j :
  inv_but x w → loops w !! l = Some io → located (srv w) l j → about j = x →
  let w' := set_loop l (queued l j io) w in
  queue l j w = Ok (tt, w') ∧ inv_but x w' ∧ (∀ P l' a, conn_phase P w' l' a ↔ conn_phase P w l' a) ∧
  ∀ l', jobs w' l' = jobs w l' ++ (if decide (l' = l) then [j] else []).
Proof.
  intros Hinv Hl Hloc Hj w'. split; [unfold queue, on_io; by rewrite Hl|].
  apply and_assoc. split.
  - apply inv_queues; [done|done|..].
    + intros j'. rewrite app_assoc, elem_of_app, list_elem_of_singleton, <- (jobs_at w l io Hl).
      intros [?| ->]; [by apply (fr_job _ (proj1 Hinv))|done].
    + intros j' Hne. rewrite app_assoc, occ_app, <- (jobs_at w l io Hl), (occ_other j' j); [lia|congruence].
  - intros l'. unfold w'. rewrite jobs_set_loop. case_decide; [subst|by rewrite app_nil_r].
    cbn. by rewrite (jobs_at w l io Hl), app_assoc.
Qed.

Definition popped fs io : io_loop Ke := mk_io_loop (reactor_of io) (active io) fs (pendingFunctors io).

Lemma pop_ok w l io j fs :
  inv_but None w → loops w !! l = Some io → functors io = j :: fs →
  let w' := set_loop l (popped fs io) w in
  inv_but (about j) w' ∧ (∀ P l' a, conn_phase P w' l' a ↔ conn_phase P w l' a) ∧
  jobs w l = j :: jobs w' l ∧ ∀ l', l' ≠ l → jobs w' l' = jobs w l'.
Proof.
  intros [Hfr Hst] Hl Hf w'.
  assert (Hinv : inv_but (about j) w) by (split; [done|]; intros a c _; by apply Hst).
  apply and_assoc. split.
  - apply inv_queues; [done|done|..].
    + intros j' Hj'. apply (fr_job _ Hfr). rewrite (jobs_at w l io Hl), Hf. by right.
    + intros j' Hne. rewrite (jobs_at w l io Hl), Hf. cbn [app]. rewrite occ_cons.
      case_decide; [by subst|done].
  - unfold w'. rewrite (jobs_at w l io Hl), Hf, jobs_set_loop, decide_True by done. split; [done|].
    intros l' Hne. by rewrite jobs_set_loop, decide_False.
Qed.

(** *** Code of one connection *)

(** A phase says nothing of what was said or queued. *)
Class Silent (P : Z → Z → Z → conn → Prop) : Prop := still i e fd d :
  P i e fd d → P i e fd (set_notified [] (set_queued [] d)).
#[local] Instance silent_new : Silent is_new. Proof. by intros ????. Qed.
#[local] Instance silent_open : Silent is_open. Proof. by intros ????. Qed.
#[local] Instance silent_closed : Silent is_closed. Proof. by intros ????. Qed.
#[local] Instance silent_gone : Silent is_gone. Proof. by intros ????. Qed.
#[local] Instance silent_settled : Silent settled. Proof. by intros ????. Qed.
#[local] Instance silent_live : Silent is_live. Proof. by intros ????. Qed.

Definition emptied a d (r : reactor Ke) : reactor Ke :=
  mk_reactor (Reactor.m_poller r) (<[a := set_notified [] (set_queued [] d)]> (conns r)).

Lemma emptied_ok a d (r : reactor Ke) :
  Reactor.inv r → conns r !! a = Some d →
  Reactor.inv (emptied a d r) ∧ ∀ P, Silent P → conn_in P a r → conn_in P a (emptied a d r).
Proof.
  intros Hinv Hd. split; [split; [apply Hinv|]|]; cbn.
  - intros b x [[<- <-]|[_ Hx]]%lookup_insert_Some; [|by apply (inv_conn _ Hinv)].
    destruct (inv_conn _ Hinv a d Hd) as (ch & Ha & Hs). exists ch. split; [done|].
    by apply (silent_settled _ _ _ _ Hs).
  - intros P HP (x & ch & Hx & Ha & Hp). simplify_eq. eexists _, ch. cbn.
    rewrite lookup_insert_eq. split_and!; [done..|]. by apply (HP _ _ _ _ Hp).
Qed.

Section code.
Context {E : fault → Prop} `{!Tolerates E}.

(** Operation [op] brings a connection from [P] to a phase that depends on whether it
    called the close callback. *)
Definition leads (P : Z → Z → Z → conn → Prop) (op : M conn unit) (Q : bool → Z → Z → Z → conn → Prop)
    : Prop :=
  ∀ i e fd d, P i e fd d → notified d = [] →
    wp op (λ _ d', Q (bool_decide (CloseCallback ∈ notified d')) i e fd d') E d.

Lemma on_conn_run P (Q : bool → Z → Z → Z → conn → Prop) op (r : reactor Ke) a d :
  (∀ b, Rebase (Q b)) → (∀ b i e fd d, Q b i e fd d → settled i e fd d) → leads P op Q →
  Reactor.inv r → conns r !! a = Some d → notified d = [] → conn_in P a r →
  wp (on_conn a op) (λ _ r', Reactor.inv r' ∧ others_same a r r' ∧
      ∃ d', conns r' !! a = Some d' ∧ conn_in (Q (bool_decide (CloseCallback ∈ notified d'))) a r') E r.
Proof.
  intros HQr HQs Hop Hinv Hd Hsaid HP.
  pose (P' := λ i e fd d, P i e fd d ∧ notified d = []).
  pose (Q' := λ i e fd d, Q (bool_decide (CloseCallback ∈ notified d)) i e fd d).
  assert (Rebase Q') by (intros i e fd x Hx; by apply HQr).
  eapply wp_mono; [apply (on_conn_wp E P' Q' op r a Hinv)|].
  - destruct HP as (x & ch & Hx & Ha & Hp). simplify_eq. exists d, ch. by split_and!.
  - intros i e fd x Hx. by eapply HQs.
  - intros i e fd x [Hp Hn]. by apply Hop.
  - intros [] r' (Hinv' & (d' & ch & Hd' & Ha & Hq) & Hsame). split_and!; [done..|].
    exists d'. split; [done|]. by exists d', ch.
Qed.

(** The loop after it, when what the connection said has been taken. *)
Lemma loop_ok_emptied P io a d d1 r1 :
  loop_ok io → Reactor.inv (emptied a d1 r1) → others_same a (reactor_of io) r1 →
  conns (reactor_of io) !! a = Some d → conn_in P a (emptied a d1 r1) →
  (a ∈ active io → ∀ i e fd x, P i e fd x → is_live i e fd x) →
  let r2 := emptied a d1 r1 in
  loop_ok (mk_io_loop r2 (active io) (functors io) (pendingFunctors io)) ∧
  (∀ x, is_Some (conns r2 !! x) ↔ is_Some (conns (reactor_of io) !! x)) ∧
  ∀ x, x ≠ a → conns r2 !! x = conns (reactor_of io) !! x ∧
    channels (Reactor.m_poller r2) !! x = channels (Reactor.m_poller (reactor_of io)) !! x.
Proof.
  intros [Hinv Hdisp Hsaid] Hinv2 [_ Hsame] Hd HP Hact r2.
  assert (Hsame2 : ∀ x, x ≠ a → conns r2 !! x = conns (reactor_of io) !! x ∧
    channels (Reactor.m_poller r2) !! x = channels (Reactor.m_poller (reactor_of io)) !! x).
  { intros x Hx. cbn. rewrite lookup_insert_ne by done. by apply Hsame. }
  split; [|split; [|done]].
  - split; cbn [reactor_of active]; [done|..].
    + intros x Hx. destruct (decide (x = a)) as [->|Hne].
      * destruct HP as (z & ch & Hz & Hch & Hp). split; [by eexists|]. intros y _.
        exists z, ch. split_and!; [done..|]. by apply (Hact Hx).
      * destruct (Hdisp x Hx) as [Hch Hlive]. destruct (Hsame2 x Hne) as [E1 E2].
        split; [by rewrite E2|]. intros y Hy. rewrite E1 in Hy. unfold conn_in. rewrite E1, E2. by eapply Hlive.
    + intros x y Hy. destruct (decide (x = a)) as [->|Hne].
      * cbn in Hy. rewrite lookup_insert_eq in Hy. by injection Hy as <-.
      * rewrite (proj1 (Hsame2 x Hne)) in Hy. by apply (Hsaid x).
  - intros x. destruct (decide (x = a)) as [->|Hne]; [|by rewrite (proj1 (Hsame2 x Hne))].
    cbn. rewrite lookup_insert_eq, Hd. split; by eexists.
Qed.

(** What it has queued is queued. *)
Lemma queue_callbacks_wp P here a c fs w :
  inv_but (Some a) w → connections (srv w) !! a = Some c → getLoop c = here → conn_phase P w here a →
  wp (for_each (λ f, queue here (Callback a f)) fs)
    (λ _ w', inv_but (Some a) w' ∧ srv w' = srv w ∧ conn_phase P w' here a ∧
       ∀ l t, occ (Task t) (jobs w' l) = occ (Task t) (jobs w l)) E w.
Proof.
  intros Hinv Hc Hl Hp. apply (wp_for_each (λ _ w', inv_but (Some a) w' ∧ srv w' = srv w ∧
    conn_phase P w' here a ∧ ∀ l t, occ (Task t) (jobs w' l) = occ (Task t) (jobs w l))); [by split_and!|].
  intros f fs' w1 (Hinv1 & Hsrv1 & (io & Hio & HP) & Hocc).
  destruct (queue_ok (Some a) w1 here io (Callback a f)) as (Hrun & Hinv2 & Hph & Hjobs); [done..| |done|].
  { cbn. exists c. by rewrite Hsrv1. }
  unfold wp. rewrite Hrun. split_and!; [done|done|apply Hph; by exists io|].
  intros l t. rewrite Hjobs, occ_app, Hocc. case_decide; [|cbn; lia]. rewrite occ_cons.
  case_decide; [done|cbn; lia].
Qed.

Lemma in_connection_wp P Q op here a c w :
  (∀ b, Rebase (Q b)) → (∀ b, Silent (Q b)) → (∀ b i e fd d, Q b i e fd d → settled i e fd d) →
  leads P op Q →
  inv_but (Some a) w → connections (srv w) !! a = Some c → getLoop c = here → conn_phase P w here a →
  (∀ io, loops w !! here = Some io → a ∈ active io → ∀ b i e fd d, Q b i e fd d → is_live i e fd d) →
  wp (in_connection here a op)
    (λ ns w', inv_but (Some a) w' ∧ srv w' = srv w ∧
       conn_phase (Q (bool_decide (CloseCallback ∈ ns))) w' here a ∧
       ∀ l t, occ (Task t) (jobs w' l) = occ (Task t) (jobs w l)) E w.
Proof.
  intros HQr HQsl HQs Hop [Hfr Hst] Hc Hl (io & Hio & HP) Hact. specialize (Hact io Hio).
  pose proof (fr_loop _ Hfr _ _ Hio) as Hok. pose proof HP as (d & _ & Hd & _).
  unfold in_connection, on_reactor. apply wp_bind. unfold wp at 1, on_io, in_reactor. rewrite Hio.
  pose proof (on_conn_run P Q op _ a d HQr HQs Hop (lo_reactor _ Hok) Hd (proj1 (lo_said _ Hok _ _ Hd)) HP) as Hrun.
  unfold wp in Hrun. destruct (on_conn a op (reactor_of io)) as [[[] r1]|e]; [|done].
  destruct Hrun as (Hinv1 & Hsame & d1 & Hd1 & HQ1).
  apply wp_bind. unfold wp at 1. cbn [loops]. rewrite lookup_insert_eq. unfold outbox. cbn [reactor_of].
  rewrite Hd1. cbn [fst snd]. rewrite insert_insert_eq.
  destruct (emptied_ok a d1 r1 Hinv1 Hd1) as [Hinv2 Hph2]. fold (emptied a d1 r1).
  set (io2 := mk_io_loop (emptied a d1 r1) _ _ _). fold (set_loop here io2 w).
  set (b := bool_decide _) in *. set (w2 := set_loop here io2 w).
  assert (HQ2 : conn_in (Q b) a (emptied a d1 r1)) by by apply Hph2.
  destruct (loop_ok_emptied (Q b) io a d d1 r1 Hok Hinv2 Hsame Hd HQ2) as (Hok2 & Hconns2 & Hsame2).
  { intros Ha. by apply Hact. }
  destruct (inv_loop (Some a) w here io io2) as [Hinv3 Hjobs3]; try done; [apply Hsame|..].
  { intros P' x Hx. destruct (Hsame2 x ltac:(congruence)) as [E1 E2]. unfold conn_in. cbn [reactor_of io2].
    by rewrite E1, E2. }
  fold w2 in Hinv3, Hjobs3. apply wp_bind. eapply wp_mono.
  { apply (queue_callbacks_wp (Q b) here a c _ w2); try done. exists io2. unfold w2. cbn. by rewrite lookup_insert_eq. }
  intros [] w3 (? & ? & ? & Hocc). apply wp_ret. split_and!; [done..|]. intros l t. by rewrite Hocc, Hjobs3.
Qed.

(** *** Taking a connection down *)

(** A closed connection on its way: in the map, its removal will be run; out of it,
    [connectDestroyed] will. *)
Definition taking_down w a c : Prop :=
  (mapped w a c ∧ (0 < remove_jobs w a)%nat ∧ destroyed_jobs w a c = 0%nat) ∨
  (¬ mapped w a c ∧ (0 < destroyed_jobs w a c)%nat).

(** The same connections, in the same phases. *)
Definition same_conns w w' : Prop :=
  connections (srv w') = connections (srv w) ∧ base w' = base w ∧
  (∀ a c, mapped w' a c → mapped w a c) ∧ ∀ P l a, conn_phase P w' l a ↔ conn_phase P w l a.

#[local] Instance same_conns_trans : Transitive same_conns.
Proof.
  intros w1 w2 w3 (E1 & E2 & Hm & E3) (E4 & E5 & Hm' & E6). split; [congruence|]. split; [congruence|].
  split; [auto|]. intros P l a. by rewrite E6.
Qed.

(** The connection's entry deleted. *)
Definition unmapped c w : system K Ke :=
  with_srv (set_m_connections (delete (name c) (m_connections (srv w))) (srv w)) w.

Lemma inv_unmapped w a c :
  inv_but (Some a) w → connections (srv w) !! a = Some c →
  inv_but (Some a) (unmapped c w) ∧ same_conns w (unmapped c w) ∧ ¬ mapped (unmapped c w) a c.
Proof.
  intros [Hfr Hst] Hc. split; [split|split].
  - destruct Hfr as [? ? Hcan ? ? ? ? Hn ? ? ?]. split; try done.
    + by destruct Hcan.
    + destruct Hn as [Hname Hinj Hmap]. split; [done|done|]. cbn.
      intros n b [_ Hb]%lookup_delete_Some. by apply Hmap.
  - intros b d Hne Hd. apply (stage_same (Some a) w); [done|by intros ?|by intros ?|done| |by apply Hst].
    unfold mapped. cbn. rewrite lookup_delete_ne; [done|]. intros He.
    destruct Hne. f_equal. by apply (na_inj _ (fr_names _ Hfr) b a d c).
  - split_and!; try done. unfold mapped. cbn. by intros b d [_ ?]%lookup_delete_Some.
  - unfold mapped. cbn. by rewrite lookup_delete_eq.
Qed.

(** What the server has posted, taken over. *)
Lemma handed_over_run w :
  handed_over w = Ok (posted (srv w), mk_system (proc w) (m_acceptor w) (set_posted [] (srv w)) (loops w)).
Proof. done. Qed.
Lemma handed_over_ok w s xs :
  posted (srv w) = [] →
  handed_over (with_srv (set_posted xs s) w) = Ok (xs, with_srv (set_posted [] s) w).
Proof. done. Qed.

Lemma removeConnectionInLoop_run a c w :
  posted (srv w) = [] → connections (srv w) !! a = Some c →
  removeConnectionInLoop a w = queue (getLoop c) (Task (ConnectDestroyed a)) (unmapped c w).
Proof.
  intros Hp Hc. unfold removeConnectionInLoop, on_srv. unfold mbind at 1, M_bind at 1.
  rewrite (TcpServer.removeConnectionInLoop_ok _ _ _ Hc), Hp. cbn [app].
  fold (with_srv (set_posted [(getLoop c, ConnectDestroyed a)]
    (set_m_connections (delete (name c) (m_connections (srv w))) (srv w))) w).
  rewrite (M_bind_ok _ _ _ _ _ (handed_over_ok w _ _ Hp)). cbn [for_each fst snd].
  assert (set_posted [] (set_m_connections (delete (name c) (m_connections (srv w))) (srv w)) =
    set_m_connections (delete (name c) (m_connections (srv w))) (srv w)) as ->.
  { clear -Hp. destruct (srv w). cbn in *. by subst. }
  fold (unmapped c w). unfold mbind, M_bind. by destruct (queue _ _ _) as [[[] ?]|].
Qed.

Lemma removeConnectionInLoop_wp a c w :
  inv_but (Some a) w → connections (srv w) !! a = Some c →
  wp (removeConnectionInLoop a)
    (λ _ w', inv_but (Some a) w' ∧ same_conns w w' ∧ established_jobs w' a c = established_jobs w a c ∧
       remove_jobs w' a = remove_jobs w a ∧ ¬ mapped w' a c ∧ (0 < destroyed_jobs w' a c)%nat) E w.
Proof.
  intros Hinv Hc. pose proof (fr_posted _ (proj1 Hinv)) as Hp.
  destruct (inv_unmapped w a c Hinv Hc) as (Hinv1 & Hsame1 & Hun1).
  destruct (fr_conn _ (proj1 Hinv) a c Hc) as (io & _ & Hio & _).
  destruct (queue_ok (Some a) (unmapped c w) (getLoop c) io (Task (ConnectDestroyed a)))
    as (Hrun & Hinv2 & Hph2 & Hjobs2); [done..|by exists c|done|].
  unfold wp. rewrite (removeConnectionInLoop_run a c w Hp Hc), Hrun. split; [done|]. split.
  { etrans; [exact Hsame1|]. by split_and!. }
  unfold established_jobs, remove_jobs, destroyed_jobs. rewrite !Hjobs2, !occ_app.
  change (base (set_loop _ _ _)) with (base w).
  rewrite decide_True by done.
  change (jobs (unmapped c w) (getLoop c)) with (jobs w (getLoop c)).
  change (jobs (unmapped c w) (base w)) with (jobs w (base w)).
  assert (occ (Task (RemoveConnectionInLoop a)) (if decide (base w = getLoop c)
    then [Task (ConnectDestroyed a)] else []) = 0%nat) as -> by (by case_decide).
  rewrite !occ_one, decide_False, decide_True by done. split_and!; [lia..|done|lia].
Qed.

Lemma removeConnection_wp here a c w :
  inv_but (Some a) w → connections (srv w) !! a = Some c →
  (mapped w a c ∧ destroyed_jobs w a c = 0%nat) ∨ taking_down w a c →
  wp (removeConnection here a)
    (λ _ w', inv_but (Some a) w' ∧ same_conns w w' ∧ established_jobs w' a c = established_jobs w a c ∧
       taking_down w' a c) E w.
Proof.
  intros Hinv Hc Hbefore. pose proof (fr_posted _ (proj1 Hinv)) as Hp. unfold removeConnection, wp.
  assert (Hposted : on_srv (TcpServer.removeConnection a) w =
    Ok (tt, with_srv (set_posted [(base w, RemoveConnectionInLoop a)] (srv w)) w)).
  { unfold on_srv, TcpServer.removeConnection, post. mstep. cbn [id]. by rewrite Hp. }
  rewrite (M_bind_ok _ _ _ _ _ Hposted), (M_bind_ok _ _ _ _ _ (handed_over_ok w _ _ Hp)).
  assert (with_srv (set_posted [] (srv w)) w = w) as ->.
  { clear -Hp. destruct w as [? ? s ?], s. cbn in *. by subst. }
  cbn [for_each]. unfold runInLoop. cbn [fst snd].
  apply (wp_bind (if base w =? here then removeConnectionInLoop a else queue (base w) (Task (RemoveConnectionInLoop a)))
    (λ _, mret tt)).
  destruct (base w =? here).
  - eapply wp_mono; [by apply (removeConnectionInLoop_wp a c)|].
    intros [] w' (? & ? & ? & ? & ? & ?). apply wp_ret. split; [done|]. split; [done|]. split; [done|by right].
  - destruct (fr_pool _ (proj1 Hinv) (base w) ltac:(left)) as [io Hio].
    destruct (queue_ok (Some a) w (base w) io (Task (RemoveConnectionInLoop a)))
      as (Hrun & Hinv2 & Hph2 & Hjobs2); [done..|split; [done|by exists c]|done|].
    unfold wp at 1. rewrite Hrun. apply wp_ret. split; [done|]. split; [by split_and!|].
    unfold taking_down, established_jobs, remove_jobs, destroyed_jobs in *. rewrite !Hjobs2, !occ_app.
    change (base (set_loop _ _ w)) with (base w). change (mapped (set_loop _ _ w) a c) with (mapped w a c).
    assert (∀ t l, t ≠ RemoveConnectionInLoop a →
      occ (Task t) (if decide (l = base w) then [Task (RemoveConnectionInLoop a)] else []) = 0%nat) as Ho.
    { intros t l Ht. case_decide; [|done]. rewrite occ_one, decide_False by congruence. done. }
    rewrite !(Ho (ConnectEstablished a)), !(Ho (ConnectDestroyed a)) by done.
    rewrite (decide_True (P := base w = base w)), occ_one, decide_True, !Nat.add_0_r by done.
    split; [done|]. destruct Hbefore as [[Hm Hd]|[(Hm & Hr & Hd)|[Hm Hd]]]; [left|left|by right];
      split_and!; try done; lia.
Qed.

(** What an operation must find, should it call the close callback. *)
Definition removable w a c : Prop := (mapped w a c ∧ destroyed_jobs w a c = 0%nat) ∨ taking_down w a c.

(** The connection is as before but for its phase. *)
Definition same_course w w' a c : Prop :=
  (mapped w' a c ↔ mapped w a c) ∧ remove_jobs w' a = remove_jobs w a ∧
  destroyed_jobs w' a c = destroyed_jobs w a c.

Lemma same_course_removable w w' a c : same_course w w' a c → removable w a c → removable w' a c.
Proof. intros (Hm & Hr & Hd). unfold removable, taking_down. by rewrite Hm, Hr, Hd. Qed.

Lemma removals_wp here a c ns w :
  inv_but (Some a) w → connections (srv w) !! a = Some c → (CloseCallback ∈ ns → removable w a c) →
  wp (for_each (λ n, if n is CloseCallback then removeConnection here a else mret tt) ns)
    (λ _ w', inv_but (Some a) w' ∧ same_conns w w' ∧ established_jobs w' a c = established_jobs w a c ∧
       if bool_decide (CloseCallback ∈ ns) then taking_down w' a c else same_course w w' a c) E w.
Proof.
  revert w. induction ns as [|n ns IH]; intros w Hinv Hc Hpre; cbn [for_each].
  { apply wp_ret. rewrite bool_decide_false by apply not_elem_of_nil. by split_and!. }
  apply wp_bind. destruct (decide (n = CloseCallback)) as [->|Hne].
  - eapply wp_mono; [apply (removeConnection_wp here a c w Hinv Hc), Hpre; left|].
    intros [] w1 (Hinv1 & Hsame1 & He1 & Ht1). eapply wp_mono; [apply (IH w1); [done| |]|].
    + by rewrite (proj1 Hsame1).
    + intros _. by right.
    + intros [] w2 (Hinv2 & Hsame2 & He2 & Ht2). rewrite bool_decide_true by left.
      split; [done|]. split; [by etrans|]. split; [congruence|].
      case_bool_decide; [done|]. destruct Ht2 as (Hm & Hr & Hd). unfold taking_down in *.
      by rewrite Hm, Hr, Hd.
  - assert (bool_decide (CloseCallback ∈ n :: ns) = bool_decide (CloseCallback ∈ ns)) as ->.
    { apply bool_decide_ext. rewrite elem_of_cons. split; [by intros [E0|]|by right]. }
    destruct n; try done; (apply wp_ret; apply IH; [done..|]; intros ?; apply Hpre; by right).
Qed.

Lemma on_connection_wp P Q op here a c w :
  (∀ b, Rebase (Q b)) → (∀ b, Silent (Q b)) → (∀ b i e fd d, Q b i e fd d → settled i e fd d) →
  leads P op Q → (∀ i e fd d, ¬ Q true i e fd d) ∨ removable w a c →
  inv_but (Some a) w → connections (srv w) !! a = Some c → getLoop c = here → conn_phase P w here a →
  (∀ io, loops w !! here = Some io → a ∈ active io → ∀ b i e fd d, Q b i e fd d → is_live i e fd d) →
  wp (on_connection here a op)
    (λ _ w', inv_but (Some a) w' ∧ connections (srv w') = connections (srv w) ∧ base w' = base w ∧
       established_jobs w' a c = established_jobs w a c ∧
       ((conn_phase (Q true) w' here a ∧ taking_down w' a c ∧ (mapped w' a c → mapped w a c)) ∨
        (conn_phase (Q false) w' here a ∧ same_course w w' a c))) E w.
Proof.
  intros HQr HQsl HQs Hop Hrem Hinv Hc Hl Hph Hact. unfold on_connection. apply wp_bind.
  eapply wp_mono; [by apply (in_connection_wp P Q op here a c)|].
  intros ns w1 (Hinv1 & Hsrv1 & Hph1 & Hocc1).
  assert (Hcourse : same_course w w1 a c ∧ established_jobs w1 a c = established_jobs w a c).
  { unfold same_course, mapped, remove_jobs, destroyed_jobs, established_jobs, base. by rewrite Hsrv1, !Hocc1. }
  destruct Hcourse as [Hcourse He1].
  eapply wp_mono; [apply (removals_wp here a c ns w1 Hinv1)|].
  - by rewrite Hsrv1.
  - intros Hin. destruct Hrem as [Hno|Hrem]; [|by eapply same_course_removable].
    rewrite bool_decide_true in Hph1 by done. by destruct Hph1 as (? & _ & ? & ? & _ & _ & []%Hno).
  - intros [] w2 (Hinv2 & (Hcs2 & Hb2 & Hm2 & Hph2) & He2 & Hend).
    split; [done|]. split; [congruence|]. split; [rewrite Hb2; unfold base; by rewrite Hsrv1|].
    split; [congruence|]. case_bool_decide; [left|right]; (split; [by apply Hph2|]).
    { split; [done|]. intros Hm%Hm2. by apply (proj1 Hcourse). }
    destruct Hend as (Em & Er & Ed), Hcourse as (Fm & Fr & Fd). split_and!; [by rewrite Em|congruence..].
Qed.

(** *** From one stage to the next *)

Lemma phase_both P Q w l a :
  conn_phase P w l a → conn_phase Q w l a → ∃ i e fd d, P i e fd d ∧ Q i e fd d.
Proof.
  intros (io & Hio & c & ch & Hc & Ha & HP) (io' & Hio' & c' & ch' & Hc' & Ha' & HQ).
  simplify_eq. by do 4 eexists.
Qed.

Lemma inv_split w a c :
  inv_but None w → connections (srv w) !! a = Some c → inv_but (Some a) w ∧ stage w a c.
Proof. intros [Hfr Hst] Hc. split; [split; [done|]; intros b d _; by apply Hst|by apply Hst]. Qed.

Lemma inv_join w a c :
  inv_but (Some a) w → connections (srv w) !! a = Some c → stage w a c → inv_but None w.
Proof.
  intros [Hfr Hst] Hc Ha. split; [done|]. intros b d _ Hd.
  destruct (decide (b = a)) as [->|]; [by simplify_eq|]. apply Hst; [congruence|done].
Qed.

(** A closed connection may go on. *)
Definition may_close w a c : Prop :=
  (mapped w a c → allowed a Closing) ∧ (¬ mapped w a c → allowed a Leaving).

Lemma stage_closed w a c :
  conn_phase is_closed w (getLoop c) a → established_jobs w a c = 0%nat → taking_down w a c →
  may_close w a c → stage w a c.
Proof.
  intros Hp He [(Hm & Hr & Hd)|(Hm & Hd)] [Hc Hl]; [exists Closing|exists Leaving]; (split; [by split_and!|auto]).
Qed.

(** It does not get into the map again. *)
Lemma may_close_later w w' a c :
  (mapped w' a c → mapped w a c) → may_close w a c → may_close w' a c.
Proof.
  intros Hm [Hc Hl]. split; [auto|]. intros Hn.
  destruct (decide (m_connections (srv w) !! name c = Some a)); [|auto].
  apply (onward a Closing); [constructor|auto].
Qed.

Lemma at_life_live s w a c :
  at_life s w a c → conn_phase is_live w (getLoop c) a → s = Up ∨ s = Closing ∨ s = Leaving.
Proof.
  intros Hs Hlive. destruct s; try done; auto; destruct Hs as (Hp & _); exfalso.
  - destruct (phase_both _ _ _ _ _ Hp Hlive) as (i & e & fd & d & (Hs & _) & [(Hs' & _)|(Hs' & _)]);
      rewrite Hs in Hs'; done.
  - destruct (phase_both _ _ _ _ _ Hp Hlive) as (i & e & fd & d & (_ & Hr & _) & [(_ & Hr' & _)|(_ & Hr' & _)]);
      rewrite Hr in Hr'; done.
Qed.

(** An active channel's connection is open or closed. *)
Lemma active_live w l io a P :
  frame w → loops w !! l = Some io → a ∈ active io → conn_phase P w l a → conn_phase is_live w l a.
Proof.
  intros Hfr Hio Ha (io' & Hio' & d & ch & Hd & _). simplify_eq. exists io. split; [done|].
  by apply (proj2 (lo_active _ (fr_loop _ Hfr l io Hio) a Ha) d).
Qed.

Lemma loop_at_conn w a c :
  frame w → connections (srv w) !! a = Some c → ∃ io, loops w !! getLoop c = Some io.
Proof. intros Hfr Hc. destruct (fr_conn _ Hfr a c Hc) as (io & _ & Hio & _). by exists io. Qed.

Section user.
Context {react : notification → conn → TcpConnection.action} `{!Reacts E react}.

(** A handler of a live connection. *)
Definition open_or_closed (b : bool) : Z → Z → Z → conn → Prop := if b then is_closed else is_open.
Definition closed_always (_ : bool) : Z → Z → Z → conn → Prop := is_closed.

Lemma told_iff d b : (CloseCallback ∈ notified d ↔ b = true) → bool_decide (CloseCallback ∈ notified d) = b.
Proof. intros Hb. destruct b; [apply bool_decide_true; by apply Hb|apply bool_decide_false; by intros ?%Hb]. Qed.

Lemma handler_leads_open r wr x : leads is_open (run_handler react r wr x) open_or_closed.
Proof.
  intros i e fd d Hd Hn. eapply wp_mono; [by apply handler_open|].
  intros [] d' [[Ho Hu]|[Hc Ht]].
  - rewrite bool_decide_false; [done|]. intros Hin%Hu. unfold told in Hin. rewrite Hn in Hin. by apply not_elem_of_nil in Hin.
  - by rewrite bool_decide_true.
Qed.

Lemma handler_leads_closed r wr x : leads is_closed (run_handler react r wr x) closed_always.
Proof. intros i e fd d Hd _. by apply handler_closed. Qed.

#[local] Instance open_or_closed_rebase b : Rebase (open_or_closed b).
Proof. destruct b; exact _. Qed.
#[local] Instance open_or_closed_silent b : Silent (open_or_closed b).
Proof. destruct b; exact _. Qed.
Lemma open_or_closed_live b i e fd d : open_or_closed b i e fd d → is_live i e fd d.
Proof. destruct b; [by right|by left]. Qed.

Lemma phase_weaken (P Q : Z → Z → Z → conn → Prop) w l a :
  (∀ i e fd d, P i e fd d → Q i e fd d) → conn_phase P w l a → conn_phase Q w l a.
Proof.
  intros HPQ (io & Hio & d & ch & Hd & Hch & Hp). exists io. split; [done|]. exists d, ch.
  split_and!; [done..|]. by apply HPQ.
Qed.

(** A connection that is closed already. *)
Lemma closed_wp op a c w :
  leads is_closed op closed_always →
  inv_but (Some a) w → connections (srv w) !! a = Some c → conn_phase is_closed w (getLoop c) a →
  established_jobs w a c = 0%nat → taking_down w a c → may_close w a c →
  wp (on_connection (getLoop c) a op)
    (λ _ w', inv_but None w' ∧ connections (srv w') = connections (srv w) ∧
       conn_phase is_live w' (getLoop c) a) E w.
Proof.
  intros Hop Hbut Hc Hp He Ht Hmay.
  eapply wp_mono; [apply (on_connection_wp is_closed closed_always op (getLoop c) a c)|]; try done.
  1-2: intros ?; exact _.
  - intros b i e fd d Hd. by right; left; right.
  - right. by right.
  - intros io _ _ b i e fd d Hd. by right.
  - intros [] w' (Hinv' & Hcs & Hb & He' & Hend). rewrite He in He'.
    assert (conn_phase is_closed w' (getLoop c) a ∧ taking_down w' a c ∧ (mapped w' a c → mapped w a c))
      as (Hp' & Ht' & Hm').
    { destruct Hend as [[? ?]|[? (Hm & Hr & Hd)]]; [done|]. split; [done|].
      unfold taking_down in *. rewrite Hm, Hr, Hd. done. }
    split_and!; [|done|eapply phase_weaken; [|exact Hp']; by right].
    apply (inv_join w' a c); [done|by rewrite Hcs|]. apply stage_closed; [done..|by eapply may_close_later].
Qed.

Lemma handler_wp r wr x a c w :
  inv_but None w → connections (srv w) !! a = Some c → conn_phase is_live w (getLoop c) a →
  wp (on_connection (getLoop c) a (run_handler react r wr x))
    (λ _ w', inv_but None w' ∧ connections (srv w') = connections (srv w) ∧
       conn_phase is_live w' (getLoop c) a) E w.
Proof.
  intros Hinv Hc Hlive. destruct (inv_split w a c Hinv Hc) as [Hbut (s & Hs & Ha)].
  destruct (at_life_live s w a c Hs Hlive) as [->|[->| ->]].
  - destruct Hs as (Hp & Hm & He & Hr & Hd).
    eapply wp_mono; [apply (on_connection_wp is_open open_or_closed _ _ _ c)|]; try done.
    1-2: intros ?; exact _.
    + intros b i e fd d Hd'. right. left. by eapply open_or_closed_live.
    + apply handler_leads_open.
    + right. by left.
    + intros io _ _ b i e fd d. apply open_or_closed_live.
    + intros [] w' (Hinv' & Hcs & Hb & He' & Hend). rewrite He in He'.
      assert (stage w' a c ∧ conn_phase is_live w' (getLoop c) a) as [? ?].
      { destruct Hend as [(Hp' & Ht & Hm')|[Hp' (Hm' & Hr' & Hd')]].
        - split; [|eapply phase_weaken; [|exact Hp']; by right]. apply stage_closed; [done..|].
          apply (may_close_later w); [done|].
          assert (allowed a Closing) by (apply (onward a Up); [constructor|done]). by split.
        - split; [|eapply phase_weaken; [|exact Hp']; by left]. exists Up. split; [|done].
          split_and!; [done|by apply Hm'|done|by rewrite Hr in Hr'|by rewrite Hd in Hd']. }
      split_and!; [apply (inv_join w' a c); [done|by rewrite Hcs|done]|done..].
  - destruct Hs as (Hp & Hm & He & Hr & Hd).
    apply closed_wp; [apply handler_leads_closed|done..|by left|by split].
  - destruct Hs as (Hp & Hm & He & Hd).
    apply closed_wp; [apply handler_leads_closed|done..|by right|by split].
Qed.

(** An operation that never calls the close callback, from [P] to [Q]. *)
Definition silently (Q : Z → Z → Z → conn → Prop) (b : bool) (i e fd : Z) (d : conn) : Prop :=
  b = false ∧ Q i e fd d.
#[local] Instance silently_rebase Q b : Rebase Q → Rebase (silently Q b).
Proof. intros HQ i e fd d [-> Hq]. split; [done|]. by apply HQ. Qed.
#[local] Instance silently_silent Q b : Silent Q → Silent (silently Q b).
Proof. intros HQ i e fd d [-> Hq]. split; [done|]. by apply HQ. Qed.

Lemma silently_leads P Q op :
  (∀ i e fd d, P i e fd d → wp op (λ _ d', Q i e fd d') E d) →
  (∀ d0, preserves E (untold d0) op) → leads P op (silently Q).
Proof.
  intros Hop Hu i e fd d Hd Hn. eapply wp_mono.
  { apply wp_and; [by apply Hop|apply (Hu d); exact id]. }
  intros [] d' [Hq Ht]. split; [|done]. apply bool_decide_false. intros Hin%Ht.
  unfold told in Hin. rewrite Hn in Hin. by apply not_elem_of_nil in Hin.
Qed.

Lemma silent_wp P Q op a c w :
  Rebase Q → Silent Q → (∀ i e fd d, Q i e fd d → settled i e fd d) →
  (∀ i e fd d, P i e fd d → wp op (λ _ d', Q i e fd d') E d) → (∀ d0, preserves E (untold d0) op) →
  inv_but (Some a) w → connections (srv w) !! a = Some c → conn_phase P w (getLoop c) a →
  (∀ io, loops w !! getLoop c = Some io → a ∈ active io → ∀ i e fd d, Q i e fd d → is_live i e fd d) →
  (∀ w', same_course w w' a c → established_jobs w' a c = established_jobs w a c →
     conn_phase Q w' (getLoop c) a → stage w' a c) →
  wp (on_connection (getLoop c) a op)
    (λ _ w', inv_but None w' ∧ connections (srv w') = connections (srv w)) E w.
Proof.
  intros HQr HQs HQ Hop Hu Hbut Hc Hp Hact Hst.
  eapply wp_mono; [apply (on_connection_wp P (silently Q) op (getLoop c) a c)|]; try done.
  1-2: intros ?; exact _.
  - intros b i e fd d [_ Hd]. by apply HQ.
  - by apply silently_leads.
  - left. by intros i e fd d [? _].
  - intros io Hio Ha b i e fd d [_ Hd]. by apply (Hact io Hio Ha i e fd).
  - intros [] w' (Hinv' & Hcs & Hb & He' & [[Hno _]|[Hp' Hcourse]]).
    { by destruct Hno as (? & _ & ? & ? & _ & _ & [? _]). }
    assert (Hpq : conn_phase Q w' (getLoop c) a) by (eapply phase_weaken; [|exact Hp']; by intros i e fd d [_ ?]).
    split; [|done]. apply (inv_join w' a c); [done|by rewrite Hcs|by apply Hst].
Qed.

Lemma established_wp a c w :
  inv_but (Some a) w → connections (srv w) !! a = Some c → conn_phase is_new w (getLoop c) a →
  mapped w a c → established_jobs w a c = 0%nat → remove_jobs w a = 0%nat → destroyed_jobs w a c = 0%nat →
  allowed a Connecting →
  wp (on_connection (getLoop c) a (connectEstablished react))
    (λ _ w', inv_but None w' ∧ connections (srv w') = connections (srv w)) E w.
Proof.
  intros Hbut Hc Hp Hm He Hr Hd Ha. apply (silent_wp is_new is_open _ a c w _ _); try done.
  - intros i e fd d Ho. by right; left; left.
  - intros i e fd d. by apply established_open.
  - by apply established_untold.
  - intros io _ _ i e fd d Ho. by left.
  - intros w' (Hm' & Hr' & Hd') He' Hp'. exists Up.
    split; [split_and!; [done|by apply Hm'|congruence..]|]. apply (onward a Connecting); [constructor|done].
Qed.

Lemma destroyed_wp a c w io :
  inv_but (Some a) w → connections (srv w) !! a = Some c →
  conn_phase is_closed w (getLoop c) a ∨ conn_phase is_gone w (getLoop c) a →
  ¬ mapped w a c → established_jobs w a c = 0%nat → allowed a Gone →
  loops w !! getLoop c = Some io → active io = [] →
  wp (on_connection (getLoop c) a (connectDestroyed react))
    (λ _ w', inv_but None w' ∧ connections (srv w') = connections (srv w)) E w.
Proof.
  intros Hbut Hc Hp Hm He Hgone Hio Hact.
  apply (silent_wp (λ i e fd d, is_closed i e fd d ∨ is_gone i e fd d) is_gone _ a c w _ _); try done.
  - intros i e fd d Ho. by right; right; left.
  - intros i e fd d Hd. apply destroyed_gone; [done..|]. by right.
  - by apply destroyed_untold.
  - destruct Hp as [Hp|Hp]; (eapply phase_weaken; [|exact Hp]); auto.
  - intros io' Hio' Ha. simplify_eq. rewrite Hact in Ha. by apply not_elem_of_nil in Ha.
  - intros w' (Hm' & Hr' & Hd') He' Hp'. exists Gone. split; [|done]. split_and!; [done|by rewrite Hm'|congruence].
Qed.

(** An operation that leaves every phase as it is. *)
Record idle_op (op : M conn unit) : Prop := {
  io_open i e fd : preserves E (is_open i e fd) op;
  io_idle P : Phase P → (∀ d, P d → m_state d ≠ kConnected) → preserves E P op;
  io_untold d0 : preserves E (untold d0) op
}.

Lemma idle_run_action act : tame E act → idle_op (run_action act).
Proof.
  intros Ha. split.
  - intros i e fd. by apply run_action_open.
  - intros P HP Hs. by apply run_action_idle.
  - intros d0. by apply run_action_untold.
Qed.

Lemma idle_reaction (f : conn → TcpConnection.action) :
  (∀ d, tame E (f d)) → idle_op (c ← gets id; run_action (f c)).
Proof.
  intros Hf. pose proof (λ d, idle_run_action (f d) (Hf d)) as Hrun. split.
  - intros i e fd. apply preserves_bind; [by intros ? ?|]. intros d. apply (io_open _ (Hrun d)).
  - intros P HP Hs. apply preserves_bind; [by intros ? ?|]. intros d. by apply (io_idle _ (Hrun d)).
  - intros d0. apply preserves_bind; [by intros ? ?|]. intros d. apply (io_untold _ (Hrun d)).
Qed.

(** The phase of a connection at each time of its life. *)
Definition life_phase (s : life) : Z → Z → Z → conn → Prop :=
  match s with
  | Unborn => λ _ _ _ _, False
  | Connecting => is_new
  | Up => is_open
  | Closing | Leaving => is_closed
  | Gone => is_gone
  end.

#[local] Instance life_phase_rebase s : Rebase (life_phase s).
Proof. destruct s; cbn; try exact _. by intros ????. Qed.
#[local] Instance life_phase_silent s : Silent (life_phase s).
Proof. destruct s; cbn; try exact _. by intros ????. Qed.
#[local] Instance life_phase_phase s i e fd : Phase (life_phase s i e fd).
Proof. destruct s; cbn; try exact _. by intros ???. Qed.

Lemma life_phase_settled s i e fd d : life_phase s i e fd d → settled i e fd d.
Proof.
  destruct s; cbn; [done|by left|by right; left; left|by right; left; right|by right; left; right|by right; right; left].
Qed.

Lemma at_life_phase s w a c : at_life s w a c → conn_phase (life_phase s) w (getLoop c) a.
Proof. by destruct s; [|intros [? _]..]. Qed.

(** It stays at the same time of its life. *)
Lemma at_life_course s w w' a c :
  same_course w w' a c → established_jobs w' a c = established_jobs w a c →
  conn_phase (life_phase s) w' (getLoop c) a → at_life s w a c → at_life s w' a c.
Proof.
  intros (Hm & Hr & Hd) He Hp. destruct s; cbn [at_life life_phase] in *; try done;
    rewrite Hm, He, ?Hr, ?Hd; by intros [_ ?].
Qed.

Lemma idle_wp op a c w :
  idle_op op → inv_but (Some a) w → connections (srv w) !! a = Some c → stage w a c →
  wp (on_connection (getLoop c) a op)
    (λ _ w', inv_but None w' ∧ connections (srv w') = connections (srv w)) E w.
Proof.
  intros [Hopen Hidle Hu] Hbut Hc (s & Hs & Ha). pose proof (at_life_phase s w a c Hs) as Hp.
  apply (silent_wp (life_phase s) (life_phase s) op a c w _ _); try done.
  - apply life_phase_settled.
  - intros i e fd d Hd. destruct (decide (s = Up)) as [->|Hne]; [by apply Hopen|].
    apply (Hidle (life_phase s i e fd) _); [|done]. intros d' Hd'. destruct s; try done; by destruct Hd' as (-> & _).
  - intros io Hio Hin i e fd d Hd.
    assert (Hlive : conn_phase is_live w (getLoop c) a) by by apply (active_live w _ io a (life_phase s) (proj1 Hbut)).
    destruct (at_life_live s w a c Hs Hlive) as [->|[->| ->]]; [by left|by right..].
  - intros w' Hcourse He Hp'. exists s. split; [|done]. by apply (at_life_course s w).
Qed.

End user.
End code.
End invariant.
