(* ===== verification/ServerSteps.v ===== *)
(** Every step of the whole server keeps its invariant: the birth of a connection, the
    steps of a loop, and the end of a connection. *)
From S2P Require Import Prelude Kfifo Channel EpollPoller TcpConnection Reactor InetAddress EventLoopThreadPool Sockets Acceptor TcpServer WholeServer ServerStages.
#[local] Open Scope Z_scope.

Section steps.
Context {K Ke : Type} `{SocketLaws K} `{EpollLaws Ke} {mx : MutexImpl}.
Context {others : gmap Z file} {listenfd : Z}.
Context {allowed : Z → life → Prop} `{!Onward allowed}.
Context {E : fault → Prop} `{!Tolerates E}.
Context {react : notification → conn → TcpConnection.action} `{!Reacts E react}.
Implicit Types (w : system K Ke) (l a : Z) (io : io_loop Ke) (c : connection).
Abbreviation sockets_ok := (ServerStages.sockets_ok (others := others) (listenfd := listenfd)).
Abbreviation frame := (ServerStages.frame (others := others) (listenfd := listenfd) (allowed := allowed)).
Abbreviation stage := (ServerStages.stage (allowed := allowed)).
Abbreviation inv_but := (ServerStages.inv_but (others := others) (listenfd := listenfd) (allowed := allowed)).

(** *** A new connection *)

Lemma TcpConnection_new_ok fd wc hw :
  ∃ new, TcpConnection_new fd wc hw = Ok new ∧ own_handlers (m_channel new) ∧ m_fd (m_channel new) = fd ∧
    (notified new = [] ∧ TcpConnection.queued new = []) ∧ ∀ ch, ch = m_channel new → in_phase is_new ch new.
Proof. eexists. split; [reflexivity|]. split_and!; try done. by intros ch ->. Qed.

(** The descriptor of a new connection is its own. *)
Lemma sockets_connected fs fs' cs a c f peer :
  sockets_ok fs cs → cs !! a = None → fs !! sockfd c = None → fs' = <[sockfd c := f]> fs →
  nonblocking f = true → peer_addr f = Some peer → sin peer = peerAddress c →
  sockets_ok fs' (<[a := c]> cs).
Proof.
  intros [Hoth Hlis Hconn Hinj Hall] Ha Hfresh -> Hnb Hp Hpeer.
  assert (Hold : ∀ b d, cs !! b = Some d → sockfd d ≠ sockfd c).
  { intros b d Hd E0. destruct (Hconn b d Hd) as (_ & _ & x & _ & Hx & _). congruence. }
  split.
  - intros d x Hd. destruct (Hoth d x Hd) as [? Hx]. split; [done|]. rewrite lookup_insert_ne; [done|]. congruence.
  - apply lookup_insert_is_Some'. by right.
  - intros b d [[<- <-]|[_ Hd]]%lookup_insert_Some.
    + split; [intros E0; rewrite E0 in Hfresh; by rewrite Hfresh in Hlis; destruct Hlis|]. split.
      { destruct (others !! sockfd c) as [x|] eqn:Hx; [|done]. apply Hoth in Hx as [_ Hx]. congruence. }
      exists f, peer. by rewrite lookup_insert_eq.
    + destruct (Hconn b d Hd) as (? & ? & x & q & Hx & ?). split_and!; [done..|]. exists x, q.
      by rewrite lookup_insert_ne by by apply not_eq_sym, (Hold b).
  - intros b1 b2 d1 d2 [[<- <-]|[_ H1']]%lookup_insert_Some [[<- <-]|[_ H2']]%lookup_insert_Some He; try done.
    + by destruct (Hold _ _ H2').
    + by destruct (Hold _ _ H1').
    + by eapply Hinj.
  - intros d [<-|Hd]%lookup_insert_is_Some'; [right; right; exists a, c; by rewrite lookup_insert_eq|].
    destruct (Hall d Hd) as [?|[?|(b & x & Hb & <-)]]; [by left|by right; left|].
    right; right. exists b, x. rewrite lookup_insert_ne; [done|]. congruence.
Qed.

(** Options of a socket do not matter. *)
Lemma sockets_option fs fs' cs d level n v :
  sockets_ok fs cs → others !! d = None → fs' = fs ∨ fs' = alter (set_option level n v) d fs →
  sockets_ok fs' cs.
Proof.
  intros Hok Hd [->| ->]; [done|]. destruct Hok as [Hoth Hlis Hconn Hinj Hall].
  assert (Hsome : ∀ x, is_Some (alter (set_option level n v) d fs !! x) ↔ is_Some (fs !! x)).
  { intros x. destruct (decide (d = x)) as [->|Hne]; [by rewrite lookup_alter_eq, fmap_is_Some|].
    by rewrite lookup_alter_ne. }
  split; [|by apply Hsome| |done|by intros x ?%Hsome%Hall].
  - intros x f Hx. destruct (Hoth x f Hx) as [? Hf]. split; [done|].
    rewrite lookup_alter_ne; [done|]. congruence.
  - intros a c Hc. destruct (Hconn a c Hc) as (? & ? & f & peer & Hf & Hnb & Hp & Hs). split_and!; [done..|].
    destruct (decide (d = sockfd c)) as [->|Hne].
    + exists (set_option level n v f), peer. by rewrite lookup_alter_eq, Hf.
    + exists f, peer. by rewrite lookup_alter_ne.
Qed.

Lemma names_connected s pl c a :
  names_ok s → connections s !! a = None →
  name c = conn_name (m_ipPort s) (m_serverName s) (m_nextConnId s) → 1 ≤ m_nextConnId s →
  names_ok (connected s pl c a) ∧
  ∀ b d, connections s !! b = Some d → name d ≠ name c.
Proof.
  intros [Hname Hinj Hmap] Ha Hn Hid.
  assert (Hne : ∀ b d, connections s !! b = Some d → name d ≠ name c).
  { intros b d Hd E0. destruct (Hname b d Hd) as (i & Hi & Hb). rewrite Hb, Hn in E0.
    apply conn_name_inj in E0. lia. }
  split; [|done]. split; cbn.
  - intros b d [[<- <-]|[_ Hd]]%lookup_insert_Some; [exists (m_nextConnId s); split; [lia|done]|].
    destruct (Hname b d Hd) as (i & Hi & Hb). exists i. split; [lia|done].
  - intros b1 b2 d1 d2 [[<- <-]|[_ H1']]%lookup_insert_Some [[<- <-]|[_ H2']]%lookup_insert_Some He; try done.
    + by destruct (Hne _ _ H2').
    + by destruct (Hne _ _ H1').
    + by eapply Hinj.
  - intros n b [[<- <-]|[Hnn Hb]]%lookup_insert_Some; [exists c; by rewrite lookup_insert_eq|].
    destruct (Hmap n b Hb) as (d & Hd & E0). exists d. rewrite lookup_insert_ne; [done|]. congruence.
Qed.

(** A loop that has got a new connection. *)
Definition with_conn a new io : io_loop Ke :=
  mk_io_loop (add_conn a new (reactor_of io)) (active io) (functors io) (pendingFunctors io).

Lemma loop_ok_connected a new io fd wc :
  loop_ok io → channels (Reactor.m_poller (reactor_of io)) !! a = None →
  TcpConnection_new fd wc false = Ok new → notified new = [] ∧ TcpConnection.queued new = [] →
  (∀ b ch, channels (Reactor.m_poller (reactor_of io)) !! b = Some ch → m_fd ch ≠ fd) →
  loop_ok (with_conn a new io).
Proof.
  intros [Hr Hact Hsaid] Ha Hnew Hn Hfd. split; cbn.
  - by apply (inv_add a fd wc false).
  - intros b Hb. destruct (Hact b Hb) as [Hch Hlive].
    assert (Hne : b ≠ a) by (intros ->; by rewrite Ha in Hch; destruct Hch).
    split; cbn; rewrite lookup_insert_ne by done; [done|].
    intros d Hd. destruct (Hlive d Hd) as (x & ch & Hx & Hch' & Hp). exists x, ch.
    cbn. by rewrite !lookup_insert_ne.
  - intros b d [[<- <-]|[_ Hd]]%lookup_insert_Some; [done|by apply (Hsaid b)].
Qed.

Lemma no_jobs_about w a t :
  frame w → connections (srv w) !! a = None → about (Task t) = Some a → ∀ l, occ (Task t) (jobs w l) = 0%nat.
Proof.
  intros Hfr Ha Hab l. destruct (occ (Task t) (jobs w l)) eqn:Ho; [done|].
  assert (Hin : Task t ∈ jobs w l) by (apply occ_elem; lia).
  apply (fr_job _ Hfr) in Hin. destruct t as [|x|x|x]; cbn in Hab, Hin; simplify_eq.
  - destruct Hin as (d & Hd & _). congruence.
  - destruct Hin as (_ & [d Hd]). congruence.
  - destruct Hin as (d & Hd & _). congruence.
Qed.

(** The system with the new connection, before it is set up. *)
Definition accepted w p pl c a new io : system K Ke :=
  mk_system p (m_acceptor w) (set_posted [] (connected (srv w) pl c a))
    (<[getLoop c := with_conn a new io]> (loops w)).

Lemma jobs_accepted w p pl c a new io l :
  loops w !! getLoop c = Some io → jobs (accepted w p pl c a new io) l = jobs w l.
Proof.
  intros Hio. unfold jobs. cbn. destruct (decide (l = getLoop c)) as [->|Hne].
  - by rewrite lookup_insert_eq, Hio.
  - by rewrite lookup_insert_ne.
Qed.

(** The parts of a new connection that belong together. *)
Record fresh_conn w p pl c a new io fd wc : Prop := {
  fc_addr l x : loops w !! l = Some x → channels (Reactor.m_poller (reactor_of x)) !! a = None;
  fc_pool : getAllLoops pl = getAllLoops (m_threadPool (srv w)) ∧ m_baseLoop pl = base w ∧
    EventLoopThreadPool.wf pl ∧ m_next pl < Z.of_nat (length (getAllLoops pl));
  fc_id : m_nextConnId (srv w) ≠ 2 ^ 31 - 1;
  fc_name : name c = conn_name (m_ipPort (srv w)) (m_serverName (srv w)) (m_nextConnId (srv w));
  fc_loop : loops w !! getLoop c = Some io;
  fc_fd : sockfd c = fd ∧ open_fds w !! fd = None;
  fc_new : TcpConnection_new fd wc false = Ok new;
  fc_sockets : sockets_ok (files (net p)) (<[a := c]> (connections (srv w)))
}.

(** A channel is on an open descriptor. *)
Lemma channels_open w l io a ch :
  frame w → loops w !! l = Some io → channels (Reactor.m_poller (reactor_of io)) !! a = Some ch →
  is_Some (open_fds w !! m_fd ch).
Proof.
  intros Hfr Hio Ha. pose proof (fr_chan _ Hfr l io a ch Hio Ha) as Hok. unfold channel_ok in Hok.
  destruct (conns (reactor_of io) !! a) as [d|] eqn:Hd.
  - destruct (fr_own _ Hfr l io a Hio ltac:(by eexists)) as (c & Hc & <-).
    destruct (fr_conn _ Hfr a c Hc) as (x & y & Hx & _ & Hy & E0). simplify_eq. rewrite E0.
    destruct (so_conn _ _ (fr_sockets _ Hfr) a c Hc) as (_ & _ & f & _ & Hf & _). by eexists.
  - destruct Hok as [_ [[f Hf]| ->]]; [|apply (so_listen _ _ (fr_sockets _ Hfr))].
    destruct (so_others _ _ (fr_sockets _ Hfr) _ _ Hf) as [_ ?]. by eexists.
Qed.

Lemma frame_accepted w p pl c a new io fd wc :
  frame w → connections (srv w) !! a = None → fresh_conn w p pl c a new io fd wc →
  frame (accepted w p pl c a new io).
Proof.
  intros Hfr Ha [Haddr (Hall & Hbase & Hwf & Hlt) Hid Hname Hio (Hfd & Hfresh) Hnew Hsock].
  destruct (TcpConnection_new_ok fd wc false) as (new' & Hnew' & Hown & Hnfd & Hnot & _).
  rewrite Hnew in Hnew'. injection Hnew' as <-. pose proof (fr_can _ Hfr) as Hcan.
  assert (Hopen := λ l x b ch, channels_open w l x b ch Hfr).
  assert (Hne : ∀ x ch b l, loops w !! l = Some x → channels (Reactor.m_poller (reactor_of x)) !! b = Some ch →
    m_fd ch ≠ fd ∧ b ≠ a).
  { intros x ch b l Hx Hb. split; [|intros ->; rewrite (Haddr l x Hx) in Hb; done].
    intros E0. destruct (Hopen l x b ch Hx Hb) as [f Hf]. congruence. }
  split; cbn [accepted loops srv].
  - intros l x [[<- <-]|[_ Hx]]%lookup_insert_Some; [|by apply (fr_loop _ Hfr l)].
    apply (loop_ok_connected a new io fd wc); [by apply (fr_loop _ Hfr (getLoop c))|by apply (Haddr (getLoop c))|done|done|].
    intros b ch Hb. by apply (Hne io ch b (getLoop c)).
  - intros l. unfold base. cbn. rewrite Hall, Hbase. intros Hl. apply lookup_insert_is_Some'. right.
    by apply (fr_pool _ Hfr).
  - destruct Hcan as [_ Hids Hip]. split; cbn; [done|lia|done].
  - done.
  - cbn. intros b d [[<- <-]|[Hb Hd]]%lookup_insert_Some.
    + exists (with_conn a new io), (m_channel new). cbn. rewrite !lookup_insert_eq. split_and!; [done|by eexists|done|congruence].
    + destruct (fr_conn _ Hfr b d Hd) as (x & ch & Hx & Hs & Hch & E0).
      destruct (decide (getLoop c = getLoop d)) as [El|Hl].
      * assert (x = io) as -> by congruence. exists (with_conn a new io), ch. cbn. rewrite El, lookup_insert_eq.
        by rewrite !lookup_insert_ne by congruence.
      * exists x, ch. by rewrite lookup_insert_ne.
  - cbn. intros l x b [[<- <-]|[_ Hx]]%lookup_insert_Some.
    + cbn. intros [<-|Hb]%lookup_insert_is_Some'; [exists c; by rewrite lookup_insert_eq|].
      destruct (fr_own _ Hfr _ io b Hio Hb) as (d & Hd & E0). exists d. rewrite lookup_insert_ne; [done|congruence].
    + intros Hb. destruct (fr_own _ Hfr _ x b Hx Hb) as (d & Hd & E0). exists d. rewrite lookup_insert_ne; [done|congruence].
  - intros l x b ch [[<- <-]|[_ Hx]]%lookup_insert_Some; [|by apply (fr_chan _ Hfr l)].
    unfold channel_ok. cbn. intros [[<- <-]|[Hb Hch]]%lookup_insert_Some.
    + by rewrite lookup_insert_eq.
    + rewrite lookup_insert_ne by done. exact (fr_chan _ Hfr (getLoop c) io b ch Hio Hch).
  - destruct (names_connected (srv w) pl c a (fr_names _ Hfr) Ha Hname (proj1 (can_id _ Hcan))) as [[] _].
    by split.
  - intros l j. change (mk_system _ _ _ _) with (accepted w p pl c a new io). rewrite jobs_accepted by done.
    intros Hj%(fr_job _ Hfr). destruct j as [[|b|b|b]|b f]; cbn in *; [done| | | |];
      try (destruct Hj as (d & Hd & E0); exists d; rewrite lookup_insert_ne; [done|congruence]).
    destruct Hj as [-> [d Hd]]. split; [done|]. apply lookup_insert_is_Some'. right. by eexists.
  - exact Hsock.
  - cbn. intros b [Hb _]%lookup_insert_None. by apply (fr_unborn _ Hfr).
Qed.

Lemma inv_joined w p pl c a new io fd wc :
  inv_but None w → connections (srv w) !! a = None → fresh_conn w p pl c a new io fd wc →
  let w' := accepted w p pl c a new io in
  inv_but (Some a) w' ∧ connections (srv w') = <[a := c]> (connections (srv w)) ∧
  conn_phase is_new w' (getLoop c) a ∧ mapped w' a c ∧
  established_jobs w' a c = 0%nat ∧ remove_jobs w' a = 0%nat ∧ destroyed_jobs w' a c = 0%nat.
Proof.
  intros [Hfr Hst] Ha Hfc w'. pose proof (frame_accepted _ _ _ _ _ _ _ _ _ Hfr Ha Hfc) as Hfr'.
  destruct Hfc as [Haddr (Hall & Hbase & _) _ Hname Hio _ Hnew _].
  assert (Hjobs : ∀ l, jobs w' l = jobs w l) by (intros l; by apply jobs_accepted).
  assert (Hzero : ∀ t l, about (Task t) = Some a → occ (Task t) (jobs w' l) = 0%nat).
  { intros t l Ht. rewrite Hjobs. by apply (no_jobs_about w a). }
  split_and!.
  - split; [done|]. intros b d Hne Hd. cbn in Hd. apply lookup_insert_Some in Hd as [[<- _]|[Hb Hd]]; [done|].
    apply (stage_same (Some a) w); [done|by intros l j _; rewrite Hjobs| |exact Hbase| |by apply Hst].
    + intros P l x Hx (y & Hy & z & ch & Hz & Hch & Hp). unfold conn_phase, w'. cbn.
      destruct (decide (getLoop c = l)) as [<-|Hl].
      * assert (y = io) as -> by congruence. exists (with_conn a new io). rewrite lookup_insert_eq.
        split; [done|]. exists z, ch. cbn.
        by rewrite !lookup_insert_ne by congruence.
      * exists y. rewrite lookup_insert_ne by done. split; [done|]. by exists z, ch.
    + unfold mapped. cbn. rewrite lookup_insert_ne; [done|]. apply not_eq_sym.
      by apply (proj2 (names_connected (srv w) pl c a (fr_names _ Hfr) Ha Hname (proj1 (can_id _ (fr_can _ Hfr)))) b).
  - done.
  - destruct (TcpConnection_new_ok fd wc false) as (new' & Hnew' & _ & _ & _ & Hph).
    rewrite Hnew in Hnew'. injection Hnew' as <-. exists (with_conn a new io). unfold w'. cbn.
    rewrite lookup_insert_eq. split; [done|]. exists new, (m_channel new). cbn. rewrite !lookup_insert_eq.
    split_and!; [done..|by apply Hph].
  - unfold mapped, w'. cbn. apply lookup_insert_eq.
  - by apply Hzero.
  - by apply Hzero.
  - by apply Hzero.
Qed.

(** *** Steps of a loop *)

Context (file_name : string) (default_addr : sockaddr_in).
Context (later : TcpConnection.functor → conn → TcpConnection.action)
  (later_tame : ∀ f d, tame E (later f d)) (wc : bool).
Context (alloc : system K Ke → Z)
  (alloc_fresh : ∀ w l io, loops w !! l = Some io →
     channels (Reactor.m_poller (reactor_of io)) !! alloc w = None).

Lemma set_keepAlive_run p fd :
  ∃ p', set_keepAlive fd true p = Ok (tt, p') ∧
    (files (net p') = files (net p) ∨
     files (net p') = alter (set_option SOL_SOCKET SO_KEEPALIVE 1) fd (files (net p))).
Proof.
  unfold set_keepAlive, set_sockopt.
  destruct (sys_changes p fd _ (λ k, sys_setsockopt k fd SOL_SOCKET SO_KEEPALIVE 1) (setsockopt_law (net p) fd SOL_SOCKET SO_KEEPALIVE 1))
    as [(k & _ & Hrun & _ & Hf & _)|(e & k & _ & Hrun & Hf & _)];
    rewrite (M_bind_ok _ _ _ _ _ Hrun); (eexists; split; [done|]); [by right|by left].
Qed.

Lemma setup_wp here a c w :
  inv_but (Some a) w → connections (srv w) !! a = Some c → conn_phase is_new w (getLoop c) a →
  mapped w a c → established_jobs w a c = 0%nat → remove_jobs w a = 0%nat → destroyed_jobs w a c = 0%nat →
  allowed a Connecting →
  wp (runInLoop here (run_task react here) (getLoop c, ConnectEstablished a))
    (λ _ w', inv_but None w') E w.
Proof.
  intros Hbut Hc Hp Hm He Hr Hd Ha. unfold runInLoop. cbn [fst snd]. destruct (Z.eqb_spec (getLoop c) here) as [<-|Hne].
  - cbn [run_task]. eapply wp_mono; [by eapply (established_wp a c)|]. by intros [] w' [? _].
  - destruct (loop_at_conn w a c (proj1 Hbut) Hc) as [io Hio].
    destruct (queue_ok (others := others) (listenfd := listenfd) (allowed := allowed) (Some a) w (getLoop c) io (Task (ConnectEstablished a)))
      as (Hrun & Hinv2 & Hph2 & Hjobs2); [done..|by exists c|done|].
    unfold wp. rewrite Hrun. apply (inv_join _ a c); [done|done|]. exists Connecting. split; [|done]. unfold at_life.
    unfold established_jobs, remove_jobs, destroyed_jobs in *. rewrite !Hjobs2, !occ_app, He, Hd.
    change (base (set_loop _ _ w)) with (base w). rewrite Hr.
    rewrite !occ_if. split_and!; [by apply Hph2|done|by rewrite decide_True|by rewrite decide_False by (by intros [_ ?])..].
Qed.

(** Where the next connection is made nothing is. *)
Lemma alloc_unused w p :
  frame w → let a := alloc (mk_system p (m_acceptor w) (srv w) (loops w)) in
  (∀ l x, loops w !! l = Some x → channels (Reactor.m_poller (reactor_of x)) !! a = None) ∧
  connections (srv w) !! a = None.
Proof.
  intros Hfr a.
  assert (Haddr : ∀ l x, loops w !! l = Some x → channels (Reactor.m_poller (reactor_of x)) !! a = None).
  { intros l x Hx. by apply (alloc_fresh (mk_system p (m_acceptor w) (srv w) (loops w)) l). }
  split; [done|]. destruct (connections (srv w) !! a) as [c|] eqn:Hc; [|done].
  destruct (fr_conn _ Hfr a c Hc) as (x & ch & Hx & _ & Hch & _). by rewrite (Haddr _ x Hx) in Hch.
Qed.

Lemma newConnection_wp here fd f peer p w :
  inv_but None w → open_fds w !! fd = None → files (net p) = <[fd := f]> (open_fds w) →
  nonblocking f = true → peer_addr f = Some peer →
  wp (newConnection react wc alloc here fd peer) (λ _ w', inv_but None w') E
    (mk_system p (m_acceptor w) (srv w) (loops w)).
Proof.
  intros Hinv Hfresh Hfiles Hnb Hpeer. pose proof (proj1 Hinv) as Hfr. set (w1 := mk_system p _ _ _).
  destruct (alloc_unused w p Hfr) as [Haddr Ha]. fold w1 in Haddr, Ha. set (a := alloc w1) in Haddr, Ha.
  unfold newConnection. apply wp_bind, wp_gets. fold a. apply wp_bind. unfold wp at 1, on_proc at 1.
  destruct (getLocalAddr_run p fd) as (local & p1 & Hlocal & Hnet). cbn [proc w1]. rewrite Hlocal.
  rewrite <- Hnet in Hfiles. clearbody a. subst w1. cbn [m_acceptor srv loops].
  set (w1 := mk_system p1 _ _ _).
  apply wp_bind. unfold wp at 1, on_srv at 1. change (srv w1) with (srv w).
  destruct (decide (m_nextConnId (srv w) = 2 ^ 31 - 1)) as [Hid|Hid].
  { rewrite newConnection_overflows by (done || apply Hfr). apply tolerates_overflow. }
  destruct (newConnection_run (srv w) fd (sin peer) (sin local) a (fr_can _ Hfr) Hid)
    as (pl & Hall & Hbase & [Hwf Hlt] & _ & Hrun).
  set (c := mk_connection _ _ _ _ _) in Hrun. rewrite Hrun.
  assert (Hl : getLoop c ∈ getAllLoops (m_threadPool (srv w))).
  { destruct (can_pool _ (fr_can _ Hfr)) as [[Hpos _] Hlt0]. by apply turn_in_loops. }
  destruct (fr_pool _ Hfr (getLoop c) ltac:(by right)) as [io Hio].
  apply wp_bind. unfold wp at 1, on_srv at 1, TcpServer.deref. cbn [srv].
  unfold mbind at 1, M_bind at 1, gets at 1. cbn [connections connected id]. rewrite lookup_insert_eq.
  apply wp_bind. destruct (TcpConnection_new_ok fd wc false) as (new & Hnew & _). rewrite Hnew.
  unfold wp at 1, lift at 1. apply wp_bind. unfold wp at 1, on_reactor, on_io, in_reactor. cbn [loops].
  change (loops w1) with (loops w). rewrite Hio. unfold modify at 1.
  fold (with_conn a new io).
  apply wp_bind. unfold wp at 1, on_proc at 1. cbn [proc].
  destruct (set_keepAlive_run (proc w1) fd) as (p2 & Hrun2 & Hf2). rewrite Hrun2.
  change (proc w1) with p1 in Hf2.
  assert (Hsock : sockets_ok (files (net p2)) (<[a := c]> (connections (srv w)))).
  { apply (sockets_option (files (net p1)) _ _ fd SOL_SOCKET SO_KEEPALIVE 1); [|..|exact Hf2].
    - apply (sockets_connected (open_fds w) _ _ a c f peer); [apply Hfr|done..].
    - destruct (others !! fd) as [x|] eqn:Hx; [|done].
      destruct (so_others _ _ (fr_sockets _ Hfr) _ _ Hx) as [_ Hx']. congruence. }
  assert (Hfc : fresh_conn w p2 pl c a new io fd wc) by (split; try done; by split).
  destruct (inv_joined _ _ _ _ _ _ _ _ _ Hinv Ha Hfc) as (Hbut & Hcs & Hph & Hm & He & Hr & Hd).
  apply wp_bind. unfold wp at 1. rewrite handed_over_run. cbn [srv proc m_acceptor loops connected posted].
  rewrite (fr_posted _ Hfr). cbn [app for_each].
  apply (wp_bind (runInLoop here (run_task react here) (getLoop c, ConnectEstablished a)) (λ _, mret tt)).
  eapply wp_mono.
  { apply (setup_wp here a c (accepted w p2 pl c a new io)); try done; [rewrite Hcs; apply lookup_insert_eq|].
    apply (onward a Unborn); [constructor|by apply (fr_unborn _ Hfr)]. }
  intros [] w' Hw'. by apply wp_ret.
Qed.

(** Other files may be as before. *)
Lemma inv_same_files w p :
  inv_but None w → files (net p) = open_fds w →
  inv_but None (mk_system p (m_acceptor w) (srv w) (loops w)).
Proof.
  intros [Hfr Hst] Hf. split; [|exact Hst]. destruct Hfr. split; try done. unfold open_fds. cbn. by rewrite Hf.
Qed.

Lemma accept_wp here io w :
  inv_but None w → loops w !! here = Some io →
  wp (accept file_name default_addr react wc alloc here) (λ _ w', inv_but None w') E w.
Proof.
  intros Hinv Hio. unfold accept. apply wp_bind. unfold wp at 1, on_acceptor. rewrite Hio.
  set (note := λ (fd : Z) (peer : sockaddr_in), modify (λ calls : list (Z * sockaddr_in), calls ++ [(fd, peer)])).
  set (v := mk_world _ _ _ []).
  assert (Hsame : ∀ p : process K, mk_system p (m_acceptor w) (srv w)
    (<[here := mk_io_loop (mk_reactor (Reactor.m_poller (reactor_of io)) (conns (reactor_of io))) (active io)
         (functors io) (pendingFunctors io)]> (loops w)) = mk_system p (m_acceptor w) (srv w) (loops w)).
  { intros p. f_equal. apply insert_id. rewrite Hio. destruct io as [[] ? ? ?]. done. }
  pose proof (handleRead_run file_name note v default_addr) as Hrun. cbv zeta in Hrun.
  change (Acceptor.proc v) with (proc w) in Hrun. change (Acceptor.acceptor v) with (m_acceptor w) in Hrun.
  destruct (sys_accept4 _ _ nonblocking_flags) as [[e|[connfd peer]] k].
  - destruct Hrun as (p & Hrun & Hf & _). rewrite Hrun. cbn [Acceptor.loop Acceptor.proc Acceptor.acceptor client].
    cbn. rewrite Hsame. by apply inv_same_files.
  - destruct Hrun as (_ & Hfresh & Hrun). destruct (m_newConnectionCallback (m_acceptor w)).
    + cbn [note modify client v] in Hrun. destruct Hrun as (p & f & Hrun & Hf & Hnb & Hp).
      rewrite Hrun. cbn. rewrite Hsame.
      apply (wp_bind (newConnection react wc alloc here connfd peer) (λ _, mret tt)).
      eapply wp_mono; [by apply (newConnection_wp here connfd f peer p w)|]. intros [] w' Hw'. by apply wp_ret.
    + destruct Hrun as (p & Hrun & Hf). rewrite Hrun. cbn. rewrite Hsame. by apply inv_same_files.
Qed.

(** What a channel's callbacks can be. *)
Lemma dispatched_own ch t x :
  own_handlers ch → x ∈ dispatched t ch → x.1 ∈ [HandleRead; HandleWrite; HandleClose; HandleError].
Proof.
  intros (E1 & E2 & E3 & E4). unfold dispatched. rewrite E1, E2, E3, E4, !elem_of_app.
  intros [Hx|[Hx|[Hx|Hx]]]; (case_match; [apply list_elem_of_singleton in Hx as ->; set_solver|by apply not_elem_of_nil in Hx]).
Qed.

Lemma dispatched_other ch t :
  other_handlers ch → dispatched t ch = [] ∨
    ∃ h o, dispatched t ch = [(h, o)] ∧ h ∈ [AcceptorHandleRead; LoopHandleRead; TimerHandleRead].
Proof.
  intros (E1 & E2 & E3 & E4). apply list_elem_of_fmap in E1 as (h & E1 & Hh).
  assert (Hnil : ∀ b : bool, (if b then [] else []) = @nil (handler * option Z)) by by intros [].
  unfold dispatched. rewrite E1, E2, E3, E4, !Hnil. cbn [app].
  destruct (has _ (Z.lor EPOLLIN EPOLLPRI)); [right; by exists h, (Some t)|by left].
Qed.

(** The callbacks of a live connection's channel. *)
Lemma callbacks_wp here a c r wr (xs : list (handler * option Z)) w :
  inv_but None w → connections (srv w) !! a = Some c → getLoop c = here → conn_phase is_live w here a →
  (∀ x, x ∈ xs → x.1 ∈ [HandleRead; HandleWrite; HandleClose; HandleError]) →
  wp (for_each (callback file_name default_addr react wc alloc here a r wr) xs)
    (λ _ w', inv_but None w') E w.
Proof.
  intros Hinv Hc <- Hlive. revert w Hinv Hc Hlive.
  induction xs as [|x xs IH]; intros w Hinv Hc Hlive Hxs; cbn [for_each]; [done|].
  apply wp_bind. apply (wp_mono _ (λ _ w', inv_but None w' ∧ connections (srv w') = connections (srv w) ∧
    conn_phase is_live w' (getLoop c) a)).
  - pose proof (handler_wp r wr x a c w Hinv Hc Hlive) as Hwp. unfold callback.
    assert (Hx : x.1 ∈ [HandleRead; HandleWrite; HandleClose; HandleError]) by (apply Hxs; by left).
    rewrite !elem_of_cons, elem_of_nil in Hx. by destruct Hx as [->|[->|[->|[->|[]]]]].
  - intros [] w1 (Hinv1 & Hcs & Hlive1). apply IH; [done|by rewrite Hcs|done|].
    intros y Hy. apply Hxs. by right.
Qed.

Definition with_active act io : io_loop Ke := mk_io_loop (reactor_of io) act (functors io) (pendingFunctors io).

Lemma handleEvent_idle here t r wr io w :
  loops w !! here = Some io → active io = [] →
  handleEvent file_name default_addr react wc alloc here t r wr w = Ok (tt, w).
Proof.
  intros Hio Hact. unfold handleEvent, mbind, M_bind, on_io at 1, gets at 1. rewrite Hio, Hact.
  rewrite insert_id by done. by destruct w.
Qed.

(** Up to the callbacks, [handleEvent] takes the channel off the list. *)
Lemma handleEvent_head here t r wr io a rest ch w :
  loops w !! here = Some io → active io = a :: rest → channels (Reactor.m_poller (reactor_of io)) !! a = Some ch →
  handleEvent file_name default_addr react wc alloc here t r wr w =
    for_each (callback file_name default_addr react wc alloc here a r wr) (dispatched t ch)
      (set_loop here (with_active rest io) w).
Proof.
  intros Hio Hact Hch. unfold handleEvent, mbind, M_bind, on_reactor, on_io at 1, gets at 1.
  rewrite Hio, Hact. cbn [set_loop proc m_acceptor srv loops]. unfold on_io at 1, modify at 1. cbn [loops].
  rewrite lookup_insert_eq. unfold on_io at 1. cbn [loops]. rewrite lookup_insert_eq. unfold in_reactor, on_poller.
  cbn [reactor_of]. rewrite (deref_channel_ok _ _ _ Hch). cbn. rewrite !insert_insert_eq. do 2 f_equal.
  unfold set_loop, with_active. by destruct (reactor_of io).
Qed.

Lemma handleEvent_wp here t r wr io w :
  inv_but None w → loops w !! here = Some io →
  wp (handleEvent file_name default_addr react wc alloc here t r wr) (λ _ w', inv_but None w') E w.
Proof.
  intros Hinv Hio. pose proof (fr_loop _ (proj1 Hinv) _ _ Hio) as Hok.
  destruct (active io) as [|a rest] eqn:Hact; [by unfold wp; rewrite (handleEvent_idle _ _ _ _ _ _ Hio Hact)|].
  set (io1 := with_active rest io). set (w1 := set_loop here io1 w).
  destruct (inv_loop (others := others) (listenfd := listenfd) (allowed := allowed) None w here io io1) as [Hinv1 _]; try done.
  { destruct Hok as [? Hdisp ?]. split; [done| |done]. intros b Hb. apply Hdisp. rewrite Hact. by right. }
  destruct (lo_active _ Hok a) as [[ch Hch] Hlive]; [rewrite Hact; by left|].
  assert (Hio1 : loops w1 !! here = Some io1) by apply lookup_insert_eq.
  unfold wp. rewrite (handleEvent_head here t r wr io a rest ch w Hio Hact Hch). fold io1 w1.
  pose proof (fr_chan _ (proj1 Hinv) here io a ch Hio Hch) as Hkind. unfold channel_ok in Hkind.
  destruct (conns (reactor_of io) !! a) as [d|] eqn:Hd.
  - destruct (fr_own _ (proj1 Hinv1) here io1 a Hio1) as (c & Hc & Hl); [by exists d|].
    apply (callbacks_wp here a c); [done..| |by intros x; apply dispatched_own].
    exists io1. split; [done|]. by apply (Hlive d).
  - destruct Hkind as [Hkind _].
    destruct (dispatched_other ch t Hkind) as [->|(h & o & -> & Hh)]; [done|]. cbn [for_each].
    apply (wp_bind (callback file_name default_addr react wc alloc here a r wr (h, o)) (λ _, mret tt)).
    apply (wp_mono _ (λ _ w', inv_but None w')); [|by intros [] w2 Hw2]. unfold callback. cbn [fst].
    rewrite !elem_of_cons, elem_of_nil in Hh. destruct Hh as [->|[->|[->|[]]]]; [|done..].
    by apply (accept_wp here io1).
Qed.

Lemma poll_step_wp here filled io w :
  inv_but None w → loops w !! here = Some io → epoll_wait_ok (Reactor.m_poller (reactor_of io)) (inr filled) →
  wp (poll here filled) (λ _ w', inv_but None w') E w.
Proof.
  intros Hinv Hio Hok. pose proof (fr_loop _ (proj1 Hinv) _ _ Hio) as [Hr Hdisp Hsaid].
  destruct (Reactor.poll_wp _ _ (inv_poller _ Hr) Hok) as (p & Hrun & Hp & Hrep).
  destruct (reported_dispatchable _ p filled Hr Hok Hp Hrep) as [Hr1 Hdisp1].
  unfold poll. apply wp_bind. unfold wp at 1, on_reactor, on_io, in_reactor, on_poller. rewrite Hio, Hrun.
  unfold wp, on_io. cbn [loops]. rewrite lookup_insert_eq. unfold modify.
  cbn [proc m_acceptor srv loops reactor_of functors pendingFunctors]. rewrite insert_insert_eq.
  apply (inv_loop None w here io); try done.
  - apply map_eq. intros b. rewrite !lookup_fmap. cbn.
    destruct (channels p !! b) as [x|] eqn:Hx.
    + destruct (reported_lookup _ _ _ _ _ Hrep Hx) as (y & -> & _ & _ & _ & Hpur). cbn. by rewrite Hpur.
    + destruct (channels (Reactor.m_poller (reactor_of io)) !! b) as [y|] eqn:Hy; [|done].
      destruct (reported_back _ _ _ _ _ Hrep Hy) as [z Hz]. congruence.
  - intros P b _ (c & ch & Hc & Hch & HP). destruct (reported_back _ _ _ _ _ Hrep Hch) as [ch' Hch'].
    destruct (reported_lookup _ _ _ _ _ Hrep Hch') as (y & Hy & E1 & E2 & E3 & _). simplify_eq.
    exists c, ch'. split_and!; [done..|]. unfold in_phase. by rewrite E1, E2, E3.
Qed.

Lemma doPendingFunctors_wp here io w :
  inv_but None w → loops w !! here = Some io → functors io = [] →
  wp (doPendingFunctors here) (λ _ w', inv_but None w') E w.
Proof.
  intros Hinv Hio Hf. unfold wp, doPendingFunctors, on_io. rewrite Hio. unfold modify.
  apply (inv_loop None w here io); try done; [by destruct (fr_loop _ (proj1 Hinv) here io Hio)|].
  cbn. by rewrite Hf, app_nil_r.
Qed.

(** What is still to be run, when [j] has been taken from the loop [here]. *)
Definition taken_job here j w w' : Prop :=
  (∀ P l a, conn_phase P w' l a ↔ conn_phase P w l a) ∧
  ∀ t l, occ (Task t) (jobs w l) =
    ((if decide (l = here ∧ j = Task t) then 1 else 0) + occ (Task t) (jobs w' l))%nat.

Lemma popped_jobs w here io j fs :
  inv_but None w → loops w !! here = Some io → functors io = j :: fs →
  let w' := set_loop here (popped fs io) w in inv_but (about j) w' ∧ taken_job here j w w'.
Proof.
  intros Hinv Hio Hf w'. destruct (pop_ok (others := others) (listenfd := listenfd) (allowed := allowed) w here io j fs Hinv Hio Hf) as (Hbut & Hph & Hhere & Hother).
  split; [done|]. split; [done|]. intros t l. destruct (decide (l = here)) as [->|Hne].
  - rewrite Hhere, occ_cons. f_equal. by repeat case_decide; naive_solver.
  - rewrite decide_False by naive_solver. cbn [Nat.add]. by rewrite <- (Hother l Hne).
Qed.

Section functor.
Context (here a : Z) (c : connection) (w w' : system K Ke) (io : io_loop Ke).
Context (Hbut : inv_but (Some a) w') (Hsrv : srv w' = srv w) (Hc : connections (srv w) !! a = Some c)
  (Hst : stage w a c) (Hio : loops w' !! here = Some io) (Hact : active io = []).

Lemma run_established_wp :
  getLoop c = here → taken_job here (Task (ConnectEstablished a)) w w' →
  wp (run_task react here (ConnectEstablished a)) (λ _ w2, inv_but None w2) E w'.
Proof.
  intros <- [Hph Hocc]. cbn [run_task]. rewrite <- Hsrv in Hc.
  assert (He : established_jobs w a c = S (established_jobs w' a c)).
  { unfold established_jobs. by rewrite Hocc, decide_True. }
  assert (Hr : remove_jobs w' a = remove_jobs w a).
  { unfold remove_jobs, base. by rewrite Hsrv, Hocc, decide_False by (by intros [_ [=]]). }
  assert (Hd : destroyed_jobs w' a c = destroyed_jobs w a c).
  { unfold destroyed_jobs. by rewrite Hocc, decide_False by (by intros [_ [=]]). }
  destruct Hst as ([] & Hs & Ha); [done| |exfalso; cbn in Hs; lia..].
  destruct Hs as (Hp & Hm & He' & Hr' & Hd').
  eapply wp_mono; [eapply (established_wp a c w'); try done|by intros [] w2 [? _]].
  - by apply Hph.
  - unfold mapped. by rewrite Hsrv.
  - lia.
  - by rewrite Hr.
  - by rewrite Hd.
Qed.

Lemma run_remove_wp :
  base w = here → taken_job here (Task (RemoveConnectionInLoop a)) w w' →
  wp (run_task react here (RemoveConnectionInLoop a)) (λ _ w2, inv_but None w2) E w'.
Proof.
  intros Hb [Hph Hocc]. cbn [run_task]. pose proof Hc as Hc'. rewrite <- Hsrv in Hc'.
  assert (He : established_jobs w' a c = established_jobs w a c).
  { unfold established_jobs. by rewrite Hocc, decide_False by (by intros [_ [=]]). }
  assert (Hr : (0 < remove_jobs w a)%nat).
  { unfold remove_jobs. rewrite Hocc, decide_True by done. lia. }
  eapply wp_mono; [by eapply (removeConnectionInLoop_wp a c)|].
  intros [] w2 (Hbut2 & (Hcs2 & _ & Hph2) & He2 & _ & Hm2 & Hd2).
  apply (inv_join w2 a c); [done|by rewrite Hcs2|].
  destruct Hst as ([] & Hs & Ha); cbn in Hs; [done|lia|lia|exists Leaving|exists Leaving|exists Gone].
  - destruct Hs as (Hp & _ & E0 & _). split; [split_and!; [by apply Hph2, Hph|done|congruence|done]|]. apply (onward a Closing); [constructor|done].
  - destruct Hs as (Hp & _ & E0 & _). split; [split_and!; [by apply Hph2, Hph|done|congruence|done]|done].
  - destruct Hs as (Hp & _ & E0). split; [split_and!; [by apply Hph2, Hph|done|congruence]|done].
Qed.

Lemma run_destroyed_wp :
  getLoop c = here → taken_job here (Task (ConnectDestroyed a)) w w' →
  wp (run_task react here (ConnectDestroyed a)) (λ _ w2, inv_but None w2) E w'.
Proof.
  intros <- [Hph Hocc]. cbn [run_task]. pose proof Hc as Hc'. rewrite <- Hsrv in Hc'.
  assert (He : established_jobs w' a c = established_jobs w a c).
  { unfold established_jobs. by rewrite Hocc, decide_False by (by intros [_ [=]]). }
  assert (Hd : (0 < destroyed_jobs w a c)%nat).
  { unfold destroyed_jobs. rewrite Hocc, decide_True by done. lia. }
  assert (Hdone : conn_phase is_closed w (getLoop c) a ∨ conn_phase is_gone w (getLoop c) a →
    ¬ mapped w a c → established_jobs w a c = 0%nat → allowed a Gone →
    wp (on_connection (getLoop c) a (connectDestroyed react)) (λ _ w2, inv_but None w2) E w').
  { intros Hp Hm E0 Hgone. eapply wp_mono; [eapply (destroyed_wp a c w' io); try done|by intros [] w2 [? _]].
    - by destruct Hp; [left|right]; apply Hph.
    - unfold mapped. by rewrite Hsrv.
    - congruence. }
  destruct Hst as ([] & Hs & Ha); cbn in Hs; [done|lia..| |].
  - destruct Hs as (Hp & Hm & E0 & _). apply Hdone; [by left|done..|]. apply (onward a Leaving); [constructor|done].
  - destruct Hs as (Hp & Hm & E0). apply Hdone; [by right|done..].
Qed.

(** A functor of the user's finds the connection in any phase. *)
Lemma run_callback_wp f :
  getLoop c = here → taken_job here (Callback a f) w w' →
  wp (run_job react later here (Callback a f)) (λ _ w2, inv_but None w2) E w'.
Proof.
  intros <- [Hph Hocc]. cbn [run_job]. pose proof Hc as Hc'. rewrite <- Hsrv in Hc'.
  eapply wp_mono; [eapply (idle_wp _ a c w'); [|done..|]|by intros [] w2 [? _]].
  - apply idle_reaction. intros d. apply later_tame.
  - destruct Hst as (s & Hs & Ha). exists s. split; [|done]. apply (at_life_course s w); [split_and!|..|done].
    + unfold mapped. by rewrite Hsrv.
    + unfold remove_jobs, base. by rewrite Hsrv, (Hocc _ (m_baseLoop _)), decide_False by (by intros [_ [=]]).
    + unfold destroyed_jobs. by rewrite (Hocc _ (getLoop c)), decide_False by (by intros [_ [=]]).
    + unfold established_jobs. by rewrite (Hocc _ (getLoop c)), decide_False by (by intros [_ [=]]).
    + apply Hph. by apply at_life_phase.
Qed.
End functor.

Lemma run_functor_head here io j fs w :
  loops w !! here = Some io → functors io = j :: fs →
  run_functor react later here w = run_job react later here j (set_loop here (popped fs io) w).
Proof.
  intros Hio Hf. unfold run_functor, mbind, M_bind, on_io at 1, gets at 1. rewrite Hio, Hf.
  unfold on_io at 1, modify at 1. cbn [loops]. rewrite lookup_insert_eq, insert_insert_eq. done.
Qed.

Lemma run_functor_idle here io w :
  loops w !! here = Some io → functors io = [] → run_functor react later here w = Ok (tt, w).
Proof.
  intros Hio Hf. unfold run_functor, mbind, M_bind, on_io at 1, gets at 1. rewrite Hio, Hf.
  rewrite insert_id by done. by destruct w.
Qed.

Lemma run_functor_wp here io w :
  inv_but None w → loops w !! here = Some io → active io = [] →
  wp (run_functor react later here) (λ _ w', inv_but None w') E w.
Proof.
  intros Hinv Hio Hact.
  destruct (functors io) as [|j fs] eqn:Hf; [by unfold wp; rewrite (run_functor_idle here io w Hio Hf)|].
  unfold wp. rewrite (run_functor_head here io j fs w Hio Hf).
  set (w' := set_loop here (popped fs io) w).
  destruct (popped_jobs w here io j fs Hinv Hio Hf) as [Hbut Htaken].
  assert (Hj : located (srv w) here j).
  { apply (fr_job _ (proj1 Hinv)). rewrite (jobs_at w here io Hio), Hf. by left. }
  assert (Hio' : loops w' !! here = Some (popped fs io)) by apply lookup_insert_eq.
  assert (Hst : ∀ a c, connections (srv w) !! a = Some c → stage w a c) by (intros a c; by apply (proj2 Hinv)).
  destruct j as [[|a|a|a]|a f]; cbn [run_job located] in *; [done| | | |].
  - destruct Hj as (c & Hc & Hl). by eapply (run_established_wp here a c w); try apply Hst.
  - destruct Hj as (Hb & c & Hc). by eapply (run_remove_wp here a c w); try apply Hst.
  - destruct Hj as (c & Hc & Hl). by eapply (run_destroyed_wp here a c w); try apply Hst.
  - destruct Hj as (c & Hc & Hl). by eapply (run_callback_wp here a c w); try apply Hst.
Qed.

Lemma user_call_wp here a act io w :
  tame E act → inv_but None w → loops w !! here = Some io → is_Some (conns (reactor_of io) !! a) →
  wp (on_connection here a (run_action act)) (λ _ w', inv_but None w') E w.
Proof.
  intros Hact Hinv Hio Ha. destruct (fr_own _ (proj1 Hinv) here io a Hio Ha) as (c & Hc & <-).
  destruct (inv_split w a c Hinv Hc) as [Hbut Hst].
  eapply wp_mono; [by eapply (idle_wp _ a c w); [apply idle_run_action|..]|by intros [] w' [? _]].
Qed.

(** *** The end of a connection *)

(** Nobody refers to a connection: it has been destroyed. *)
Lemma unreferenced_gone w a c :
  connections (srv w) !! a = Some c → stage w a c → unreferenced w a →
  conn_phase is_gone w (getLoop c) a ∧ allowed a Gone.
Proof.
  intros Hc Hst [Hmap Hjobs].
  assert (Hno : ∀ l t, about (Task t) = Some a → ¬ (0 < occ (Task t) (jobs w l))%nat).
  { intros l t Ht Hin%occ_elem. by destruct (Hjobs l (Task t) Hin). }
  destruct Hst as ([] & Hs & Ha); [done|destruct Hs as (_ & Hm & _); by destruct (Hmap (name c))..| |].
  - destruct Hs as (_ & _ & _ & Hd). by destruct (Hno (getLoop c) (ConnectDestroyed a)).
  - split; [by destruct Hs|done].
Qed.

Lemma sockets_closed fs fs' cs a c :
  sockets_ok fs cs → cs !! a = Some c → fs' = delete (sockfd c) fs → sockets_ok fs' (delete a cs).
Proof.
  intros [Hoth Hlis Hconn Hinj Hall] Ha ->. destruct (Hconn a c Ha) as (Hnl & Hno & _). split.
  - intros d x Hd. destruct (Hoth d x Hd). split; [done|]. rewrite lookup_delete_ne; [done|]. congruence.
  - by rewrite lookup_delete_ne.
  - intros b d [Hne Hb]%lookup_delete_Some. destruct (Hconn b d Hb) as (? & ? & f & peer & Hf & ?).
    split_and!; [done..|]. exists f, peer. rewrite lookup_delete_ne; [done|]. intros E0.
    by destruct Hne, (Hinj a b c d).
  - intros b1 b2 d1 d2 [_ ?]%lookup_delete_Some [_ ?]%lookup_delete_Some. by eapply Hinj.
  - intros d [x [Hne Hx]%lookup_delete_Some]. destruct (Hall d) as [?|[?|(b & y & Hb & <-)]]; [by eexists|by left|by right; left|].
    right; right. exists b, y. split; [|done]. rewrite lookup_delete_ne; [done|]. intros <-. by simplify_eq.
Qed.

(** A loop that has lost the connection. *)
Definition without_conn a io : io_loop Ke :=
  mk_io_loop (free_conn a (reactor_of io)) (active io) (functors io) (pendingFunctors io).

(** The system without it. *)
Definition released w p a c io : system K Ke :=
  mk_system p (m_acceptor w) (set_connections (delete a (connections (srv w))) (srv w))
    (<[getLoop c := without_conn a io]> (loops w)).

Lemma loop_ok_released a io :
  loop_ok io → conn_in is_gone a (reactor_of io) → loop_ok (without_conn a io).
Proof.
  intros [Hr Hact Hsaid] (d & ch & Hd & Hch & Hg). split; cbn.
  - by apply (inv_free _ d); [..|apply Hg].
  - intros b Hb. destruct (Hact b Hb) as [Hex Hlive]. assert (Hne : a ≠ b).
    { intros <-. destruct (Hlive d Hd) as (d' & ch' & Hd' & _ & [(_ & Hn & _)|(_ & Hn & _)]); simplify_eq;
        destruct Hg as (_ & Hy & _); congruence. }
    split; cbn [reactor_of without_conn]; rewrite ?free_conn_channels.
    { by rewrite lookup_delete_ne. }
    cbn. rewrite lookup_delete_ne by done. intros x Hx.
    destruct (Hlive x Hx) as (y & k & Hy & Hk & Hp). exists y, k. rewrite free_conn_channels. cbn.
    by rewrite !lookup_delete_ne.
  - intros b x [_ Hx]%lookup_delete_Some. by apply (Hsaid b).
Qed.

Lemma jobs_released w p a c io l :
  loops w !! getLoop c = Some io → jobs (released w p a c io) l = jobs w l.
Proof.
  intros Hio. unfold jobs. cbn. destruct (decide (l = getLoop c)) as [->|Hne].
  - by rewrite lookup_insert_eq, Hio.
  - by rewrite lookup_insert_ne.
Qed.

Lemma frame_released w p a c io :
  frame w → connections (srv w) !! a = Some c → loops w !! getLoop c = Some io →
  conn_in is_gone a (reactor_of io) → unreferenced w a → files (net p) = delete (sockfd c) (open_fds w) →
  allowed a Unborn → frame (released w p a c io).
Proof.
  intros Hfr Hc Hio Hg [Hmap Hjobs] Hfiles Hun. split; cbn [released loops srv].
  - intros l x [[<- <-]|[_ Hx]]%lookup_insert_Some; [|by apply (fr_loop _ Hfr l)].
    apply loop_ok_released; [by apply (fr_loop _ Hfr (getLoop c))|done].
  - intros l Hl. apply lookup_insert_is_Some'. right. by apply (fr_pool _ Hfr).
  - by destruct (fr_can _ Hfr).
  - apply (fr_posted _ Hfr).
  - cbn. intros b d [Hne Hd]%lookup_delete_Some. destruct (fr_conn _ Hfr b d Hd) as (x & ch & Hx & Hs & Hch & E0).
    destruct (decide (getLoop c = getLoop d)) as [El|Hl].
    + assert (x = io) as -> by congruence. exists (without_conn a io), ch. rewrite El, lookup_insert_eq.
      cbn [without_conn reactor_of]. rewrite free_conn_channels. cbn. by rewrite !lookup_delete_ne by done.
    + exists x, ch. by rewrite lookup_insert_ne.
  - cbn. intros l x b Hx Hb.
    assert (∃ y, loops w !! l = Some y ∧ is_Some (conns (reactor_of y) !! b) ∧ (l = getLoop c → a ≠ b)) as (y & Hy & Hs & Hne).
    { apply lookup_insert_Some in Hx as [[<- <-]|[Hne Hx]]; [|by exists x]. cbn in Hb. destruct Hb as [d [? Hd]%lookup_delete_Some].
      exists io. split_and!; [done|by eexists|done]. }
    destruct (fr_own _ Hfr l y b Hy Hs) as (d & Hd & <-). exists d. split; [|done].
    rewrite lookup_delete_ne; [done|]. intros <-. simplify_eq. by apply Hne.
  - intros l x b ch Hx. assert (Hold := fr_chan _ Hfr l).
    apply lookup_insert_Some in Hx as [[<- <-]|[_ Hx]]; [|by apply Hold]. unfold channel_ok.
    cbn [without_conn reactor_of]. rewrite free_conn_channels. cbn. intros [Hne Hch]%lookup_delete_Some. rewrite lookup_delete_ne by done. exact (Hold io b ch Hio Hch).
  - destruct (fr_names _ Hfr) as [Hname Hinj Hm]. split; cbn.
    + intros b d [_ Hd]%lookup_delete_Some. by apply (Hname b).
    + intros b1 b2 d1 d2 [_ ?]%lookup_delete_Some [_ ?]%lookup_delete_Some. by eapply Hinj.
    + intros n b Hb. destruct (Hm n b Hb) as (d & Hd & E0). exists d. rewrite lookup_delete_ne; [done|].
      intros <-. by apply (Hmap n).
  - intros l j. change (mk_system _ _ _ _) with (released w p a c io). rewrite jobs_released by done.
    intros Hj. pose proof (Hjobs l j Hj) as Hne. apply (fr_job _ Hfr) in Hj.
    destruct j as [[|b|b|b]|b f]; cbn in *; [done| | | |]; rewrite lookup_delete_ne by congruence; done.
  - unfold open_fds. cbn. rewrite Hfiles. by apply (sockets_closed (open_fds w) _ _ a c); [apply Hfr|..].
  - cbn. intros b [<-|Hb]%lookup_delete_None; [done|]. by apply (fr_unborn _ Hfr).
Qed.

Lemma release_wp a w :
  inv_but None w → is_Some (connections (srv w) !! a) → unreferenced w a →
  (allowed a Gone → allowed a Unborn) →
  wp (release a) (λ _ w', inv_but None w') E w.
Proof.
  intros Hinv [c Hc] Hun Hfree. pose proof (proj1 Hinv) as Hfr.
  destruct (unreferenced_gone w a c Hc (proj2 Hinv a c ltac:(done) Hc) Hun) as [(io & Hio & Hg) Hgone].
  unfold release. apply wp_bind. unfold wp at 1, on_srv at 1, TcpServer.deref.
  unfold mbind at 1, M_bind at 1, gets at 1. cbn [id]. rewrite Hc.
  apply wp_bind. unfold wp at 1, on_reactor, on_io, in_reactor. cbn [mret M_ret loops]. rewrite Hio. unfold modify at 1.
  fold (without_conn a io). apply wp_bind. unfold wp at 1, on_proc. cbn [proc].
  pose proof (close_wp (sockfd c) (proc w) E) as Hclose. unfold wp in Hclose. unfold Socket_destroy.
  destruct ((ret ← sys (λ k, sys_close k (sockfd c)); mret tt) (proc w)) as [[[] p]|]; [|done].
  destruct Hclose as [Hfiles _]. unfold wp, on_srv, modify. cbn [proc m_acceptor srv loops].
  fold (released w p a c io). split; [apply frame_released; auto|].
  cbn [released srv set_connections connections]. intros b d _ [Hne Hd]%lookup_delete_Some.
  apply (stage_same (Some a) w); [congruence|..|done|done|by apply (proj2 Hinv)].
  - intros l j _. by rewrite jobs_released.
  - intros P l x Hx (y & Hy & z & ch & Hz & Hch & Hp). unfold conn_phase. cbn.
    destruct (decide (getLoop c = l)) as [<-|Hl].
    + simplify_eq. exists (without_conn a io). rewrite lookup_insert_eq. split; [done|]. exists z, ch.
      cbn [without_conn reactor_of]. rewrite free_conn_channels. cbn. by rewrite !lookup_delete_ne by congruence.
    + exists y. rewrite lookup_insert_ne by done. split; [done|]. by exists z, ch.
Qed.

(** Every step that can happen keeps the invariant, and stops with a tolerated fault
    at most. *)
Lemma exec_wp e w :
  inv_but None w → enabled E w e → (∀ a, e = Release a → allowed a Gone → allowed a Unborn) →
  wp (exec file_name default_addr react later wc alloc e) (λ _ w', inv_but None w') E w.
Proof.
  intros Hinv He Hfree. destruct e as [here filled|here t r wr|here|here|here a act|a]; cbn [exec enabled] in *.
  - destruct He as (io & Hio & _ & _ & Hok). by apply (poll_step_wp here filled io).
  - destruct He as (io & Hio & _). by apply (handleEvent_wp here t r wr io).
  - destruct He as (io & Hio & _ & Hf). by apply (doPendingFunctors_wp here io).
  - destruct He as (io & Hio & Ha & _). by apply (run_functor_wp here io).
  - destruct He as (Ht & io & Hio & Ha). by apply (user_call_wp here a act io).
  - destruct He as [Ha Hun]. apply release_wp; auto.
Qed.

End steps.
