(* ===== verification/ServerSafety.v ===== *)
(** The whole server from its start: no object is used after it is gone, every
    connection is accounted for, and every descriptor is owned. *)
From S2P Require Import Prelude Kfifo Channel EpollPoller TcpConnection Reactor InetAddress EventLoopThreadPool Sockets Acceptor TcpServer Accepting WholeServer ServerStages ServerSteps.
#[local] Open Scope Z_scope.

(** What can stop a step: a ring buffer whose arithmetic has wrapped ([OutOfBounds]),
    [LOG_FATAL], a counter at its end, a call of an operation by itself with its mutex
    held, and what [user] says the user's own code may raise. Not among them are the
    use of an object that is gone, a failed assertion, a null or empty pointer, and
    the exceptions of the standard library, unless [user] has them. *)
Definition may_stop `{mx : MutexImpl} (user : fault → Prop) (f : fault) : Prop :=
  f = OutOfBounds ∨ f = FatalExit ∨ f = IntOverflow ∨ relock = Err f ∨ user f.

#[export] Instance may_stop_tolerates `{mx : MutexImpl} user : Tolerates (may_stop user).
Proof. split; unfold may_stop; auto. Qed.

(** ** The start *)
Section launch.
Context {K Ke : Type} `{SocketLaws K} `{EpollLaws Ke} {mx : MutexImpl}.
Implicit Types (w : world K Ke server) (l a : Z) (io : io_loop Ke).

(** A poller that watches only descriptors of the program's own, [fs]. *)
Definition own_channels (fs : gmap Z file) (p : poller Ke handler) : Prop :=
  ∀ a ch, channels p !! a = Some ch → other_handlers ch ∧ is_Some (fs !! m_fd ch).

(** A loop in which nothing has happened yet. *)
Definition fresh_loop (fs : gmap Z file) io : Prop :=
  consistent (Reactor.m_poller (reactor_of io)) ∧ own_channels fs (Reactor.m_poller (reactor_of io)) ∧
  conns (reactor_of io) = ∅ ∧ active io = [] ∧ functors io = [] ∧ pendingFunctors io = [].

(** The system when the base loop is about to run: [w1] is the base loop's side of it,
    [rest] has the other loops. *)
Definition launched w1 (rest : gmap Z (io_loop Ke)) : system K Ke :=
  mk_system (Acceptor.proc w1) (Acceptor.acceptor w1) (set_posted [] (client w1))
    (<[m_baseLoop (m_threadPool (client w1)) := mk_io_loop (mk_reactor (Acceptor.loop w1) ∅) [] [] []]> rest).

(** How it comes to be: [TcpServer::start], whose [listen] is run at once, on the base
    loop's thread, for an acceptor on a new channel. *)
Record launches w0 w1 (rest : gmap Z (io_loop Ke)) : Prop := {
  la_start : ∃ ipPort server_name loop0 num cb startLoop,
    0 ≤ num ∧ (String.length ipPort ≤ 22)%nat ∧
    (setThreadNum num;; start cb startLoop) (TcpServer_new ipPort server_name loop0) = Ok (tt, client w0);
  la_listen : ∃ listenAddr reusePort channel, channels (Acceptor.loop w0) !! channel = None ∧
    (Acceptor_new listenAddr reusePort channel;; setNewConnectionCallback;; listen) w0 = Ok (tt, w1);
  la_sound : sound w0;
  la_distinct : distinct_fds (Acceptor.loop w0);
  la_own : own_channels (files (net (Acceptor.proc w0))) (Acceptor.loop w0);
  la_loops l : l ∈ getAllLoops (m_threadPool (client w0)) →
    l = m_baseLoop (m_threadPool (client w0)) ∨ is_Some (rest !! l);
  la_fresh l io : rest !! l = Some io → fresh_loop (files (net (Acceptor.proc w0))) io
}.

Lemma jobs_launched w1 rest fs l :
  (∀ l io, rest !! l = Some io → fresh_loop fs io) → jobs (launched w1 rest) l = [].
Proof.
  intros Hrest. unfold jobs. cbn. destruct (_ !! l) as [io|] eqn:Hio; [|done].
  apply lookup_insert_Some in Hio as [[_ <-]|[_ Hio]]; [done|].
  by destruct (Hrest l io Hio) as (_ & _ & _ & _ & -> & ->).
Qed.

(** A loop without connections, whose channels are the program's. *)
Lemma loop_ok_fresh fs io : fresh_loop fs io → loop_ok io.
Proof.
  intros (Hp & Hown & Hc & Ha & Hf). split.
  - split; [done|]. rewrite Hc. by intros a c ?%lookup_empty_Some.
  - rewrite Ha. by intros a ?%not_elem_of_nil.
  - rewrite Hc. by intros a d ?%lookup_empty_Some.
Qed.

(** The base loop's poller, with the acceptor's channel. *)
Lemma loop_ok_base w0 w1 channel :
  ready w1 → distinct_fds (Acceptor.loop w0) → own_channels (files (net (Acceptor.proc w0))) (Acceptor.loop w0) →
  files (net (Acceptor.proc w0)) !! m_acceptSocket (Acceptor.acceptor w1) = None → adds_channel w0 w1 channel →
  loop_ok (mk_io_loop (mk_reactor (Acceptor.loop w1) ∅) [] [] []) ∧
  ∀ a x, channels (Acceptor.loop w1) !! a = Some x → other_handlers x ∧
    (is_Some (files (net (Acceptor.proc w0)) !! m_fd x) ∨ m_fd x = m_acceptSocket (Acceptor.acceptor w1)).
Proof.
  intros Hready Hd Hown Hnew (ch & Hch & Hfd & Er & Ew & Ee & Ec). split.
  - split; cbn; [|by intros a ?%not_elem_of_nil|by intros a d ?%lookup_empty_Some].
    split; [split; [apply (sound_wf _ (ready_sound _ Hready))|]|intros a c; cbn; by intros ?%lookup_empty_Some].
    intros a b x y. cbn. rewrite Hch.
    intros [[<- <-]|[Hne Hx]]%lookup_insert_Some [[<- <-]|[Hne' Hy]]%lookup_insert_Some He; [done|..|by eapply Hd].
    + destruct (Hown _ _ Hy) as [_ [f Hf]]. congruence.
    + destruct (Hown _ _ Hx) as [_ [f Hf]]. congruence.
  - intros a x. rewrite Hch. intros [[_ <-]|[_ Hx]]%lookup_insert_Some.
    + split; [|by right]. split_and!; try done. rewrite Er. set_solver.
    + destruct (Hown a x Hx). auto.
Qed.

Lemma inv_launched w0 w1 rest :
  launches w0 w1 rest →
  inv_but (others := files (net (Acceptor.proc w0))) (listenfd := m_acceptSocket (Acceptor.acceptor w1))
    (allowed := λ _ _, True) None (launched w1 rest).
Proof.
  intros [(ip & nm & l0 & num & cb & sl & Hnum & Hip & Hstart) (addr & rp & channel & Hnone & Hrun) Hsound Hd Hown Hloops Hfresh].
  destruct (wf_started _ _ _ _ _ _ _ Hnum Hip Hstart) as (Hwf & Hconns & _ & _ & _).
  destruct (wp_ok _ _ _ _ _ _ Hrun (set_up_wp w0 addr rp channel Hsound Hnone))
    as (fd & opts & local & _ & Hready & Hacc & Hnew & Hfiles & _ & _ & Hcl & Hadds).
  assert (Hfd : m_acceptSocket (Acceptor.acceptor w1) = fd) by by rewrite Hacc.
  destruct (loop_ok_base w0 w1 channel Hready Hd Hown) as [Hbase Hchans]; [by rewrite Hfd|done|].
  rewrite Hfd in Hchans |- *. set (fs := files _) in *.
  assert (Hno : ∀ l io a, loops (launched w1 rest) !! l = Some io → conns (reactor_of io) !! a = None).
  { intros l io a. cbn. intros [[_ <-]|[_ Hio]]%lookup_insert_Some; [done|].
    by destruct (Hfresh l io Hio) as (_ & _ & -> & _). }
  split; [split; cbn [launched srv]; rewrite ?Hcl|].
  - intros l io. cbn. intros [[_ <-]|[_ Hio]]%lookup_insert_Some; [done|]. by eapply loop_ok_fresh, Hfresh.
  - intros l. unfold base. cbn. rewrite Hcl. intros [->|Hl]%elem_of_cons; [by rewrite lookup_insert_eq|].
    apply lookup_insert_is_Some'. destruct (Hloops l Hl) as [->|?]; auto.
  - by destruct (wf_can_connect _ Hwf).
  - done.
  - cbn. intros a c. rewrite Hconns. by intros ?%lookup_empty_Some.
  - intros l io a Hio [d Hc]. by rewrite (Hno l io a Hio) in Hc.
  - intros l io a x Hio Hx. unfold channel_ok. rewrite (Hno l io a Hio). revert Hio. cbn.
    intros [[_ <-]|[_ Hio]]%lookup_insert_Some; [by eapply Hchans|].
    destruct (Hfresh l io Hio) as (_ & Hl & _). destruct (Hl a x Hx). auto.
  - split; cbn; rewrite ?Hconns.
    + by intros a c ?%lookup_empty_Some.
    + by intros a b c d ?%lookup_empty_Some.
    + intros n a Ha. destruct (wf_map _ Hwf n a Ha) as (c & Hc & ?). exists c. by rewrite <- Hconns.
  - intros l j. rewrite (jobs_launched w1 rest fs l Hfresh). by intros ?%not_elem_of_nil.
  - cbn. rewrite Hconns. unfold open_fds. cbn. rewrite Hfiles. split.
    + intros d f Hf. assert (d ≠ fd) by congruence. split; [done|]. by rewrite lookup_insert_ne.
    + by rewrite lookup_insert_eq.
    + by intros a c ?%lookup_empty_Some.
    + by intros a b c d ?%lookup_empty_Some.
    + intros d [<-|?]%lookup_insert_is_Some'; [by right; left|by left].
  - done.
  - cbn. intros a c _. rewrite Hcl, Hconns. by intros ?%lookup_empty_Some.
Qed.
End launch.

(** ** Properties *)
Section properties.
Context {K Ke : Type} `{SocketLaws K} `{EpollLaws Ke} {mx : MutexImpl}.
Context (file_name : string) (default_addr : sockaddr_in).
Context (react : notification → conn → TcpConnection.action)
  (later : TcpConnection.functor → conn → TcpConnection.action) (wc : bool).
Context (alloc : system K Ke → Z) (user : fault → Prop).
Implicit Types (w : system K Ke).

(** The user's code stops with nothing but [user], and memory is new where it is free. *)
Record well_behaved : Prop := {
  wb_react : Reacts (may_stop user) react;
  wb_later f d : tame (may_stop user) (later f d);
  wb_alloc w l io : loops w !! l = Some io → channels (Reactor.m_poller (reactor_of io)) !! alloc w = None
}.

Abbreviation run := (exec file_name default_addr react later wc alloc).
Abbreviation runs := (rtc (step file_name default_addr react later wc alloc (may_stop user))).

Lemma inv_running v0 v1 rest w :
  well_behaved → launches v0 v1 rest → runs (launched v1 rest) w →
  inv_but (others := files (net (Acceptor.proc v0))) (listenfd := m_acceptSocket (Acceptor.acceptor v1))
    (allowed := λ _ _, True) None w.
Proof.
  intros [Hreact Hlater Halloc] Hla Hsteps.
  revert w Hsteps. apply rtc_ind_r; [by apply inv_launched|]. intros w1 w2 _ (e & He & Hrun) Hinv.
  refine (wp_ok _ _ _ _ _ _ Hrun (exec_wp file_name default_addr later Hlater wc alloc Halloc e w1 Hinv He _)).
  done.
Qed.

(** Where a connection is in its life. *)
Definition age w a : life :=
  match connections (srv w) !! a with
  | None => Unborn
  | Some c =>
      match loops w !! getLoop c ≫= λ io, conns (reactor_of io) !! a with
      | None => Unborn
      | Some d =>
          if removed d then Gone
          else match m_state d with
            | kConnecting => Connecting
            | kConnected | kDisconnecting => Up
            | kDisconnected =>
                if decide (m_connections (srv w) !! name c = Some a) then Closing else Leaving
            end
      end
  end.

Lemma at_life_age s w a c : connections (srv w) !! a = Some c → at_life s w a c → age w a = s.
Proof.
  intros Hc Hs. unfold age. rewrite Hc.
  destruct (at_life_phase s w a c Hs) as (io & Hio & d & ch & Hd & _ & Hp). rewrite Hio. cbn. rewrite Hd.
  destruct s; cbn in Hp, Hs; [done|..]; destruct Hp as (Hst & Hr & _); cbn in Hst, Hr; rewrite Hr; try done.
  - by rewrite Hst.
  - by destruct (m_state d).
  - rewrite Hst. by rewrite decide_True by apply Hs.
  - rewrite Hst. by rewrite decide_False by apply Hs.
Qed.

Lemma gone_age w a c :
  connections (srv w) !! a = Some c → conn_phase is_gone w (getLoop c) a → age w a = Gone.
Proof.
  intros Hc (io & Hio & d & ch & Hd & _ & _ & Hr & _). unfold age. rewrite Hc, Hio. cbn. rewrite Hd.
  cbn in Hr. by rewrite Hr.
Qed.

(** The invariant holds whatever is asked of the lives, if it holds of them now. *)
Lemma inv_allow {others listenfd} (allowed : Z → life → Prop) w :
  inv_but (others := others) (listenfd := listenfd) (allowed := λ _ _, True) None w →
  (∀ a, allowed a (age w a)) →
  inv_but (others := others) (listenfd := listenfd) (allowed := allowed) None w.
Proof.
  intros [Hfr Hst] Ha. split.
  - destruct Hfr. split; try done. intros a Hn. specialize (Ha a). unfold age in Ha. by rewrite Hn in Ha.
  - intros a c Hne Hc. destruct (Hst a c Hne Hc) as (s & Hs & _). exists s. split; [done|].
    by rewrite <- (at_life_age s w a c Hc Hs).
Qed.

Lemma release_deletes a w w' : release a w = Ok (tt, w') → connections (srv w') !! a = None.
Proof.
  unfold release. intros Hrun.
  apply M_bind_inv in Hrun as (c & w1 & _ & Hrun). apply M_bind_inv in Hrun as (u1 & w2 & _ & Hrun).
  apply M_bind_inv in Hrun as (u2 & w3 & _ & Hrun). unfold on_srv, modify in Hrun. injection Hrun as <-.
  apply lookup_delete_eq.
Qed.

(** C1. A server with any number of loops uses no object after it is gone and fails no
    assertion: in whatever order its loops poll, handle events and run their functors,
    whatever the kernel reports and answers, whatever the callbacks send or shut down,
    and whenever the last reference to a connection goes, a step that can happen is
    carried out, or it stops in one of four ways of the library's own ([LOG_FATAL]
    among them), or with what the user's code raises. So no step reaches a channel, a
    connection or a loop that does not exist, and none calls a connection's handler in
    a state or a thread it asserts it is not in. The user calls a connection on its
    loop's thread; for calls from other threads this is not so (see [RemoteSend]). *)
Theorem server_never_dangles v0 v1 rest w e :
  well_behaved → launches v0 v1 rest → runs (launched v1 rest) w →
  enabled (may_stop user) w e →
  (∃ w', run e w = Ok (tt, w')) ∨
  ∃ f, run e w = Err f ∧
    (f = OutOfBounds ∨ f = FatalExit ∨ f = IntOverflow ∨ relock = Err f ∨ user f).
Proof.
  intros Hwb Hla Hsteps He. pose proof (inv_running v0 v1 rest w Hwb Hla Hsteps) as Hinv.
  destruct Hwb as [Hreact Hlater Halloc].
  pose proof (exec_wp file_name default_addr later Hlater wc alloc Halloc e w
    Hinv He ltac:(done)) as Hwp.
  unfold wp in Hwp. destruct (run e w) as [[[] w']|f]; [left; by exists w'|right; by exists f].
Qed.

(** C2. The server loses no connection. The map's entries are connections with that
    name. A connection is connecting exactly while its [connectEstablished], of which
    there is one, is queued in its own loop. It leaves the map only after it has
    closed: until it is closed the map has it; closed and in the map,
    [removeConnectionInLoop] is queued in the base loop; out of it, it has been
    removed from its poller or [connectDestroyed] is queued in its loop. So when no
    functor refers to a connection, it is open and in the map, or it is destroyed and
    only references of the user's keep it from being released. *)
Theorem connections_accounted v0 v1 rest w :
  well_behaved → launches v0 v1 rest → runs (launched v1 rest) w →
  (∀ n a, m_connections (srv w) !! n = Some a → ∃ c, connections (srv w) !! a = Some c ∧ name c = n) ∧
  ∀ a c, connections (srv w) !! a = Some c →
    let l := getLoop c in
    ∃ io d, loops w !! l = Some io ∧ conns (reactor_of io) !! a = Some d ∧
      (m_state d = kConnecting ↔ Task (ConnectEstablished a) ∈ jobs w l) ∧
      (occ (Task (ConnectEstablished a)) (jobs w l) ≤ 1)%nat ∧
      (m_state d ≠ kDisconnected → mapped w a c) ∧
      (m_state d = kDisconnected → mapped w a c → Task (RemoveConnectionInLoop a) ∈ jobs w (base w)) ∧
      (m_state d = kDisconnected → ¬ mapped w a c → removed d = true ∨ Task (ConnectDestroyed a) ∈ jobs w l) ∧
      ((∀ k j, j ∈ jobs w k → about j ≠ Some a) →
         (mapped w a c ∧ open (m_state d) = true) ∨ (removed d = true ∧ enabled (may_stop user) w (Release a))).
Proof.
  intros Hwb Hla Hsteps. destruct (inv_running v0 v1 rest w Hwb Hla Hsteps) as [Hfr Hst].
  split; [apply (fr_names _ Hfr)|]. intros a c Hc l.
  assert (Hocc : ∀ j js, occ j js = 0%nat → j ∉ js) by (intros j js Hz Hin%occ_elem; lia).
  assert (Hun : ¬ mapped w a c → ∀ n, m_connections (srv w) !! n ≠ Some a).
  { intros Hm n Hn. destruct (na_map _ (fr_names _ Hfr) n a Hn) as (c' & Hc' & <-). by simplify_eq. }
  pose proof (occ_elem (Task (ConnectEstablished a)) (jobs w l)) as He.
  pose proof (occ_elem (Task (RemoveConnectionInLoop a)) (jobs w (base w))) as Hr.
  pose proof (occ_elem (Task (ConnectDestroyed a)) (jobs w l)) as Hd.
  destruct (Hst a c) as ([] & Hs & _); [done|done|done|..];
    unfold at_life, established_jobs, remove_jobs, destroyed_jobs in Hs; fold l in Hs;
    destruct Hs as ((io & Hio & d & ch & Hd' & _ & Hp) & Hm & Hs);
    lazymatch type of Hs with _ ∧ _ => destruct Hs as [Hje Hrest] | _ => rename Hs into Hje end;
    exists io, d; (split; [done|]); (split; [done|]); destruct Hp as (Hp1 & Hp2 & _);
    cbn in Hp1, Hp2; rewrite <- He, Hje; [rewrite Hp1| |rewrite Hp1..].
  - split_and!; try done; [split; [lia|done]|]. intros Hq.
    exfalso. destruct (Hq l (Task (ConnectEstablished a))); [apply He; lia|done].
  - assert (m_state d ≠ kConnecting ∧ m_state d ≠ kDisconnected) as [? ?] by by destruct (m_state d).
    split_and!; try done; [split; [done|lia]|lia|auto].
  - split_and!; try done; [split; [done|lia]|lia|by intros; apply Hr; lia|]. intros Hq.
    exfalso. destruct (Hq (base w) (Task (RemoveConnectionInLoop a))); [apply Hr; lia|done].
  - split_and!; try done; [split; [done|lia]|lia|by intros; right; apply Hd; lia|]. intros Hq.
    exfalso. destruct (Hq l (Task (ConnectDestroyed a))); [apply Hd; lia|done].
  - split_and!; try done; [split; [done|lia]|lia|by left|]. intros Hq. right. split; [done|]. split; [by exists c|].
    split; [by apply Hun|done].
Qed.

(** C3. A step takes each connection on in its life or leaves it where it is: from
    its making through its setting up, its closing and its leaving the map to its
    leaving the poller, in this order, none skipped and none taken back; only a
    release, of a connection that has come to the end, gives its address back. So a
    connection that has closed is never open again and never in the map again. *)
Theorem server_moves_forward v0 v1 rest w e w' a :
  well_behaved → launches v0 v1 rest → runs (launched v1 rest) w →
  enabled (may_stop user) w e → run e w = Ok (tt, w') →
  rtc next_life (age w a) (age w' a) ∨ (e = Release a ∧ age w a = Gone ∧ age w' a = Unborn).
Proof.
  intros Hwb Hla Hsteps He Hrun. pose proof (inv_running v0 v1 rest w Hwb Hla Hsteps) as Hinv.
  destruct Hwb as [Hreact Hlater Halloc].
  pose (allowed b s := e = Release b ∨ rtc next_life (age w b) s).
  assert (Onward allowed).
  { intros b s s' Hs [?|Hr]; [by left|right]. eapply rtc_r; [exact Hr|exact Hs]. }
  assert (Hinv' := inv_allow allowed w Hinv (λ b, or_intror (rtc_refl _ _))).
  assert (Hwp := exec_wp file_name default_addr later Hlater wc alloc Halloc e w Hinv' He (λ b Hb _, or_introl Hb)).
  destruct (wp_ok _ _ _ _ _ _ Hrun Hwp) as [Hfr' Hst']. assert (e = Release a ∨ e ≠ Release a) as [->|Hne].
  { destruct e as [| | | | |b]; try by right. destruct (decide (b = a)) as [->|]; [by left|right; congruence]. }
  - right. split; [done|]. destruct He as [[c Hc] Hun].
    destruct (unreferenced_gone w a c Hc (proj2 Hinv a c ltac:(done) Hc) Hun) as [Hgone _].
    split; [by apply (gone_age w a c)|]. unfold age. by rewrite (release_deletes a w w' Hrun).
  - left. destruct (connections (srv w') !! a) as [c|] eqn:Hc.
    + destruct (Hst' a c ltac:(done) Hc) as (s & Hs & [?|Ha]); [done|]. by rewrite (at_life_age s w' a c Hc Hs).
    + destruct (fr_unborn _ Hfr' a Hc) as [?|Ha]; [done|]. unfold age at 2. by rewrite Hc.
Qed.

(** C4. The descriptors open are those of the rest of the program, the listening one
    and one for each connection that exists, no two the same; a connection's is the
    non-blocking socket of its peer. The kernel watches open descriptors only, and a
    connection's only for its own loop and under its own channel: when a descriptor is
    closed and given out again, no poller reports what was registered for its last
    owner. *)
Theorem sockets_owned v0 v1 rest w :
  well_behaved → launches v0 v1 rest → runs (launched v1 rest) w →
  let others := files (net (Acceptor.proc v0)) in
  let fd := m_acceptSocket (Acceptor.acceptor v1) in
  (∀ d, is_Some (open_fds w !! d) ↔
     is_Some (others !! d) ∨ d = fd ∨ ∃ a c, connections (srv w) !! a = Some c ∧ sockfd c = d) ∧
  (∀ a c, connections (srv w) !! a = Some c → sockfd c ≠ fd ∧ others !! sockfd c = None ∧
     ∃ f peer, open_fds w !! sockfd c = Some f ∧ nonblocking f = true ∧
       peer_addr f = Some peer ∧ sin peer = peerAddress c) ∧
  (∀ a b c d, connections (srv w) !! a = Some c → connections (srv w) !! b = Some d →
     sockfd c = sockfd d → a = b) ∧
  ∀ l io d ev, loops w !! l = Some io →
    registered (kernel (Reactor.m_poller (reactor_of io))) !! d = Some ev →
    is_Some (open_fds w !! d) ∧
    ∀ a c, connections (srv w) !! a = Some c → sockfd c = d → getLoop c = l ∧ data_ptr ev = a.
Proof.
  intros Hwb Hla Hsteps others fd. destruct (inv_running v0 v1 rest w Hwb Hla Hsteps) as [Hfr _].
  destruct (fr_sockets _ Hfr) as [Hoth Hlis Hconn Hinj Hall]. fold others fd in Hoth, Hlis, Hconn, Hall.
  split; [|split; [done|split; [done|]]].
  - intros d. split; [apply Hall|]. intros [[f Hf]|[->|(a & c & Hc & <-)]]; [|done|].
    + destruct (Hoth d f Hf) as [_ ?]. by eexists.
    + destruct (Hconn a c Hc) as (_ & _ & f & _ & ? & _). by eexists.
  - intros l io d ev Hio Hev. pose proof (inv_poller _ (lo_reactor _ (fr_loop _ Hfr l io Hio))) as [Hwf Hd].
    apply (wf_kernel _ Hwf) in Hev as (b & ch & Hch & <- & _ & ->). cbn [data_ptr].
    split; [by apply (channels_open w l io b ch Hfr)|]. intros a c Hc E0.
    pose proof (fr_chan _ Hfr l io b ch Hio Hch) as Hok. unfold channel_ok in Hok.
    destruct (conns (reactor_of io) !! b) as [x|] eqn:Hx.
    + destruct (fr_own _ Hfr l io b Hio ltac:(by eexists)) as (y & Hy & Hl).
      destruct (fr_conn _ Hfr b y Hy) as (io' & ch' & Hio' & _ & Hch' & E1). simplify_eq.
      assert (a = b) as -> by (apply (Hinj a b c y); [done..|congruence]). by simplify_eq.
    + fold others fd in Hok. destruct (Hconn a c Hc) as (Hne & Hno & _).
      destruct Hok as [_ [[f Hf]|?]]; congruence.
Qed.
End properties.

(** ** A server with two loops and one client, who connects, then hangs up *)
Abbreviation sys := (system table (gmap Z epoll_event)).

Definition fresh_io : io_loop (gmap Z epoll_event) :=
  mk_io_loop (mk_reactor (mk_poller ∅ ∅ ∅ KInitEventListSize) ∅) [] [] [].
Definition sample_rest : gmap Z (io_loop (gmap Z epoll_event)) := {[ 100 := fresh_io; 101 := fresh_io ]}.

(** Where no channel is. *)
Definition free_address (w : sys) : Z :=
  fresh (⋃ ((λ x, dom (channels (Reactor.m_poller (reactor_of x.2)))) <$> map_to_list (loops w)) : gset Z).

Lemma free_address_free (w : sys) l io :
  loops w !! l = Some io → channels (Reactor.m_poller (reactor_of io)) !! free_address w = None.
Proof.
  intros Hio. apply (not_elem_of_dom (D := gset Z)). intros Hin.
  refine (is_fresh (⋃ ((λ x, dom (channels (Reactor.m_poller (reactor_of x.2)))) <$> map_to_list (loops w)) : gset Z) _).
  apply elem_of_union_list. eexists. split; [|exact Hin].
  apply list_elem_of_fmap. exists (l, io). split; [done|]. by apply elem_of_map_to_list.
Qed.

Definition sample_launched : sys := launched sample_served sample_rest.

Abbreviation sample_exec := (exec (mx := inert_mutex) "" zero_sockaddr silent (λ _ _, Done) false free_address).
Abbreviation sample_runs := (rtc (step (mx := inert_mutex) "" zero_sockaddr silent (λ _ _, Done) false free_address (may_stop (mx := inert_mutex) (λ _, False)))).

(** Whether a step can happen, for those of the run below. *)
Definition can (w : sys) (e : event) : bool :=
  match e with
  | Poll here [ev] =>
      if loops w !! here is Some io then
        bool_decide (active io = []) && bool_decide (functors io = []) &&
        bool_decide (1 ≤ i32 (reventList_size (Reactor.m_poller (reactor_of io)))) &&
        existsb (λ x, data_ptr x.2 =? data_ptr ev) (map_to_list (registered (kernel (Reactor.m_poller (reactor_of io)))))
      else false
  | HandleEvent here _ _ _ => if loops w !! here is Some io then bool_decide (active io ≠ []) else false
  | DoPendingFunctors here =>
      if loops w !! here is Some io then bool_decide (active io = []) && bool_decide (functors io = []) else false
  | RunFunctor here =>
      if loops w !! here is Some io then bool_decide (active io = []) && bool_decide (functors io ≠ []) else false
  | _ => false
  end.

Lemma can_enabled (w : sys) e (E : fault → Prop) : can w e = true → enabled E w e.
Proof.
  destruct e as [here [|ev [|]]|here t r wr|here|here|here a act|a]; cbn; try done;
    (destruct (loops w !! here) as [io|]; [|done]); intros Hc; exists io; (split; [done|]).
  - apply andb_true_iff in Hc as [[[Ha Hf]%andb_true_iff Hs]%andb_true_iff Hx].
    apply bool_decide_eq_true in Ha, Hf, Hs. apply existsb_exists in Hx as ([fd x] & Hin & Hp%Z.eqb_eq).
    split_and!; [done..| |]; cbn.
    + apply NoDup_singleton.
    + intros ev' ->%list_elem_of_singleton. exists fd, (events x).
      apply list_elem_of_In, elem_of_map_to_list in Hin. rewrite Hin. cbn in Hp. rewrite <- Hp. by destruct x.
  - by apply bool_decide_eq_true in Hc.
  - by apply andb_true_iff in Hc as [?%bool_decide_eq_true ?%bool_decide_eq_true].
  - by apply andb_true_iff in Hc as [?%bool_decide_eq_true ?%bool_decide_eq_true].
Qed.

(** A run with given reactions, event by event. *)
Section replay.
Context (react : notification → conn → TcpConnection.action)
  (later : TcpConnection.functor → conn → TcpConnection.action) (wc : bool).

Definition replay_exec : event → M sys unit := exec (mx := inert_mutex) "" zero_sockaddr react later wc free_address.
Definition replay (w : sys) (e : event) : sys := ok_or (replay_exec e) w.

Fixpoint playable (w : sys) (es : list event) : bool :=
  match es with
  | [] => true
  | e :: es => can w e && is_ok (replay_exec e w) && playable (replay w e) es
  end.

Lemma play_runs E es (w : sys) :
  playable w es = true →
  rtc (step (mx := inert_mutex) "" zero_sockaddr react later wc free_address E) w (foldl replay w es).
Proof.
  revert w. induction es as [|e es IH]; intros w; cbn [playable foldl]; [intros _; apply rtc_refl|].
  intros [[Hc Hok]%andb_true_iff Hes]%andb_true_iff. eapply rtc_l; [|by apply IH].
  exists e. split; [by apply can_enabled|by apply ok_or_run].
Qed.
End replay.

Abbreviation play := (replay silent (λ _ _, Done) false).

(** The connection is accepted, handed to the loop [100] and set up; its address is 4097. *)
Definition comes : list event :=
  [ Poll 7 [mk_event EPOLLIN 4096]; HandleEvent 7 0 (inl 0) (inl 0); DoPendingFunctors 100; RunFunctor 100 ].
(** Its client hangs up, and it is taken down by both loops in turn. *)
Definition hangs_up : list event :=
  [ Poll 100 [mk_event EPOLLIN 4097]; HandleEvent 100 0 (inr []) (inl 0); DoPendingFunctors 7; RunFunctor 7 ].
Definition goes : list event := [ DoPendingFunctors 100; RunFunctor 100 ].

Lemma sample_well_behaved : well_behaved (mx := inert_mutex) silent (λ _ _, Done) free_address (λ _, False).
Proof. by split; [| |apply free_address_free]. Qed.

Lemma sample_launches : launches server_world sample_served sample_rest.
Proof.
  assert (Hio : fresh_loop (files (net (Acceptor.proc server_world))) fresh_io).
  { split; [apply sample_consistent|]. split; [|done]. intros a x Hx. by apply (lookup_empty_Some a x) in Hx. }
  split.
  - exists "10.0.0.1:80", "web", 7, 2, false, (λ i, 100 + i). split; [lia|]. split; [cbn; lia|exact sample_run].
  - exists sample_addr, false, 4096. split; [done|]. apply ok_or_run. by vm_compute.
  - apply server_world_sound.
  - intros a b x y Hx. by apply (lookup_empty_Some a x) in Hx.
  - intros a x Hx. by apply (lookup_empty_Some a x) in Hx.
  - change (getAllLoops _) with [100; 101]. intros l [->|[->|[]%not_elem_of_nil]%elem_of_cons]%elem_of_cons; right; by eexists.
  - unfold sample_rest. intros l io [[_ <-]|[_ [_ <-]%lookup_singleton_Some]]%lookup_insert_Some; exact Hio.
Qed.

Definition sample_gone : sys := foldl play sample_launched (comes ++ hangs_up ++ goes).

Lemma sample_gone_reachable : sample_runs sample_launched sample_gone.
Proof. apply play_runs. by vm_compute. Qed.
Lemma sample_closing_reachable : sample_runs sample_launched (foldl play sample_launched (comes ++ hangs_up)).
Proof. apply play_runs. by vm_compute. Qed.

Definition sample_connection : connection :=
  mk_connection "web-10.0.0.1:80#1" 100 4 (sin sample_addr) (sin sample_peer).

(** No loop has a functor to run. *)
Definition idle (w : sys) : bool :=
  forallb (λ x, bool_decide (functors x.2 ++ pendingFunctors x.2 = [])) (map_to_list (loops w)).

Lemma idle_jobs (w : sys) l : idle w = true → jobs w l = [].
Proof.
  intros Hidle. unfold jobs. destruct (loops w !! l) as [io|] eqn:Hio; [|done].
  apply (proj1 (forallb_forall _ _)) with (x := (l, io)) in Hidle; [by apply bool_decide_eq_true in Hidle|].
  by apply list_elem_of_In, elem_of_map_to_list.
Qed.

Lemma sample_gone_state :
  connections (srv sample_gone) !! 4097 = Some sample_connection ∧
  m_connections (srv sample_gone) !! "web-10.0.0.1:80#1" = None ∧ idle sample_gone = true.
Proof. split; [|split]; vm_compute; reflexivity. Qed.

(** The loop [100] takes over [connectDestroyed] of a connection out of the map. *)
Definition sample_closed : sys := foldl play sample_launched (comes ++ hangs_up).

Lemma sample_closed_can : can sample_closed (DoPendingFunctors 100) = true.
Proof. vm_compute. reflexivity. Qed.

Lemma server_never_dangles_witness :
  (∃ w', sample_exec (DoPendingFunctors 100) sample_closed = Ok (tt, w')) ∨
  ∃ f, sample_exec (DoPendingFunctors 100) sample_closed = Err f ∧
    (f = OutOfBounds ∨ f = FatalExit ∨ f = IntOverflow ∨ relock (MutexImpl := inert_mutex) = Err f ∨ False).
Proof.
  exact (server_never_dangles (mx := inert_mutex) "" zero_sockaddr silent (λ _ _, Done) false free_address (λ _, False)
    server_world sample_served sample_rest sample_closed (DoPendingFunctors 100)
    sample_well_behaved sample_launches sample_closing_reachable (can_enabled _ _ _ sample_closed_can)).
Defined.

(** The connection can be released. *)
Lemma connections_accounted_witness : enabled (may_stop (mx := inert_mutex) (λ _, False)) sample_gone (Release 4097).
Proof.
  destruct (connections_accounted (mx := inert_mutex) "" zero_sockaddr silent (λ _ _, Done) false free_address (λ _, False)
    server_world sample_served sample_rest _ sample_well_behaved sample_launches sample_gone_reachable) as [_ Hall].
  destruct sample_gone_state as (Hc & Hm & Hidle).
  destruct (Hall 4097 sample_connection Hc) as (io & d & _ & _ & _ & _ & _ & _ & _ & Hquiet).
  destruct Hquiet as [[Hm' _]|[_ Hrel]]; [| |exact Hrel].
  - intros k j Hj. rewrite (idle_jobs sample_gone k Hidle) in Hj. exact (False_ind _ (not_elem_of_nil j Hj)).
  - unfold mapped in Hm'. change (name sample_connection) with "web-10.0.0.1:80#1" in Hm'. rewrite Hm in Hm'. discriminate Hm'.
Defined.

(** The step in which the connection's loop reads that the client has hung up. *)
Definition sample_hung : sys := foldl play sample_launched (comes ++ [Poll 100 [mk_event EPOLLIN 4097]]).
Definition hang_up : event := HandleEvent 100 0 (inr []) (inl 0).

Lemma sample_hung_reachable : sample_runs sample_launched sample_hung.
Proof. apply play_runs. vm_compute. reflexivity. Qed.

Lemma server_moves_forward_witness :
  age sample_hung 4097 = Up ∧ age (play sample_hung hang_up) 4097 = Closing ∧
  (rtc next_life (age sample_hung 4097) (age (play sample_hung hang_up) 4097) ∨
   (hang_up = Release 4097 ∧ age sample_hung 4097 = Gone ∧ age (play sample_hung hang_up) 4097 = Unborn)).
Proof.
  split; [vm_compute; reflexivity|]. split; [vm_compute; reflexivity|].
  apply (server_moves_forward (mx := inert_mutex) "" zero_sockaddr silent (λ _ _, Done) false free_address (λ _, False)
    server_world sample_served sample_rest sample_hung hang_up (play sample_hung hang_up) 4097
    sample_well_behaved sample_launches sample_hung_reachable).
  - apply can_enabled. vm_compute. reflexivity.
  - apply (ok_or_run (sample_exec hang_up) sample_hung). vm_compute. reflexivity.
Defined.

(** Its socket is still open, and its own. *)
Lemma sockets_owned_witness : ∃ f, open_fds sample_gone !! 4 = Some f ∧ nonblocking f = true.
Proof.
  destruct (sockets_owned (mx := inert_mutex) "" zero_sockaddr silent (λ _ _, Done) false free_address (λ _, False)
    server_world sample_served sample_rest _ sample_well_behaved sample_launches sample_gone_reachable)
    as (_ & Hown & _).
  destruct (Hown 4097 sample_connection (proj1 sample_gone_state)) as (_ & _ & f & _ & Hf & Hnb & _).
  exists f. split; [exact Hf|exact Hnb].
Defined.
