(* ===== verification/ServerRest.v ===== *)
(** Functors come to an end: left to run what is in their queues, the loops of a
    server empty them, and then every connection is either open or ready to be
    released. What each functor puts in the queues is counted. *)
From stdpp Require Import list_numbers.
From S2P Require Import Prelude Kfifo Channel EpollPoller TcpConnection Reactor InetAddress EventLoopThreadPool Sockets Acceptor TcpServer Accepting WholeServer ServerStages ServerSteps ServerSafety.
#[local] Open Scope Z_scope.

(** ** Sums over the queues of all loops *)
Section sums.
Context {K Ke : Type} (f : job → nat) (g : job → nat).
Implicit Types (w : system K Ke) (io : io_loop Ke) (l : Z).

Definition loop_sum io : nat :=
  (sum_list_with f (functors io) + sum_list_with g (pendingFunctors io))%nat.
Definition sum_over (loops : gmap Z (io_loop Ke)) : nat :=
  map_fold (λ _ io n, (loop_sum io + n)%nat) 0%nat loops.
Definition total w : nat := sum_over (loops w).

Lemma sum_over_insert (m : gmap Z (io_loop Ke)) l io io' :
  m !! l = Some io → (sum_over (<[l:=io']> m) + loop_sum io = sum_over m + loop_sum io')%nat.
Proof.
  intros Hl. unfold sum_over. rewrite (map_fold_delete_L _ _ l io' (<[l:=io']> m)); [|lia|by apply lookup_insert_eq].
  rewrite (map_fold_delete_L _ _ l io m) by (lia || done). rewrite delete_insert_eq. lia.
Qed.

Lemma total_set_loop w l io io' :
  loops w !! l = Some io → (total (set_loop l io' w) + loop_sum io = total w + loop_sum io')%nat.
Proof. apply sum_over_insert. Qed.

Lemma loop_sum_queued l j io : loop_sum (queued l j io) = (loop_sum io + g j)%nat.
Proof. unfold loop_sum, queued. cbn. rewrite sum_list_with_app. cbn. lia. Qed.

Lemma loop_sum_popped io j fs : functors io = j :: fs → loop_sum io = (f j + loop_sum (popped fs io))%nat.
Proof. intros Hf. unfold loop_sum, popped. rewrite Hf. cbn. lia. Qed.
End sums.

(** ** Measures

    What a functor can still make of itself among the server's tasks; those of the
    user's; and those that are not in a batch yet. *)
Definition task_weight (j : job) : nat :=
  match j with
  | Task (RemoveConnectionInLoop _) => 2
  | Task _ => 1
  | Callback _ _ => 0
  end.
Definition call_weight (j : job) : nat := if j is Callback _ _ then 1 else 0.

Section measures.
Context {K Ke : Type} `{SocketLaws K} `{EpollLaws Ke} {mx : MutexImpl}.
Implicit Types (w : system K Ke) (l a here : Z).

Definition tasks w : nat := total task_weight task_weight w.
Definition calls w : nat := total call_weight call_weight w.
Definition waiting w : nat := total (λ _, 0%nat) (λ _, 1%nat) w.

(** [w'] comes before [w]: fewer tasks; or as many and fewer calls; or as many of
    both, and fewer of them still to be taken over. *)
Definition less_to_do w' w : Prop :=
  (tasks w' < tasks w ∨ tasks w' = tasks w ∧ (calls w' < calls w ∨ calls w' = calls w ∧ waiting w' < waiting w))%nat.

Lemma less_to_do_wf : well_founded less_to_do.
Proof.
  assert (Hacc : ∀ t c n w, tasks w = t → calls w = c → waiting w = n → Acc less_to_do w).
  { intros t. induction t as [t IHt] using lt_wf_ind. intros c. induction c as [c IHc] using lt_wf_ind.
    intros n. induction n as [n IHn] using lt_wf_ind. intros w Ht Hc Hn. constructor.
    intros w' [Hlt|[Et [Hlt|[Ec Hlt]]]].
    - apply (IHt (tasks w')) with (c := calls w') (n := waiting w'); [lia|done..].
    - apply (IHc (calls w')) with (n := waiting w'); [lia|congruence|done..].
    - apply (IHn (waiting w')); [lia|congruence..|done]. }
  intros w. by eapply Hacc.
Qed.

(** [m] adds at most [n] to the tasks. *)
Definition adds {A} (n : nat) (m : M (system K Ke) A) : Prop :=
  ∀ w, wp m (λ _ w', (tasks w' ≤ tasks w + n)%nat) (λ _, True) w.

Lemma tasks_queue l j w w' : queue l j w = Ok (tt, w') → tasks w' = (tasks w + task_weight j)%nat.
Proof.
  unfold queue, on_io. destruct (loops w !! l) as [io|] eqn:Hio; [|done]. intros [= <-].
  pose proof (total_set_loop task_weight task_weight w l io (queued l j io) Hio) as Hsum.
  rewrite loop_sum_queued in Hsum. unfold tasks. unfold set_loop, queued in Hsum. lia.
Qed.

Lemma queue_adds l j : adds (task_weight j) (queue l j).
Proof.
  intros w. unfold wp. destruct (queue l j w) as [[[] w']|] eqn:Hq; [|done]. by rewrite (tasks_queue _ _ _ _ Hq).
Qed.

Lemma callbacks_add l a fs : adds 0 (for_each (λ f, queue l (Callback a f)) fs).
Proof.
  intros w. apply (wp_for_each (λ _ w', (tasks w' ≤ tasks w + 0)%nat)); [lia|]. intros f fs' w1 Hle.
  eapply wp_mono; [apply queue_adds|]. cbn. intros [] w2. lia.
Qed.

(** *** What the code of a connection leaves in the queues *)

(** The loop [here] with another reactor. *)
Definition with_reactor (r : reactor Ke) (io : io_loop Ke) : io_loop Ke :=
  mk_io_loop r (active io) (functors io) (pendingFunctors io).

Lemma total_with_reactor f g w l io r :
  loops w !! l = Some io → total f g (set_loop l (with_reactor r io) w) = total f g w.
Proof.
  intros Hio. pose proof (total_set_loop f g w l io (with_reactor r io) Hio) as Hsum.
  change (loop_sum f g (with_reactor r io)) with (loop_sum f g io) in Hsum. lia.
Qed.

Lemma in_connection_effect here a op w io d (Q : conn → Prop) :
  loops w !! here = Some io → conns (reactor_of io) !! a = Some d →
  wp op (λ _ d', Q d') (λ _, True) (set_loop_calls [] d) →
  wp (in_connection here a op)
    (λ ns w', ∃ d' r, Q d' ∧ ns = notified d' ∧
       for_each (λ f, queue here (Callback a f)) (TcpConnection.queued d') (set_loop here (with_reactor r io) w) = Ok (tt, w'))
    (λ _, True) w.
Proof.
  intros Hio Hd Hop. unfold in_connection, on_reactor. apply wp_bind. unfold wp at 1, on_io, in_reactor, on_conn.
  rewrite Hio, Hd. unfold wp in Hop. destruct (op (set_loop_calls [] d)) as [[[] d']|]; [|done].
  unfold on_poller. cbn [Reactor.m_poller conns]. destruct (for_each (perform a) (loop_calls d') _) as [[[] p]|]; [|done].
  apply wp_bind. unfold wp at 1. cbn [loops]. rewrite lookup_insert_eq. unfold outbox. cbn [reactor_of conns].
  rewrite lookup_insert_eq, !insert_insert_eq. cbn [fst snd].
  apply wp_bind. unfold wp at 1.
  set (r := mk_reactor _ (<[a := set_notified [] (set_queued [] d')]> _)). fold (with_reactor r io).
  destruct (for_each _ _ _) as [[[] w']|] eqn:Hq; [|done]. apply wp_ret. by exists d', r.
Qed.

Lemma no_close here a ns w :
  CloseCallback ∉ ns →
  for_each (λ n, if n is CloseCallback then removeConnection here a else mret tt) ns w = Ok (tt, w).
Proof.
  induction ns as [|n ns IH]; [done|]. rewrite not_elem_of_cons. intros [Hn Hns]. cbn [for_each].
  destruct n; [by apply IH..|done].
Qed.

(** Code that does not call the close callback adds nothing to the tasks. *)
Lemma on_connection_tasks here a op w io d :
  loops w !! here = Some io → conns (reactor_of io) !! a = Some d →
  wp op (λ _ d', CloseCallback ∉ notified d') (λ _, True) (set_loop_calls [] d) →
  wp (on_connection here a op) (λ _ w', (tasks w' ≤ tasks w)%nat) (λ _, True) w.
Proof.
  intros Hio Hd Hop. unfold on_connection. apply wp_bind.
  eapply wp_mono; [exact (in_connection_effect here a op w io d _ Hio Hd Hop)|].
  intros ns w' (d' & r & Hns & -> & Hq). unfold wp. rewrite no_close by done.
  pose proof (callbacks_add here a (TcpConnection.queued d') (set_loop here (with_reactor r io) w)) as Hadd.
  unfold wp in Hadd. rewrite Hq in Hadd. unfold tasks in *. rewrite (total_with_reactor _ _ w here io) in Hadd by done. lia.
Qed.

(** And if it queues nothing, nothing at all. *)
Lemma on_connection_idle here a op w io d :
  loops w !! here = Some io → conns (reactor_of io) !! a = Some d →
  wp op (λ _ d', CloseCallback ∉ notified d' ∧ TcpConnection.queued d' = []) (λ _, True) (set_loop_calls [] d) →
  wp (on_connection here a op) (λ _ w', ∀ f g, total f g w' = total f g w) (λ _, True) w.
Proof.
  intros Hio Hd Hop. unfold on_connection. apply wp_bind.
  eapply wp_mono; [exact (in_connection_effect here a op w io d _ Hio Hd Hop)|].
  intros ns w' (d' & r & [Hns Hnone] & -> & Hq). unfold wp. rewrite no_close by done. rewrite Hnone in Hq.
  injection Hq as <-. intros f g. by apply total_with_reactor.
Qed.

(** The connection's operations. *)
Lemma notify_said react n d (Q : conn → Prop) :
  (∀ d', notified d' = notified d ++ [n] → Q d') → wp (notify react n) (λ _ d', Q d') (λ _, True) d.
Proof. intros HQ. eapply wp_mono; [apply notify_wp|]. intros [] d' (? & _). by apply HQ. Qed.

Lemma established_said react d :
  notified d = [] → wp (connectEstablished react) (λ _ d', CloseCallback ∉ notified d') (λ _, True) d.
Proof.
  intros Hn. unfold connectEstablished, setState, on_channel. do 3 apply wp_bind, wp_modify.
  apply notify_said. cbn. intros d' ->. rewrite Hn. set_solver.
Qed.

Lemma destroyed_said react d :
  notified d = [] → wp (connectDestroyed react) (λ _ d', CloseCallback ∉ notified d') (λ _, True) d.
Proof.
  intros Hn. unfold connectDestroyed, setState, on_channel, remove_channel. apply wp_bind, wp_gets.
  change (id d) with d. case_decide as Hs.
  - do 3 apply wp_bind. apply wp_modify. apply wp_bind, wp_modify. apply notify_said. cbn. intros d' E.
    rewrite E, Hn. set_solver.
  - apply wp_bind, wp_ret, wp_modify. cbn. rewrite Hn. set_solver.
Qed.

(** A callback that sends nothing. *)
Fixpoint quiet (act : action) : Prop :=
  match act with
  | Done => True
  | Send _ _ _ => False
  | Shutdown k | Input _ k => quiet k
  end.

Lemma quiet_said act d :
  quiet act → wp (run_action act)
    (λ _ d', notified d' = notified d ∧ TcpConnection.queued d' = TcpConnection.queued d) (λ _, True) d.
Proof.
  revert d. induction act as [|b r k IH|k IH|m k IH]; intros d Hq; cbn [run_action quiet] in *; [done|done|..].
  - apply wp_bind. unfold shutdown, setState, shutdownInLoop. apply wp_bind, wp_gets. change (id d) with d.
    case_decide; [|by apply wp_ret, IH]. apply wp_bind, wp_modify, wp_bind, wp_gets.
    destruct (negb _); [apply wp_modify|apply wp_ret]; (eapply wp_mono; [by apply IH|by intros [] d']).

  - apply wp_bind. unfold wp at 1, on_input. destruct (m _) as [[u x]|]; [|done].
    by apply (IH (set_input x d) Hq).
Qed.
End measures.

(** ** Running functors *)
Section rest.
Context {K Ke : Type} `{SocketLaws K} `{EpollLaws Ke} {mx : MutexImpl}.
Context (file_name : string) (default_addr : sockaddr_in).
Context (react : notification → conn → TcpConnection.action)
  (later : TcpConnection.functor → conn → TcpConnection.action) (wc : bool).
Context (alloc : system K Ke → Z) (user : fault → Prop).
Implicit Types (w : system K Ke).

Abbreviation run := (exec file_name default_addr react later wc alloc).
Abbreviation runs := (rtc (step file_name default_addr react later wc alloc (may_stop user))).

(** A loop takes over what is queued for it, or runs the next functor of its batch. *)
Definition functor_event w (e : event) : Prop :=
  match e with
  | DoPendingFunctors here => ∃ io, loops w !! here = Some io ∧ pendingFunctors io ≠ []
  | RunFunctor _ => True
  | _ => False
  end.
Definition functor_step w w' : Prop :=
  ∃ e, functor_event w e ∧ enabled (may_stop user) w e ∧ run e w = Ok (tt, w').

Section progress.
Context (react_tame : Reacts (may_stop user) react) (later_tame : ∀ f d, tame (may_stop user) (later f d)).
Context (later_quiet : ∀ f d, quiet (later f d)).
Context (alloc_fresh : ∀ w l io, loops w !! l = Some io → channels (Reactor.m_poller (reactor_of io)) !! alloc w = None).
Context {others : gmap Z file} {listenfd : Z}.
Abbreviation inv := (inv_but (others := others) (listenfd := listenfd) (allowed := λ _ _, True) None).

Lemma exec_keeps e w w' : inv w → enabled (may_stop user) w e → run e w = Ok (tt, w') → inv w'.
Proof.
  intros Hinv He Hrun.
  refine (wp_ok _ _ _ _ _ _ Hrun (exec_wp file_name default_addr later later_tame wc alloc alloc_fresh e w Hinv He _)).
  done.
Qed.

(** What a functor is about, when it has been taken out of the batch. *)
Lemma popped_conn w here io j js a :
  inv w → loops w !! here = Some io → functors io = j :: js → about j = Some a → (∀ t, j = Task t → t ≠ RemoveConnectionInLoop a) →
  ∃ d, conns (reactor_of io) !! a = Some d ∧ notified d = [] ∧ TcpConnection.queued d = [].
Proof.
  intros [Hfr _] Hio Hf Ha Hne.
  assert (Hj : located (srv w) here j) by (apply (fr_job _ Hfr); rewrite (jobs_at w here io Hio), Hf; by left).
  assert (Hc : ∃ c, connections (srv w) !! a = Some c ∧ getLoop c = here).
  { destruct j as [[|b|b|b]|b f]; cbn in Ha, Hj; simplify_eq; try done. by destruct (Hne _ eq_refl). }
  destruct Hc as (c & Hc & <-). destruct (fr_conn _ Hfr a c Hc) as (io' & ch & Hio' & [d Hd] & _).
  rewrite Hio in Hio'. injection Hio' as <-. exists d. split; [done|].
  by apply (lo_said _ (fr_loop _ Hfr _ _ Hio) a).
Qed.

Lemma run_functor_less w w' here io j js :
  inv w → loops w !! here = Some io → functors io = j :: js → run (RunFunctor here) w = Ok (tt, w') → less_to_do w' w.
Proof.
  intros Hinv Hio Hf Hrun. cbn [exec] in Hrun. rewrite (run_functor_head _ here io j js w Hio Hf) in Hrun.
  set (w1 := set_loop here (popped js io) w) in *.
  assert (Hpop : ∀ f, (total f f w = f j + total f f w1)%nat).
  { intros f. pose proof (total_set_loop f f w here io (popped js io) Hio) as Hsum. fold w1 in Hsum.
    rewrite (loop_sum_popped f f io j js Hf) in Hsum. lia. }
  pose proof (Hpop task_weight) as Ht. pose proof (Hpop call_weight) as Hc. fold (tasks w) (tasks w1) in Ht.
  fold (calls w) (calls w1) in Hc. pose proof (popped_conn w here io j js) as Hconn.
  assert (Hio1 : loops w1 !! here = Some (popped js io)) by apply lookup_insert_eq.
  destruct j as [[|a|a|a]|a f]; cbn [run_job run_task task_weight call_weight] in *.
  - destruct (fr_job _ (proj1 Hinv) here (Task Listen)). rewrite (jobs_at w here io Hio), Hf. by left.
  - destruct (Hconn a Hinv Hio Hf eq_refl ltac:(by intros ? [= <-])) as (d & Hd & Hn & _).
    pose proof (wp_ok _ _ _ _ _ _ Hrun (on_connection_tasks here a _ w1 (popped js io) d Hio1 Hd
      (established_said react (set_loop_calls [] d) Hn))) as Hle. cbn in Hle. left. lia.
  - assert (Hj : located (srv w) here (Task (RemoveConnectionInLoop a))).
    { apply (fr_job _ (proj1 Hinv)). rewrite (jobs_at w here io Hio), Hf. by left. }
    destruct Hj as [_ [c Hcon]]. rewrite (removeConnectionInLoop_run a c w1) in Hrun; [|apply (fr_posted _ (proj1 Hinv))|done].
    apply tasks_queue in Hrun. change (tasks (unmapped c w1)) with (tasks w1) in Hrun. cbn in Hrun. left. lia.
  - destruct (Hconn a Hinv Hio Hf eq_refl ltac:(by intros ? [= <-])) as (d & Hd & Hn & _).
    pose proof (wp_ok _ _ _ _ _ _ Hrun (on_connection_tasks here a _ w1 (popped js io) d Hio1 Hd
      (destroyed_said react (set_loop_calls [] d) Hn))) as Hle. cbn in Hle. left. lia.
  - destruct (Hconn a Hinv Hio Hf eq_refl ltac:(by intros ?)) as (d & Hd & Hn & Hq).
    assert (Hwp : wp (on_connection here a (c ← gets id; run_action (later f c))) (λ _ w', ∀ f g, total f g w' = total f g w1)
      (λ _, True) w1).
    { apply (on_connection_idle here a _ w1 (popped js io) d Hio1 Hd). apply wp_bind, wp_gets.
      eapply wp_mono; [apply quiet_said, later_quiet|]. intros [] d' [-> ->]. cbn. rewrite Hn. split; [set_solver|done]. }
    pose proof (wp_ok _ _ _ _ _ _ Hrun Hwp) as Hsame. cbn beta in Hsame.
    assert (tasks w' = tasks w1) as E1 by apply Hsame. assert (calls w' = calls w1) as E2 by apply Hsame.
    right. split; [lia|left; lia].
Qed.

Lemma functor_step_less w w' : inv w → functor_step w w' → less_to_do w' w.
Proof.
  intros Hinv (e & Hev & He & Hrun). destruct e as [| |here|here| |]; try done.
  - destruct Hev as (io & Hio & Hp). destruct He as (io' & Hio' & _ & Hf). rewrite Hio in Hio'. injection Hio' as <-.
    cbn [exec] in Hrun. unfold doPendingFunctors, on_io in Hrun. rewrite Hio in Hrun. injection Hrun as <-.
    set (io2 := mk_io_loop (reactor_of io) (active io) (pendingFunctors io) []). fold (set_loop here io2 w).
    pose proof (total_set_loop task_weight task_weight w here io io2 Hio) as Ht.
    pose proof (total_set_loop call_weight call_weight w here io io2 Hio) as Hc.
    pose proof (total_set_loop (λ _, 0%nat) (λ _, 1%nat) w here io io2 Hio) as Hw.
    unfold loop_sum in Ht, Hc, Hw. rewrite Hf in Ht, Hc, Hw. cbn in Ht, Hc, Hw.
    assert (Hz : ∀ js : list job, sum_list_with (λ _, 0%nat) js = 0%nat) by (induction js; cbn; lia).
    assert (0 < sum_list_with (λ _, 1%nat) (pendingFunctors io))%nat by (destruct (pendingFunctors io); [done|cbn; lia]).
    rewrite Hz in Hw. unfold less_to_do, tasks, calls, waiting. right. split; [lia|right; lia].
  - destruct He as (io & Hio & _ & Hf). destruct (functors io) as [|j js] eqn:E; [done|].
    by apply (run_functor_less w w' here io j js).
Qed.

Lemma functors_end w : inv w → Acc (λ w2 w1, functor_step w1 w2) w.
Proof.
  induction (less_to_do_wf w) as [w _ IH]. intros Hinv. constructor. intros w' Hstep.
  apply IH; [by apply functor_step_less|]. destruct Hstep as (e & _ & He & Hrun). by apply (exec_keeps e w).
Qed.

Lemma functors_keep w w' : inv w → rtc functor_step w w' → inv w'.
Proof.
  intros Hinv Hsteps. revert w' Hsteps. apply rtc_ind_r; [done|].
  intros w1 w2 _ (e & _ & He & Hrun) Hinv1. by apply (exec_keeps e w1).
Qed.

(** A loop that is not handling events and has functors can go on, or stops. *)
Lemma loop_goes_on w l io :
  inv w → loops w !! l = Some io → active io = [] → jobs w l ≠ [] →
  (∃ w', functor_step w w') ∨ ∃ f, may_stop user f ∧ run (RunFunctor l) w = Err f.
Proof.
  intros Hinv Hio Hact Hjobs. rewrite (jobs_at w l io Hio) in Hjobs. destruct (functors io) as [|j js] eqn:Hf.
  - left. eexists. exists (DoPendingFunctors l). split; [by exists io|]. split; [by exists io|].
    cbn. unfold doPendingFunctors, on_io. by rewrite Hio.
  - assert (He : enabled (may_stop user) w (RunFunctor l)) by (exists io; by rewrite Hf).
    pose proof (exec_wp file_name default_addr later later_tame wc alloc alloc_fresh (RunFunctor l) w Hinv He ltac:(done)) as Hwp.
    unfold wp in Hwp. destruct (run (RunFunctor l) w) as [[[] w']|f] eqn:Hrun; [left|right; by exists f].
    exists w', (RunFunctor l). by split_and!.
Qed.

(** A connection no functor refers to. *)
Lemma settled_connection w a c :
  inv w → connections (srv w) !! a = Some c → (∀ l, jobs w l = []) →
  (age w a = Up ∧ mapped w a c) ∨ (age w a = Gone ∧ enabled (may_stop user) w (Release a)).
Proof.
  intros Hinv Hc Hjobs. destruct (proj2 Hinv a c ltac:(done) Hc) as (s & Hs & _).
  pose proof (at_life_age s w a c Hc Hs) as Hage. unfold at_life, established_jobs, remove_jobs, destroyed_jobs in Hs.
  rewrite !Hjobs in Hs. destruct s; cbn in Hs; [done|by destruct Hs as (_ & _ & ? & _)|left|by destruct Hs as (_ & _ & _ & ? & _); lia|
    by destruct Hs as (_ & _ & _ & ?); lia|right].
  - by destruct Hs as (_ & Hm & _).
  - destruct Hs as (_ & Hm & _). split; [done|]. split; [by exists c|]. split.
    + intros n Hn. destruct (na_map _ (fr_names _ (proj1 Hinv)) n a Hn) as (c' & Hc' & <-).
      rewrite Hc in Hc'. injection Hc' as <-. done.
    + intros l j. rewrite Hjobs. by intros ?%not_elem_of_nil.
Qed.
End progress.

(** C5. The loops of a server come to rest, if the callbacks called from queued functors
    (write-complete and high-water mark: [later]) do not send; one that sends may queue
    itself again for ever. From every reachable state, when nothing new happens and the
    functors left to run are run, in whatever order the loops take them over and run
    them, this ends after finitely many steps. Until then a loop that has functors and no
    event left to handle can go on, or stops with a fault of the kinds above. And once
    all queues are empty every connection is either open and in the server's map or has
    gone through its whole life, so that nobody but the user refers to it and it can be
    released. *)
Theorem server_comes_to_rest v0 v1 rest w :
  (∀ f d, quiet (later f d)) → well_behaved react later alloc user → launches v0 v1 rest →
  runs (launched v1 rest) w →
  Acc (λ w2 w1, functor_step w1 w2) w ∧
  ∀ w', rtc functor_step w w' →
    (∀ l io, loops w' !! l = Some io → active io = [] → jobs w' l ≠ [] →
       (∃ w2, functor_step w' w2) ∨ ∃ f, may_stop user f ∧ run (RunFunctor l) w' = Err f) ∧
    ((∀ l, jobs w' l = []) → ∀ a c, connections (srv w') !! a = Some c →
       (age w' a = Up ∧ mapped w' a c) ∨ (age w' a = Gone ∧ enabled (may_stop user) w' (Release a))).
Proof.
  intros Hquiet Hwb Hla Hsteps.
  pose proof (inv_running file_name default_addr react later wc alloc user v0 v1 rest w Hwb Hla Hsteps) as Hinv.
  destruct Hwb as [Hreact Hlater Halloc]. split; [by eapply functors_end|].
  intros w' Hrest. assert (Hinv' := functors_keep Hreact Hlater Halloc w w' Hinv Hrest). split.
  - intros l io Hio Hact Hjobs. by eapply (loop_goes_on Hreact Hlater Halloc w' l io Hinv').
  - intros Hjobs a c Hc. by eapply (settled_connection w' a c Hinv').
Qed.
End rest.

(** The two tasks that take the sample connection down are run, and it is at its end. *)
Abbreviation sample_functor_step :=
  (functor_step (mx := inert_mutex) "" zero_sockaddr silent (λ _ _, Done) false free_address (λ _, False)).

Lemma sample_step w e :
  functor_event w e → can w e = true → is_ok (replay_exec silent (λ _ _, Done) false e w) = true →
  sample_functor_step w (play w e).
Proof. intros Hev Hc Hok. exists e. split; [done|]. split; [by apply can_enabled|by apply ok_or_run]. Qed.

Definition sample_taken : sys := play sample_closed (DoPendingFunctors 100).
Definition sample_done : sys := play sample_taken (RunFunctor 100).

Lemma sample_closed_pending : ∃ io, loops sample_closed !! 100 = Some io ∧ pendingFunctors io ≠ [].
Proof.
  assert (Hjobs : pendingFunctors <$> loops sample_closed !! 100 = Some [Task (ConnectDestroyed 4097)]) by (vm_compute; reflexivity).
  destruct (loops sample_closed !! 100) as [io|]; [|done]. injection Hjobs as Hjobs. exists io. by rewrite Hjobs.
Qed.

Lemma sample_rests : rtc sample_functor_step sample_closed sample_done.
Proof.
  apply (rtc_l _ _ sample_taken); [|apply rtc_once].
  - apply sample_step; [exact sample_closed_pending|exact sample_closed_can|vm_compute; reflexivity].
  - apply sample_step; [done|vm_compute; reflexivity|vm_compute; reflexivity].
Qed.

Lemma sample_done_idle : idle sample_done = true.
Proof. vm_compute. reflexivity. Qed.
Lemma sample_done_connection : connections (srv sample_done) !! 4097 = Some sample_connection.
Proof. vm_compute. reflexivity. Qed.
Lemma sample_done_age : age sample_done 4097 = Gone.
Proof. vm_compute. reflexivity. Qed.

Lemma server_comes_to_rest_witness :
  Acc (λ w2 w1, sample_functor_step w1 w2) sample_closed ∧
  enabled (may_stop (mx := inert_mutex) (λ _, False)) sample_done (Release 4097).
Proof.
  destruct (server_comes_to_rest (mx := inert_mutex) "" zero_sockaddr silent (λ _ _, Done) false free_address (λ _, False)
    server_world sample_served sample_rest sample_closed (λ _ _, I) sample_well_behaved sample_launches
    sample_closing_reachable) as [Hacc Hrest].
  split; [exact Hacc|]. destruct (Hrest sample_done sample_rests) as [_ Hend].
  destruct (Hend (λ l, idle_jobs sample_done l sample_done_idle) 4097 sample_connection sample_done_connection)
    as [[Hup _]|[_ Hrel]]; [|exact Hrel].
  rewrite sample_done_age in Hup. discriminate Hup.
Defined.
