(* ===== verification/ServerCallbacks.v ===== *)
(** The callbacks a user gives to a [TcpServer], which hands them on to each of its
    connections (Callbacks.h; the setters and accessors of TcpConnection.h and
    TcpServer.h; the middle of [TcpServer::newConnection]). A callback is a
    [std::function], which may be empty. The library asks before it calls the
    write-complete and the high-water-mark callback, but not before it calls the
    other two, and sets none itself. *)
From S2P Require Import Prelude Kfifo Channel EpollPoller TcpConnection Reactor InetAddress EventLoopThreadPool Sockets Acceptor TcpServer Accepting WholeServer ServerStages ServerSteps ServerSafety.
#[local] Open Scope Z_scope.

(** ** A connection and its callbacks *)

(** [operator bool] of a [std::function]. *)
Definition is_set {A} (cb : option A) : bool := if cb is Some _ then true else false.

(** What the user gives: functions of the connection (and the time of arrival, or the
    length of what waits to be sent), answering with the calls they make. The input
    buffer a message callback is given is reached by [Input]. *)
Definition connection_callback : Type := conn → action.
Definition write_complete_callback : Type := conn → action.
Definition message_callback : Type := Z → conn → action.
Definition high_water_mark_callback : Type := Z → conn → action.

(** Those of one connection. *)
Record callbacks := mk_callbacks {
  m_connectionCallback : option connection_callback;
  m_messageCallback : option message_callback;
  m_writeComplete : option write_complete_callback;   (** [m_writeCompleteCallback] *)
  m_highWater : option high_water_mark_callback;      (** [m_highWaterMarkCallback] *)
  m_closeCallback : bool                              (** bound to [TcpServer::removeConnection] *)
}.

Record tcp_connection := mk_tcp_connection { body : conn; user : callbacks }.

(** [CheckLoopNotNull] of TcpConnection.cpp and [checkLoopNotNull] of TcpServer.cpp. *)
Definition checkLoopNotNull (loop : Z) : outcome Z :=
  if loop =? 0 then Err FatalExit else Ok loop.

(** [TcpConnection::TcpConnection] leaves all of them empty. *)
Definition no_callbacks : callbacks := mk_callbacks None None None None false.
Definition make_connection {mx : MutexImpl} (loop fd : Z) : outcome tcp_connection :=
  m_eventLoop ← checkLoopNotNull loop;
  c ← TcpConnection_new fd false false;
  mret (mk_tcp_connection c no_callbacks).

Definition set_flags (wc hw : bool) (mark : Z) (c : conn) : conn :=
  mk_conn (m_state c) (m_channel c) (removed c) (m_inputBuffer c) (m_outputBuffer c) mark wc hw
    (sent c) (shut c) (TcpConnection.queued c) (notified c) (loop_calls c).

Definition setConnectionCallback (cb : option connection_callback) (x : tcp_connection) : tcp_connection :=
  let u := user x in
  mk_tcp_connection (body x)
    (mk_callbacks cb (m_messageCallback u) (m_writeComplete u) (m_highWater u) (m_closeCallback u)).
Definition setMessageCallback (cb : option message_callback) (x : tcp_connection) : tcp_connection :=
  let u := user x in
  mk_tcp_connection (body x)
    (mk_callbacks (m_connectionCallback u) cb (m_writeComplete u) (m_highWater u) (m_closeCallback u)).
Definition setWriteCompleteCallback (cb : option write_complete_callback) (x : tcp_connection) : tcp_connection :=
  let u := user x in let c := body x in
  mk_tcp_connection (set_flags (is_set cb) (m_highWaterMarkCallback c) (m_highWaterMark c) c)
    (mk_callbacks (m_connectionCallback u) (m_messageCallback u) cb (m_highWater u) (m_closeCallback u)).
Definition setHighWaterMarkCallback (cb : option high_water_mark_callback) (highWaterMark : Z) (x : tcp_connection)
    : tcp_connection :=
  let u := user x in let c := body x in
  mk_tcp_connection (set_flags (m_writeCompleteCallback c) (is_set cb) highWaterMark c)
    (mk_callbacks (m_connectionCallback u) (m_messageCallback u) (m_writeComplete u) cb (m_closeCallback u)).
Definition setCloseCallback (cb : bool) (x : tcp_connection) : tcp_connection :=
  let u := user x in
  mk_tcp_connection (body x)
    (mk_callbacks (m_connectionCallback u) (m_messageCallback u) (m_writeComplete u) (m_highWater u) cb).

Definition connected (c : conn) : bool := bool_decide (m_state c = kConnected).

(** [TcpConnection::setTcpNoDelay]. *)
Definition setTcpNoDelay {K} `{SocketApi K} (c : connection) (on : bool) : M (process K) unit :=
  set_tcpNoDelay (sockfd c) on.

(** ** What a call of a callback does *)

(** An empty [std::function] throws when it is called. *)
Definition bad_call : action := Input (fail BadFunctionCall) Done.
Definition call (cb : option (conn → action)) (c : conn) : action :=
  match cb with Some f => f c | None => bad_call end.

(** The reactions of [TcpConnection] and [WholeServer]; and what becomes of a callback
    that was bound and queued, which an empty one is not ([only_set_queued]). *)
Definition react_of (u : callbacks) (n : notification) (c : conn) : action :=
  match n with
  | ConnectionCallback => call (m_connectionCallback u) c
  | MessageCallback receiveTime => call ((λ f, f receiveTime) <$> m_messageCallback u) c
  | CloseCallback => if m_closeCallback u then Done else bad_call
  end.
Definition later_of (u : callbacks) (f : TcpConnection.functor) (c : conn) : action :=
  match f with
  | WriteComplete => if m_writeComplete u is Some cb then cb c else Done
  | HighWaterMark len => if m_highWater u is Some cb then cb len c else Done
  end.

(** ** The server's *)

Record tcp_server := mk_tcp_server {
  inner : server;
  connectionCallback : option connection_callback;
  messageCallback : option message_callback;
  writeCompleteCallback : option write_complete_callback;
  threadInitCallback : bool                           (** whether it is set *)
}.

Definition make_server (loop : Z) (ipPort name : string) : outcome tcp_server :=
  baseLoop ← checkLoopNotNull loop;
  mret (mk_tcp_server (TcpServer_new ipPort name baseLoop) None None None false).

Definition server_setThreadInitcallback (cb : bool) (s : tcp_server) : tcp_server :=
  mk_tcp_server (inner s) (connectionCallback s) (messageCallback s) (writeCompleteCallback s) cb.
Definition server_setConnectionCallback cb (s : tcp_server) : tcp_server :=
  mk_tcp_server (inner s) cb (messageCallback s) (writeCompleteCallback s) (threadInitCallback s).
Definition server_setMessageCallback cb (s : tcp_server) : tcp_server :=
  mk_tcp_server (inner s) (connectionCallback s) cb (writeCompleteCallback s) (threadInitCallback s).
Definition server_setWriteCompleteCallback cb (s : tcp_server) : tcp_server :=
  mk_tcp_server (inner s) (connectionCallback s) (messageCallback s) cb (threadInitCallback s).

(** [setThreadNum] and [start], on the server inside. *)
Definition server_setThreadNum (n : Z) (s : tcp_server) : outcome tcp_server :=
  x ← setThreadNum n (inner s);
  mret (mk_tcp_server x.2 (connectionCallback s) (messageCallback s) (writeCompleteCallback s) (threadInitCallback s)).
Definition server_start (startLoop : Z → Z) (s : tcp_server) : outcome tcp_server :=
  x ← start (threadInitCallback s) startLoop (inner s);
  mret (mk_tcp_server x.2 (connectionCallback s) (messageCallback s) (writeCompleteCallback s) (threadInitCallback s)).

(** What [newConnection] does with the connection it has made. *)
Definition hand_on (s : tcp_server) (x : tcp_connection) : tcp_connection :=
  setCloseCallback true
    (setWriteCompleteCallback (writeCompleteCallback s)
       (setMessageCallback (messageCallback s)
          (setConnectionCallback (connectionCallback s) x))).

(** What every connection of the server's is given. *)
Definition given (s : tcp_server) : callbacks :=
  mk_callbacks (connectionCallback s) (messageCallback s) (writeCompleteCallback s) None true.

(** ** The callbacks of a connection agree with what it asks *)

(** [m_writeCompleteCallback] and its like, as [sendInLoop] tests them. *)
Definition flags_agree (x : tcp_connection) : Prop :=
  m_writeCompleteCallback (body x) = is_set (m_writeComplete (user x)) ∧
  m_highWaterMarkCallback (body x) = is_set (m_highWater (user x)).

(** The new connection of [WholeServer], and what its callbacks are. *)
Lemma hand_on_new {mx : MutexImpl} s loop fd x :
  make_connection loop fd = Ok x →
  user (hand_on s x) = given s ∧ flags_agree (hand_on s x) ∧
  TcpConnection_new fd (is_set (writeCompleteCallback s)) false = Ok (body (hand_on s x)).
Proof.
  unfold make_connection, checkLoopNotNull. destruct (loop =? 0); [done|]. unfold TcpConnection_new. generalize (initBuffer default_size Kfifo_new).
  intros [[b k]|e] Hx; [|discriminate Hx]. injection Hx as <-. by split_and!.
Qed.

(** ** Only callbacks that are set are queued *)
Section only_set.
Context {mx : MutexImpl} (u : callbacks).
Implicit Types (c : conn).

Definition bound (f : TcpConnection.functor) : Prop :=
  match f with
  | WriteComplete => is_Some (m_writeComplete u)
  | HighWaterMark _ => is_Some (m_highWater u)
  end.

Record only_set c : Prop := {
  os_flags : flags_agree (mk_tcp_connection c u);
  os_queued f : f ∈ TcpConnection.queued c → bound f
}.

Definition respects {A} (m : M conn A) : Prop :=
  ∀ c, only_set c → wp m (λ _ c', only_set c') (λ _, True) c.

Lemma respects_ret {A} (a : A) : respects (mret a).
Proof. by intros c. Qed.
Lemma respects_gets {A} (f : conn → A) : respects (gets f).
Proof. by intros c. Qed.
Lemma respects_modify f :
  (∀ c, m_writeCompleteCallback (f c) = m_writeCompleteCallback c ∧
    m_highWaterMarkCallback (f c) = m_highWaterMarkCallback c ∧
    TcpConnection.queued (f c) = TcpConnection.queued c) → respects (modify f).
Proof.
  intros Hf c [Hfl Hq]. apply wp_modify. destruct (Hf c) as (E1 & E2 & E3). unfold flags_agree in Hfl.
  split; [unfold flags_agree; cbn in *; by rewrite E1, E2|by rewrite E3].
Qed.
Lemma respects_on_input {A} (m : M kfifo A) : respects (on_input m).
Proof. intros c [Hfl Hq]. unfold wp, on_input. by destruct (m _) as [[]|]. Qed.
Lemma respects_on_output {A} (m : M kfifo A) : respects (on_output m).
Proof. intros c [Hfl Hq]. unfold wp, on_output. by destruct (m _) as [[]|]. Qed.
Lemma respects_bind {A B} (m : M conn A) (f : A → M conn B) :
  respects m → (∀ a, respects (f a)) → respects (m ≫= f).
Proof.
  intros Hm Hf c Hc. apply wp_bind. eapply wp_mono; [by apply Hm|]. intros a c1 H1. by apply Hf.
Qed.
Lemma respects_queue f : bound f → respects (queueInLoop f).
Proof.
  intros Hf c [Hfl Hq]. apply wp_modify. split; [done|]. cbn. intros g [?|Hg%list_elem_of_singleton]%elem_of_app; [auto|by subst].
Qed.

(** A callback is queued where it was found to be set. *)
Lemma respects_test {A} (k : conn → bool) f (g : conn → M conn A) :
  (∀ c, only_set c → k c = true → bound f) → (∀ c, respects (g c)) →
  respects (c ← gets id; (if k c then queueInLoop f else mret tt);; g c).
Proof.
  intros Hk Hg c Hc. apply wp_bind, wp_gets. change (id c) with c. apply wp_bind.
  apply (wp_mono _ (λ _ c', only_set c')); [|intros [] c1 H1; by apply Hg].
  destruct (k c) eqn:E; [by apply respects_queue; [apply (Hk c)|]|done].
Qed.

Lemma set_write_complete c : only_set c → m_writeCompleteCallback c = true → bound WriteComplete.
Proof. intros [[Hw _] _] E. cbn in *. rewrite E in Hw. by destruct (m_writeComplete u). Qed.
Lemma set_high_water c n : only_set c → m_highWaterMarkCallback c = true → bound (HighWaterMark n).
Proof. intros [[_ Hw] _] E. cbn in *. rewrite E in Hw. by destruct (m_highWater u). Qed.
End only_set.

Create HintDb respects.
#[export] Hint Resolve respects_ret respects_gets respects_on_input respects_on_output : respects.
#[export] Hint Extern 1 (respects _ (modify _)) => (apply respects_modify; done) : respects.

(** Decompose a computation down to the primitives. *)
Ltac respects :=
  repeat first
    [ progress auto with respects
    | progress cbv zeta
    | apply respects_test; [intros ? ?; rewrite ?andb_true_iff; intuition eauto using set_write_complete, set_high_water|intros ?]
    | apply respects_bind; [|intros ?]
    | match goal with
      | |- respects _ (match ?x with _ => _ end) => destruct x
      | |- respects _ (let '_ := ?x in _) => destruct x
      end ].

Section queued_set.
Context {mx : MutexImpl} (u : callbacks).

Lemma sendInLoop_respects data r : respects u (sendInLoop data r).
Proof. unfold sendInLoop, write_direct, nothing_waiting, buffer_rest, kernel_takes, on_channel. respects. Qed.
#[local] Hint Resolve sendInLoop_respects : respects.
Lemma run_action_respects a : respects u (run_action a).
Proof.
  induction a; cbn [run_action]; unfold send, shutdown, setState, shutdownInLoop; respects.
Qed.
#[local] Hint Resolve run_action_respects : respects.
Lemma handleClose_respects : respects u (handleClose (react_of u)).
Proof. unfold handleClose, setState, notify, on_channel. respects. Qed.
Lemma handleError_respects : respects u handleError.
Proof. exact (respects_ret u tt). Qed.
#[local] Hint Resolve handleClose_respects handleError_respects : respects.

(** Whatever happens to a connection, what is queued was set. *)
Lemma only_set_step c c' : only_set u c → TcpConnection.step (react_of u) c c' → only_set u c'.
Proof.
  intros Hc. assert (Hm : ∀ m, respects u m → m c = Ok (tt, c') → only_set u c').
  { intros m Hm Hrun. apply (wp_ok _ _ _ _ _ _ Hrun (Hm c Hc)). }
  intros [? Hr|Hr|t r ? Hr|r ? Hr|? Hr|b r Hr|b r ? Hr|Hr]; revert Hr; apply Hm;
    unfold connectEstablished, connectDestroyed, handleRead, handleWrite, remove_channel,
      shutdownInLoop, shutdown, send, setState, notify, on_channel, kernel_takes; respects.
Qed.
End queued_set.

(** ** Where callbacks are missing *)

(** What a user's code may raise: what its callbacks do, and what the empty ones
    throw. *)
Definition tame_callbacks {mx : MutexImpl} (E : fault → Prop) (s : tcp_server) : Prop :=
  (∀ f d, connectionCallback s = Some f → tame E (f d)) ∧
  (∀ f t d, messageCallback s = Some f → tame E (f t d)) ∧
  (∀ f d, writeCompleteCallback s = Some f → tame E (f d)).
Definition unset (s : tcp_server) : Prop := connectionCallback s = None ∨ messageCallback s = None.
Section missing.
Context {K Ke : Type} `{SocketLaws K} `{EpollLaws Ke} {mx : MutexImpl}.
Context (file_name : string) (default_addr : sockaddr_in) (alloc : system K Ke → Z).
Context (s : tcp_server) (own : fault → Prop).
Implicit Types (w : system K Ke).

(** A server whose connections have the callbacks of [s]; these raise [own] at most. *)
Definition may_raise (f : fault) : Prop := own f ∨ (f = BadFunctionCall ∧ unset s).
Abbreviation run :=
  (exec file_name default_addr (react_of (given s)) (later_of (given s)) (is_set (writeCompleteCallback s)) alloc).
Abbreviation runs := (rtc (step file_name default_addr (react_of (given s)) (later_of (given s))
  (is_set (writeCompleteCallback s)) alloc (may_stop may_raise))).

Record fit : Prop := {
  fit_tame : tame_callbacks (may_stop own) s;
  fit_own : ¬ own BadFunctionCall;
  fit_mutex : relock ≠ Err BadFunctionCall;
  fit_alloc w l io : loops w !! l = Some io → channels (Reactor.m_poller (reactor_of io)) !! alloc w = None
}.

Lemma tame_mono (E E' : fault → Prop) a : (∀ f, E f → E' f) → tame E a → tame E' a.
Proof.
  intros HE. induction a as [|b r k IH|k IH|m k IH]; cbn; [done|done|done|].
  intros [Hm Hk]. split; [|by apply IH]. intros x. specialize (Hm x). unfold wp in *.
  destruct (m x) as [[]|]; auto.
Qed.

Lemma may_stop_own f : may_stop own f → may_stop may_raise f.
Proof. unfold may_stop, may_raise. tauto. Qed.

Lemma bad_call_tame : unset s → tame (may_stop may_raise) bad_call.
Proof. intros Hun. split; [|done]. intros k. right. right. right. right. by right. Qed.

Lemma fit_well_behaved :
  fit → well_behaved (react_of (given s)) (later_of (given s)) alloc may_raise.
Proof.
  intros [(Hc & Hm & Hw) _ _ Halloc]. split; [| |done].
  - intros [|t|] d; cbn; [| |done].
    + destruct (connectionCallback s) as [f|] eqn:E; cbn; [|by apply bad_call_tame; left].
      by eapply tame_mono; [apply may_stop_own|apply Hc].
    + destruct (messageCallback s) as [f|] eqn:E; cbn; [|by apply bad_call_tame; right].
      by eapply tame_mono; [apply may_stop_own|apply Hm].
  - intros [|n] d; cbn; [|done]. destruct (writeCompleteCallback s) as [f|] eqn:E; [|done].
    by eapply tame_mono; [apply may_stop_own|apply Hw].
Qed.

(** Code of a connection that throws ends the step. *)
Lemma on_connection_fails here a op w io d e :
  loops w !! here = Some io → conns (reactor_of io) !! a = Some d → op (set_loop_calls [] d) = Err e →
  on_connection here a op w = Err e.
Proof.
  intros Hio Hd Hop. unfold on_connection, in_connection, mbind, M_bind, on_reactor, on_io, in_reactor, on_conn.
  by rewrite Hio, Hd, Hop.
Qed.

Lemma establishing_throws d :
  connectionCallback s = None → connectEstablished (react_of (given s)) d = Err BadFunctionCall.
Proof. intros Hs. unfold connectEstablished, notify, react_of, given. cbn. by rewrite Hs. Qed.

Lemma reading_throws t bs d n k :
  messageCallback s = None → Kfifo.readFd (inr bs) (m_inputBuffer d) = Ok (n, k) → 0 < n.1 →
  TcpConnection.handleRead (react_of (given s)) t (inr bs) d = Err BadFunctionCall.
Proof.
  intros Hs Hread Hn. unfold TcpConnection.handleRead, mbind, M_bind, on_input. rewrite Hread.
  destruct (Z.ltb_spec 0 n.1); [|lia]. unfold notify, react_of, given. cbn. by rewrite Hs.
Qed.

(** C28. A server whose connection or message callback was never set ends in
    [std::bad_function_call], and only such a server does. Whatever else goes on, the
    first functor of a loop that sets up a connection throws if there is no
    connection callback; and if there is no message callback, so does the loop that
    first finds a connection readable and reads something. With both callbacks set no
    step of the server, its acceptor and loops throws it, in any reachable state. The
    exception leaves the loop's thread, and with it the program. *)
Theorem unset_callbacks_throw v0 v1 rest w :
  fit → launches v0 v1 rest → runs (launched v1 rest) w →
  (∀ e, enabled (may_stop may_raise) w e → run e w = Err BadFunctionCall → unset s) ∧
  (connectionCallback s = None → ∀ here io a js, loops w !! here = Some io →
     functors io = Task (ConnectEstablished a) :: js → run (RunFunctor here) w = Err BadFunctionCall) ∧
  (messageCallback s = None → ∀ here io a more d ch t calls bs wr n k, loops w !! here = Some io →
     active io = a :: more → conns (reactor_of io) !! a = Some d →
     channels (Reactor.m_poller (reactor_of io)) !! a = Some ch →
     dispatched t ch = (HandleRead, Some t) :: calls →
     Kfifo.readFd (inr bs) (m_inputBuffer d) = Ok (n, k) → 0 < n.1 →
     run (HandleEvent here t (inr bs) wr) w = Err BadFunctionCall).
Proof.
  intros Hfit Hla Hsteps. pose proof (fit_well_behaved Hfit) as Hwb.
  pose proof (inv_running file_name default_addr _ _ _ alloc may_raise v0 v1 rest w Hwb Hla Hsteps) as Hinv.
  split; [|split].
  - intros e He Hrun. destruct Hwb as [Hreact Hlater Halloc].
    pose proof (exec_wp file_name default_addr _ Hlater (is_set (writeCompleteCallback s)) alloc Halloc e w Hinv He ltac:(done)) as Hwp.
    unfold wp in Hwp. rewrite Hrun in Hwp. destruct Hfit as [_ Hown Hm _].
    by destruct Hwp as [?|[?|[?|[?|[?|[_ ?]]]]]].
  - intros Hs here io a js Hio Hf. cbn [exec]. rewrite (run_functor_head _ here io _ js w Hio Hf). cbn [run_job run_task].
    assert (Hin : Task (ConnectEstablished a) ∈ jobs w here) by (rewrite (jobs_at w here io Hio), Hf; by left).
    destruct (fr_job _ (proj1 Hinv) here _ Hin) as (c & Hc & Hl).
    destruct (fr_conn _ (proj1 Hinv) a c Hc) as (io' & ch & Hio' & [d Hd] & _). rewrite Hl, Hio in Hio'. injection Hio' as <-.
    apply (on_connection_fails here a _ _ (popped js io) d); [apply lookup_insert_eq|done|].
    by apply establishing_throws.
  - intros Hs here io a more d ch t calls bs wr n k Hio Hact Hd Hch Hcalls Hread Hn. cbn [exec].
    rewrite (handleEvent_head file_name default_addr _ alloc here t _ wr io a more ch w Hio Hact Hch), Hcalls.
    cbn [for_each]. unfold mbind at 1, M_bind at 1, callback at 1. cbn [fst].
    rewrite (on_connection_fails here a _ _ (with_active more io) d BadFunctionCall); [done|apply lookup_insert_eq|done|].
    unfold run_handler. cbn [fst snd default]. by apply (reading_throws t bs _ n k).
Qed.
End missing.

(** ** A server that is started as it was made *)
Definition bare : tcp_server := mk_tcp_server (TcpServer_new "10.0.0.1:80" "web" 7) None None None false.

Lemma bare_fit : fit (mx := inert_mutex) free_address bare (λ _, False).
Proof. split; [done|by intros []|by intros Hm; discriminate Hm|apply free_address_free]. Qed.

Abbreviation bare_play := (replay (react_of (given bare)) (later_of (given bare)) false).

(** A client comes, and the loop [100] is told of the connection. *)
Definition bare_comes : list event := [ Poll 7 [mk_event EPOLLIN 4096]; HandleEvent 7 0 (inl 0) (inl 0); DoPendingFunctors 100 ].
Definition bare_told : sys := foldl bare_play sample_launched bare_comes.

Lemma bare_told_reachable E :
  rtc (step (mx := inert_mutex) "" zero_sockaddr (react_of (given bare)) (later_of (given bare)) false free_address E)
    sample_launched bare_told.
Proof. apply play_runs. vm_compute. reflexivity. Qed.

Lemma bare_told_jobs :
  (λ io, functors io) <$> loops bare_told !! 100 = Some [Task (ConnectEstablished 4097)].
Proof. vm_compute. reflexivity. Qed.

Lemma unset_callbacks_throw_witness : replay_exec (react_of (given bare)) (later_of (given bare)) false (RunFunctor 100) bare_told = Err BadFunctionCall.
Proof.
  destruct (unset_callbacks_throw (mx := inert_mutex) "" zero_sockaddr free_address bare (λ _, False)
    server_world sample_served sample_rest bare_told bare_fit sample_launches (bare_told_reachable _)) as (_ & Hcon & _).
  pose proof bare_told_jobs as Hjobs. destruct (loops bare_told !! 100) as [io|] eqn:Hio; [|discriminate Hjobs].
  injection Hjobs as Hjobs. exact (Hcon eq_refl 100 io 4097 [] Hio Hjobs).
Defined.
