(* ===== verification/OrdSet.v ===== *)
(** [std::set] of pairs, ordered by [std::pair]'s [operator<]: the list of its
    elements in increasing order, with the operations the timer queue uses. *)
From Stdlib Require Import Sorted.
From stdpp Require Import sorting.
From S2P Require Import Prelude.

Definition entry : Type := Z * Z.

(** [a.first < b.first || (!(b.first < a.first) && a.second < b.second)] *)
Definition pair_ltb (a b : entry) : bool :=
  (a.1 <? b.1) || (negb (b.1 <? a.1) && (a.2 <? b.2)).

Definition pair_lt (a b : entry) : Prop := a.1 < b.1 ∨ (a.1 = b.1 ∧ a.2 < b.2).

Definition set_find (x : entry) (l : list entry) : bool := bool_decide (x ∈ l).

(** [insert]: whether the element was new, and the set after. *)
Fixpoint set_insert (x : entry) (l : list entry) : bool * list entry :=
  match l with
  | [] => (true, [x])
  | y :: l' =>
      if pair_ltb x y then (true, x :: y :: l')
      else if pair_ltb y x then let r := set_insert x l' in (r.1, y :: r.2)
      else (false, y :: l')
  end.

(** [erase(key)]: how many elements went, and the set after. *)
Fixpoint set_erase (x : entry) (l : list entry) : nat * list entry :=
  match l with
  | [] => (0%nat, [])
  | y :: l' =>
      if decide (x = y) then (1%nat, l')
      else let r := set_erase x l' in (r.1, y :: r.2)
  end.

(** [lower_bound(x)]: the elements before the first not less than [x], and those
    from it on. *)
Fixpoint set_lower_bound (x : entry) (l : list entry) : list entry * list entry :=
  match l with
  | [] => ([], [])
  | y :: l' =>
      if pair_ltb y x then let r := set_lower_bound x l' in (y :: r.1, r.2)
      else ([], y :: l')
  end.

Definition sorted (l : list entry) : Prop := StronglySorted pair_lt l.

Lemma pair_ltb_lt a b : pair_ltb a b = true ↔ pair_lt a b.
Proof.
  unfold pair_ltb, pair_lt. destruct a as [a1 a2], b as [b1 b2]. cbn.
  rewrite orb_true_iff, andb_true_iff, negb_true_iff, !Z.ltb_lt, Z.ltb_ge. lia.
Qed.

Lemma pair_ltb_nlt a b : pair_ltb a b = false ↔ ¬ pair_lt a b.
Proof. rewrite <- pair_ltb_lt. by destruct (pair_ltb a b). Qed.

#[export] Instance pair_lt_trans : Transitive pair_lt.
Proof. intros [] [] []. unfold pair_lt. cbn. lia. Qed.

Lemma pair_lt_irrefl a : ¬ pair_lt a a.
Proof. unfold pair_lt. lia. Qed.

Lemma pair_lt_total a b : ¬ pair_lt a b → ¬ pair_lt b a → a = b.
Proof. destruct a, b. unfold pair_lt. cbn. intros. f_equal; lia. Qed.

Lemma sorted_cons_inv x l : sorted (x :: l) → sorted l ∧ ∀ y, y ∈ l → pair_lt x y.
Proof. intros [Hl Hx]%StronglySorted_inv. by rewrite Forall_forall in Hx. Qed.

Lemma sorted_cons x l : sorted l → (∀ y, y ∈ l → pair_lt x y) → sorted (x :: l).
Proof. intros. constructor; [done|]. by rewrite Forall_forall. Qed.

Lemma sorted_nodup l : sorted l → NoDup l.
Proof.
  induction l as [|x l IH]; intros Hs; [constructor|].
  apply sorted_cons_inv in Hs as [Hl Hx]. constructor; [|auto].
  intros Hin. exact (pair_lt_irrefl x (Hx x Hin)).
Qed.

Lemma sorted_app_inv l1 l2 : sorted (l1 ++ l2) → sorted l1 ∧ sorted l2.
Proof.
  induction l1 as [|x l1 IH]; intros Hs; [split; [constructor|done]|].
  apply sorted_cons_inv in Hs as [Hl Hx]. destruct (IH Hl). split; [|done].
  apply sorted_cons; set_solver.
Qed.

Lemma set_insert_new x l :
  sorted l → x ∉ l →
  (set_insert x l).1 = true ∧ sorted (set_insert x l).2 ∧ (set_insert x l).2 ≡ₚ x :: l.
Proof.
  induction l as [|y l IH]; intros Hs Hx; [by split_and!; [| apply sorted_cons; set_solver|]|].
  apply sorted_cons_inv in Hs as [Hl Hy]. cbn [set_insert].
  destruct (pair_ltb x y) eqn:Hxy.
  - apply pair_ltb_lt in Hxy. split_and!; [done| |done].
    apply sorted_cons; [by apply sorted_cons|].
    intros z [->|Hz]%elem_of_cons; [done|]. etrans; [done|auto].
  - destruct (pair_ltb y x) eqn:Hyx.
    + apply pair_ltb_lt in Hyx. destruct IH as (H1 & H2 & H3); [done|set_solver|].
      cbn [fst snd]. split_and!; [done| |rewrite H3; by constructor].
      apply sorted_cons; [done|]. intros z. rewrite H3. set_solver.
    + apply pair_ltb_nlt in Hxy, Hyx.
      destruct Hx. rewrite (pair_lt_total x y) by done. set_solver.
Qed.

Lemma set_insert_old x l : sorted l → x ∈ l → set_insert x l = (false, l).
Proof.
  induction l as [|y l IH]; intros Hs Hx; [set_solver|].
  apply sorted_cons_inv in Hs as [Hl Hy]. cbn [set_insert].
  apply elem_of_cons in Hx as [->|Hx].
  - assert (pair_ltb y y = false) as -> by apply pair_ltb_nlt, pair_lt_irrefl. done.
  - pose proof (Hy x Hx) as Hyx.
    assert (pair_ltb x y = false) as ->.
    { apply pair_ltb_nlt. intros Hxy. apply (pair_lt_irrefl x). by etrans. }
    apply pair_ltb_lt in Hyx as ->. by rewrite IH.
Qed.

Lemma set_insert_sorted x l : sorted l → sorted (set_insert x l).2.
Proof.
  intros Hs. destruct (decide (x ∈ l)).
  - by rewrite set_insert_old.
  - by apply set_insert_new.
Qed.

Lemma elem_of_set_insert x y l : sorted l → y ∈ (set_insert x l).2 ↔ y = x ∨ y ∈ l.
Proof.
  intros Hs. destruct (decide (x ∈ l)).
  - rewrite set_insert_old by done. cbn. set_solver.
  - destruct (set_insert_new x l) as (_ & _ & ->); set_solver.
Qed.

Lemma set_erase_in x l :
  sorted l → x ∈ l →
  (set_erase x l).1 = 1%nat ∧ sorted (set_erase x l).2 ∧ l ≡ₚ x :: (set_erase x l).2.
Proof.
  induction l as [|y l IH]; intros Hs Hx; [set_solver|].
  apply sorted_cons_inv in Hs as [Hl Hy]. cbn [set_erase]. case_decide as Hd; subst.
  - by split_and!.
  - destruct IH as (H1 & H2 & H3); [done|set_solver|]. cbn [fst snd].
    split_and!; [done| |].
    + apply sorted_cons; [done|]. intros z Hz. apply Hy. rewrite H3. set_solver.
    + rewrite H3 at 1. by constructor.
Qed.

Lemma set_lower_bound_split x l :
  let r := set_lower_bound x l in
  l = r.1 ++ r.2 ∧ (∀ y, y ∈ r.1 → pair_lt y x) ∧
  (sorted l → ∀ y, y ∈ r.2 → ¬ pair_lt y x).
Proof.
  induction l as [|y l IH]; [by split_and!; [|set_solver..]|].
  destruct IH as (H1 & H2 & H3). cbn [set_lower_bound].
  destruct (pair_ltb y x) eqn:Hyx; cbn [fst snd].
  - apply pair_ltb_lt in Hyx. split_and!.
    + cbn. by rewrite <- H1.
    + set_solver.
    + intros [Hl _]%sorted_cons_inv. auto.
  - apply pair_ltb_nlt in Hyx. split_and!; [done|set_solver|].
    intros [Hl Hy]%sorted_cons_inv z [->|Hz]%elem_of_cons; [done|].
    intros Hzx. apply Hyx. etrans; [by apply Hy|done].
Qed.

(** A sorted list is determined by its elements. *)
Lemma sorted_unique (l1 l2 : list entry) : sorted l1 → sorted l2 → l1 ≡ₚ l2 → l1 = l2.
Proof.
  intros H1 H2. apply (StronglySorted_unique_strong pair_lt); [|done..].
  intros [] [] _ _. unfold pair_lt. cbn. lia.
Qed.
