(* ===== verification/TimerQueue.v ===== *)
(** Timers (Timer.h, Timer.cpp, TimerId.h, TimerQueue.h, TimerQueue.cpp): the
    timers on the heap, the two sorted sets that hold the active ones, the kernel
    timer, and every operation of [TimerQueue] on the loop's thread, callbacks
    included. *)
From S2P Require Import Prelude Timestamp OrdSet.

(** [Timer*] is the object's address; a [TimerId] is the pointer together with
    the sequence number. *)
Record TimerId := mk_TimerId { timer_ : Z; id_sequence_ : Z }.

Definition UINTPTR_MAX : Z := 2 ^ 64 - 1.

(** What client code does with the queue while a callback runs: a tree of calls,
    whose continuation sees each call's result. *)
Inductive action (Cb : Type) :=
  | Done
  | AddTimer (cb : Cb) (when : Z) (interval : double) (k : TimerId → action Cb)
  | Cancel (id : TimerId) (k : action Cb)
  | Now (k : Z → action Cb).
Arguments Done {Cb}.
Arguments AddTimer {Cb} cb when interval k.
Arguments Cancel {Cb} id k.
Arguments Now {Cb} k.

(** [Timer] *)
Record Timer (Cb : Type) := mk_Timer {
  callback_ : Cb;
  expiration_ : Z;
  interval_ : double;
  repeat_ : bool;
  sequence_ : Z
}.
Arguments mk_Timer {Cb}.
Arguments callback_ {Cb}.
Arguments expiration_ {Cb}.
Arguments interval_ {Cb}.
Arguments repeat_ {Cb}.
Arguments sequence_ {Cb}.

(** The last [timerfd_settime]: the expiration it was made for, and [it_value]. *)
Record armed := mk_armed { for_expiration : Z; tv_sec : Z; tv_nsec : Z }.

Record queue (Cb : Type) := mk_queue {
  heap : gmap Z (Timer Cb);           (** the live [Timer] objects *)
  timers_ : list entry;               (** [std::set<pair<Timestamp, Timer*>>] *)
  activeTimers_ : list entry;         (** [std::set<pair<Timer*, int64_t>>] *)
  callingExpiredTimers_ : bool;
  cancelingTimers_ : list entry;
  timerfd_ : option armed;            (** [None]: disarmed, or fired *)
  s_numCreated_ : Z;                  (** [Timer]'s counter, an [atomic<int>] *)
  ticks : nat;                        (** clock readings so far *)
  ran : list entry                    (** callbacks run so far, as (Timer*, sequence) *)
}.
Arguments mk_queue {Cb}.
Arguments heap {Cb}.
Arguments timers_ {Cb}.
Arguments activeTimers_ {Cb}.
Arguments callingExpiredTimers_ {Cb}.
Arguments cancelingTimers_ {Cb}.
Arguments timerfd_ {Cb}.
Arguments s_numCreated_ {Cb}.
Arguments ticks {Cb}.
Arguments ran {Cb}.

Section setters.
Context {Cb : Type}.


Definition set_heap h (q : queue Cb) : queue Cb := mk_queue h (timers_ q) (activeTimers_ q) (callingExpiredTimers_ q)
  (cancelingTimers_ q) (timerfd_ q) (s_numCreated_ q) (ticks q) (ran q).
Definition set_timers l (q : queue Cb) : queue Cb := mk_queue (heap q) l (activeTimers_ q) (callingExpiredTimers_ q)
  (cancelingTimers_ q) (timerfd_ q) (s_numCreated_ q) (ticks q) (ran q).
Definition set_active l (q : queue Cb) : queue Cb := mk_queue (heap q) (timers_ q) l (callingExpiredTimers_ q)
  (cancelingTimers_ q) (timerfd_ q) (s_numCreated_ q) (ticks q) (ran q).
Definition set_calling b (q : queue Cb) : queue Cb := mk_queue (heap q) (timers_ q) (activeTimers_ q) b
  (cancelingTimers_ q) (timerfd_ q) (s_numCreated_ q) (ticks q) (ran q).
Definition set_canceling l (q : queue Cb) : queue Cb := mk_queue (heap q) (timers_ q) (activeTimers_ q)
  (callingExpiredTimers_ q) l (timerfd_ q) (s_numCreated_ q) (ticks q) (ran q).
Definition set_timerfd a (q : queue Cb) : queue Cb := mk_queue (heap q) (timers_ q) (activeTimers_ q)
  (callingExpiredTimers_ q) (cancelingTimers_ q) a (s_numCreated_ q) (ticks q) (ran q).
Definition set_created n (q : queue Cb) : queue Cb := mk_queue (heap q) (timers_ q) (activeTimers_ q)
  (callingExpiredTimers_ q) (cancelingTimers_ q) (timerfd_ q) n (ticks q) (ran q).
Definition set_ticks n (q : queue Cb) : queue Cb := mk_queue (heap q) (timers_ q) (activeTimers_ q)
  (callingExpiredTimers_ q) (cancelingTimers_ q) (timerfd_ q) (s_numCreated_ q) n (ran q).
Definition set_ran l (q : queue Cb) : queue Cb := mk_queue (heap q) (timers_ q) (activeTimers_ q)
  (callingExpiredTimers_ q) (cancelingTimers_ q) (timerfd_ q) (s_numCreated_ q) (ticks q) l.

(** [TimerQueue::TimerQueue] *)
Definition TimerQueue_new : queue Cb := mk_queue ∅ [] [] false [] None 0 0 [].
End setters.

Section operations.
(** Callbacks and what they do (which may depend on the callbacks run before);
    the clock, as the sequence of its readings; the allocator. *)
Context {Cb : Type} (body : Cb → list entry → action Cb).
Context (clock : nat → Z) (malloc : gmap Z (Timer Cb) → option Z).

Definition now : M (queue Cb) Z :=
  q ← gets id;
  modify (set_ticks (S (ticks q)));;
  mret (clock (ticks q)).

(** [*timer] *)
Definition deref (timer : Z) : M (queue Cb) (Timer Cb) :=
  q ← gets id;
  match heap q !! timer with
  | Some t => mret t
  | None => fail UseAfterFree
  end.

(** [new Timer(cb, when, interval)] *)
Definition new_Timer (cb : Cb) (when : Z) (interval : double) : M (queue Cb) Z :=
  q ← gets id;
  match malloc (heap q) with
  | None => fail BadAlloc
  | Some a =>
      let t := mk_Timer cb when interval (double_gt0 interval) (s_numCreated_ q) in
      modify (set_heap (<[a := t]> (heap q)));;
      modify (set_created (i32 (s_numCreated_ q + 1)));;
      mret a
  end.

(** [delete timer] *)
Definition delete_Timer (timer : Z) : M (queue Cb) unit :=
  deref timer;;
  modify (λ q, set_heap (delete timer (heap q)) q).

(** [Timer::restart] *)
Definition restart (timer : Z) (now : Z) : M (queue Cb) unit :=
  t ← deref timer;
  e ← (if repeat_ t then lift (addTime now (interval_ t)) else mret Timestamp_invalid);
  let t' := mk_Timer (callback_ t) e (interval_ t) (repeat_ t) (sequence_ t) in
  modify (λ q, set_heap (<[timer := t']> (heap q)) q).

Definition howMuchTimeFromNow (when : Z) : M (queue Cb) (Z * Z) :=
  n ← now;
  microseconds ← lift (checked_i64 (when - n));
  let microseconds := if microseconds <? 100 then 100 else microseconds in
  mret (Z.quot microseconds kMicroSecondsPerSecond,
        Z.rem microseconds kMicroSecondsPerSecond * 1000).

Definition resetTimerfd (expiration : Z) : M (queue Cb) unit :=
  v ← howMuchTimeFromNow expiration;
  modify (set_timerfd (Some (mk_armed expiration v.1 v.2))).

(** [readTimerfd]: [fired] tells whether the kernel timer has gone off, which
    disarms it (the interval is zero), or the read fails with [EAGAIN]. *)
Definition readTimerfd (fired : bool) : M (queue Cb) unit :=
  if fired then modify (set_timerfd None) else mret tt.

Definition sizes_agree (q : queue Cb) : bool :=
  bool_decide (length (timers_ q) = length (activeTimers_ q)).

Definition insert (timer : Z) : M (queue Cb) bool :=
  q ← gets id;
  assert_that (sizes_agree q);;
  t ← deref timer;
  let when := expiration_ t in
  let earliestChanged :=
    match timers_ q with
    | [] => true
    | it :: _ => timestamp_lt when it.1
    end in
  let r := set_insert (when, timer) (timers_ q) in
  modify (set_timers r.2);;
  assert_that r.1;;
  t ← deref timer;
  q ← gets id;
  let r := set_insert (timer, sequence_ t) (activeTimers_ q) in
  modify (set_active r.2);;
  assert_that r.1;;
  q ← gets id;
  assert_that (sizes_agree q);;
  mret earliestChanged.

Definition addTimerInLoop (timer : Z) : M (queue Cb) unit :=
  earliestChanged ← insert timer;
  if (earliestChanged : bool) then
    t ← deref timer;
    resetTimerfd (expiration_ t)
  else mret tt.

(** [addTimer] on the loop's thread, where [runInLoop] is a call. *)
Definition addTimer (cb : Cb) (when : Z) (interval : double) : M (queue Cb) TimerId :=
  timer ← new_Timer cb when interval;
  addTimerInLoop timer;;
  t ← deref timer;
  mret (mk_TimerId timer (sequence_ t)).

Definition cancelInLoop (timerId : TimerId) : M (queue Cb) unit :=
  q ← gets id;
  assert_that (sizes_agree q);;
  let timer := (timer_ timerId, id_sequence_ timerId) in
  (if set_find timer (activeTimers_ q) then
     t ← deref (timer_ timerId);
     let r := set_erase (expiration_ t, timer_ timerId) (timers_ q) in
     modify (set_timers r.2);;
     assert_that (bool_decide (r.1 = 1%nat));;
     delete_Timer (timer_ timerId);;
     modify (λ q, set_active (set_erase timer (activeTimers_ q)).2 q)
   else if callingExpiredTimers_ q then
     modify (set_canceling (set_insert timer (cancelingTimers_ q)).2)
   else mret tt);;
  q ← gets id;
  assert_that (sizes_agree q).

(** [cancel] on the loop's thread. *)
Definition cancel (timerId : TimerId) : M (queue Cb) unit := cancelInLoop timerId.

(** [EventLoop::runAt], [runAfter], [runEvery] on the loop's thread. *)
Definition runAt (time : Z) (cb : Cb) : M (queue Cb) TimerId :=
  addTimer cb time (S754_zero false).

Definition runAfter (delay : double) (cb : Cb) : M (queue Cb) TimerId :=
  n ← now;
  time ← lift (addTime n delay);
  runAt time cb.

Definition runEvery (interval : double) (cb : Cb) : M (queue Cb) TimerId :=
  n ← now;
  time ← lift (addTime n interval);
  addTimer cb time interval.

Definition EventLoop_cancel (timerId : TimerId) : M (queue Cb) unit := cancel timerId.

(** The calls a callback makes. *)
Fixpoint run_action (a : action Cb) : M (queue Cb) unit :=
  match a with
  | Done => mret tt
  | AddTimer cb when interval k =>
      timerId ← addTimer cb when interval;
      run_action (k timerId)
  | Cancel timerId k => cancel timerId;; run_action k
  | Now k => n ← now; run_action (k n)
  end.

(** [it.second->run()] *)
Definition run (timer : Z) : M (queue Cb) unit :=
  t ← deref timer;
  q ← gets id;
  modify (set_ran (ran q ++ [(timer, sequence_ t)]));;
  run_action (body (callback_ t) (ran q)).

(** One turn of the loop in [getExpired] that empties [activeTimers_]. *)
Definition erase_active (it : entry) : M (queue Cb) unit :=
  t ← deref it.2;
  q ← gets id;
  let r := set_erase (it.2, sequence_ t) (activeTimers_ q) in
  modify (set_active r.2);;
  assert_that (bool_decide (r.1 = 1%nat)).

Definition getExpired (now : Z) : M (queue Cb) (list entry) :=
  q ← gets id;
  assert_that (sizes_agree q);;
  let sentry := (now, UINTPTR_MAX) in
  let r := set_lower_bound sentry (timers_ q) in
  assert_that (match r.2 with [] => true | e :: _ => timestamp_lt now e.1 end);;
  let expired := r.1 in
  modify (set_timers r.2);;
  for_each erase_active expired;;
  q ← gets id;
  assert_that (sizes_agree q);;
  mret expired.

(** One turn of the loop in [reset]. *)
Definition reset_one (now : Z) (it : entry) : M (queue Cb) unit :=
  t ← deref it.2;
  q ← gets id;
  if repeat_ t && negb (set_find (it.2, sequence_ t) (cancelingTimers_ q)) then
    restart it.2 now;;
    insert it.2;;
    mret tt
  else delete_Timer it.2.

Definition reset (expired : list entry) (now : Z) : M (queue Cb) unit :=
  for_each (reset_one now) expired;;
  q ← gets id;
  nextExpire ← (match timers_ q with
                | [] => mret Timestamp_invalid
                | it :: _ => t ← deref it.2; mret (expiration_ t)
                end);
  if valid nextExpire then resetTimerfd nextExpire else mret tt.

Definition handleRead (fired : bool) : M (queue Cb) unit :=
  now ← now;
  readTimerfd fired;;
  expired ← getExpired now;
  modify (set_calling true);;
  modify (set_canceling []);;
  for_each (λ it, run it.2) expired;;
  modify (set_calling false);;
  reset expired now.

(** [TimerQueue::~TimerQueue]: the timers still waiting are deleted. *)
Definition TimerQueue_destroy : M (queue Cb) unit :=
  q ← gets id;
  for_each (λ timer, delete_Timer timer.2) (timers_ q).
End operations.

(** ** Invariant *)
Section invariant.
Context {Cb : Type}.
Implicit Types (pend : list Z) (e : entry).

(** The element of [activeTimers_] that goes with one of [timers_]. *)
Definition key (q : queue Cb) (e : entry) : entry :=
  (e.2, from_option sequence_ 0 (heap q !! e.2)).

(** [pend]: timers taken out of both sets and still owned by the code that is
    running (just created, or expired and about to be put back or deleted). *)
Record inv (pend : list Z) (q : queue Cb) : Prop := {
  inv_sorted : sorted (timers_ q);
  inv_active_sorted : sorted (activeTimers_ q);
  inv_canceling_sorted : sorted (cancelingTimers_ q);
  inv_keys : activeTimers_ q ≡ₚ key q <$> timers_ q;
  inv_live : ∀ e, e ∈ timers_ q → ∃ t, heap q !! e.2 = Some t ∧ expiration_ t = e.1;
  inv_heap : ∀ a t, heap q !! a = Some t → (expiration_ t, a) ∈ timers_ q ∨ a ∈ pend;
  inv_timer : ∀ a t, heap q !! a = Some t →
    0 < a < UINTPTR_MAX ∧ repeat_ t = double_gt0 (interval_ t);
  inv_pend_nodup : NoDup pend;
  inv_pend : ∀ a, a ∈ pend → is_Some (heap q !! a) ∧ a ∉ (timers_ q).*2
}.

(** The kernel timer is set no later than every timer whose expiration is in
    [P]. *)
Definition armed_for (P : Z → Prop) (q : queue Cb) : Prop :=
  ∀ e, e ∈ timers_ q → P e.1 → ∃ arm, timerfd_ q = Some arm ∧ for_expiration arm ≤ e.1.

Definition down_closed (P : Z → Prop) : Prop := ∀ t t', P t → t' ≤ t → P t'.

(** What code that runs while [pend] is out of the sets leaves alone. *)
Record stable (pend : list Z) (q q' : queue Cb) : Prop := {
  stable_heap : ∀ a, a ∈ pend → heap q' !! a = heap q !! a;
  stable_ran : ran q' = ran q;
  stable_calling : callingExpiredTimers_ q' = callingExpiredTimers_ q;
  stable_canceling : ∀ x, x ∈ cancelingTimers_ q → x ∈ cancelingTimers_ q'
}.

Lemma stable_refl pend q : stable pend q q.
Proof. by split. Qed.

Lemma stable_trans pend q1 q2 q3 : stable pend q1 q2 → stable pend q2 q3 → stable pend q1 q3.
Proof.
  intros [A1 B1 C1 D1] [A2 B2 C2 D2]. split; [|congruence|congruence|auto].
  intros a Ha. rewrite A2, A1 by done. done.
Qed.

Lemma key_ext (q q' : queue Cb) (l : list entry) :
  (∀ e, e ∈ l → heap q !! e.2 = heap q' !! e.2) → key q <$> l = key q' <$> l.
Proof.
  intros Hl. apply list_fmap_ext. intros i e He%list_elem_of_lookup_2. unfold key. by rewrite Hl.
Qed.

Lemma inv_sizes pend q : inv pend q → sizes_agree q = true.
Proof.
  intros Hinv. apply bool_decide_eq_true. rewrite (inv_keys _ _ Hinv). by rewrite length_fmap.
Qed.

(** A timer is in the ordered set at most once. *)
Lemma inv_unique pend q t1 t2 a :
  inv pend q → (t1, a) ∈ timers_ q → (t2, a) ∈ timers_ q → t1 = t2.
Proof.
  intros Hinv H1 H2. destruct (inv_live _ _ Hinv _ H1) as (tm1 & Hh1 & He1).
  destruct (inv_live _ _ Hinv _ H2) as (tm2 & Hh2 & He2). cbn in *. congruence.
Qed.

Lemma inv_in_heap pend q a :
  inv pend q → a ∈ (timers_ q).*2 → is_Some (heap q !! a).
Proof.
  intros Hinv ([t a'] & -> & He)%list_elem_of_fmap.
  destruct (inv_live _ _ Hinv _ He) as (tm & Hh & _). by eexists.
Qed.

(** [activeTimers_] holds the pointer and sequence number of the active timers. *)
Lemma elem_of_active pend q a s :
  inv pend q →
  (a, s) ∈ activeTimers_ q ↔
    ∃ tm, heap q !! a = Some tm ∧ sequence_ tm = s ∧ (expiration_ tm, a) ∈ timers_ q.
Proof.
  intros Hinv. rewrite (inv_keys _ _ Hinv), list_elem_of_fmap. split.
  - intros ([t a'] & Hk & He). unfold key in Hk. cbn in Hk.
    destruct (inv_live _ _ Hinv _ He) as (tm & Hh & Hx). cbn in *.
    injection Hk as -> ->. rewrite Hh. exists tm. cbn. by subst.
  - intros (tm & Hh & Hs & He). exists (expiration_ tm, a). split; [|done].
    unfold key. cbn. rewrite Hh. cbn. by subst.
Qed.

Lemma inv_new : inv [] (TimerQueue_new (Cb := Cb)).
Proof.
  split; try constructor; cbn; try done; set_solver.
Qed.
End invariant.

(** The faults a correct queue can still meet: no memory, or a time that does not
    fit its type. None is an [assert] of the source or a bad pointer. *)
Definition resource_fault (e : fault) : Prop :=
  e = BadAlloc ∨ e = BadCast ∨ e = IntOverflow.

(** ** The operations on the two sets *)
Section sets.
Context {Cb : Type}.
Implicit Types (pend : list Z).

Lemma elem_of_addresses (t a : Z) (l : list entry) : (t, a) ∈ l → a ∈ l.*2.
Proof. intros H. apply list_elem_of_fmap. by exists (t, a). Qed.

Lemma elem_of_address (e : entry) (l : list entry) : e ∈ l → e.2 ∈ l.*2.
Proof. destruct e. apply elem_of_addresses. Qed.

Lemma deref_ok (q : queue Cb) a t : heap q !! a = Some t → deref a q = Ok (t, q).
Proof. intros H. unfold deref. mstep. change (id q) with q. by rewrite H. Qed.

(** [insert] links one loose timer; it answers whether the timer is the new
    first, and its four assertions hold. *)
Lemma insert_ok (a : Z) pend (q : queue Cb) t :
  inv (a :: pend) q → heap q !! a = Some t →
  ∃ lt la, insert a q = Ok (match timers_ q with [] => true | it :: _ => expiration_ t <? it.1 end,
                            set_active la (set_timers lt q)) ∧
    inv pend (set_active la (set_timers lt q)) ∧ lt ≡ₚ (expiration_ t, a) :: timers_ q.
Proof.
  intros Hinv Ht. pose proof (inv_sizes _ _ Hinv) as Hsizes.
  destruct (inv_pend _ _ Hinv a ltac:(set_solver)) as [_ Hloose].
  pose proof (inv_pend_nodup _ _ Hinv) as [Hap Hnd]%NoDup_cons.
  destruct (set_insert_new (expiration_ t, a) (timers_ q)) as (Ht1 & Hts & Htp).
  { apply Hinv. }
  { intros Hin. by eapply Hloose, elem_of_addresses. }
  destruct (set_insert_new (a, sequence_ t) (activeTimers_ q)) as (Ha1 & Has & Hap').
  { apply Hinv. }
  { rewrite (elem_of_active _ _ _ _ Hinv). intros (tm & _ & _ & Hin).
    by eapply Hloose, elem_of_addresses. }
  eexists _, _. split_and!; [|split|exact Htp].
  - unfold insert. mstep. change (id q) with q. rewrite Hsizes. cbv iota.
    rewrite (M_bind_ok _ _ _ _ _ (deref_ok q a t Ht)). mstep. rewrite Ht1. cbv iota.
    rewrite (M_bind_ok _ _ _ _ _ (deref_ok (set_timers _ q) a t Ht)). mstep.
    cbn [id set_timers activeTimers_]. rewrite Ha1. cbv iota. mstep.
    match goal with |- (if ?b then _ else _) = _ => assert (b = true) as -> end.
    { apply bool_decide_eq_true. cbn. rewrite Htp, Hap'. cbn. f_equal.
      by apply bool_decide_eq_true in Hsizes. }
    reflexivity.
  - exact Hts.
  - exact Has.
  - apply Hinv.
  - etrans; [exact Hap'|].
    change ((a, sequence_ t) :: activeTimers_ q ≡ₚ
      key q <$> (set_insert (expiration_ t, a) (timers_ q)).2).
    rewrite Htp, (inv_keys _ _ Hinv). cbn. unfold key at 2. cbn. by rewrite Ht.
  - cbn. intros e. rewrite Htp, elem_of_cons. intros [->|He]; [by eexists|].
    by apply (inv_live _ _ Hinv).
  - cbn. intros a' t' Ht'. rewrite Htp.
    destruct (inv_heap _ _ Hinv a' t' Ht') as [?|[->|?]%elem_of_cons]; [set_solver| |set_solver].
    left. simplify_eq. set_solver.
  - apply Hinv.
  - done.
  - cbn. intros a' Ha'. destruct (inv_pend _ _ Hinv a' ltac:(set_solver)) as [Hs Hn].
    split; [done|]. rewrite Htp. cbn. set_solver.
Qed.

(** Taking one timer out of both sets makes it loose. *)
Lemma inv_unlink pend (q : queue Cb) a t lt la :
  inv pend q → heap q !! a = Some t → (expiration_ t, a) ∈ timers_ q →
  sorted lt → sorted la →
  timers_ q ≡ₚ (expiration_ t, a) :: lt → activeTimers_ q ≡ₚ (a, sequence_ t) :: la →
  inv (a :: pend) (set_active la (set_timers lt q)).
Proof.
  intros Hinv Ht Hin Hlt Hla Hpt Hpa.
  assert (Hgone : a ∉ lt.*2).
  { intros ([t' a'] & Ha & He)%list_elem_of_fmap. cbn in Ha. subst a'.
    assert (t' = expiration_ t) as ->.
    { eapply (inv_unique _ _ _ _ a Hinv); [rewrite Hpt; set_solver|done]. }
    pose proof (sorted_nodup _ (inv_sorted _ _ Hinv)) as Hnd.
    rewrite Hpt in Hnd. by apply NoDup_cons in Hnd as [? _]. }
  split; [exact Hlt|exact Hla|apply Hinv| | | |apply Hinv| |].
  - pose proof (inv_keys _ _ Hinv) as Hk. rewrite Hpa, Hpt in Hk. cbn in *.
    unfold key in Hk at 1. cbn in Hk. rewrite Ht in Hk. cbn in Hk.
    apply Permutation_cons_inv in Hk. exact Hk.
  - cbn. intros e He. apply (inv_live _ _ Hinv). rewrite Hpt. set_solver.
  - cbn. intros a' t' Ht'.
    destruct (inv_heap _ _ Hinv a' t' Ht') as [He|?]; [|set_solver].
    rewrite Hpt in He. apply elem_of_cons in He as [?|?]; [simplify_eq|]; set_solver.
  - apply NoDup_cons. split; [|apply Hinv]. intros Hp.
    apply (inv_pend _ _ Hinv) in Hp as [_ Hn]. by eapply Hn, elem_of_addresses.
  - cbn. intros a' [->|Ha']%elem_of_cons; [by split; [eexists|]|].
    destruct (inv_pend _ _ Hinv a' Ha') as [Hs Hn]. split; [done|].
    intros Hx. apply Hn. rewrite Hpt. cbn. set_solver.
Qed.

(** Deleting a loose timer. *)
Lemma inv_delete pend (q : queue Cb) a :
  inv (a :: pend) q → inv pend (set_heap (delete a (heap q)) q).
Proof.
  intros Hinv. destruct (inv_pend _ _ Hinv a ltac:(set_solver)) as [_ Hloose].
  pose proof (inv_pend_nodup _ _ Hinv) as [Hap Hnd]%NoDup_cons.
  assert (Hne : ∀ e, e ∈ timers_ q → e.2 ≠ a).
  { intros e He Hea. apply Hloose. rewrite <- Hea. by apply elem_of_address. }
  split; cbn; try apply Hinv; try done.
  - rewrite (inv_keys _ _ Hinv). apply eq_subrelation; [apply _|]. apply key_ext. cbn.
    intros e He. by rewrite lookup_delete_ne by (symmetry; auto).
  - intros e He. rewrite lookup_delete_ne by (symmetry; auto). by apply (inv_live _ _ Hinv).
  - intros a' t' [Hn Ht']%lookup_delete_Some.
    destruct (inv_heap _ _ Hinv a' t' Ht') as [?|?]; [by left|right; set_solver].
  - intros a' t' [_ Ht']%lookup_delete_Some. by apply (inv_timer _ _ Hinv).
  - intros a' Ha'. assert (a ≠ a') by (intros ->; done). rewrite lookup_delete_ne by done.
    apply (inv_pend _ _ Hinv). set_solver.
Qed.

(** Giving a loose timer another value under the same sequence number, or a
    fresh address a first one. *)
Lemma inv_store pend (q : queue Cb) a t :
  inv pend q → (a ∈ pend ∨ heap q !! a = None) →
  0 < a < UINTPTR_MAX → repeat_ t = double_gt0 (interval_ t) →
  let pend' := if decide (a ∈ pend) then pend else a :: pend in
  inv pend' (set_heap (<[a := t]> (heap q)) q).
Proof.
  intros Hinv Ha Haddr Hrep pend'.
  assert (Hne : ∀ e, e ∈ timers_ q → e.2 ≠ a).
  { intros e He Hea. destruct Ha as [Ha|Ha].
    - apply (inv_pend _ _ Hinv) in Ha as [_ Hn]. apply Hn. rewrite <- Hea.
      by apply elem_of_address.
    - destruct (inv_live _ _ Hinv e He) as (? & Hh & _). congruence. }
  assert (Hsub : ∀ x, x ∈ pend → x ∈ pend') by (unfold pend'; case_decide; set_solver).
  assert (Hin : a ∈ pend') by (unfold pend'; case_decide; set_solver).
  split; cbn; try apply Hinv.
  - rewrite (inv_keys _ _ Hinv). apply eq_subrelation; [apply _|]. apply key_ext. cbn.
    intros e He. by rewrite lookup_insert_ne by (symmetry; auto).
  - intros e He. rewrite lookup_insert_ne by (symmetry; auto). by apply (inv_live _ _ Hinv).
  - intros a' t' [[-> ->]|[Hn Ht']]%lookup_insert_Some; [by right|].
    destruct (inv_heap _ _ Hinv a' t' Ht'); auto.
  - intros a' t' [[-> ->]|[_ Ht']]%lookup_insert_Some; [done|]. by apply (inv_timer _ _ Hinv).
  - unfold pend'. case_decide; [apply Hinv|]. apply NoDup_cons. split; [done|apply Hinv].
  - intros a' Ha'. destruct (decide (a = a')) as [<-|Hn].
    + rewrite lookup_insert_eq. split; [by eexists|].
      intros (e & He & Hin')%list_elem_of_fmap. by apply (Hne e).
    + rewrite lookup_insert_ne by done. apply (inv_pend _ _ Hinv).
      unfold pend' in Ha'. case_decide; set_solver.
Qed.
End sets.

(** ** Adding and cancelling *)
Section add_cancel.
Context {Cb : Type} (body : Cb → list entry → action Cb).
Context (clock : nat → Z) (malloc : gmap Z (Timer Cb) → option Z).
Hypothesis malloc_fresh : ∀ h a, malloc h = Some a → h !! a = None ∧ 0 < a < UINTPTR_MAX.
Implicit Types (pend : list Z) (P : Z → Prop).

Lemma wp_deref (Q : Timer Cb → queue Cb → Prop) E q a t :
  heap q !! a = Some t → Q t q → wp (deref a) Q E q.
Proof. intros Ht HQ. unfold wp. by rewrite (deref_ok _ _ _ Ht). Qed.

(** The invariant is about the heap and the three sets only. *)
Lemma inv_ext pend (q q' : queue Cb) :
  inv pend q → heap q' = heap q → timers_ q' = timers_ q →
  activeTimers_ q' = activeTimers_ q → cancelingTimers_ q' = cancelingTimers_ q → inv pend q'.
Proof. intros [] E1 E2 E3 E4. split; unfold key; rewrite ?E1, ?E2, ?E3, ?E4; done. Qed.

Lemma resetTimerfd_wp (x : Z) (q : queue Cb) :
  wp (resetTimerfd clock x)
    (λ _ q', ∃ v n, q' = set_timerfd (Some (mk_armed x v.1 v.2)) (set_ticks n q))
    resource_fault q.
Proof.
  unfold resetTimerfd, howMuchTimeFromNow, now, wp. mstep. unfold checked_i64.
  destruct (in_i64 _); [|by right; right]. mstep. eexists (_, _), _. reflexivity.
Qed.

(** Where the kernel timer must be set after a timer has been linked. *)
Lemma armed_insert P (q q' : queue Cb) t a :
  sorted (timers_ q) → armed_for P q → timers_ q' ≡ₚ (t, a) :: timers_ q →
  (if match timers_ q with [] => true | it :: _ => t <? it.1 end
   then ∃ arm, timerfd_ q' = Some arm ∧ for_expiration arm = t
   else timerfd_ q' = timerfd_ q) →
  down_closed P → armed_for P q'.
Proof.
  intros Hs Harm Hp Hfd Hdown e. rewrite Hp, elem_of_cons.
  destruct (timers_ q) as [|it l] eqn:Hl.
  { destruct Hfd as (arm & Hfd & He). intros [->|?] _; [|set_solver].
    exists arm. split; [done|]. cbn. lia. }
  apply sorted_cons_inv in Hs as [_ Hs].
  assert (Hle : ∀ e, e ∈ it :: l → it.1 ≤ e.1).
  { intros e' [->|He']%elem_of_cons; [lia|]. specialize (Hs _ He'). unfold pair_lt in Hs. lia. }
  destruct (Z.ltb_spec t it.1) as [Hlt|Hge].
  - destruct Hfd as (arm & Hfd & He). intros Hin _. exists arm. split; [done|].
    destruct Hin as [->|Hin]; cbn; [lia|]. specialize (Hle _ Hin). lia.
  - rewrite Hfd. intros [->|Hin] HP.
    + destruct (Harm it) as (arm & Ha & Hb); [rewrite Hl; set_solver|by eapply Hdown|].
      exists arm. cbn. split; [done|lia].
    + by apply Harm; rewrite ?Hl.
Qed.

(** [new Timer]: a timer at a fresh address that is in neither set. *)
Lemma new_Timer_wp pend cb when interval (q : queue Cb) :
  inv pend q →
  wp (new_Timer malloc cb when interval)
    (λ a q', let t := mk_Timer cb when interval (double_gt0 interval) (s_numCreated_ q) in
       inv (a :: pend) q' ∧ heap q !! a = None ∧ a ∉ pend ∧
       q' = set_created (i32 (s_numCreated_ q + 1)) (set_heap (<[a := t]> (heap q)) q))
    resource_fault q.
Proof.
  intros Hinv. unfold new_Timer, wp. mstep. change (id q) with q.
  destruct (malloc (heap q)) as [a|] eqn:Ha; [|by left].
  destruct (malloc_fresh _ _ Ha) as [Hnone Haddr]. mstep.
  assert (Hpend : a ∉ pend).
  { intros [[? Hs] _]%(inv_pend _ _ Hinv). congruence. }
  split_and!; [|done..].
  pose proof (inv_store pend q a (mk_Timer cb when interval (double_gt0 interval) (s_numCreated_ q))
    Hinv (or_intror Hnone) Haddr eq_refl) as H.
  rewrite decide_False in H by done. by eapply inv_ext.
Qed.

(** [addTimerInLoop] links it, and moves the kernel timer forward if it is the new
    first. *)
Lemma addTimerInLoop_wp pend P a t (q : queue Cb) :
  inv (a :: pend) q → heap q !! a = Some t → armed_for P q → down_closed P →
  wp (addTimerInLoop clock a)
    (λ _ q', inv pend q' ∧ armed_for P q' ∧ heap q' = heap q ∧
       timers_ q' ≡ₚ (expiration_ t, a) :: timers_ q ∧
       callingExpiredTimers_ q' = callingExpiredTimers_ q ∧
       cancelingTimers_ q' = cancelingTimers_ q ∧ ran q' = ran q)
    resource_fault q.
Proof.
  intros Hinv Ht Harm Hdown. destruct (insert_ok a pend q t Hinv Ht) as (lt & la & Hrun & Hinv2 & Hp).
  set (q2 := set_active la (set_timers lt q)) in *. unfold addTimerInLoop.
  apply wp_bind. unfold wp at 1. rewrite Hrun.
  assert (Harm2 : ∀ q3 : queue Cb, timers_ q3 = timers_ q2 →
    (if match timers_ q with [] => true | it :: _ => expiration_ t <? it.1 end
     then ∃ arm, timerfd_ q3 = Some arm ∧ for_expiration arm = expiration_ t
     else timerfd_ q3 = timerfd_ q) → armed_for P q3).
  { intros q3 E Hfd. eapply (armed_insert P q q3); [apply Hinv|exact Harm| |exact Hfd|exact Hdown]. by rewrite E. }
  destruct (match timers_ q with [] => _ | _ => _ end) eqn:Hfirst.
  - apply wp_bind. apply (wp_deref _ _ _ _ t); [done|].
    eapply wp_mono; [apply resetTimerfd_wp|]. intros [] q3 (v & n & ->).
    split_and!; try done; [by eapply inv_ext|]. apply Harm2; [done|]. by eexists.
  - apply wp_ret. split_and!; try done. by apply Harm2.
Qed.

(** [addTimer]: a timer at a fresh address, linked in both sets. *)
Lemma addTimer_wp pend P cb when interval (q : queue Cb) :
  inv pend q → armed_for P q → down_closed P →
  wp (addTimer clock malloc cb when interval)
    (λ id q', inv pend q' ∧ armed_for P q' ∧ stable pend q q' ∧
       heap q !! timer_ id = None ∧
       heap q' = <[timer_ id := mk_Timer cb when interval (double_gt0 interval)
                                  (id_sequence_ id)]> (heap q) ∧
       timers_ q' ≡ₚ (when, timer_ id) :: timers_ q ∧
       cancelingTimers_ q' = cancelingTimers_ q)
    resource_fault q.
Proof.
  intros Hinv Harm Hdown. unfold addTimer. apply wp_bind.
  eapply wp_mono; [by apply (new_Timer_wp pend)|]. intros a q1 (Hinv1 & Hnone & Hpend & Hq1).
  set (t := mk_Timer _ _ _ _ _) in Hq1. assert (Ht : heap q1 !! a = Some t) by (subst q1; apply lookup_insert_eq).
  apply wp_bind. eapply wp_mono; [apply (addTimerInLoop_wp pend P a t); [done..|by subst q1|done]|].
  intros [] q2 (Hinv2 & Harm2 & Hh & Hp & Hcall & Hcan & Hran).
  apply wp_bind. apply (wp_deref _ _ _ _ t); [by rewrite Hh|]. apply wp_ret. subst q1. cbn in *.
  split_and!; try done. split; [|done..| |by rewrite Hcan].
  - intros a' Ha'. rewrite Hh. apply lookup_insert_ne. by intros <-.
  - done.
Qed.

End add_cancel.

Section cancelling.
Context {Cb : Type}.
Implicit Types (pend : list Z) (P : Z → Prop).

(** What [cancel] does: an active timer is unlinked and freed; another one is
    only recorded, and that while expired timers are being called. *)
Definition cancelled (id : TimerId) (q q' : queue Cb) : Prop :=
  if decide ((timer_ id, id_sequence_ id) ∈ activeTimers_ q) then
    ∃ t lt la, heap q !! timer_ id = Some t ∧ sequence_ t = id_sequence_ id ∧
      timers_ q ≡ₚ (expiration_ t, timer_ id) :: lt ∧
      q' = set_active la (set_heap (delete (timer_ id) (heap q)) (set_timers lt q))
  else if callingExpiredTimers_ q then
    q' = set_canceling (set_insert (timer_ id, id_sequence_ id) (cancelingTimers_ q)).2 q
  else q' = q.

Lemma cancel_ok pend (q : queue Cb) (i : TimerId) :
  inv pend q → ∃ q', cancel i q = Ok (tt, q') ∧ inv pend q' ∧ cancelled i q q'.
Proof.
  intros Hinv. unfold cancel, cancelInLoop, cancelled. mstep. change (id q) with q.
  rewrite (inv_sizes _ _ Hinv). mstep. unfold set_find. case_bool_decide as Hact.
  - pose proof Hact as (t & Ht & Hseq & Hin)%(elem_of_active _ _ _ _ Hinv).
    destruct (set_erase_in (expiration_ t, timer_ i) (timers_ q)) as (Ht1 & Hts & Htp);
      [apply Hinv|done|].
    destruct (set_erase_in (timer_ i, id_sequence_ i) (activeTimers_ q)) as (_ & Has & Hap);
      [apply Hinv|done|].
    pose proof (inv_unlink pend q (timer_ i) t _ _ Hinv Ht Hin Hts Has Htp
      ltac:(by rewrite Hseq)) as Hinv'%inv_delete. cbn [heap set_active set_timers] in Hinv'.
    mstep. rewrite (M_bind_ok _ _ _ _ _ (deref_ok q _ t Ht)). mstep.
    rewrite Ht1, bool_decide_true by done. mstep. unfold delete_Timer. mstep.
    rewrite (M_bind_ok _ _ _ _ _ (deref_ok (set_timers _ q) _ t Ht)). mstep.
    match goal with |- context [sizes_agree ?s] => set (q' := s) end.
    assert (Hq' : inv pend q') by (eapply inv_ext; [exact Hinv'|done..]).
    rewrite (inv_sizes _ _ Hq'). exists q'. split_and!; [done..|].
    rewrite decide_True by done. by eexists t, _, _.
  - destruct (callingExpiredTimers_ q) eqn:Hc; mstep.
    + match goal with |- context [sizes_agree ?s] => set (q' := s) end.
      assert (Hq' : inv pend q').
      { destruct Hinv. split; try done. by apply set_insert_sorted. }
      rewrite (inv_sizes _ _ Hq'). exists q'. by rewrite decide_False.
    + change (id q) with q. rewrite (inv_sizes _ _ Hinv). exists q. by rewrite decide_False.
Qed.

Lemma cancelled_stable pend i q q' : inv pend q → cancelled i q q' → stable pend q q'.
Proof.
  intros Hinv. unfold cancelled. case_decide as Hact.
  - intros (t & lt & la & Ht & Hseq & Htp & ->). split; try done. intros a Ha.
    cbn. apply lookup_delete_ne. intros <-. apply (inv_pend _ _ Hinv) in Ha as [_ Hn].
    apply Hn. rewrite Htp. cbn. set_solver.
  - destruct (callingExpiredTimers_ q) eqn:Hc; intros ->; [|apply stable_refl].
    split; try done. cbn. intros x Hx. apply elem_of_set_insert; [apply Hinv|by right].
Qed.

Lemma cancelled_armed P i q q' : cancelled i q q' → armed_for P q → armed_for P q'.
Proof.
  unfold cancelled. case_decide as Hact.
  - intros (t & lt & la & Ht & Hseq & Htp & ->) Harm e He. cbn in He. apply Harm.
    rewrite Htp. set_solver.
  - destruct (callingExpiredTimers_ q); by intros ->.
Qed.
End cancelling.

(** ** Expiry *)
Section expiry.
Context {Cb : Type} (body : Cb → list entry → action Cb).
Context (clock : nat → Z) (malloc : gmap Z (Timer Cb) → option Z).
Hypothesis malloc_fresh : ∀ h a, malloc h = Some a → h !! a = None ∧ 0 < a < UINTPTR_MAX.
Implicit Types (pend : list Z) (P : Z → Prop).

(** A callback's calls keep the invariant and leave the expired timers alone. *)
Lemma run_action_wp pend P (act : action Cb) (q : queue Cb) :
  inv pend q → armed_for P q → down_closed P →
  wp (run_action clock malloc act)
    (λ _ q', inv pend q' ∧ armed_for P q' ∧ stable pend q q') resource_fault q.
Proof.
  intros Hinv Harm Hdown. revert q Hinv Harm.
  induction act as [|cb when interval k IH|i k IH|k IH]; intros q Hinv Harm; cbn [run_action].
  - apply wp_ret. split_and!; [done..|apply stable_refl].
  - apply wp_bind. eapply wp_mono; [by apply (addTimer_wp clock malloc malloc_fresh pend P)|].
    intros i q' (Hinv' & Harm' & Hst & _).
    eapply wp_mono; [by apply IH|]. intros [] q'' (? & ? & ?).
    split_and!; [done..|by eapply stable_trans].
  - destruct (cancel_ok pend q i Hinv) as (q' & Hrun & Hinv' & Hc).
    apply wp_bind. unfold wp at 1. rewrite Hrun.
    eapply wp_mono; [apply IH; [done|by eapply cancelled_armed]|].
    intros [] q'' (? & ? & ?). split_and!; [done..|].
    eapply stable_trans; [by eapply cancelled_stable|done].
  - unfold now. unfold wp. mstep. change (id q) with q.
    assert (Hinv' : inv pend (set_ticks (S (ticks q)) q)) by by eapply inv_ext.
    specialize (IH (clock (ticks q)) _ Hinv' Harm). revert IH. unfold wp.
    destruct (run_action _ _ _ _) as [[[] q'']|]; [|done]. intros (? & ? & []). done.
Qed.

(** The loop that empties [activeTimers_] of the expired timers. *)
Lemma erase_loop_ok (l late : list entry) (q : queue Cb) :
  (∀ e, e ∈ l → is_Some (heap q !! e.2)) → sorted (activeTimers_ q) →
  activeTimers_ q ≡ₚ key q <$> l ++ late →
  ∃ la, for_each erase_active l q = Ok (tt, set_active la q) ∧ sorted la ∧
    la ≡ₚ key q <$> late.
Proof.
  revert q. induction l as [|e l IH]; intros q Hl Hs Hp.
  { exists (activeTimers_ q). by destruct q. }
  destruct (Hl e ltac:(set_solver)) as [t Ht].
  assert (Hk : key q e = (e.2, sequence_ t)) by (unfold key; by rewrite Ht).
  destruct (set_erase_in (e.2, sequence_ t) (activeTimers_ q)) as (Hn & Hs' & Hp').
  { done. }
  { rewrite Hp. cbn. rewrite Hk. set_solver. }
  destruct (IH (set_active (set_erase (e.2, sequence_ t) (activeTimers_ q)).2 q))
    as (la & Hrun & Hla & Hpla).
  { set_solver. }
  { done. }
  { rewrite Hp in Hp' at 1. cbn in Hp'. rewrite Hk in Hp'.
    apply Permutation_cons_inv in Hp'. symmetry. exact Hp'. }
  exists la. split_and!; [|done|exact Hpla]. cbn [for_each].
  rewrite (M_bind_ok _ _ q tt (set_active (set_erase (e.2, sequence_ t) (activeTimers_ q)).2 q));
    [exact Hrun|].
  unfold erase_active.
  rewrite (M_bind_ok _ _ _ _ _ (deref_ok q _ t Ht)). mstep. change (id q) with q.
  by rewrite Hn, bool_decide_true.
Qed.

(** [getExpired]: exactly the timers that are due, in order, and they are loose
    afterwards; none of its assertions fails. *)
(** Splitting the sorted set parts the addresses too. *)
Lemma split_disjoint pend (q : queue Cb) expired late :
  inv pend q → timers_ q = expired ++ late →
  NoDup expired.*2 ∧ ∀ a, a ∈ expired.*2 → a ∉ late.*2.
Proof.
  intros Hinv Hsplit.
  pose proof (sorted_nodup _ (inv_sorted _ _ Hinv)) as Hnd. rewrite Hsplit in Hnd.
  assert (Huniq : ∀ a t1 t2, (t1, a) ∈ expired ++ late → (t2, a) ∈ expired ++ late → t1 = t2).
  { rewrite <- Hsplit. intros a t1 t2. by eapply inv_unique. }
  apply NoDup_app in Hnd as (Hnd & Hdis & _). split.
  - apply NoDup_fmap_2_strong; [|done].
    intros [t1 a1] [t2 a2] H1 H2 Ha. cbn in Ha. subst a2. f_equal. apply (Huniq a1); set_solver.
  - intros a ([t1 a1] & -> & He1)%list_elem_of_fmap ([t2 a2] & Ha & He2)%list_elem_of_fmap.
    cbn in Ha. subst a2. pose proof (Huniq a1 t1 t2 ltac:(set_solver) ltac:(set_solver)) as <-.
    by apply (Hdis (t1, a1)).
Qed.

(** Taking the expired timers out of both sets leaves them to the code at hand. *)
Lemma inv_expired pend (q : queue Cb) expired late la :
  inv pend q → timers_ q = expired ++ late →
  sorted la → la ≡ₚ key q <$> late →
  inv (expired.*2 ++ pend) (set_active la (set_timers late q)).
Proof.
  intros Hinv Hsplit Hla Hpla. destruct (split_disjoint pend q expired late Hinv Hsplit) as [Hnd Hdisj].
  pose proof (inv_sorted _ _ Hinv) as Hsorted. rewrite Hsplit in Hsorted.
  apply sorted_app_inv in Hsorted as [_ Hsl].
  split; cbn; try apply Hinv; try done.
  - intros e He. apply (inv_live _ _ Hinv). rewrite Hsplit. set_solver.
  - intros a t Ht. destruct (inv_heap _ _ Hinv a t Ht) as [He|?]; [|set_solver].
    rewrite Hsplit in He. apply elem_of_app in He as [He|He]; [right|by left].
    apply elem_of_app. left. by eapply elem_of_addresses.
  - apply NoDup_app. split_and!; [done| |apply Hinv]. intros a Ha [_ Hn]%(inv_pend _ _ Hinv).
    apply Hn. rewrite Hsplit, fmap_app. set_solver.
  - intros a [Ha|Ha]%elem_of_app.
    + split; [|by apply Hdisj]. apply list_elem_of_fmap in Ha as (e & -> & He).
      destruct (inv_live _ _ Hinv e) as (t & -> & _); [rewrite Hsplit; set_solver|by eexists].
    + destruct (inv_pend _ _ Hinv a Ha) as [Hs Hn]. split; [done|]. intros Hin. apply Hn.
      rewrite Hsplit, fmap_app. set_solver.
Qed.

Lemma getExpired_ok pend (now : Z) (q : queue Cb) :
  inv pend q → ∃ expired late la,
    getExpired now q = Ok (expired, set_active la (set_timers late q)) ∧
    timers_ q = expired ++ late ∧
    (∀ e, e ∈ expired → e.1 ≤ now) ∧ (∀ e, e ∈ late → now < e.1) ∧
    inv (expired.*2 ++ pend) (set_active la (set_timers late q)).
Proof.
  intros Hinv. destruct (set_lower_bound_split (now, UINTPTR_MAX) (timers_ q))
    as (Hsplit & Hlt & Hge). specialize (Hge (inv_sorted _ _ Hinv)).
  destruct (set_lower_bound (now, UINTPTR_MAX) (timers_ q)) as [expired late] eqn:Hlb.
  cbn [fst snd] in *.
  destruct (erase_loop_ok expired late (set_timers late q)) as (la & Hrun & Hla & Hpla).
  { intros e He. destruct (inv_live _ _ Hinv e) as (t & Ht & _); [rewrite Hsplit; set_solver|].
    by eexists. }
  { apply Hinv. }
  { etrans; [apply (inv_keys _ _ Hinv)|]. by rewrite Hsplit. }
  assert (Hlate : ∀ e, e ∈ late → now < e.1).
  { intros e He. destruct (inv_live _ _ Hinv e) as (t & Ht & _); [rewrite Hsplit; set_solver|].
    apply (inv_timer _ _ Hinv) in Ht as [Ha _]. specialize (Hge e He).
    unfold pair_lt in Hge. cbn in Hge. lia. }
  assert (Hinv' : inv (expired.*2 ++ pend) (set_active la (set_timers late q))) by (by apply inv_expired).
  exists expired, late, la. split_and!; [|done| |done|done].
  - unfold getExpired. mstep. change (id q) with q. rewrite (inv_sizes _ _ Hinv). mstep.
    rewrite Hlb. cbn [fst snd].
    assert (match late with [] => true | e :: _ => timestamp_lt now e.1 end = true) as ->.
    { destruct late; [done|]. apply Z.ltb_lt, Hlate. set_solver. }
    mstep. rewrite (M_bind_ok _ _ _ _ _ Hrun). mstep.
    change (id (set_active la (set_timers late q))) with (set_active la (set_timers late q)).
    by rewrite (inv_sizes _ _ Hinv').
  - intros e He. specialize (Hlt e He). unfold pair_lt in Hlt. cbn in Hlt. lia.
Qed.

(** The loop that runs the callbacks: each expired timer once, in order. *)
Lemma run_loop_wp pend P (l : list entry) (q : queue Cb) :
  inv pend q → armed_for P q → down_closed P → (∀ e, e ∈ l → e.2 ∈ pend) →
  wp (for_each (λ it, run body clock malloc it.2) l)
    (λ _ q', inv pend q' ∧ armed_for P q' ∧ (∀ a, a ∈ pend → heap q' !! a = heap q !! a) ∧
       callingExpiredTimers_ q' = callingExpiredTimers_ q ∧
       ran q' = ran q ++ (key q <$> l))
    resource_fault q.
Proof.
  intros Hinv Harm Hdown. revert q Hinv Harm.
  induction l as [|e l IH]; intros q Hinv Harm Hl; cbn [for_each].
  { apply wp_ret. split_and!; try done. by rewrite app_nil_r. }
  destruct (inv_pend _ _ Hinv e.2) as [[t Ht] _]; [set_solver|].
  apply wp_bind. unfold run at 1. apply wp_bind. apply (wp_deref _ _ _ _ t); [done|].
  unfold wp at 1. mstep. change (id q) with q.
  set (q1 := set_ran _ q).
  assert (Hinv1 : inv pend q1) by by eapply inv_ext.
  pose proof (run_action_wp pend P (body (callback_ t) (ran q)) q1 Hinv1 Harm Hdown) as Hrun.
  revert Hrun. unfold wp at 1.
  destruct (run_action _ _ _ q1) as [[[] q2]|]; [|done]. intros (Hinv2 & Harm2 & Hst).
  eapply wp_mono; [apply IH; [done..|set_solver]|].
  intros [] q3 (Hinv3 & Harm3 & Hheap & Hcall & Hran). destruct Hst as [Sh Sr Sc _].
  split_and!; [done..| | |].
  - intros a Ha. by rewrite Hheap, Sh.
  - by rewrite Hcall, Sc.
  - rewrite Hran, Sr. cbn. rewrite <- app_assoc. cbn. unfold key at 2. rewrite Ht. cbn.
    do 2 f_equal. apply key_ext. intros e' He'. rewrite Sh; [done|]. apply Hl. set_solver.
Qed.

(** What [reset] does with one expired timer [t] at [a]: a repeating one that no
    callback cancelled goes back in, [interval_] after [now]; any other is freed. *)
Definition rearmed (now : Z) (a : Z) (t : Timer Cb) (q' : queue Cb) : Prop :=
  if repeat_ t && negb (set_find (a, sequence_ t) (cancelingTimers_ q')) then
    ∃ e, addTime now (interval_ t) = Ok e ∧ (e, a) ∈ timers_ q' ∧
      heap q' !! a = Some (mk_Timer (callback_ t) e (interval_ t) (repeat_ t) (sequence_ t))
  else heap q' !! a = None.

Lemma reset_one_wp (now : Z) (e : entry) pend t (q : queue Cb) :
  inv (e.2 :: pend) q → heap q !! e.2 = Some t →
  wp (reset_one now e)
    (λ _ q', inv pend q' ∧ rearmed now e.2 t q' ∧ timerfd_ q' = timerfd_ q ∧
       (∀ e', e' ∈ timers_ q → e' ∈ timers_ q') ∧
       (∀ e', e' ∈ timers_ q' → e' ∈ timers_ q ∨ now ≤ e'.1) ∧
       (∀ a, a ≠ e.2 → heap q' !! a = heap q !! a) ∧
       cancelingTimers_ q' = cancelingTimers_ q ∧ ran q' = ran q ∧
       callingExpiredTimers_ q' = callingExpiredTimers_ q)
    resource_fault q.
Proof.
  intros Hinv Ht. destruct (inv_timer _ _ Hinv _ _ Ht) as [Haddr Hrep].
  unfold reset_one. apply wp_bind. apply (wp_deref _ _ _ _ t); [done|].
  apply wp_bind, wp_gets. change (id q) with q. unfold rearmed.
  destruct (repeat_ t && negb _) eqn:Hgo.
  - pose proof Hgo as [Hr _]%andb_prop. unfold restart. apply wp_bind. apply wp_bind.
    apply (wp_deref _ _ _ _ t); [done|]. rewrite Hr. apply wp_bind. unfold wp at 1, lift.
    destruct (addTime now (interval_ t)) as [x|err] eqn:Hx;
      [|right; by apply addTime_faults in Hx].
    apply wp_modify. apply wp_bind.
    destruct (addTime_forward now (interval_ t) x) as [Hle _]; [by rewrite <- Hrep|done|].
    set (t' := mk_Timer _ x _ _ _). set (q1 := set_heap _ _).
    assert (Hinv1 : inv (e.2 :: pend) q1).
    { pose proof (inv_store (e.2 :: pend) q e.2 t' Hinv ltac:(set_solver) Haddr
        ltac:(by cbn; rewrite <- Hrep)) as H.
      by rewrite decide_True in H by set_solver. }
    destruct (insert_ok e.2 pend q1 t' Hinv1) as (lt & la & Hrun & Hinv2 & Hp);
      [apply lookup_insert_eq|].
    unfold wp at 1. rewrite Hrun. apply wp_ret. rewrite Hr in Hgo. cbn -[set_find] in *. rewrite Hgo.
    split_and!; try done.
    + exists x. split_and!; [done|rewrite Hp; set_solver|].
      by rewrite lookup_insert_eq.
    + intros e' He'. rewrite Hp. set_solver.
    + intros e'. rewrite Hp, elem_of_cons. intros [->|?]; [by right|by left].
    + intros a Ha. by apply lookup_insert_ne.
  - unfold delete_Timer. apply wp_bind. apply (wp_deref _ _ _ _ t); [done|].
    apply wp_modify. cbn -[set_find]. rewrite Hgo. split_and!; try done.
    + by apply inv_delete.
    + apply lookup_delete_eq.
    + intros e' ?. by left.
    + intros a Ha. by apply lookup_delete_ne.
Qed.

(** The loop of [reset] over the expired timers. *)
Lemma reset_loop_wp pend (now : Z) (l : list entry) (q : queue Cb) :
  inv (l.*2 ++ pend) q →
  wp (for_each (reset_one now) l)
    (λ _ q', inv pend q' ∧ timerfd_ q' = timerfd_ q ∧
       (∀ a t, a ∈ l.*2 → heap q !! a = Some t → rearmed now a t q') ∧
       (∀ e', e' ∈ timers_ q → e' ∈ timers_ q') ∧
       (∀ e', e' ∈ timers_ q' → e' ∈ timers_ q ∨ now ≤ e'.1) ∧
       (∀ a, a ∉ l.*2 → heap q' !! a = heap q !! a) ∧
       cancelingTimers_ q' = cancelingTimers_ q ∧ ran q' = ran q ∧
       callingExpiredTimers_ q' = callingExpiredTimers_ q)
    resource_fault q.
Proof.
  revert q. induction l as [|e l IH]; intros q Hinv; cbn [for_each].
  { apply wp_ret. cbn in *. split_and!; try done; set_solver. }
  destruct (inv_pend _ _ Hinv e.2) as [[t Ht] _]; [set_solver|].
  pose proof (inv_pend_nodup _ _ Hinv) as [Hnin _]%NoDup_cons.
  assert (Hnl : e.2 ∉ l.*2) by set_solver.
  apply wp_bind. eapply wp_mono; [by apply (reset_one_wp now e (l.*2 ++ pend) t)|].
  intros [] q1 (Hinv1 & Hre & Hfd1 & Hin1 & Hback1 & Hh1 & Hc1 & Hr1 & Hcall1).
  eapply wp_mono; [by apply IH|].
  intros [] q2 (Hinv2 & Hfd2 & Hre2 & Hin2 & Hback2 & Hh2 & Hc2 & Hr2 & Hcall2).
  split_and!; try congruence; try done.
  - intros a t0 [->|Ha]%elem_of_cons Ht0.
    + assert (t0 = t) as -> by congruence. unfold rearmed in *. rewrite Hc2, (Hh2 e.2 Hnl).
      destruct (repeat_ t && _); [|done]. destruct Hre as (x & ? & ? & ?). exists x. auto.
    + apply Hre2; [done|]. rewrite Hh1; [done|]. intros ->. done.
  - auto.
  - intros e' [He'|?]%Hback2; [|by right]. by apply Hback1.
  - intros a Ha. cbn in Ha. rewrite Hh2, Hh1; [done| |]; set_solver.
Qed.

(** [reset]: the loop, then the kernel timer is set for the first timer. *)
Lemma reset_wp pend (now : Z) (l : list entry) (q : queue Cb) :
  inv (l.*2 ++ pend) q → 0 < now → armed_for (λ t, t ≤ 0) q →
  wp (reset clock l now)
    (λ _ q', inv pend q' ∧ armed_for (λ _, True) q' ∧
       (∀ a t, a ∈ l.*2 → heap q !! a = Some t → rearmed now a t q') ∧
       (∀ a, a ∉ l.*2 → heap q' !! a = heap q !! a) ∧
       cancelingTimers_ q' = cancelingTimers_ q ∧ ran q' = ran q ∧
       callingExpiredTimers_ q' = callingExpiredTimers_ q)
    resource_fault q.
Proof.
  intros Hinv Hnow Harm. unfold reset. apply wp_bind.
  eapply wp_mono; [by apply (reset_loop_wp pend)|].
  intros [] q1 (Hinv1 & Hfd & Hre & Hin & Hback & Hh & Hc & Hr & Hcall).
  apply wp_bind, wp_gets. change (id q1) with q1.
  pose proof (inv_sorted _ _ Hinv1) as Hs. destruct (timers_ q1) as [|it rest] eqn:Hl.
  { apply wp_bind, wp_ret. split_and!; try done.
    intros e. by rewrite Hl, elem_of_nil. }
  destruct (inv_live _ _ Hinv1 it) as (t & Ht & Hx); [rewrite Hl; set_solver|].
  assert (Hfirst : ∀ e, e ∈ timers_ q1 → it.1 ≤ e.1).
  { rewrite Hl. apply sorted_cons_inv in Hs as [_ Hs].
    intros e [->|He]%elem_of_cons; [lia|]. specialize (Hs _ He). unfold pair_lt in Hs. lia. }
  do 2 apply wp_bind. apply (wp_deref _ _ _ _ t); [done|]. apply wp_ret.
  rewrite Hx. unfold valid. destruct (Z.ltb_spec 0 it.1) as [Hpos|Hneg].
  - eapply wp_mono; [apply resetTimerfd_wp|]. intros [] q2 (v & n & ->).
    split_and!; try done; [by eapply inv_ext|].
    intros e He _. eexists. split; [done|]. cbn. by apply Hfirst.
  - apply wp_ret. split_and!; try done. intros e He _.
    destruct (Harm it) as (arm & Ha & Hle); [|done|].
    { destruct (Hback it) as [?|?]; [set_solver|done|lia]. }
    exists arm. split; [congruence|]. specialize (Hfirst e He). lia.
Qed.

(** One expiry of the queue, whatever the callbacks do. *)
Lemma handleRead_wp pend (fired : bool) (q : queue Cb) :
  (∀ n, 0 < clock n) → inv pend q →
  let now := clock (ticks q) in
  let due := filter (λ e, e.1 ≤ now) (timers_ q) in
  wp (handleRead body clock malloc fired)
    (λ _ q', inv pend q' ∧ armed_for (λ _, True) q' ∧ callingExpiredTimers_ q' = false ∧
       ran q' = ran q ++ (key q <$> due) ∧
       (∀ a t, a ∈ due.*2 → heap q !! a = Some t → rearmed now a t q'))
    resource_fault q.
Proof.
  intros Hclock Hinv now due. unfold handleRead. apply wp_bind.
  unfold TimerQueue.now, wp at 1. mstep. change (clock (ticks (id q))) with now.
  set (q1 := if fired then set_timerfd None (set_ticks (S (ticks q)) q)
             else set_ticks (S (ticks q)) q).
  apply wp_bind. assert (readTimerfd fired (set_ticks (S (ticks q)) q) = Ok (tt, q1)) as Hread.
  { by destruct fired. }
  unfold wp at 1. change (ticks (id q)) with (ticks q). change (id q) with q. rewrite Hread.
  assert (Hq1 : inv pend q1) by (eapply inv_ext; [exact Hinv|by destruct fired..]).
  destruct (getExpired_ok pend now q1 Hq1) as (expired & late & la & Hrun & Hsplit & Hle & Hlt & Hinv2).
  assert (Hdue : due = expired).
  { unfold due. assert (timers_ q = expired ++ late) as ->.
    { rewrite <- Hsplit. by destruct fired. }
    apply filter_prefix; [done|]. intros e He. specialize (Hlt e He). lia. }
  apply wp_bind. unfold wp at 1. rewrite Hrun.
  apply wp_bind, wp_modify. apply wp_bind, wp_modify.
  set (q3 := set_canceling [] _).
  assert (Hinv3 : inv (expired.*2 ++ pend) q3).
  { destruct Hinv2. split; try done. constructor. }
  assert (Hheap3 : heap q3 = heap q) by by destruct fired.
  assert (Harm3 : armed_for (λ t, t ≤ 0) q3).
  { intros e He Hneg. specialize (Hlt e He). specialize (Hclock (ticks q)). lia. }
  apply wp_bind. eapply wp_mono.
  { apply (run_loop_wp (expired.*2 ++ pend) (λ t, t ≤ 0)); [done|done|intros t t'; lia|].
    intros e He. apply elem_of_app. left. by apply elem_of_address. }
  intros [] q4 (Hinv4 & Harm4 & Hh4 & Hcall4 & Hran4).
  apply wp_bind, wp_modify. eapply wp_mono.
  { apply (reset_wp pend now expired (set_calling false q4)); [by eapply inv_ext|apply Hclock|exact Harm4]. }
  intros [] q5 (Hinv5 & Harm5 & Hre & _ & _ & Hran5 & Hcall5).
  split_and!; [done..| |].
  - rewrite Hran5. cbn. rewrite Hran4, Hdue.
    assert (ran q3 = ran q) as -> by by destruct fired.
    f_equal. apply key_ext. intros e _. by rewrite Hheap3.
  - intros a t Ha Ht. rewrite Hdue in Ha. apply Hre; [done|]. cbn. rewrite Hh4, Hheap3; [done|].
    apply elem_of_app. by left.
Qed.
End expiry.

(** ** A small instance: three addresses, a clock of one second per reading *)
Section sample.
Definition sample_malloc (h : gmap Z (Timer nat)) : option Z :=
  head (filter (λ a, h !! a = None) [4096; 8192; 12288]).

Lemma sample_malloc_fresh (h : gmap Z (Timer nat)) a :
  sample_malloc h = Some a → h !! a = None ∧ 0 < a < UINTPTR_MAX.
Proof.
  unfold sample_malloc. intros Ha. assert (Hin : a ∈ filter (λ a, h !! a = None) [4096; 8192; 12288]).
  { destruct (filter _ _); [done|]. injection Ha as ->. set_solver. }
  apply list_elem_of_filter in Hin as [Hh Hin]. split; [done|].
  unfold UINTPTR_MAX. rewrite !elem_of_cons, elem_of_nil in Hin.
  destruct Hin as [->|[->|[->|[]]]]; by split; vm_compute.
Qed.

Definition sample_clock (n : nat) : Z := 1000000 * (Z.of_nat n + 1).

(** Callback [0] cancels the repeating timer below; the others do nothing. *)
Definition sample_body (cb : nat) (past : list entry) : action nat :=
  match cb with O => Cancel (mk_TimerId 8192 1) Done | _ => Done end.

(** A timer at 0.8 s, and one at 0.9 s that repeats every second. *)
Definition sample_program : M (queue nat) unit :=
  addTimer sample_clock sample_malloc 0%nat 800000 (S754_zero false);;
  addTimer sample_clock sample_malloc 1%nat 900000 (double_of_Z 1);;
  mret tt.

Definition sample_queue : queue nat :=
  match sample_program TimerQueue_new with Ok (_, q) => q | Err _ => TimerQueue_new end.

Lemma sample_ok : inv [] sample_queue ∧ armed_for (λ _, True) sample_queue.
Proof.
  assert (H : wp sample_program (λ _ q, inv [] q ∧ armed_for (λ _, True) q) resource_fault
    TimerQueue_new).
  { unfold sample_program. apply wp_bind. eapply wp_mono.
    { apply (addTimer_wp _ _ sample_malloc_fresh [] (λ _, True)); [apply inv_new| |done].
      intros e. by rewrite elem_of_nil. }
    intros i q (Hinv & Harm & _). apply wp_bind. eapply wp_mono.
    { by apply (addTimer_wp _ _ sample_malloc_fresh [] (λ _, True)). }
    intros i' q' (? & ? & _). by apply wp_ret. }
  unfold sample_queue. unfold wp in H.
  destruct (sample_program TimerQueue_new) as [[[] q]|] eqn:Hrun; [done|].
  by vm_compute in Hrun.
Qed.

Example sample_timers :
  timers_ sample_queue = [(800000, 4096); (900000, 8192)] ∧
  activeTimers_ sample_queue = [(4096, 0); (8192, 1)].
Proof. by vm_compute. Qed.
End sample.

(** ** Properties *)
Section properties.
Context {Cb : Type} (body : Cb → list entry → action Cb).
Context (clock : nat → Z) (malloc : gmap Z (Timer Cb) → option Z).

(** C8. An expiry of the timer queue runs the callbacks of the timers that are
    due, and of no other, each once, by expiration and then by address; this
    whatever the callbacks do to the queue. No assertion fails and no dead timer
    is touched: memory and the range of times are the only way to fail. *)
Theorem handleRead_runs_due (fired : bool) (q : queue Cb) :
  (∀ h a, malloc h = Some a → h !! a = None ∧ 0 < a < UINTPTR_MAX) →
  (∀ n, 0 < clock n) → inv [] q →
  wp (handleRead body clock malloc fired)
    (λ _ q', ran q' =
       ran q ++ (key q <$> filter (λ e, e.1 ≤ clock (ticks q)) (timers_ q)))
    resource_fault q.
Proof.
  intros Hm Hc Hinv. eapply wp_mono; [by apply handleRead_wp|].
  intros [] q' (_ & _ & _ & Hran & _). exact Hran.
Qed.

(** C23. After the callbacks of an expiry have run, each timer that was due is
    back in the queue at [now + interval], under the same sequence number, if it
    repeats and no callback cancelled it, and is freed otherwise. *)
Theorem handleRead_rearms (fired : bool) (q : queue Cb) :
  (∀ h a, malloc h = Some a → h !! a = None ∧ 0 < a < UINTPTR_MAX) →
  (∀ n, 0 < clock n) → inv [] q →
  wp (handleRead body clock malloc fired)
    (λ _ q', ∀ a t, heap q !! a = Some t → expiration_ t ≤ clock (ticks q) →
       rearmed (clock (ticks q)) a t q')
    resource_fault q.
Proof.
  intros Hm Hc Hinv. eapply wp_mono; [by apply handleRead_wp|].
  intros [] q' (_ & _ & _ & _ & Hre) a t Ht Hdue. apply Hre; [|done].
  destruct (inv_heap _ _ Hinv a t Ht) as [Hin|Hin]; [|set_solver].
  apply (elem_of_addresses (expiration_ t)). by apply list_elem_of_filter.
Qed.

(** The operations the loop's thread performs on the queue. *)
Inductive step (q q' : queue Cb) : Prop :=
  | step_add cb when interval i :
      addTimer clock malloc cb when interval q = Ok (i, q') → step q q'
  | step_cancel i : cancel i q = Ok (tt, q') → step q q'
  | step_handleRead fired : handleRead body clock malloc fired q = Ok (tt, q') → step q q'.

(** In every reachable state of the queue the two sets are sorted and hold
    the same timers, those of the heap; no expired timer is being called; and
    the kernel timer is set no later than the first timer, so that none is
    forgotten. *)
Theorem timers_never_forgotten (q : queue Cb) :
  (∀ h a, malloc h = Some a → h !! a = None ∧ 0 < a < UINTPTR_MAX) →
  (∀ n, 0 < clock n) → rtc step TimerQueue_new q →
  inv [] q ∧ callingExpiredTimers_ q = false ∧
  ∀ e, e ∈ timers_ q → ∃ arm, timerfd_ q = Some arm ∧ for_expiration arm ≤ e.1.
Proof.
  intros Hm Hc Hsteps.
  assert (H : inv [] q ∧ callingExpiredTimers_ q = false ∧ armed_for (λ _, True) q).
  { revert q Hsteps. apply rtc_ind_r.
    { split_and!; [apply inv_new|done|]. intros e. by rewrite elem_of_nil. }
    intros q1 q2 _ Hstep IH. destruct IH as (Hinv & Hcall & Harm). destruct Hstep as [cb w i t Hrun|i Hrun|f Hrun].
    - pose proof (addTimer_wp clock malloc Hm [] (λ _, True) cb w i q1 Hinv Harm ltac:(done)) as H.
      eapply wp_ok in H as (? & ? & [] & _); [|exact Hrun].
      split_and!; [done|congruence|done].
    - destruct (cancel_ok [] q1 i Hinv) as (q3 & Hrun' & Hinv' & Hcan).
      assert (q2 = q3) as -> by congruence.
      destruct (cancelled_stable [] i q1 q3 Hinv Hcan).
      split_and!; [done|congruence|by eapply cancelled_armed].
    - pose proof (handleRead_wp body clock malloc Hm [] f q1 Hc Hinv) as H.
      eapply wp_ok in H as (? & ? & ? & _); [|exact Hrun]. done. }
  destruct H as (? & ? & Harm). split_and!; [done..|]. intros e He. by apply Harm.
Qed.

End properties.

Section properties_of_adding.
Context {Cb : Type} (clock : nat → Z) (malloc : gmap Z (Timer Cb) → option Z).

(** [addTimer] answers with a fresh identity and adds exactly that timer;
    cancelling it at once gives back the heap and the two sets as they were. *)
Theorem cancel_undoes_addTimer (cb : Cb) (when : Z) (interval : double) (q : queue Cb) :
  (∀ h a, malloc h = Some a → h !! a = None ∧ 0 < a < UINTPTR_MAX) →
  inv [] q →
  wp (i ← addTimer clock malloc cb when interval;
      q1 ← gets id;
      cancel i;;
      mret (i, q1))
    (λ r q', heap q !! timer_ r.1 = None ∧
       timers_ r.2 ≡ₚ (when, timer_ r.1) :: timers_ q ∧
       (timer_ r.1, id_sequence_ r.1) ∈ activeTimers_ r.2 ∧
       heap q' = heap q ∧ timers_ q' = timers_ q ∧ activeTimers_ q' = activeTimers_ q)
    resource_fault q.
Proof.
  intros Hm Hinv. apply wp_bind. eapply wp_mono.
  { apply (addTimer_wp clock malloc Hm [] (λ _, False)); [done| |]; by intros ??. }
  intros i q1 (Hinv1 & _ & _ & Hnone & Hheap & Hp & _). apply wp_bind, wp_gets.
  change (id q1) with q1. destruct (cancel_ok [] q1 i Hinv1) as (q2 & Hrun & Hinv2 & Hcan).
  set (t := mk_Timer cb when interval _ _) in Hheap.
  assert (Ht : heap q1 !! timer_ i = Some t) by (rewrite Hheap; apply lookup_insert_eq).
  assert (Hact : (timer_ i, id_sequence_ i) ∈ activeTimers_ q1).
  { apply (elem_of_active _ _ _ _ Hinv1). exists t. split_and!; [done..|].
    rewrite Hp. set_solver. }
  unfold cancelled in Hcan. rewrite decide_True in Hcan by done.
  destruct Hcan as (t' & lt & la & Ht' & _ & Hp2 & ->). simplify_eq.
  assert (Heq : heap (set_active la (set_heap (delete (timer_ i) (heap q1)) (set_timers lt q1)))
    = heap q).
  { cbn. rewrite Hheap, delete_insert_eq. by apply delete_id. }
  assert (Hlt : lt = timers_ q).
  { apply sorted_unique; [apply Hinv2|apply Hinv|].
    rewrite Hp in Hp2. by apply Permutation_cons_inv in Hp2. }
  apply wp_bind. unfold wp at 1. rewrite Hrun. apply wp_ret. cbn [fst snd].
  split_and!; [done..|]. cbn. apply sorted_unique; [apply Hinv2|apply Hinv|].
  etrans; [apply (inv_keys _ _ Hinv2)|]. rewrite (inv_keys _ _ Hinv). cbn [timers_ set_active set_heap set_timers].
  rewrite Hlt. apply eq_subrelation; [apply _|]. apply key_ext. intros e _.
  exact (f_equal (lookup e.2) Heq).
Qed.

(** The delay given to [timerfd_settime] is never zero, which would disarm
    the kernel timer, nor negative; its nanoseconds are in range; and it is the
    time left, or 100 microseconds if less is left. *)
Theorem howMuchTimeFromNow_arms (when : Z) (q : queue Cb) :
  wp (howMuchTimeFromNow clock when)
    (λ v _, 0 ≤ v.1 ∧ 0 ≤ v.2 < 1000 * 1000 * 1000 ∧ v ≠ (0, 0) ∧
       v.1 * 1000000000 + v.2 = Z.max 100 (when - clock (ticks q)) * 1000)
    (λ e, e = IntOverflow ∧ in_i64 (when - clock (ticks q)) = false) q.
Proof.
  unfold howMuchTimeFromNow, now, wp. mstep. change (id q) with q. unfold checked_i64.
  destruct (in_i64 _); [|done]. mstep. cbn [fst snd].
  change kMicroSecondsPerSecond with 1000000.
  set (us := when - clock (ticks q)).
  assert ((if us <? 100 then 100 else us) = Z.max 100 us) as -> by (zcase; lia).
  pose proof (Z.quot_rem' (Z.max 100 us) 1000000).
  pose proof (Z.rem_bound_pos (Z.max 100 us) 1000000 ltac:(lia) ltac:(lia)).
  pose proof (Z.quot_pos (Z.max 100 us) 1000000 ltac:(lia) ltac:(lia)).
  split_and!; try lia. intros [= E1 E2]. lia.
Qed.
End properties_of_adding.

Section properties_of_cancelling.
Context {Cb : Type}.

(** [cancel] never fails. It frees the timer its argument names, if that
    timer is active; an identity whose timer is gone changes nothing, even when
    the address belongs to another timer by now; and during the callbacks it is
    recorded, so that the expired timer it names will not be put back. *)
Theorem cancel_effect (i : TimerId) (q : queue Cb) :
  inv [] q → ∃ q', cancel i q = Ok (tt, q') ∧ inv [] q' ∧
    (timer_ i, id_sequence_ i) ∉ activeTimers_ q' ∧
    ((timer_ i, id_sequence_ i) ∈ activeTimers_ q → heap q' = delete (timer_ i) (heap q)) ∧
    ((timer_ i, id_sequence_ i) ∉ activeTimers_ q →
       heap q' = heap q ∧ timers_ q' = timers_ q ∧
       if callingExpiredTimers_ q
       then ∀ x, x ∈ cancelingTimers_ q' ↔
              x = (timer_ i, id_sequence_ i) ∨ x ∈ cancelingTimers_ q
       else q' = q).
Proof.
  intros Hinv. destruct (cancel_ok [] q i Hinv) as (q' & Hrun & Hinv' & Hcan).
  exists q'. do 2 (split; [done|]). unfold cancelled in Hcan. case_decide as Hact.
  - destruct Hcan as (t & lt & la & Ht & Hs & Hp & Hq'). split_and!; [|by subst|by intros Hn; destruct Hn].
    rewrite (elem_of_active _ _ _ _ Hinv'). intros (t' & Ht' & _). subst q'. cbn in Ht'.
    by rewrite lookup_delete_eq in Ht'.
  - destruct (callingExpiredTimers_ q); subst q';
      (split_and!; [exact Hact|intros Hn; by destruct Hact|intros _; split_and!; try done]).
    intros x. apply elem_of_set_insert, Hinv.
Qed.

(** The destructor frees every timer: nothing of the heap is left, and no
    timer is freed twice. *)
Theorem TimerQueue_destroy_frees (q : queue Cb) :
  inv [] q → ∃ q', TimerQueue_destroy q = Ok (tt, q') ∧ heap q' = ∅.
Proof.
  intros Hinv. unfold TimerQueue_destroy. mstep. change (id q) with q.
  assert (Hnd : NoDup (timers_ q).*2).
  { apply NoDup_fmap_2_strong; [|by apply sorted_nodup, Hinv].
    intros [t1 a1] [t2 a2] H1 H2 Ha. cbn in Ha. subst a2. f_equal. by eapply inv_unique. }
  assert (Hall : ∀ a, is_Some (heap q !! a) ↔ a ∈ (timers_ q).*2).
  { intros a. split; [|by apply inv_in_heap with (pend := [])].
    intros [t Ht]. destruct (inv_heap _ _ Hinv a t Ht); [by eapply elem_of_addresses|set_solver]. }
  revert Hnd Hall. generalize (timers_ q) at 1 2 3. intros l. clear Hinv. revert q.
  induction l as [|e l IH]; intros q Hnd Hall; cbn [for_each].
  - exists q. split; [done|]. apply map_empty. intros a. apply eq_None_not_Some.
    rewrite Hall. set_solver.
  - cbn in Hnd. apply NoDup_cons in Hnd as [Hnin Hnd].
    destruct (proj2 (Hall e.2)) as [t Ht]; [set_solver|].
    destruct (IH (set_heap (delete e.2 (heap q)) q)) as (q' & Hrun & Hempty); [done| |].
    { intros a. cbn. destruct (decide (a = e.2)) as [->|Hne].
      - rewrite lookup_delete_eq. split; [by intros []|done].
      - rewrite lookup_delete_ne, Hall by done. set_solver. }
    exists q'. split; [|done].
    rewrite (M_bind_ok _ _ q tt (set_heap (delete e.2 (heap q)) q)); [exact Hrun|].
    unfold delete_Timer. by rewrite (M_bind_ok _ _ _ _ _ (deref_ok q _ t Ht)).
Qed.
End properties_of_cancelling.

(** ** The properties at the small instance *)

Lemma sample_clock_pos n : 0 < sample_clock n.
Proof. unfold sample_clock. lia. Qed.

(** Both timers are due at one second and run in order. *)
Lemma handleRead_runs_due_witness :
  match handleRead sample_body sample_clock sample_malloc true sample_queue with
  | Ok (_, q') => ran q' = [(4096, 0); (8192, 1)]
  | Err e => resource_fault e
  end.
Proof.
  exact (handleRead_runs_due sample_body sample_clock sample_malloc true sample_queue
    sample_malloc_fresh sample_clock_pos (proj1 sample_ok)).
Defined.

(** The first callback cancels the repeating timer, which is then freed. *)
Lemma handleRead_rearms_witness :
  match handleRead sample_body sample_clock sample_malloc true sample_queue with
  | Ok (_, q') => heap q' !! 8192 = None
  | Err e => resource_fault e
  end.
Proof.
  assert (Ht : heap sample_queue !! 8192 =
    Some (mk_Timer 1%nat 900000 (double_of_Z 1) true 1)) by by vm_compute.
  pose proof (handleRead_rearms sample_body sample_clock sample_malloc true sample_queue
    sample_malloc_fresh sample_clock_pos (proj1 sample_ok)) as H.
  unfold wp in H. revert H.
  destruct (handleRead sample_body sample_clock sample_malloc true sample_queue)
    as [[[] q']|] eqn:Hrun; [|done].
  intros H. specialize (H 8192 _ Ht ltac:(by vm_compute)). unfold rearmed in H.
  assert (Hc : cancelingTimers_ q' = [(8192, 1)]).
  { transitivity (match handleRead sample_body sample_clock sample_malloc true sample_queue with
      Ok (_, q) => cancelingTimers_ q | Err _ => [] end); [by rewrite Hrun|by vm_compute]. }
  rewrite Hc in H. exact H.
Defined.

Lemma timers_never_forgotten_witness :
  Forall (λ e, ∃ arm, timerfd_ sample_queue = Some arm ∧ for_expiration arm ≤ e.1)
    (timers_ sample_queue).
Proof.
  apply Forall_forall.
  eapply (timers_never_forgotten sample_body sample_clock sample_malloc);
    [exact sample_malloc_fresh|exact sample_clock_pos|].
  eapply rtc_l.
  { eapply (@step_add nat sample_body sample_clock sample_malloc _ _ 0%nat 800000 (S754_zero false)).
    vm_compute. reflexivity. }
  eapply rtc_l; [|apply rtc_refl].
  eapply (@step_add nat sample_body sample_clock sample_malloc _ _ 1%nat 900000 (double_of_Z 1)).
  vm_compute. reflexivity.
Defined.

Lemma cancel_undoes_addTimer_witness :
  match (i ← addTimer sample_clock sample_malloc 2%nat 5 (double_of_Z 1);
         q1 ← gets id; cancel i;; mret (i, q1)) sample_queue with
  | Ok (r, q') => timer_ r.1 = 12288 ∧ timers_ q' = timers_ sample_queue
  | Err e => resource_fault e
  end.
Proof.
  pose proof (cancel_undoes_addTimer sample_clock sample_malloc 2%nat 5 (double_of_Z 1)
    sample_queue sample_malloc_fresh (proj1 sample_ok)) as H.
  unfold wp in H. revert H.
  match goal with |- match ?m with _ => _ end → _ => destruct m as [[r q']|] eqn:Hrun end; [|done].
  intros (_ & _ & _ & _ & Ht & _). split; [|exact Ht].
  transitivity (match (i ← addTimer sample_clock sample_malloc 2%nat 5 (double_of_Z 1);
         q1 ← gets id; cancel i;; mret (i, q1)) sample_queue with
    | Ok (r, _) => timer_ r.1 | Err _ => 0 end); [by rewrite Hrun|by vm_compute].
Defined.

(** The address is in use, but under another sequence number. *)
Lemma cancel_effect_witness :
  ∃ q', cancel (mk_TimerId 8192 7) sample_queue = Ok (tt, q') ∧ heap q' = heap sample_queue.
Proof.
  destruct (cancel_effect (mk_TimerId 8192 7) sample_queue (proj1 sample_ok))
    as (q' & Hrun & _ & _ & _ & Hstale).
  exists q'. split; [exact Hrun|]. apply Hstale.
  apply (bool_decide_unpack ((8192, 7) ∉ activeTimers_ sample_queue)). by vm_compute.
Defined.

Lemma TimerQueue_destroy_frees_witness :
  ∃ q', TimerQueue_destroy sample_queue = Ok (tt, q') ∧ heap q' = ∅.
Proof. exact (TimerQueue_destroy_frees sample_queue (proj1 sample_ok)). Defined.
