(* ===== verification/RemoteTimers.v ===== *)
(** Timers made and cancelled by any thread (TimerQueue.cpp, [addTimer] and [cancel],
    through [EventLoop::runInLoop]): the thread that calls allocates the timer and
    queues a functor; the loop's thread runs the functors in the order of queueing
    ([EventLoop.functors_fifo_once]) between the expiries. What the loop's thread does
    is one step here, and so is each of the three parts of a call of [addTimer]. *)
From S2P Require Import Prelude Timestamp OrdSet TimerQueue.

(** What is bound for the loop. *)
Inductive task :=
  | AddTimerInLoop (timer : Z)
  | CancelInLoop (timerId : TimerId).

(** Where a thread is in [addTimer]. *)
Inductive caller :=
  | Outside
  | Queueing (timer : Z)       (** the timer is made, [runInLoop] not yet called *)
  | Answering (timer : Z).     (** [runInLoop] has returned; at [timer->sequence()] *)

Record system (Cb : Type) := mk_system {
  queue_ : queue Cb;
  pending : list task;         (** the functors of this queue that the loop has not run *)
  callers : list caller;       (** the other threads *)
  answers : list TimerId       (** what [addTimer] has returned so far *)
}.
Arguments mk_system {Cb}.
Arguments queue_ {Cb}.
Arguments pending {Cb}.
Arguments callers {Cb}.
Arguments answers {Cb}.

Inductive event (Cb : Type) :=
  | Create (t : nat) (cb : Cb) (when : Z) (interval : double)
  | Queue (t : nat)
  | Answer (t : nat)
  | QueueCancel (t : nat) (timerId : TimerId)
  | RunTask
  | Expire (fired : bool)
  | LoopAdd (cb : Cb) (when : Z) (interval : double)
  | LoopCancel (timerId : TimerId).
Arguments Create {Cb}.
Arguments Queue {Cb}.
Arguments Answer {Cb}.
Arguments QueueCancel {Cb}.
Arguments RunTask {Cb}.
Arguments Expire {Cb}.
Arguments LoopAdd {Cb}.
Arguments LoopCancel {Cb}.

Section machine.
Context {Cb : Type} (body : Cb → list entry → action Cb).
Context (clock : nat → Z) (malloc : gmap Z (Timer Cb) → option Z).
Implicit Types (s : system Cb).

Definition set_queue q s : system Cb := mk_system q (pending s) (callers s) (answers s).
Definition set_pending l s : system Cb := mk_system (queue_ s) l (callers s) (answers s).
Definition set_caller (t : nat) (c : caller) s : system Cb :=
  mk_system (queue_ s) (pending s) (<[t := c]> (callers s)) (answers s).
Definition answer i s : system Cb := mk_system (queue_ s) (pending s) (callers s) (answers s ++ [i]).

Definition on_queue {A} (m : M (queue Cb) A) : M (system Cb) A := λ s,
  match m (queue_ s) with Ok (a, q) => Ok (a, set_queue q s) | Err e => Err e end.

(** [runInLoop] on another thread. *)
Definition runInLoop (x : task) : M (system Cb) unit := modify (λ s, set_pending (pending s ++ [x]) s).

Definition run_task (x : task) : M (queue Cb) unit :=
  match x with
  | AddTimerInLoop timer => addTimerInLoop clock timer
  | CancelInLoop i => cancelInLoop i
  end.

Definition exec (e : event Cb) : M (system Cb) unit :=
  match e with
  | Create t cb when interval =>
      timer ← on_queue (new_Timer malloc cb when interval);
      modify (set_caller t (Queueing timer))
  | Queue t =>
      s ← gets id;
      if callers s !! t is Some (Queueing timer)
      then runInLoop (AddTimerInLoop timer);; modify (set_caller t (Answering timer)) else mret tt
  | Answer t =>
      s ← gets id;
      if callers s !! t is Some (Answering timer) then
        tm ← on_queue (deref timer);
        modify (answer (mk_TimerId timer (sequence_ tm)));;
        modify (set_caller t Outside)
      else mret tt
  | QueueCancel t i => runInLoop (CancelInLoop i)
  | RunTask =>
      s ← gets id;
      if pending s is x :: l then modify (set_pending l);; on_queue (run_task x) else mret tt
  | Expire fired => on_queue (handleRead body clock malloc fired)
  | LoopAdd cb when interval =>
      i ← on_queue (addTimer clock malloc cb when interval);
      modify (answer i)
  | LoopCancel i => on_queue (cancel i)
  end.

(** A thread makes one call at a time. *)
Definition enabled (e : event Cb) s : bool :=
  match e with
  | Create t _ _ _ | QueueCancel t _ => if callers s !! t is Some Outside then true else false
  | Queue t => if callers s !! t is Some (Queueing _) then true else false
  | Answer t => if callers s !! t is Some (Answering _) then true else false
  | RunTask => negb (bool_decide (pending s = []))
  | _ => true
  end.

Definition step s s' : Prop := ∃ e, enabled e s = true ∧ exec e s = Ok (tt, s').

(** [n] other threads. *)
Definition system_new (n : nat) : system Cb := mk_system TimerQueue_new [] (replicate n Outside) [].
End machine.

(** ** Invariant *)
Section invariant.
Context {Cb : Type} (body : Cb → list entry → action Cb).
Context (clock : nat → Z) (malloc : gmap Z (Timer Cb) → option Z).
Hypothesis malloc_fresh : ∀ h a, malloc h = Some a → h !! a = None ∧ 0 < a < UINTPTR_MAX.
Hypothesis clock_positive : ∀ n, 0 < clock n.
Implicit Types (s : system Cb) (q : queue Cb).

Definition held_by (c : caller) : list Z := if c is Queueing a then [a] else [].
Definition bound (x : task) : list Z := if x is AddTimerInLoop a then [a] else [].

(** The timers on their way to the loop: made, and not yet added. *)
Definition on_their_way s : list Z := (callers s ≫= held_by) ++ (pending s ≫= bound).

Record consistent s : Prop := {
  co_inv : inv (on_their_way s) (queue_ s);
  co_calling : callingExpiredTimers_ (queue_ s) = false;
  co_armed : armed_for (λ _, True) (queue_ s)
}.

(** The order of the timers on their way does not matter. *)
Lemma inv_perm pend pend' q : pend ≡ₚ pend' → inv pend q → inv pend' q.
Proof.
  intros Hp []. split; try done.
  - intros a t Ha. rewrite <- Hp. auto.
  - by rewrite <- Hp.
  - intros a. rewrite <- Hp. auto.
Qed.

Lemma held_insert (v : list caller) t c c' :
  v !! t = Some c → held_by c' ++ (v ≫= held_by) ≡ₚ held_by c ++ (<[t := c']> v ≫= held_by).
Proof.
  intros Ht. rewrite (insert_take_drop v t c') by (by eapply lookup_lt_Some).
  rewrite <- (take_drop_middle v t c Ht) at 1. rewrite !bind_app. cbn. solve_Permutation.
Qed.

Lemma wp_on_queue {A} (m : M (queue Cb) A) Q E s :
  wp m (λ a q, Q a (set_queue q s)) E (queue_ s) → wp (on_queue m) Q E s.
Proof. unfold wp, on_queue. by destruct (m (queue_ s)) as [[]|]. Qed.

(** A new state of the queue, with the same timers on their way. *)
Lemma consistent_queue s q :
  inv (on_their_way s) q → callingExpiredTimers_ q = false → armed_for (λ _, True) q →
  consistent (set_queue q s).
Proof. by split. Qed.

(** The same queue, with the same timers on their way in another order. *)
Lemma consistent_perm s s' :
  consistent s → queue_ s' = queue_ s → on_their_way s ≡ₚ on_their_way s' → consistent s'.
Proof.
  intros [Hinv Hc Ha] Eq Hp. split; rewrite ?Eq; [by eapply inv_perm|done|done].
Qed.

Lemma down_closed_true : down_closed (λ _, True).
Proof. done. Qed.

(** How an event may fail: for want of memory or by a time out of range; or because a
    thread reads the sequence number of a timer that is gone. *)
Definition may_fail (e : event Cb) s (f : fault) : Prop :=
  resource_fault f ∨
  f = UseAfterFree ∧ ∃ t a, e = Answer t ∧ callers s !! t = Some (Answering a) ∧ heap (queue_ s) !! a = None.

Lemma wp_resource {S A} (m : M S A) Q e s (s0 : S) :
  wp m Q resource_fault s0 → wp m Q (may_fail e s) s0.
Proof. unfold wp, may_fail. destruct (m s0) as [[]|]; auto. Qed.

Lemma create_wp t cb when interval s :
  consistent s → callers s !! t = Some Outside →
  wp (exec body clock malloc (Create t cb when interval)) (λ _ s', consistent s') resource_fault s.
Proof.
  intros [Hinv Hc Ha] Ht. cbn [exec]. apply wp_bind, wp_on_queue. eapply wp_mono; [by apply new_Timer_wp|].
  intros a q (Hinv' & _ & _ & ->). apply wp_modify. split; [|exact Hc|exact Ha]. cbn.
  eapply inv_perm; [|exact Hinv']. unfold on_their_way. cbn.
  pose proof (held_insert (callers s) t _ (Queueing a) Ht) as Hp. cbn in Hp.
  by rewrite <- Hp.
Qed.

Lemma run_task_wp x l s :
  consistent s → pending s = x :: l →
  wp (exec body clock malloc RunTask) (λ _ s', consistent s') resource_fault s.
Proof.
  intros [Hinv Hc Ha] Hx. cbn [exec]. apply wp_bind, wp_gets. change (id s) with s. rewrite Hx.
  apply wp_bind, wp_modify, wp_on_queue. change (queue_ (set_pending l s)) with (queue_ s).
  assert (Hway : on_their_way s ≡ₚ bound x ++ on_their_way (set_pending l s)).
  { unfold on_their_way. rewrite Hx. cbn. solve_Permutation. }
  apply (inv_perm _ _ _ Hway) in Hinv. destruct x as [a|i]; cbn in Hinv |- *.
  - destruct (inv_pend _ _ Hinv a ltac:(by left)) as [[tm Htm] _].
    eapply wp_mono; [by apply (addTimerInLoop_wp clock malloc malloc_fresh (on_their_way (set_pending l s)) (λ _, True) a tm)|].
    intros [] q (Hinv' & Ha' & _ & _ & Hc' & _). apply consistent_queue; [done|congruence|done].
  - destruct (cancel_ok _ _ i Hinv) as (q & Hrun & Hinv' & Hcan). unfold wp, cancel in *. rewrite Hrun.
    destruct (cancelled_stable _ i _ _ Hinv Hcan) as [_ _ Hc' _].
    apply consistent_queue; [done|congruence|by eapply cancelled_armed].
Qed.

Lemma loop_add_wp cb when interval s :
  consistent s →
  wp (exec body clock malloc (LoopAdd cb when interval)) (λ _ s', consistent s') resource_fault s.
Proof.
  intros [Hinv Hc Ha]. cbn [exec]. apply wp_bind, wp_on_queue.
  eapply wp_mono; [by apply (addTimer_wp clock malloc malloc_fresh (on_their_way s) (λ _, True))|].
  intros i q (Hinv' & Ha' & [_ _ Hc' _] & _). apply wp_modify. split; [done|cbn; congruence|done].
Qed.

Lemma loop_cancel_wp i s :
  consistent s → wp (exec body clock malloc (LoopCancel i)) (λ _ s', consistent s') resource_fault s.
Proof.
  intros [Hinv Hc Ha]. cbn [exec]. apply wp_on_queue.
  destruct (cancel_ok _ _ i Hinv) as (q & Hrun & Hinv' & Hcan). unfold wp. rewrite Hrun.
  destruct (cancelled_stable _ i _ _ Hinv Hcan) as [_ _ Hc' _].
  apply consistent_queue; [done|congruence|by eapply cancelled_armed].
Qed.

Lemma expire_wp fired s :
  consistent s → wp (exec body clock malloc (Expire fired)) (λ _ s', consistent s') resource_fault s.
Proof.
  intros [Hinv Hc Ha]. cbn [exec]. apply wp_on_queue.
  eapply wp_mono; [by apply (handleRead_wp body clock malloc malloc_fresh (on_their_way s))|].
  intros [] q (Hinv' & Ha' & Hc' & _). by apply consistent_queue.
Qed.

(** A caller goes on without a timer changing hands. *)
Lemma caller_moves c c' t s s' :
  consistent s → callers s !! t = Some c → held_by c = held_by c' →
  queue_ s' = queue_ s → callers s' = <[t := c']> (callers s) → pending s' = pending s → consistent s'.
Proof.
  intros Hs Ht Hh Eq Ec Ep. apply (consistent_perm s); [done|done|]. unfold on_their_way. rewrite Ec, Ep.
  pose proof (held_insert (callers s) t c c' Ht) as Hp. rewrite Hh in Hp. apply Permutation_app_inv_l in Hp. by rewrite Hp.
Qed.

(** What every event does in a consistent state. *)
Lemma timers_exec_wp e s :
  consistent s → enabled e s = true →
  wp (exec body clock malloc e) (λ _ s', consistent s') (may_fail e s) s.
Proof.
  intros Hs He. destruct e as [t cb when interval|t|t|t i| |fired|cb when interval|i]; cbn [enabled] in He.
  - destruct (callers s !! t) as [[| |]|] eqn:Ht; try done. by apply wp_resource, create_wp.
  - destruct (callers s !! t) as [[|a|]|] eqn:Ht; try done. cbn [exec]. apply wp_bind, wp_gets.
    change (id s) with s. rewrite Ht. apply wp_bind, wp_modify, wp_modify.
    apply (consistent_perm s); [done|done|]. unfold on_their_way. cbn. rewrite bind_app. cbn.
    pose proof (held_insert (callers s) t _ (Answering a) Ht) as Hp. cbn in Hp. rewrite Hp. solve_Permutation.
  - destruct (callers s !! t) as [[| |a]|] eqn:Ht; try done. cbn [exec]. apply wp_bind, wp_gets.
    change (id s) with s. rewrite Ht. apply wp_bind, wp_on_queue. unfold wp, deref. mstep. change (id (queue_ s)) with (queue_ s).
    destruct (heap (queue_ s) !! a) as [tm|] eqn:Hh; [|right; eauto 10]. mstep.
    by apply (caller_moves (Answering a) Outside t s).
  - destruct (callers s !! t) as [[| |]|] eqn:Ht; try done. apply wp_modify.
    apply (consistent_perm s); [done|done|]. unfold on_their_way. cbn. rewrite bind_app. cbn. by rewrite app_nil_r.
  - apply negb_true_iff, bool_decide_eq_false in He. destruct (pending s) as [|x l] eqn:Hx; [done|].
    by eapply wp_resource, run_task_wp.
  - by apply wp_resource, expire_wp.
  - by apply wp_resource, loop_add_wp.
  - by apply wp_resource, loop_cancel_wp.
Qed.

Lemma consistent_new n : consistent (system_new n).
Proof.
  split; [|done|].
  - assert (Hnone : replicate n Outside ≫= held_by = []) by (induction n; cbn; auto).
    unfold on_their_way. cbn. rewrite Hnone. apply inv_new.
  - intros e. by rewrite elem_of_nil.
Qed.

Lemma consistent_reachable n s : rtc (step body clock malloc) (system_new n) s → consistent s.
Proof.
  revert s. apply rtc_ind_r; [apply consistent_new|]. intros s1 s2 _ (e & He & Hrun) Hs.
  exact (wp_ok _ _ _ _ _ _ Hrun (timers_exec_wp e s1 Hs He)).
Qed.
End invariant.

(** ** Properties *)
Section properties.
Context {Cb : Type} (body : Cb → list entry → action Cb).
Context (clock : nat → Z) (malloc : gmap Z (Timer Cb) → option Z).
Hypothesis malloc_fresh : ∀ h a, malloc h = Some a → h !! a = None ∧ 0 < a < UINTPTR_MAX.
Hypothesis clock_positive : ∀ n, 0 < clock n.
Implicit Types (s : system Cb).

(** C9. Timers of any number of threads, in any interleaving: in every reachable state a
    timer that exists is in both sets of the queue or, once, on its way to the loop; the
    kernel timer is set no later than the first timer in the sets; and no event fails but
    for want of memory, by a time out of range, or when a thread in [addTimer] reads the
    sequence number of a timer that the loop has already freed. *)
Theorem remote_timers_kept n s :
  rtc (step body clock malloc) (system_new n) s →
  (∀ a t, heap (queue_ s) !! a = Some t →
    (expiration_ t, a) ∈ timers_ (queue_ s) ∧ (a, sequence_ t) ∈ activeTimers_ (queue_ s) ∧ a ∉ on_their_way s ∨
    a ∈ on_their_way s ∧ a ∉ (timers_ (queue_ s)).*2) ∧
  NoDup (on_their_way s) ∧
  (∀ e, e ∈ timers_ (queue_ s) → is_Some (heap (queue_ s) !! e.2) ∧
    ∃ arm, timerfd_ (queue_ s) = Some arm ∧ for_expiration arm ≤ e.1) ∧
  ∀ e f, enabled e s = true → exec body clock malloc e s = Err f → may_fail e s f.
Proof.
  intros Hs%consistent_reachable; [|done..]. destruct (Hs) as [Hinv Hc Ha]. split_and!.
  - intros a t Ht. destruct (inv_heap _ _ Hinv a t Ht) as [Hin|Hway].
    + left. split; [done|]. split.
      * apply (elem_of_active _ _ _ _ Hinv). by exists t.
      * intros [_ Hn]%(inv_pend _ _ Hinv). by eapply Hn, elem_of_addresses.
    + right. split; [done|]. by apply (inv_pend _ _ Hinv).
  - apply Hinv.
  - intros e He. destruct (inv_live _ _ Hinv e He) as (t & Ht & _). split; [by eexists|by apply Ha].
  - intros e f He Hf. pose proof (timers_exec_wp body clock malloc malloc_fresh clock_positive e s Hs He) as Hwp.
    unfold wp in Hwp. by rewrite Hf in Hwp.
Qed.

(** C22. [addTimer] on another thread answers after it has handed the timer to the loop.
    As long as the timer exists the answer is its address and sequence number. But if the
    loop has added the timer and it is due and does not repeat, the expiry runs it and
    frees it, and the answer reads freed memory. *)
Theorem addTimer_answers n s t a tm :
  rtc (step body clock malloc) (system_new n) s →
  callers s !! t = Some (Answering a) → heap (queue_ s) !! a = Some tm →
  exec body clock malloc (Answer t) s = Ok (tt, set_caller t Outside (answer (mk_TimerId a (sequence_ tm)) s)) ∧
  (a ∉ on_their_way s → repeat_ tm = false → expiration_ tm ≤ clock (ticks (queue_ s)) →
   ∀ fired s', exec body clock malloc (Expire fired) s = Ok (tt, s') →
     exec body clock malloc (Answer t) s' = Err UseAfterFree).
Proof.
  intros Hs%consistent_reachable Ht Hh; [|done..]. split.
  - cbn [exec]. mstep. change (id s) with s. rewrite Ht. unfold on_queue at 1, mbind at 1, M_bind at 1.
    rewrite (deref_ok _ _ _ Hh). by destruct s.
  - intros Hway Hrep Hdue fired s' Hrun. destruct Hs as [Hinv _ _].
    assert (Hgone : heap (queue_ s') !! a = None ∧ callers s' = callers s).
    { pose proof (handleRead_wp body clock malloc malloc_fresh (on_their_way s) fired (queue_ s) clock_positive Hinv) as Hwp.
      cbn [exec] in Hrun. unfold on_queue in Hrun. unfold wp in Hwp.
      destruct (handleRead _ _ _ _ _) as [[[] q]|]; [|done]. injection Hrun as <-.
      destruct Hwp as (_ & _ & _ & _ & Hre). split; [|done]. specialize (Hre a tm). unfold rearmed in Hre.
      rewrite Hrep in Hre. apply Hre; [|done]. apply (elem_of_addresses (expiration_ tm)).
      apply list_elem_of_filter. split; [done|]. by destruct (inv_heap _ _ Hinv a tm Hh). }
    destruct Hgone as [Hgone Ec]. cbn [exec]. mstep. change (id s') with s'. rewrite Ec, Ht.
    unfold on_queue at 1, mbind at 1, M_bind at 1, deref. mstep. change (id (queue_ s')) with (queue_ s').
    by rewrite Hgone.
Qed.

(** What cancelling does, on the loop's thread outside the callbacks of timers, to a
    timer that exists: if it is still on its way nothing happens, and nothing is
    remembered, so that the timer will be added and run as if it had not been cancelled;
    otherwise it is gone. *)
Theorem cancel_needs_add n s a tm :
  rtc (step body clock malloc) (system_new n) s → heap (queue_ s) !! a = Some tm →
  ∃ s', exec body clock malloc (LoopCancel (mk_TimerId a (sequence_ tm))) s = Ok (tt, s') ∧
    if decide (a ∈ on_their_way s) then s' = s
    else heap (queue_ s') !! a = None ∧ a ∉ (timers_ (queue_ s')).*2.
Proof.
  intros Hs%consistent_reachable Hh; [|done..]. destruct Hs as [Hinv Hcall _].
  destruct (cancel_ok _ _ (mk_TimerId a (sequence_ tm)) Hinv) as (q & Hrun & Hinv' & Hcan).
  exists (set_queue q s). split; [cbn [exec]; unfold on_queue; by rewrite Hrun|].
  unfold cancelled in Hcan. cbn [timer_ id_sequence_] in Hcan. rewrite Hcall in Hcan.
  destruct (decide (a ∈ on_their_way s)) as [Hway|Hway].
  - rewrite decide_False in Hcan; [subst q; by destruct s|].
    intros (t & _ & _ & Hin)%(elem_of_active _ _ _ _ Hinv). destruct (inv_pend _ _ Hinv a Hway) as [_ Hn].
    by eapply Hn, elem_of_addresses.
  - destruct (inv_heap _ _ Hinv a tm Hh) as [Hin|?]; [|done].
    rewrite decide_True in Hcan by (apply (elem_of_active _ _ _ _ Hinv); by exists tm).
    destruct Hcan as (t & lt & la & Ht & _ & Hp & ->). cbn. split; [apply lookup_delete_eq|].
    intros (e & He & Hin')%list_elem_of_fmap. destruct (inv_live _ _ Hinv' e Hin') as (t' & Ht' & _).
    cbn in Ht'. rewrite <- He, lookup_delete_eq in Ht'. done.
Qed.
End properties.

(** ** Runs of two threads *)
Section sample.
Notation sample_exec := (exec sample_body sample_clock sample_malloc).

(** The events of a run, each possible when it comes. *)
Fixpoint play (es : list (event nat)) (s : system nat) : option (system nat) :=
  match es with
  | [] => Some s
  | e :: es => if enabled e s then match sample_exec e s with Ok (_, s) => play es s | Err _ => None end else None
  end.

Lemma timers_played es s s' : play es s = Some s' → rtc (step sample_body sample_clock sample_malloc) s s'.
Proof.
  revert s. induction es as [|e es IH]; intros s; cbn [play]; [intros [= ->]; apply rtc_refl|].
  destruct (enabled e s) eqn:He; [|done]. destruct (sample_exec e s) as [[[] s1]|] eqn:Hrun; [|done].
  intros Hplay. eapply rtc_l; [|by apply IH]. by exists e.
Qed.

(** Thread 0 is in [addTimer]; the loop has added the timer, which is due. *)
Definition added_events : list (event nat) := [Create 0 5%nat 800000 (S754_zero false); Queue 0; RunTask].
Definition added : system nat := default (system_new 1) (play added_events (system_new 1)).
Lemma added_reached : rtc (step sample_body sample_clock sample_malloc) (system_new 1) added.
Proof. apply (timers_played added_events). by vm_compute. Qed.

(** Thread 0 is in [addTimer], the timer on its way. *)
Definition waiting_events : list (event nat) := [Create 0 5%nat 800000 (S754_zero false); Queue 0].
Definition waiting : system nat := default (system_new 1) (play waiting_events (system_new 1)).
Lemma waiting_reached : rtc (step sample_body sample_clock sample_malloc) (system_new 1) waiting.
Proof. apply (timers_played waiting_events). by vm_compute. Qed.

Definition sample_timer : Timer nat := mk_Timer 5%nat 800000 (S754_zero false) false 0.

Lemma remote_timers_kept_witness :
  pending waiting = [AddTimerInLoop 4096] ∧ NoDup (on_their_way waiting).
Proof.
  split; [vm_compute; reflexivity|].
  exact (proj1 (proj2 (remote_timers_kept sample_body sample_clock sample_malloc sample_malloc_fresh
    sample_clock_pos 1 waiting waiting_reached))).
Defined.

Lemma addTimer_answers_witness :
  exists s', sample_exec (Expire true) added = Ok (tt, s') ∧ sample_exec (Answer 0) s' = Err UseAfterFree.
Proof.
  eexists. split; [vm_compute; reflexivity|].
  exact (proj2 (addTimer_answers sample_body sample_clock sample_malloc sample_malloc_fresh sample_clock_pos 1 added 0
    4096 sample_timer added_reached ltac:(vm_compute; reflexivity) ltac:(vm_compute; reflexivity))
    ltac:(vm_compute; set_solver) eq_refl ltac:(vm_compute; discriminate) true _ ltac:(vm_compute; reflexivity)).
Defined.

Lemma cancel_needs_add_witness :
  ∃ s', sample_exec (LoopCancel (mk_TimerId 4096 0)) waiting = Ok (tt, s') ∧
    if decide (4096 ∈ on_their_way waiting) then s' = waiting
    else heap (queue_ s') !! 4096 = None ∧ 4096 ∉ (timers_ (queue_ s')).*2.
Proof.
  exact (cancel_needs_add sample_body sample_clock sample_malloc sample_malloc_fresh sample_clock_pos 1 waiting
    4096 sample_timer waiting_reached ltac:(vm_compute; reflexivity)).
Defined.
End sample.
