(* ===== verification/Bench.v ===== *)
(** The benchmark of event loops (pingpong_bench.cc): a ring of socket pairs around
    which single bytes are passed on. It is written for the original library, whose code
    is not here: its loop and the destructor of its channels are parameters
    ([Library]), the loop with what it promises ([LibraryLaws]), and so are the pairs of
    connected sockets ([Pipes], [PipeLaws]). *)
From Stdlib Require Import Ascii.
From S2P Require Import Prelude.
#[local] Open Scope Z_scope.

(** Pairs of connected sockets. *)
Class Pipes (K : Type) := {
  peer : K → Z → option Z;             (** the other end *)
  waiting : K → Z → nat;               (** how many bytes can be read *)
  room : nat;                          (** how many bytes a socket holds *)
  sys_socketpair : K → option (Z * Z) * K;
  sys_recv : K → Z → Z * K;            (** [recv(fd, &ch, 1, 0)] *)
  sys_send : K → Z → Z * K             (** [send(fd, "m", 1, 0)] *)
}.

(** A pair, if it is made, is of two new empty sockets. A byte that waits is received;
    one that is sent, if there is room, waits at the other end. *)
Class PipeLaws (K : Type) `{!Pipes K} : Prop := {
  socketpair_law (k : K) :
    let '(r, k') := sys_socketpair k in
    match r with
    | None => True
    | Some (a, b) => a ≠ b ∧ peer k a = None ∧ peer k b = None ∧
        peer k' a = Some b ∧ peer k' b = Some a ∧ waiting k' a = O ∧
        ∀ d, d ≠ a → d ≠ b → peer k' d = peer k d ∧ waiting k' d = waiting k d
    end;
  recv_law (k : K) fd : (0 < waiting k fd)%nat →
    let '(r, k') := sys_recv k fd in
    r = 1 ∧ (∀ d, peer k' d = peer k d) ∧ waiting k fd = S (waiting k' fd) ∧
    ∀ d, d ≠ fd → waiting k' d = waiting k d;
  send_law (k : K) fd other : peer k fd = Some other → (waiting k other < room)%nat →
    let '(r, k') := sys_send k fd in
    r = 1 ∧ (∀ d, peer k' d = peer k d) ∧ waiting k' other = S (waiting k other) ∧
    ∀ d, d ≠ other → waiting k' d = waiting k d
}.

(** The globals of the program, and whether [quit] has been called since [loop] was. A
    channel is its descriptor and the index bound into its read callback, once it has
    one; [enableReading] follows at once, so it is then watched. *)
Record bench (K : Type) := mk_bench {
  kernel : K;
  numPipes : Z;
  numActive : Z;
  numWrites : Z;
  g_pipes : list Z;
  g_channels : list (Z * option Z);
  g_reads : Z;
  g_writes : Z;
  g_fired : Z;
  quit_called : bool
}.
Arguments mk_bench {K}.
Arguments kernel {K}.
Arguments numPipes {K}.
Arguments numActive {K}.
Arguments numWrites {K}.
Arguments g_pipes {K}.
Arguments g_channels {K}.
Arguments g_reads {K}.
Arguments g_writes {K}.
Arguments g_fired {K}.
Arguments quit_called {K}.

Section operations.
Context {K : Type} `{!Pipes K}.
Implicit Types (s : bench K) (k : K).

Definition set_kernel k s : bench K := mk_bench k (numPipes s) (numActive s) (numWrites s) (g_pipes s)
  (g_channels s) (g_reads s) (g_writes s) (g_fired s) (quit_called s).
Definition set_channels l s : bench K := mk_bench (kernel s) (numPipes s) (numActive s) (numWrites s)
  (g_pipes s) l (g_reads s) (g_writes s) (g_fired s) (quit_called s).
Definition set_counts r w f s : bench K := mk_bench (kernel s) (numPipes s) (numActive s) (numWrites s)
  (g_pipes s) (g_channels s) r w f (quit_called s).
Definition set_quit b s : bench K := mk_bench (kernel s) (numPipes s) (numActive s) (numWrites s)
  (g_pipes s) (g_channels s) (g_reads s) (g_writes s) (g_fired s) b.

(** [v[i]] of a vector. *)
Definition vec_at {A} (v : list A) (i : Z) : outcome A :=
  if i <? 0 then Err OutOfBounds
  else match v !! Z.to_nat i with Some x => Ok x | None => Err OutOfBounds end.

Definition recv_one (fd : Z) : M (bench K) Z := λ s,
  let '(r, k) := sys_recv (kernel s) fd in Ok (r, set_kernel k s).
Definition send_one (fd : Z) : M (bench K) Z := λ s,
  let '(r, k) := sys_send (kernel s) fd in Ok (r, set_kernel k s).

Definition readCallback (fd idx : Z) : M (bench K) unit :=
  r ← recv_one fd;
  s ← gets id;
  reads ← lift (checked_i32 (g_reads s + i32 r));
  modify (set_counts reads (g_writes s) (g_fired s));;
  s ← gets id;
  (if 0 <? g_writes s then
     widx ← lift (checked_i32 (idx + 1));
     let widx := if numPipes s <=? widx then widx - numPipes s else widx in
     i ← lift (checked_i32 (2 * widx + 1));
     out ← lift (vec_at (g_pipes s) i);
     ret ← send_one out;
     fired ← lift (checked_i32 (g_fired s + 1));
     modify (set_counts (g_reads s) (g_writes s - 1) fired)
   else mret tt);;
  s ← gets id;
  if g_fired s =? g_reads s then modify (set_quit true) else mret tt.

(** The read callback bound to the channel [i], if it has one. *)
Definition bound_callback (i : Z) : M (bench K) unit :=
  s ← gets id;
  c ← lift (vec_at (g_channels s) i);
  if c.2 is Some idx then readCallback c.1 idx else mret tt.

(** The channel [i] is watched, and a byte waits at its descriptor. *)
Definition readable s (i : Z) : bool :=
  if i <? 0 then false
  else match g_channels s !! Z.to_nat i with
       | Some (fd, Some _) => bool_decide (0 < waiting (kernel s) fd)%nat
       | _ => false
       end.

(** What the loop may report: channels that are readable, each once, and some if there
    are any. *)
Definition reports s (batch : list Z) : Prop :=
  NoDup batch ∧ (∀ i, i ∈ batch → readable s i = true) ∧ ((∃ i, readable s i = true) → batch ≠ []).
End operations.

(** The original library: [loop], given the callbacks of the channels and a bound on how
    often it polls; what is left of it when it is about to poll; the destructor of a
    channel. *)
Class Library (K : Type) := {
  loop : (Z → M (bench K) unit) → nat → M (bench K) unit;
  polling : (Z → M (bench K) unit) → nat → M (bench K) unit;
  delete_channel : Z * option Z → M (bench K) unit
}.

(** [loop] forgets earlier calls of [quit]. Each time it polls it is told of readable
    channels and calls their callbacks; it returns when [quit] has been called by then. *)
Class LibraryLaws (K : Type) `{!Pipes K, !Library K} : Prop := {
  loop_law callback polls (s : bench K) : loop callback polls s = polling callback polls (set_quit false s);
  polling_stopped callback (s : bench K) : polling callback O s = Err OutOfFuel;
  polling_law callback polls (s : bench K) : ∃ batch, reports s batch ∧
    polling callback (S polls) s =
      (for_each callback batch;;
       s' ← gets id;
       if quit_called s' then mret tt else polling callback polls) s
}.

Section program.
Context {K : Type} `{!Pipes K, !Library K}.
Implicit Types (s : bench K) (k : K).

(** ** One run *)

(** [setReadCallback] and [enableReading] of the channel [i]. *)
Definition bind_channel (i : Z) : M (bench K) unit :=
  s ← gets id;
  c ← lift (vec_at (g_channels s) i);
  modify (set_channels (<[Z.to_nat i := (c.1, Some i)]> (g_channels s))).

Definition send_first (space i : Z) : M (bench K) unit :=
  s ← gets id;
  j ← lift (checked_i32 (i * space));
  j ← lift (checked_i32 (j + 1));
  out ← lift (vec_at (g_pipes s) j);
  ret ← send_one out;
  mret tt.

Definition runOnce (polls : nat) : M (bench K) unit :=
  s ← gets id;
  for_each bind_channel (seqZ 0 (numPipes s));;
  (if numActive s =? 0 then fail DivByZero else mret tt);;
  space ← lift (checked_i32 (Z.quot (numPipes s) (numActive s) * 2));
  for_each (send_first space) (seqZ 0 (numActive s));;
  modify (set_counts 0 (numWrites s) (numActive s));;
  loop bound_callback polls.

(** ** [main] *)

(** The options, as [getopt] and [atoi] give them. *)
Definition parse_option (o : ascii * Z) (n : Z * Z * Z) : option (Z * Z * Z) :=
  let '(pipes, active, writes) := n in
  if decide (o.1 = "n"%char) then Some (o.2, active, writes)
  else if decide (o.1 = "a"%char) then Some (pipes, o.2, writes)
  else if decide (o.1 = "w"%char) then Some (pipes, active, o.2)
  else None.
Definition parse_options (os : list (ascii * Z)) : option (Z * Z * Z) :=
  foldl (λ n o, n ≫= parse_option o) (Some (100, 1, 100)) os.

Definition set_arguments n s : bench K := mk_bench (kernel s) n.1.1 n.1.2 n.2 (g_pipes s) (g_channels s)
  (g_reads s) (g_writes s) (g_fired s) (quit_called s).
Definition set_pipes v s : bench K := mk_bench (kernel s) (numPipes s) (numActive s) (numWrites s) v
  (g_channels s) (g_reads s) (g_writes s) (g_fired s) (quit_called s).

(** [g_pipes.resize(2 * numPipes)] of the empty vector. *)
Definition resize_pipes : M (bench K) unit :=
  s ← gets id;
  n ← lift (checked_i32 (2 * numPipes s));
  if n <? 0 then fail LengthError else modify (set_pipes (replicate (Z.to_nat n) 0)).

(** The pairs, until one cannot be had. *)
Fixpoint make_pairs (l : list Z) : M (bench K) bool :=
  match l with
  | [] => mret true
  | i :: l =>
      r ← (λ s, let '(r, k) := sys_socketpair (kernel s) in Ok (r, set_kernel k s));
      match r with
      | None => mret false
      | Some (a, b) =>
          modify (λ s, set_pipes (<[Z.to_nat (i * 2 + 1) := b]> (<[Z.to_nat (i * 2) := a]> (g_pipes s))) s);;
          make_pairs l
      end
  end.

(** The channels, one for the first end of each pair. *)
Definition new_channel (i : Z) : M (bench K) unit :=
  s ← gets id;
  fd ← lift (vec_at (g_pipes s) (i * 2));
  modify (set_channels (g_channels s ++ [(fd, None)])).

(** [delete g_channels[i]]. *)
Definition delete_one (i : Z) : M (bench K) unit :=
  s ← gets id;
  c ← lift (vec_at (g_channels s) i);
  delete_channel c.

(** The end of [main]: the 25 runs, and the deletion of the channels. *)
Definition measure (polls : nat) : M (bench K) Z :=
  for_each (λ _, runOnce polls) (seqZ 0 25);;
  s ← gets id;
  for_each delete_one (seqZ 0 (numPipes s));;
  mret 0.

Definition main (polls : nat) (options : list (ascii * Z)) : M (bench K) Z :=
  match parse_options options with
  | None => mret 1
  | Some n =>
      modify (set_arguments n);;
      limit ← lift (checked_i32 (n.1.1 * 2 + 50));
      resize_pipes;;
      s ← gets id;
      made ← make_pairs (seqZ 0 (numPipes s));
      if (made : bool) then
        for_each new_channel (seqZ 0 (numPipes s));;
        measure polls
      else mret 1
  end.
End program.

(** ** What a run does *)

(** A sum in which one term is greater by one. *)
Lemma sum_ext {A} (f g : A → nat) (l : list A) :
  (∀ y, y ∈ l → f y = g y) → sum_list_with f l = sum_list_with g l.
Proof. induction l as [|y l IH]; intros He; [done|]. cbn. rewrite He, IH; set_solver. Qed.

Lemma sum_grows {A} (f g : A → nat) (l : list A) x :
  NoDup l → x ∈ l → f x = S (g x) → (∀ y, y ∈ l → y ≠ x → f y = g y) →
  sum_list_with f l = S (sum_list_with g l).
Proof.
  intros Hnd Hx Hfg Hother. induction l as [|y l IH]; [by apply not_elem_of_nil in Hx|].
  apply NoDup_cons in Hnd as [Hy Hnd]. cbn. apply elem_of_cons in Hx as [->|Hx].
  - rewrite (sum_ext f g l); [lia|]. intros z Hz. apply Hother; set_solver.
  - rewrite (Hother y) by set_solver. rewrite IH; [lia|done|done|]. intros z Hz. apply Hother. set_solver.
Qed.

(** A positive sum has a positive term. *)
Lemma sum_positive {A} (f : A → nat) (l : list A) :
  (0 < sum_list_with f l)%nat → ∃ x, x ∈ l ∧ (0 < f x)%nat.
Proof.
  induction l as [|y l IH]; cbn; [lia|]. intros Hs. destruct (f y) eqn:Hy.
  - destruct IH as (x & Hx & ?); [lia|]. exists x. split; [by right|done].
  - exists y. split; [by left|lia].
Qed.

Lemma vec_at_ok {A} (v : list A) i d :
  0 ≤ i < Z.of_nat (length v) → vec_at v i = Ok (nth (Z.to_nat i) v d).
Proof.
  intros Hi. unfold vec_at. rewrite (proj2 (Z.ltb_ge i 0)) by lia.
  destruct (lookup_lt_is_Some_2 v (Z.to_nat i)) as [x Hx]; [lia|]. rewrite Hx.
  by rewrite (nth_lookup_Some _ _ d x Hx).
Qed.

Section runs.
Context {K : Type} `{!Pipes K, !PipeLaws K, !Library K, !LibraryLaws K}.
Implicit Types (s : bench K) (k : K).

(** The two ends of the pair [i]. *)
Definition inlet (v : list Z) (i : Z) : Z := nth (Z.to_nat (2 * i)) v 0.
Definition outlet (v : list Z) (i : Z) : Z := nth (Z.to_nat (2 * i + 1)) v 0.

(** The pairs are made, and each has its channel. *)
Record wf s : Prop := {
  wf_num : 1 ≤ numPipes s ∧ 2 * numPipes s < 2 ^ 31;
  wf_pipes : Z.of_nat (length (g_pipes s)) = 2 * numPipes s;
  wf_nodup : NoDup (g_pipes s);
  wf_peer i : 0 ≤ i < numPipes s → peer (kernel s) (outlet (g_pipes s) i) = Some (inlet (g_pipes s) i);
  wf_length : Z.of_nat (length (g_channels s)) = numPipes s;
  wf_channel i : 0 ≤ i < numPipes s → ∃ cb, g_channels s !! Z.to_nat i = Some (inlet (g_pipes s) i, cb)
}.

(** Each channel has been given its index. *)
Definition bound s : Prop := ∀ i, 0 ≤ i < numPipes s →
  g_channels s !! Z.to_nat i = Some (inlet (g_pipes s) i, Some i).

Definition waits s (i : Z) : nat := waiting (kernel s) (inlet (g_pipes s) i).

(** The bytes on their way. *)
Definition inflight s : nat := sum_list_with (waits s) (seqZ 0 (numPipes s)).

Definition same_ring s s' : Prop :=
  numPipes s' = numPipes s ∧ g_pipes s' = g_pipes s ∧ g_channels s' = g_channels s ∧
  (∀ d, peer (kernel s') d = peer (kernel s) d) ∧ numActive s' = numActive s ∧ numWrites s' = numWrites s.

#[local] Instance same_ring_trans : Transitive same_ring.
Proof.
  intros s1 s2 s3 (? & ? & ? & Hp & ? & ?) (? & ? & ? & Hp' & ? & ?).
  split_and!; [congruence..| |congruence|congruence]. intros d. by rewrite Hp'.
Qed.

Lemma same_ring_wf s s' : same_ring s s' → wf s → wf s'.
Proof.
  intros (En & Ep & Ec & Er & _) []. split; rewrite ?En, ?Ep, ?Ec; try done. intros i Hi. rewrite Er. auto.
Qed.

Lemma same_ring_bound s s' : same_ring s s' → bound s → bound s'.
Proof. intros (En & Ep & Ec & Er & _) Hb i. rewrite En, Ep, Ec. apply Hb. Qed.

Lemma inlet_inj s i j :
  wf s → 0 ≤ i < numPipes s → 0 ≤ j < numPipes s → inlet (g_pipes s) i = inlet (g_pipes s) j → i = j.
Proof.
  intros Hwf Hi Hj He. pose proof (wf_pipes _ Hwf).
  assert (Z.to_nat (2 * i) = Z.to_nat (2 * j)); [|lia].
  eapply (proj1 (NoDup_nth (g_pipes s) 0)); [|lia|lia|exact He].
  apply NoDup_ListNoDup, Hwf.
Qed.

(** [i]'s waiting byte is received. *)
Lemma recv_one_ok s i :
  wf s → 0 ≤ i < numPipes s → (0 < waits s i)%nat →
  ∃ k, recv_one (inlet (g_pipes s) i) s = Ok (1, set_kernel k s) ∧ same_ring s (set_kernel k s) ∧
    inflight s = S (inflight (set_kernel k s)) ∧
    ∀ j, 0 ≤ j < numPipes s → j ≠ i → waits (set_kernel k s) j = waits s j.
Proof.
  intros Hwf Hi Hw. pose proof (recv_law (kernel s) (inlet (g_pipes s) i) Hw) as Hlaw.
  unfold recv_one. destruct (sys_recv _ _) as [r k]. destruct Hlaw as (-> & Hpeer & Hone & Hother).
  assert (Hj : ∀ j, 0 ≤ j < numPipes s → j ≠ i → waits (set_kernel k s) j = waits s j).
  { intros j Hj Hne. apply Hother. intros He. by apply Hne, (inlet_inj s). }
  exists k. split_and!; [done|by split_and!| |done].
  apply (sum_grows _ _ _ i); [apply NoDup_seqZ|by apply elem_of_seqZ|exact Hone|].
  intros j Hj'%elem_of_seqZ Hne. symmetry. apply Hj; [lia|done].
Qed.

(** A byte is sent to [i]. *)
Lemma send_one_ok s i :
  wf s → 0 ≤ i < numPipes s → (inflight s < room)%nat →
  ∃ k, send_one (outlet (g_pipes s) i) s = Ok (1, set_kernel k s) ∧ same_ring s (set_kernel k s) ∧
    inflight (set_kernel k s) = S (inflight s) ∧
    ∀ j, 0 ≤ j < numPipes s → (waits s j ≤ waits (set_kernel k s) j)%nat.
Proof.
  intros Hwf Hi Hroom.
  assert (Hterm : (waits s i ≤ inflight s)%nat) by (apply sum_list_with_in, elem_of_seqZ; lia).
  pose proof (send_law (kernel s) (outlet (g_pipes s) i) (inlet (g_pipes s) i) (wf_peer _ Hwf i Hi)) as Hlaw.
  unfold waits in Hterm. specialize (Hlaw ltac:(lia)).
  unfold send_one. destruct (sys_send _ _) as [r k]. destruct Hlaw as (-> & Hpeer & Hone & Hother).
  assert (Hj : ∀ j, 0 ≤ j < numPipes s → j ≠ i → waits (set_kernel k s) j = waits s j).
  { intros j Hj Hne. apply Hother. intros He. by apply Hne, (inlet_inj s). }
  exists k. split_and!; [done|by split_and!| |].
  - apply (sum_grows _ _ _ i); [apply NoDup_seqZ|by apply elem_of_seqZ|exact Hone|].
    intros j Hj'%elem_of_seqZ Hne. cbn in Hj'. apply Hj; [lia|done].
  - intros j Hj'. destruct (decide (j = i)) as [->|Hne]; [|by rewrite Hj].
    change (waits s i ≤ waiting k (inlet (g_pipes s) i))%nat. rewrite Hone. unfold waits. lia.
Qed.
(** A run of [total] bytes in all. *)
Record running (total : Z) s : Prop := {
  ru_wf : wf s;
  ru_bound : bound s;
  ru_reads : 0 ≤ g_reads s;
  ru_sum : Z.of_nat (inflight s) + g_reads s = g_fired s;
  ru_total : g_fired s + Z.max 0 (g_writes s) = total;
  ru_room : (inflight s ≤ room)%nat;
  ru_quit : quit_called s = true ↔ inflight s = 0%nat;
  ru_end : inflight s = 0%nat → g_writes s ≤ 0
}.

Lemma inflight_counts r w f s : inflight (set_counts r w f s) = inflight s.
Proof. done. Qed.
Lemma inflight_quit b s : inflight (set_quit b s) = inflight s.
Proof. done. Qed.

(** Where the next byte goes. *)
Lemma next_outlet s i :
  wf s → 0 ≤ i < numPipes s →
  ∃ j, 0 ≤ j < numPipes s ∧ checked_i32 (i + 1) = Ok (i + 1) ∧
    (if numPipes s <=? i + 1 then i + 1 - numPipes s else i + 1) = j ∧
    checked_i32 (2 * j + 1) = Ok (2 * j + 1) ∧ vec_at (g_pipes s) (2 * j + 1) = Ok (outlet (g_pipes s) j).
Proof.
  intros Hwf Hi. destruct (wf_num _ Hwf) as [Hn Hn']. pose proof (wf_pipes _ Hwf) as Hlen.
  set (j := if numPipes s <=? i + 1 then i + 1 - numPipes s else i + 1).
  assert (0 ≤ j < numPipes s) by (unfold j; destruct (Z.leb_spec (numPipes s) (i + 1)); lia).
  exists j. split_and!; [lia|lia|apply checked_i32_ok; lia|done|apply checked_i32_ok; lia|].
  apply vec_at_ok. lia.
Qed.

(** All but [quit_called] of a run. *)
Record counted (total : Z) s : Prop := {
  co_wf : wf s;
  co_bound : bound s;
  co_reads : 0 ≤ g_reads s;
  co_sum : Z.of_nat (inflight s) + g_reads s = g_fired s;
  co_total : g_fired s + Z.max 0 (g_writes s) = total;
  co_room : (inflight s ≤ room)%nat;
  co_end : inflight s = 0%nat → g_writes s ≤ 0
}.

Lemma check_quit_ok total s :
  counted total s → quit_called s = false →
  ∃ s', (if g_fired s =? g_reads s then modify (set_quit true) else mret tt : M (bench K) unit) s = Ok (tt, s') ∧
    running total s' ∧ same_ring s s' ∧ g_reads s' = g_reads s ∧ ∀ j, waits s' j = waits s j.
Proof.
  intros [Hwf Hb Hreads Hsum Htot Hroom Hend] Hq.
  destruct (Z.eqb_spec (g_fired s) (g_reads s)) as [He|He]; [exists (set_quit true s)|exists s].
  - assert (Hsame : same_ring s (set_quit true s)) by by split_and!.
    split_and!; try done. split; try done; [by apply (same_ring_wf s)|].
    change (inflight (set_quit true s)) with (inflight s). split; [intros _; lia|done].
  - split_and!; try done. split; try done. rewrite Hq. split; [done|lia].
Qed.

(** One callback reads one byte, and sends one on while there are writes to do. *)
Lemma readCallback_ok total s i :
  running total s → total < 2 ^ 31 → 0 ≤ i < numPipes s → (0 < waits s i)%nat →
  ∃ s', readCallback (inlet (g_pipes s) i) i s = Ok (tt, s') ∧ running total s' ∧ same_ring s s' ∧
    g_reads s' = g_reads s + 1 ∧
    ∀ j, 0 ≤ j < numPipes s → j ≠ i → (waits s j ≤ waits s' j)%nat.
Proof.
  intros [Hwf Hb Hreads Hsum Htot Hroom Hquit Hend] Hmax Hi Hw.
  destruct (recv_one_ok s i Hwf Hi Hw) as (k & Hrecv & Hsame & Hfl & Hother).
  set (s1 := set_kernel k s) in *. unfold readCallback. rewrite (M_bind_ok _ _ _ _ _ Hrecv). mstep.
  change (id s1) with s1. change (g_reads s1) with (g_reads s). change (g_writes s1) with (g_writes s).
  change (g_fired s1) with (g_fired s).
  rewrite (i32_small 1), checked_i32_ok by lia. mstep.
  set (s2 := set_counts (g_reads s + 1) (g_writes s) (g_fired s) s1).
  change (id s2) with s2. change (g_writes s2) with (g_writes s).
  assert (Hsame2 : same_ring s s2) by exact Hsame.
  assert (Hwf2 : wf s2) by by apply (same_ring_wf s).
  assert (Hfl2 : inflight s = S (inflight s2)) by exact Hfl.
  assert (Hq : quit_called s = false) by (destruct (quit_called s); [destruct Hquit as [Hz _]; specialize (Hz eq_refl); lia|done]).
  destruct (Z.ltb_spec 0 (g_writes s)) as [Hpos|Hnone].
  - destruct (next_outlet s2 i Hwf2 Hi) as (j & Hj & E1 & E2 & E3 & E4). mstep. rewrite E1. mstep.
    rewrite E2, E3. mstep. rewrite E4. mstep.
    destruct (send_one_ok s2 j Hwf2 Hj ltac:(lia)) as (k3 & Hsend & Hsame3 & Hfl3 & Hother3).
    rewrite (M_bind_ok _ _ _ _ _ Hsend). change (g_fired s2) with (g_fired s).
    rewrite checked_i32_ok by lia. mstep.
    set (s4 := set_counts _ _ _ (set_kernel k3 s2)). change (id s4) with s4.
    assert (Hfl4 : inflight s4 = inflight s) by (change (inflight (set_kernel k3 s2) = inflight s); lia).
    assert (Hsame4 : same_ring s s4) by (etrans; [exact Hsame2|exact Hsame3]).
    destruct (check_quit_ok total s4) as (s5 & Hrun & Hrunning & Hsame5 & Hreads5 & Hw5); [|done|].
    { split; try (cbn in *; lia); [by apply (same_ring_wf s)|by apply (same_ring_bound s)]. }
    exists s5. split_and!; [done|done|by etrans|done|]. intros j' Hj' Hne. rewrite Hw5.
    rewrite <- (Hother j' Hj' Hne). by apply Hother3.
  - mstep. change (id s2) with s2. assert (Hfl4 : inflight s2 = pred (inflight s)) by lia.
    destruct (check_quit_ok total s2) as (s5 & Hrun & Hrunning & Hsame5 & Hreads5 & Hw5); [|done|].
    { split; try (cbn in *; lia); [done|by apply (same_ring_bound s)]. }
    exists s5. split_and!; [done|done|by etrans|done|]. intros j' Hj' Hne. rewrite Hw5.
    by rewrite <- (Hother j' Hj' Hne).
Qed.

Lemma vec_at_lookup {A} (v : list A) i x : 0 ≤ i → v !! Z.to_nat i = Some x → vec_at v i = Ok x.
Proof. intros Hi Hx. unfold vec_at. by rewrite (proj2 (Z.ltb_ge i 0)), Hx by lia. Qed.

(** The callbacks of one [poll]. *)
Lemma batch_ok total xs s :
  running total s → total < 2 ^ 31 → NoDup xs →
  (∀ i, i ∈ xs → 0 ≤ i < numPipes s ∧ (0 < waits s i)%nat) →
  ∃ s', for_each bound_callback xs s = Ok (tt, s') ∧ running total s' ∧ same_ring s s' ∧
    g_reads s' = g_reads s + Z.of_nat (length xs).
Proof.
  intros Hrun Hmax. revert s Hrun. induction xs as [|i xs IH]; intros s Hrun Hnd Hxs; cbn [for_each length].
  { exists s. split_and!; try done. lia. }
  apply NoDup_cons in Hnd as [Hi Hnd]. destruct (Hxs i ltac:(by left)) as [Hr Hw].
  destruct (readCallback_ok total s i Hrun Hmax Hr Hw) as (s1 & Hcall & Hrun1 & Hsame1 & Hreads1 & Hother1).
  assert (Hhandle : bound_callback i s = Ok (tt, s1)).
  { unfold bound_callback. mstep. change (id s) with s.
    by rewrite (vec_at_lookup _ _ _ (proj1 Hr) (ru_bound _ _ Hrun i Hr)). }
  rewrite (M_bind_ok _ _ _ _ _ Hhandle). pose proof Hsame1 as (En & _).
  destruct (IH s1 Hrun1 Hnd) as (s2 & Hall & Hrun2 & Hsame2 & Hreads2).
  { intros j Hj. destruct (Hxs j ltac:(by right)) as [Hjr Hjw]. rewrite En. split; [done|].
    assert (j ≠ i) by set_solver. pose proof (Hother1 j Hjr ltac:(done)). lia. }
  exists s2. split_and!; [done|done|by etrans|lia].
Qed.

(** The readable channels of a run. *)
Lemma readable_waits s i :
  wf s → bound s → readable s i = true ↔ 0 ≤ i < numPipes s ∧ (0 < waits s i)%nat.
Proof.
  intros Hwf Hb. unfold readable. destruct (Z.ltb_spec i 0); [split; [done|lia]|].
  destruct (decide (i < numPipes s)) as [Hi|Hi].
  - rewrite (Hb i) by lia. rewrite bool_decide_eq_true. unfold waits. split; [lia|tauto].
  - pose proof (wf_length _ Hwf). rewrite lookup_ge_None_2 by lia. split; [done|lia].
Qed.

(** Nothing is reported only if no byte is on its way. *)
Lemma reports_some s batch :
  wf s → bound s → reports s batch → (0 < inflight s)%nat → batch ≠ [].
Proof.
  intros Hwf Hb (_ & _ & Hsome) Hfl. apply Hsome.
  destruct (sum_positive _ _ Hfl) as (i & Hi%elem_of_seqZ & Hw).
  exists i. apply readable_waits; [done..|]. split; [lia|done].
Qed.

Lemma polling_ok total polls s :
  running total s → total < 2 ^ 31 → quit_called s = false → total - g_reads s ≤ Z.of_nat polls →
  ∃ s', polling bound_callback polls s = Ok (tt, s') ∧ running total s' ∧ same_ring s s' ∧ quit_called s' = true.
Proof.
  intros Hrun Hmax. revert s Hrun. induction polls as [|polls IH]; intros s Hrun Hq Hfuel;
    assert (Hfl : (0 < inflight s)%nat)
      by (destruct Hrun as [_ _ _ _ _ _ Hquit _]; rewrite Hq in Hquit;
          destruct (inflight s); [discriminate (proj2 Hquit eq_refl)|lia]).
  { destruct Hrun. lia. }
  destruct (polling_law bound_callback polls s) as (batch & Hrep & ->).
  pose proof (reports_some s batch (ru_wf _ _ Hrun) (ru_bound _ _ Hrun) Hrep Hfl) as Hsome.
  destruct (batch_ok total batch s Hrun Hmax (proj1 Hrep)) as (s1 & Hall & Hrun1 & Hsame1 & Hreads1).
  { intros i Hi. apply readable_waits; [apply Hrun..|]. by apply Hrep. }
  rewrite (M_bind_ok _ _ _ _ _ Hall). mstep. change (id s1) with s1.
  destruct (quit_called s1) eqn:Hq1; [by exists s1|].
  destruct batch; [done|]. cbn [length] in Hreads1.
  destruct (IH s1 Hrun1 Hq1) as (s2 & Ht & Hrun2 & Hsame2 & Hq2); [lia|].
  exists s2. split_and!; [done|done|by etrans|done].
Qed.

(** *** The start of a run *)

Lemma bind_all_ok s :
  wf s → ∃ s', for_each bind_channel (seqZ 0 (numPipes s)) s = Ok (tt, s') ∧ wf s' ∧ bound s' ∧
    kernel s' = kernel s ∧ numPipes s' = numPipes s ∧ numActive s' = numActive s ∧
    numWrites s' = numWrites s ∧ g_pipes s' = g_pipes s.
Proof.
  intros Hwf.
  pose (I := λ (l : list Z) s', wf s' ∧ kernel s' = kernel s ∧ numPipes s' = numPipes s ∧
    numActive s' = numActive s ∧ numWrites s' = numWrites s ∧ g_pipes s' = g_pipes s ∧
    (∀ i, i ∈ l → 0 ≤ i < numPipes s) ∧
    ∀ i, 0 ≤ i < numPipes s → i ∉ l → g_channels s' !! Z.to_nat i = Some (inlet (g_pipes s) i, Some i)).
  assert (Hwp : wp (for_each bind_channel (seqZ 0 (numPipes s))) (λ _ s', I [] s') (λ _, False) s).
  { apply wp_for_each.
    - split_and!; try done; [intros i Hi%elem_of_seqZ; lia|]. intros i Hi Hn. destruct Hn. apply elem_of_seqZ. lia.
    - intros i l s1 (Hwf1 & Hk & Hn & Ha & Hw & Hp & Hin & Hdone). destruct (Hin i ltac:(by left)) as [Hi0 Hi1].
      destruct (wf_channel _ Hwf1 i ltac:(lia)) as [cb Hcb]. unfold wp, bind_channel. mstep. change (id s1) with s1.
      rewrite (vec_at_lookup _ _ _ Hi0 Hcb). mstep. cbn [fst].
      assert (Hat : ∀ j, 0 ≤ j → j ≠ i → Z.to_nat i ≠ Z.to_nat j) by lia.
      pose proof (wf_length _ Hwf1) as Hlen.
      assert (Hself : <[Z.to_nat i := (inlet (g_pipes s1) i, Some i)]> (g_channels s1) !! Z.to_nat i =
        Some (inlet (g_pipes s1) i, Some i)) by (apply list_lookup_insert_eq; lia).
      split_and!; try done.
      + destruct Hwf1 as [? ? ? ? ? Hch]. split; cbn; try done; [by rewrite length_insert|].
        intros j Hj. destruct (decide (j = i)) as [->|Hne]; [by eexists|].
        destruct (Hch j Hj) as [cb' Hcb']. exists cb'. by rewrite list_lookup_insert_ne by (apply Hat; [lia|done]).
      + intros j Hj. apply Hin. by right.
      + cbn. intros j Hj Hnj. destruct (decide (j = i)) as [->|Hne]; [by rewrite Hself, Hp|].
        rewrite list_lookup_insert_ne by (apply Hat; [lia|done]). apply Hdone; [done|]. set_solver. }
  unfold wp in Hwp. destruct (for_each _ _ s) as [[[] s']|]; [|done].
  destruct Hwp as (Hwf' & Hk & Hn & Ha & Hw & Hp & _ & Hdone). exists s'. split_and!; try done.
  intros i Hi. rewrite Hp. apply Hdone; [by rewrite Hn in Hi|apply not_elem_of_nil].
Qed.

(** The first bytes go to pairs that exist. *)
Lemma first_outlet s i :
  wf s → 1 ≤ numActive s → 0 ≤ i < numActive s →
  let space := numPipes s `quot` numActive s * 2 in
  ∃ j, 0 ≤ j < numPipes s ∧ checked_i32 space = Ok space ∧ checked_i32 (i * space) = Ok (i * space) ∧
    checked_i32 (i * space + 1) = Ok (i * space + 1) ∧
    vec_at (g_pipes s) (i * space + 1) = Ok (outlet (g_pipes s) j).
Proof.
  intros Hwf Ha Hi space. destruct (wf_num _ Hwf) as [Hn Hn']. pose proof (wf_pipes _ Hwf) as Hlen.
  set (q := numPipes s `quot` numActive s). assert (Hq : q = numPipes s / numActive s) by (apply Z.quot_div_nonneg; lia).
  assert (0 ≤ q) by (rewrite Hq; apply Z.div_pos; lia).
  assert (numActive s * q ≤ numPipes s) by (rewrite Hq; apply Z.mul_div_le; lia).
  assert (Hj : 0 ≤ i * q < numPipes s) by nia.
  assert (Es : i * space = 2 * (i * q)) by (unfold space; fold q; ring).
  exists (i * q). split_and!; [lia|lia|apply checked_i32_ok; unfold space; fold q; nia|apply checked_i32_ok; lia|apply checked_i32_ok; lia|].
  rewrite Es. apply vec_at_ok. lia.
Qed.

Lemma first_sends_ok s :
  wf s → bound s → inflight s = O → 1 ≤ numActive s ≤ Z.of_nat room →
  ∃ s', for_each (send_first (numPipes s `quot` numActive s * 2)) (seqZ 0 (numActive s)) s = Ok (tt, s') ∧
    same_ring s s' ∧ Z.of_nat (inflight s') = numActive s.
Proof.
  intros Hwf Hb Hnone Ha. set (space := _ * 2).
  pose (I := λ (l : list Z) s', same_ring s s' ∧ Z.of_nat (inflight s') + Z.of_nat (length l) = numActive s ∧
    (∀ i, i ∈ l → 0 ≤ i < numActive s)).
  assert (Hwp : wp (for_each (send_first space) (seqZ 0 (numActive s))) (λ _ s', I [] s') (λ _, False) s).
  { apply wp_for_each.
    - split_and!; try done; [rewrite Hnone, length_seqZ; lia|]. intros i Hi%elem_of_seqZ. lia.
    - intros i l s1 (Hsame & Hsum & Hin). cbn [length] in Hsum. pose proof Hsame as (En & Ep & _).
      destruct (first_outlet s i Hwf ltac:(lia) (Hin i ltac:(by left))) as (j & Hj & _ & E2 & E3 & E4). fold space in E2, E3, E4.
      unfold wp, send_first. mstep. change (id s1) with s1. rewrite E2. mstep. rewrite E3. mstep. rewrite Ep, E4. mstep.
      destruct (send_one_ok s1 j) as (k & Hsend & Hsame1 & Hfl & _); [by apply (same_ring_wf s)|lia|lia|].
      rewrite Ep in Hsend. rewrite (M_bind_ok _ _ _ _ _ Hsend).
      split_and!; [by etrans|rewrite Hfl; lia|intros x Hx; apply Hin; by right]. }
  unfold wp in Hwp. destruct (for_each _ _ s) as [[[] s']|]; [|done].
  destruct Hwp as (Hsame & Hsum & _). cbn in Hsum. exists s'. split_and!; try done. lia.
Qed.

(** The bytes a run passes on. *)
Definition total_reads s : Z := numActive s + Z.max 0 (numWrites s).

(** Arguments the program can work with. *)
Definition good_arguments s : Prop :=
  1 ≤ numActive s ≤ Z.of_nat room ∧ total_reads s < 2 ^ 31.

(** Between two runs. *)
Definition at_rest s : Prop := wf s ∧ inflight s = O ∧ good_arguments s.

Lemma runOnce_ok s polls :
  at_rest s → total_reads s ≤ Z.of_nat polls →
  ∃ s', runOnce polls s = Ok (tt, s') ∧ at_rest s' ∧ total_reads s' = total_reads s ∧
    numPipes s' = numPipes s ∧ g_reads s' = total_reads s ∧ g_fired s' = total_reads s ∧ g_writes s' ≤ 0.
Proof.
  intros (Hwf & Hnone & Ha & Hmax) Hfuel. unfold runOnce. mstep. change (id s) with s.
  destruct (bind_all_ok s Hwf) as (s1 & Hbind & Hwf1 & Hb1 & Hk1 & En & Ea & Ew & Ep).
  rewrite (M_bind_ok _ _ _ _ _ Hbind). rewrite (proj2 (Z.eqb_neq (numActive s) 0)) by lia. mstep.
  destruct (first_outlet s 0 Hwf ltac:(lia) ltac:(lia)) as (_ & _ & Hspace & _). rewrite Hspace. mstep.
  assert (Hnone1 : inflight s1 = O).
  { unfold inflight, waits. rewrite En, Hk1, Ep. exact Hnone. }
  destruct (first_sends_ok s1 Hwf1 Hb1 Hnone1 ltac:(lia)) as (s2 & Hsend & Hsame2 & Hfl2).
  rewrite En, Ea in Hsend. rewrite (M_bind_ok _ _ _ _ _ Hsend). mstep. rewrite loop_law.
  set (s3 := set_quit false (set_counts 0 (numWrites s) (numActive s) s2)).
  assert (Hsame3 : same_ring s1 s3) by exact Hsame2.
  assert (Hfl3 : Z.of_nat (inflight s3) = numActive s) by (change (inflight s3) with (inflight s2); lia).
  assert (Hrun3 : running (total_reads s) s3).
  { split; [by apply (same_ring_wf s1)|by apply (same_ring_bound s1)|done|cbn; lia|done|lia|split; [done|lia]|lia]. }
  destruct (polling_ok (total_reads s) polls s3 Hrun3 Hmax eq_refl) as (s4 & Ht & Hrun4 & Hsame4 & Hq4).
  { cbn. lia. }
  exists s4. assert (Hsame : same_ring s1 s4) by by etrans.
  destruct Hrun4 as [Hwf4 _ _ Hsum4 Htot4 _ Hquit4 Hend4]. apply Hquit4 in Hq4. specialize (Hend4 Hq4).
  destruct Hsame as (En4 & _ & _ & _ & Ea4 & Ew4). unfold total_reads in *. rewrite Ea4, Ew4, Ea, Ew.
  split; [done|]. split; [|lia]. split; [done|]. split; [done|].
  unfold good_arguments, total_reads. rewrite Ea4, Ew4, Ea, Ew. lia.
Qed.

(** *** The making of the ring *)

(** The first [n] pairs are made. *)
Record pairs_made (n : Z) s : Prop := {
  pm_num : 1 ≤ numPipes s ∧ 2 * numPipes s < 2 ^ 31;
  pm_pipes : Z.of_nat (length (g_pipes s)) = 2 * numPipes s;
  pm_open i x : Z.of_nat i < 2 * n → g_pipes s !! i = Some x → is_Some (peer (kernel s) x);
  pm_inj i j x : Z.of_nat i < 2 * n → Z.of_nat j < 2 * n →
    g_pipes s !! i = Some x → g_pipes s !! j = Some x → i = j;
  pm_peer i : 0 ≤ i < n → peer (kernel s) (outlet (g_pipes s) i) = Some (inlet (g_pipes s) i);
  pm_empty i : 0 ≤ i < n → waits s i = O
}.

Definition paired (n a b : Z) k s : bench K :=
  set_pipes (<[Z.to_nat (n * 2 + 1) := b]> (<[Z.to_nat (n * 2) := a]> (g_pipes s))) (set_kernel k s).

(** What the vector holds after that. *)
Lemma paired_lookup n a b k s i :
  0 ≤ n < numPipes s → Z.of_nat (length (g_pipes s)) = 2 * numPipes s →
  g_pipes (paired n a b k s) !! i =
    if decide (i = Z.to_nat (n * 2 + 1)) then Some b
    else if decide (i = Z.to_nat (n * 2)) then Some a else g_pipes s !! i.
Proof.
  intros Hn Hlen. cbn. case_decide as H1; [subst|].
  - apply list_lookup_insert_eq. rewrite length_insert. lia.
  - rewrite list_lookup_insert_ne by done. case_decide as H2; [subst|by rewrite list_lookup_insert_ne].
    apply list_lookup_insert_eq. lia.
Qed.

Lemma paired_ends n a b k s :
  0 ≤ n < numPipes s → Z.of_nat (length (g_pipes s)) = 2 * numPipes s →
  let v := g_pipes (paired n a b k s) in
  inlet v n = a ∧ outlet v n = b ∧
  ∀ i, 0 ≤ i < n → inlet v i = inlet (g_pipes s) i ∧ outlet v i = outlet (g_pipes s) i ∧
    g_pipes s !! Z.to_nat (2 * i) = Some (inlet (g_pipes s) i) ∧
    g_pipes s !! Z.to_nat (2 * i + 1) = Some (outlet (g_pipes s) i).
Proof.
  intros Hn Hlen v.
  assert (Hnth : ∀ i x, v !! i = Some x → nth i v 0 = x) by (intros i x Hx; by apply nth_lookup_Some).
  assert (Hold : ∀ i, (i < length (g_pipes s))%nat → g_pipes s !! i = Some (nth i (g_pipes s) 0)).
  { intros i Hi. destruct (lookup_lt_is_Some_2 _ _ Hi) as [x Hx]. by rewrite Hx, (nth_lookup_Some _ _ 0 x Hx). }
  split_and!.
  - apply Hnth. unfold v. rewrite paired_lookup by done. by rewrite decide_False, decide_True by lia.
  - apply Hnth. unfold v. rewrite paired_lookup by done. by rewrite decide_True by lia.
  - intros i Hi. split_and!.
    + apply Hnth. unfold v. rewrite paired_lookup by done. rewrite !decide_False by lia. apply Hold. lia.
    + apply Hnth. unfold v. rewrite paired_lookup by done. rewrite !decide_False by lia. apply Hold. lia.
    + apply Hold. lia.
    + apply Hold. lia.
Qed.

Lemma pairs_made_step n s a b k :
  pairs_made n s → 0 ≤ n < numPipes s → sys_socketpair (kernel s) = (Some (a, b), k) →
  pairs_made (n + 1) (paired n a b k s).
Proof.
  intros [Hnum Hlen Hopen Hinj Hpeer Hempty] Hn Hpair. pose proof (socketpair_law (kernel s)) as Hlaw.
  rewrite Hpair in Hlaw. destruct Hlaw as (Hab & Hna & Hnb & Hpa & Hpb & Hwa & Hrest).
  assert (Hnew : ∀ i x, Z.of_nat i < 2 * n → g_pipes s !! i = Some x → x ≠ a ∧ x ≠ b).
  { intros i x Hi Hx. destruct (Hopen i x Hi Hx) as [y Hy]. split; intros ->; congruence. }
  destruct (paired_ends n a b k s Hn Hlen) as (Ein & Eout & Hends). set (s' := paired n a b k s) in *.
  assert (Hat : ∀ i x, Z.of_nat i < 2 * (n + 1) → g_pipes s' !! i = Some x →
    (i = Z.to_nat (n * 2) ∧ x = a) ∨ (i = Z.to_nat (n * 2 + 1) ∧ x = b) ∨
    (Z.of_nat i < 2 * n ∧ g_pipes s !! i = Some x ∧ x ≠ a ∧ x ≠ b)).
  { intros i x Hi. unfold s'. rewrite paired_lookup by done. case_decide; [intros [= <-]; auto|].
    case_decide; [intros [= <-]; auto|]. intros Hx. right; right. assert (Z.of_nat i < 2 * n) by lia.
    destruct (Hnew i x); auto. }
  split; [done|cbn; by rewrite !length_insert|..].
  - intros i x Hi Hx. destruct (Hat i x Hi Hx) as [[_ ->]|[[_ ->]|(Hi' & Hx' & Hxa & Hxb)]];
      [by eexists|by eexists|]. cbn. destruct (Hrest x Hxa Hxb) as [-> _]. by apply (Hopen i).
  - intros i j x Hi Hj Hx Hy. destruct (Hat i x Hi Hx) as [[Ei Ea]|[[Ei Ea]|(Hi' & Hx' & Hxa & Hxb)]],
      (Hat j x Hj Hy) as [[Ej Eb]|[[Ej Eb]|(Hj' & Hy' & Hya & Hyb)]]; try congruence.
    by apply (Hinj i j x).
  - intros i Hi. destruct (decide (i = n)) as [->|Hne]; [by rewrite Ein, Eout|].
    destruct (Hends i ltac:(lia)) as (-> & -> & _ & Hx). assert (Hl : Z.of_nat (Z.to_nat (2 * i + 1)) < 2 * n) by lia.
    destruct (Hnew _ _ Hl Hx) as [? ?].
    cbn. destruct (Hrest (outlet (g_pipes s) i)) as [-> _]; [done..|]. apply Hpeer. lia.
  - intros i Hi. unfold waits. destruct (decide (i = n)) as [->|Hne]; [by rewrite Ein|].
    destruct (Hends i ltac:(lia)) as (-> & _ & Hx & _). assert (Hl : Z.of_nat (Z.to_nat (2 * i)) < 2 * n) by lia.
    destruct (Hnew _ _ Hl Hx) as [? ?].
    cbn. destruct (Hrest (inlet (g_pipes s) i)) as [_ ->]; [done..|]. apply Hempty. lia.
Qed.

(** The arguments and the channels are not touched. *)
Definition same_arguments s s' : Prop :=
  numPipes s' = numPipes s ∧ numActive s' = numActive s ∧ numWrites s' = numWrites s.

(** One of the first [n] pairs asked for is refused. *)
Fixpoint refuses k (n : nat) : bool :=
  match n with
  | O => false
  | S n => let '(r, k') := sys_socketpair k in if r is None then true else refuses k' n
  end.

Lemma make_pairs_ok (m : nat) n s :
  pairs_made n s → 0 ≤ n → n + Z.of_nat m = numPipes s →
  ∃ s', make_pairs (seqZ n (Z.of_nat m)) s = Ok (negb (refuses (kernel s) m), s') ∧ same_arguments s s' ∧
    g_channels s' = g_channels s ∧ (refuses (kernel s) m = false → pairs_made (numPipes s) s').
Proof.
  revert n s. induction m as [|m IH]; intros n s Hmade Hn Hm.
  { exists s. split_and!; try done. intros _. by replace (numPipes s) with n by lia. }
  rewrite seqZ_cons by lia. cbn [make_pairs refuses]. replace (Z.pred (Z.of_nat (S m))) with (Z.of_nat m) by lia.
  destruct (sys_socketpair (kernel s)) as [[[a b]|] k] eqn:Hpair.
  - rewrite (M_bind_ok _ _ s (Some (a, b)) (set_kernel k s)) by (cbv beta; by rewrite Hpair). mstep.
    change (set_pipes _ _) with (paired n a b k s).
    destruct (IH (Z.succ n) (paired n a b k s)) as (s' & Hrun & Hargs & Hch & Hok).
    { apply pairs_made_step; [done|lia|done]. }
    { lia. }
    { change (numPipes (paired n a b k s)) with (numPipes s). lia. }
    exists s'. by split_and!.
  - rewrite (M_bind_ok _ _ s None (set_kernel k s)) by (cbv beta; by rewrite Hpair).
    exists (set_kernel k s). by split_and!.
Qed.

Lemma new_channels_ok s :
  pairs_made (numPipes s) s → g_channels s = [] →
  ∃ s', for_each new_channel (seqZ 0 (numPipes s)) s = Ok (tt, s') ∧ same_arguments s s' ∧ wf s' ∧ inflight s' = O.
Proof.
  intros Hmade Hnone. destruct (pm_num _ _ Hmade) as [Hnum Hmax]. pose proof (pm_pipes _ _ Hmade) as Hlen.
  pose (chan := λ i, (inlet (g_pipes s) i, None : option Z)).
  assert (Hrun : ∀ m n s1, 0 ≤ n → n + Z.of_nat m = numPipes s → s1 = set_channels (chan <$> seqZ 0 n) s →
    for_each new_channel (seqZ n (Z.of_nat m)) s1 = Ok (tt, set_channels (chan <$> seqZ 0 (numPipes s)) s)).
  { induction m as [|m IH]; intros n s1 Hn Hm ->.
    { by replace (numPipes s) with n by lia. }
    rewrite seqZ_cons by lia. cbn [for_each]. replace (Z.pred (Z.of_nat (S m))) with (Z.of_nat m) by lia.
    assert (Hone : new_channel n (set_channels (chan <$> seqZ 0 n) s) =
      Ok (tt, set_channels (chan <$> seqZ 0 (Z.succ n)) s)).
    { unfold new_channel. mstep. cbn [id g_pipes g_channels set_channels]. rewrite (vec_at_ok _ _ 0) by lia. mstep.
      do 2 f_equal. unfold set_channels. cbn. f_equal.
      replace (Z.succ n) with (n + 1) by lia. rewrite (seqZ_app 0 n 1), fmap_app by lia. cbn.
      unfold chan, inlet. by rewrite (Z.mul_comm n 2). }
    rewrite (M_bind_ok _ _ _ _ _ Hone). apply IH; [lia|lia|done]. }
  exists (set_channels (chan <$> seqZ 0 (numPipes s)) s). split_and!; [|done..| |].
  - replace (seqZ 0 (numPipes s)) with (seqZ 0 (Z.of_nat (Z.to_nat (numPipes s)))) at 1 by (f_equal; lia).
    apply Hrun; [lia|lia|]. cbn. destruct s; cbn in *. by subst.
  - destruct Hmade as [_ _ _ Hinj Hpeer _]. split; cbn; try done.
    + apply NoDup_alt. intros i j x Hx Hy. apply (Hinj i j x); [..|done|done].
      * apply lookup_lt_Some in Hx. lia.
      * apply lookup_lt_Some in Hy. lia.
    + rewrite length_fmap, length_seqZ. lia.
    + intros i Hi. exists None. rewrite list_lookup_fmap, lookup_seqZ_lt by lia. cbn. unfold chan.
      by replace (0 + Z.of_nat (Z.to_nat i)) with i by lia.
  - destruct (inflight _) eqn:Hfl; [done|exfalso].
    destruct (sum_positive (waits (set_channels (chan <$> seqZ 0 (numPipes s)) s)) (seqZ 0 (numPipes s)))
      as (i & Hi%elem_of_seqZ & Hw).
    { change (0 < inflight (set_channels (chan <$> seqZ 0 (numPipes s)) s))%nat. lia. }
    change (0 < waits s i)%nat in Hw. rewrite (pm_empty _ _ Hmade i) in Hw; lia.
Qed.

(** The globals when the program starts. *)
Definition start k : bench K := mk_bench k 0 0 0 [] [] 0 0 0 false.

(** Either a pair is refused, or the ring is ready and the 25 runs begin. *)
Lemma main_set_up options n k :
  parse_options options = Some n → 1 ≤ n.1.1 → n.1.1 * 2 + 50 < 2 ^ 31 →
  if refuses k (Z.to_nat n.1.1) then ∀ polls, ∃ s', main polls options (start k) = Ok (1, s')
  else ∃ s', wf s' ∧ inflight s' = O ∧ numPipes s' = n.1.1 ∧ numActive s' = n.1.2 ∧ numWrites s' = n.2 ∧
    ∀ polls, main polls options (start k) = measure polls s'.
Proof.
  intros Hopt Hn Hmax. set (s1 := set_pipes (replicate (Z.to_nat (2 * n.1.1)) 0) (set_arguments n (start k))).
  assert (Hmade : pairs_made 0 s1).
  { split; cbn; [lia|rewrite length_replicate; lia|lia..]. }
  destruct (make_pairs_ok (Z.to_nat n.1.1) 0 s1 Hmade) as (s2 & Hpairs & Hargs & Hch & Hok); [lia|cbn; lia|].
  rewrite Z2Nat.id in Hpairs by lia. destruct Hargs as (En & Ea & Ew). change (kernel s1) with k in *.
  assert (Hmain : ∀ polls, main polls options (start k) = (if negb (refuses k (Z.to_nat n.1.1)) then
    for_each new_channel (seqZ 0 n.1.1);; measure polls else mret 1) s2).
  { intros polls. unfold main. rewrite Hopt. mstep. rewrite checked_i32_ok by lia. mstep.
    assert (Hresize : resize_pipes (set_arguments n (start k)) = Ok (tt, s1)).
    { unfold resize_pipes. mstep. cbn [id numPipes set_arguments]. rewrite checked_i32_ok by lia. mstep.
      by rewrite (proj2 (Z.ltb_ge (2 * n.1.1) 0)) by lia. }
    rewrite (M_bind_ok _ _ _ _ _ Hresize). mstep. change (numPipes (id s1)) with n.1.1.
    by rewrite (M_bind_ok _ _ _ _ _ Hpairs). }
  change (numPipes s1) with n.1.1 in *. destruct (refuses k (Z.to_nat n.1.1)); cbn [negb] in Hmain.
  - intros polls. exists s2. by rewrite Hmain.
  - specialize (Hok eq_refl). rewrite <- En in Hok.
    destruct (new_channels_ok s2 Hok Hch) as (s3 & Hnew & (En3 & Ea3 & Ew3) & Hwf & Hfl).
    exists s3. split_and!; [done|done|congruence|by rewrite Ea3|by rewrite Ew3|].
    intros polls. rewrite Hmain. rewrite En in Hnew. by rewrite (M_bind_ok _ _ _ _ _ Hnew).
Qed.

(** What each run leaves: the ring as it was and empty, and as many bytes read as sent. *)
Definition complete total s : Prop :=
  wf s ∧ inflight s = O ∧ g_reads s = total ∧ g_fired s = total ∧ g_writes s ≤ 0.

Lemma runs_ok polls xs s :
  at_rest s → total_reads s ≤ Z.of_nat polls → xs ≠ [] →
  ∃ s', for_each (λ _ : Z, runOnce polls) xs s = Ok (tt, s') ∧ complete (total_reads s) s' ∧
    numPipes s' = numPipes s.
Proof.
  revert s. induction xs as [|x xs IH]; intros s Hrest Hfuel Hne; [done|]. cbn [for_each].
  destruct (runOnce_ok s polls Hrest Hfuel) as (s1 & Hrun & Hrest1 & Ht & En & Hr & Hf & Hw).
  rewrite (M_bind_ok _ _ _ _ _ Hrun). destruct xs as [|y xs].
  { exists s1. destruct Hrest1 as (? & ? & _). split_and!; [done|by split_and!|done]. }
  destruct (IH s1 Hrest1) as (s2 & Hruns & Hdone & En2); [by rewrite Ht|done|].
  exists s2. rewrite Ht in Hdone. split_and!; [done|done|congruence].
Qed.

(** The destructor of a channel returns and leaves the program's data alone. *)
Definition destructors_return : Prop :=
  ∀ c s, ∃ k, delete_channel c s = Ok (tt, set_kernel k s).

Lemma deletes_ok s :
  destructors_return → wf s →
  ∃ k, for_each delete_one (seqZ 0 (numPipes s)) s = Ok (tt, set_kernel k s).
Proof.
  intros Hret Hwf.
  assert (Hall : ∀ xs k, (∀ i, i ∈ xs → 0 ≤ i < numPipes s) →
    ∃ k', for_each delete_one xs (set_kernel k s) = Ok (tt, set_kernel k' s)).
  { induction xs as [|i xs IH]; intros k Hin; [by exists k|]. cbn [for_each].
    destruct (wf_channel _ Hwf i) as [cb Hcb]; [apply Hin; by left|].
    destruct (Hret (inlet (g_pipes s) i, cb) (set_kernel k s)) as [k1 Hk1].
    assert (Hone : delete_one i (set_kernel k s) = Ok (tt, set_kernel k1 s)).
    { unfold delete_one. mstep. cbn [id g_channels set_kernel].
      rewrite (vec_at_lookup _ _ _ (proj1 (Hin i ltac:(by left))) Hcb). mstep. exact Hk1. }
    rewrite (M_bind_ok _ _ _ _ _ Hone). apply IH. intros j Hj. apply Hin. by right. }
  destruct (Hall (seqZ 0 (numPipes s)) (kernel s)) as [k Hk].
  { intros i Hi%elem_of_seqZ. lia. }
  exists k. replace s with (set_kernel (kernel s) s) at 2 by by destruct s. exact Hk.
Qed.

(** C19. The benchmark ends, whatever order the loop reports the descriptors in. With [-n] at
    least 1, [-a] from 1 to what a socket can hold and sums that fit an [int], [main]
    returns 1 if the kernel refuses one of the [-n] pairs. If it refuses none, the ring is
    made, every descriptor and channel distinct, and the 25 runs follow: each of them
    returns, and has not read outside the ring, received from an empty socket or
    overflowed a counter; after each, as many bytes have been read as were sent,
    [numActive] and the writes, and none is left behind. Then the channels are deleted,
    and if their destructors return, [main] returns 0. [numActive + max 0 numWrites]
    polls are enough for a run. *)
Theorem benchmark_ends polls options n k :
  parse_options options = Some n →
  1 ≤ n.1.1 → n.1.1 * 2 + 50 < 2 ^ 31 → 1 ≤ n.1.2 ≤ Z.of_nat room → n.1.2 + Z.max 0 n.2 < 2 ^ 31 →
  n.1.2 + Z.max 0 n.2 ≤ Z.of_nat polls →
  if refuses k (Z.to_nat n.1.1) then ∃ s', main polls options (start k) = Ok (1, s')
  else ∃ s, wf s ∧ numPipes s = n.1.1 ∧ inflight s = O ∧
    (∀ j, 1 ≤ j → ∃ s', for_each (λ _, runOnce polls) (seqZ 0 j) s = Ok (tt, s') ∧
      complete (n.1.2 + Z.max 0 n.2) s') ∧
    main polls options (start k) = measure polls s ∧
    (destructors_return → ∃ s', main polls options (start k) = Ok (0, s') ∧
      g_reads s' = n.1.2 + Z.max 0 n.2 ∧ g_fired s' = n.1.2 + Z.max 0 n.2).
Proof.
  intros Hopt Hn Hmax Ha Hsum Hfuel. pose proof (main_set_up options n k Hopt Hn Hmax) as Hset.
  destruct (refuses k (Z.to_nat n.1.1)); [apply Hset|].
  destruct Hset as (s & Hwf & Hfl & En & Ea & Ew & Hmain).
  assert (Ht : total_reads s = n.1.2 + Z.max 0 n.2) by (unfold total_reads; by rewrite Ea, Ew).
  assert (Hrest : at_rest s) by (split_and!; [done|done|unfold good_arguments; rewrite Ht, Ea; lia]).
  exists s. rewrite <- Ht in *. split_and!; [done|done|done| |done|].
  - intros j Hj. destruct (runs_ok polls (seqZ 0 j) s Hrest Hfuel) as (s' & ? & ? & _); [|by exists s'].
    by rewrite seqZ_cons by lia.
  - intros Hret. destruct (runs_ok polls (seqZ 0 25) s Hrest Hfuel) as (s' & Hruns & Hdone & _); [done|].
    destruct Hdone as (Hwf' & _ & Hr & Hf & _). destruct (deletes_ok s' Hret Hwf') as [k' Hdel].
    exists (set_kernel k' s'). rewrite Hmain. unfold measure. rewrite (M_bind_ok _ _ _ _ _ Hruns). mstep.
    change (id s') with s'. by rewrite (M_bind_ok _ _ _ _ _ Hdel).
Qed.

(** *** Arguments it does not check *)

Lemma polling_for_ever polls s :
  wf s → bound s → inflight s = O → quit_called s = false → polling bound_callback polls s = Err OutOfFuel.
Proof.
  intros Hwf Hb Hfl Hq. induction polls as [|polls IH]; [apply polling_stopped|].
  destruct (polling_law bound_callback polls s) as (batch & (_ & Hready & _) & ->).
  assert (batch = []) as ->.
  { destruct batch as [|i batch]; [done|]. specialize (Hready i ltac:(by left)).
    apply readable_waits in Hready as [Hi Hw]; [|done..].
    assert (waits s i ≤ inflight s)%nat by (apply sum_list_with_in, elem_of_seqZ; lia). lia. }
  cbn [for_each]. mstep. change (id s) with s. by rewrite Hq.
Qed.

(** With [-a 0] the first run divides by zero; with a negative [-a] it sends nothing and
    its loop never quits. *)
Lemma runOnce_bad s polls :
  wf s → inflight s = O → - 2 ^ 31 < numActive s ≤ 0 →
  runOnce polls s = Err (if numActive s =? 0 then DivByZero else OutOfFuel).
Proof.
  intros Hwf Hfl Ha. unfold runOnce. mstep. change (id s) with s.
  destruct (bind_all_ok s Hwf) as (s1 & Hbind & Hwf1 & Hb1 & Hk1 & En & Ea & Ew & Ep).
  rewrite (M_bind_ok _ _ _ _ _ Hbind). destruct (Z.eqb_spec (numActive s) 0) as [->|Hne]; [done|]. mstep.
  destruct (wf_num _ Hwf) as [Hn1 Hn2].
  assert (Hspace : checked_i32 (numPipes s `quot` numActive s * 2) = Ok (numPipes s `quot` numActive s * 2)).
  { apply checked_i32_ok. pose proof (Z.quot_opp_r (numPipes s) (- numActive s) ltac:(lia)) as Hopp.
    rewrite Z.opp_involutive, (Z.quot_div_nonneg _ (- numActive s)) in Hopp by lia.
    pose proof (Z.div_pos (numPipes s) (- numActive s) ltac:(lia) ltac:(lia)).
    pose proof (Z.mul_div_le (numPipes s) (- numActive s) ltac:(lia)).
    assert (numPipes s / - numActive s ≤ numPipes s) by (apply Z.div_le_upper_bound; nia). lia. }
  rewrite Hspace. mstep. replace (seqZ 0 (numActive s)) with (@nil Z) by (by rewrite seqZ_nil by lia).
  cbn [for_each]. mstep. rewrite loop_law. apply polling_for_ever; [..|done].
  1: by apply (same_ring_wf s1). 1: by apply (same_ring_bound s1).
  unfold inflight, waits in *. cbn. by rewrite En, Hk1, Ep.
Qed.

Lemma runs_fail polls s e :
  runOnce polls s = Err e → measure polls s = Err e.
Proof.
  intros He. unfold measure. apply M_bind_err. rewrite (seqZ_cons 0 25) by lia. cbn [for_each]. by apply M_bind_err.
Qed.

(** What the program does with arguments it does not check. [-n] negative: the vector of
    descriptors cannot have that length ([std::length_error]). [-n 0]: the first byte is
    sent through [g_pipes[1]] of an empty vector, or, with [-a 0], the division of the
    pipes by the active ones comes first. [-a 0]: a division by zero. [-a] negative: no
    byte is sent, [g_fired] is never [g_reads], and the loop never quits: no number of
    turns is enough. *)
Theorem arguments_unchecked polls options n k :
  parse_options options = Some n → - 2 ^ 30 ≤ n.1.1 → n.1.1 * 2 + 50 < 2 ^ 31 → - 2 ^ 31 < n.1.2 →
  (n.1.1 < 0 → main polls options (start k) = Err LengthError) ∧
  (n.1.1 = 0 → 0 ≤ n.1.2 →
    main polls options (start k) = Err (if n.1.2 =? 0 then DivByZero else OutOfBounds)) ∧
  (1 ≤ n.1.1 → n.1.2 ≤ 0 → refuses k (Z.to_nat n.1.1) = false →
    main polls options (start k) = Err (if n.1.2 =? 0 then DivByZero else OutOfFuel)).
Proof.
  intros Hopt Hlow Hmax Ha. split_and!.
  - intros Hneg. unfold main. rewrite Hopt. mstep. rewrite checked_i32_ok by lia. mstep.
    unfold resize_pipes. mstep. cbn [id numPipes set_arguments]. rewrite checked_i32_ok by lia. mstep.
    by rewrite (proj2 (Z.ltb_lt (2 * n.1.1) 0)) by lia.
  - intros Hz Hact. destruct n as [[n a] w]. cbn in *. subst n. unfold main. rewrite Hopt. mstep.
    cbn [fst snd]. set (s := set_pipes [] (set_arguments (0, a, w) (start k))).
    rewrite (M_bind_ok _ _ _ tt s) by done. mstep. change (numPipes (id s)) with 0. cbn [seqZ make_pairs for_each]. mstep.
    apply runs_fail. unfold runOnce. mstep. change (numPipes (id s)) with 0. change (numActive (id s)) with a.
    cbn [seqZ for_each]. mstep. destruct (Z.eqb_spec a 0) as [->|Hne]; [done|]. mstep.
    rewrite Z.quot_0_l by done. mstep. rewrite (seqZ_cons 0 a) by lia. cbn [for_each].
    done.
  - intros Hn Hact Href. pose proof (main_set_up options n k Hopt Hn Hmax) as Hset. rewrite Href in Hset.
    destruct Hset as (s & Hwf & Hfl & En & Ea & Ew & Hmain). rewrite Hmain, <- Ea. apply runs_fail, runOnce_bad; [done..|lia].
Qed.
End runs.

(** ** A kernel of pairs *)

(** The descriptors are numbered in pairs, a socket holds 200 bytes. *)
Record pairs := mk_pairs { made : nat; bytes : gmap Z nat }.
Definition twin (d : Z) : Z := if Z.even d then d + 1 else d - 1.
Definition unread (k : pairs) (d : Z) : nat := default O (bytes k !! d).
#[global] Instance pairs_pipes : Pipes pairs := {
  peer k d := if decide (0 ≤ d < 2 * Z.of_nat (made k)) then Some (twin d) else None;
  waiting := unread;
  room := 200;
  sys_socketpair k :=
    let a := 2 * Z.of_nat (made k) in (Some (a, a + 1), mk_pairs (S (made k)) (<[a := O]> (bytes k)));
  sys_recv k fd :=
    match unread k fd with
    | S w => (1, mk_pairs (made k) (<[fd := w]> (bytes k)))
    | O => (-1, k)
    end;
  sys_send k fd :=
    if decide (0 ≤ fd < 2 * Z.of_nat (made k) ∧ (unread k (twin fd) < 200)%nat)
    then (1, mk_pairs (made k) (<[twin fd := S (unread k (twin fd))]> (bytes k))) else (-1, k)
}.

#[global] Instance pairs_laws : PipeLaws pairs.
Proof.
  split; intros k.
  - cbn. set (n := Z.of_nat (made k)). assert (0 ≤ n) by (unfold n; lia).
    assert (E1 : twin (2 * n) = 2 * n + 1) by (unfold twin; by rewrite Z.even_mul).
    assert (E2 : twin (2 * n + 1) = 2 * n) by (unfold twin; rewrite Z.even_add, Z.even_mul; cbn; lia).
    rewrite !(decide_False (P := _ ∧ _)), !decide_True by lia. rewrite E1, E2. unfold unread. cbn.
    rewrite lookup_insert_eq. split_and!; try done; [lia|]. intros d Ha Hb. rewrite lookup_insert_ne by done.
    split; [|done]. repeat case_decide; lia || done.
  - intros fd Hw. cbn in *. destruct (unread k fd) as [|w] eqn:Hu; [lia|].
    split_and!; [done|done| |].
    + unfold unread; cbn. by rewrite lookup_insert_eq.
    + intros d Hd. unfold unread; cbn. by rewrite lookup_insert_ne.
  - intros fd other Hp Hr. cbn in *. case_decide as Hfd; [|done]. injection Hp as <-.
    rewrite decide_True by done. split_and!; [done|done| |].
    + unfold unread at 1; cbn. by rewrite lookup_insert_eq.
    + intros d Hd. unfold unread; cbn. by rewrite lookup_insert_ne.
Qed.

(** A library that reports every readable channel, the last one first. *)
Definition report_all (s : bench pairs) : list Z :=
  reverse (filter (λ i, readable s i = true) (seqZ 0 (Z.of_nat (length (g_channels s))))).

Fixpoint poll_turns (callback : Z → M (bench pairs) unit) (polls : nat) : M (bench pairs) unit :=
  match polls with
  | O => fail OutOfFuel
  | S polls => λ s,
      (for_each callback (report_all s);;
       s' ← gets id;
       if quit_called s' then mret tt else poll_turns callback polls) s
  end.

#[global] Instance simple_library : Library pairs := {
  loop callback polls s := poll_turns callback polls (set_quit false s);
  polling := poll_turns;
  delete_channel _ := mret tt
}.

Lemma report_all_reports s : reports s (report_all s).
Proof.
  unfold report_all. split_and!.
  - rewrite reverse_Permutation. apply NoDup_filter, NoDup_seqZ.
  - intros i. rewrite elem_of_reverse, list_elem_of_filter. tauto.
  - intros [i Hi] He. assert (Hin : i ∈ report_all s).
    { unfold report_all. rewrite elem_of_reverse, list_elem_of_filter, elem_of_seqZ. split; [done|].
      unfold readable in Hi. destruct (Z.ltb_spec i 0); [done|].
      destruct (g_channels s !! Z.to_nat i) eqn:Hc; [|done]. apply lookup_lt_Some in Hc. lia. }
    unfold report_all in Hin. rewrite He in Hin. by apply not_elem_of_nil in Hin.
Qed.

#[global] Instance simple_library_laws : LibraryLaws pairs.
Proof. split; [done..|]. intros callback polls s. exists (report_all s). split; [apply report_all_reports|done]. Qed.

(** Five pairs, two bytes on their way, eleven more to write. *)
Definition sample_options : list (ascii * Z) := [("n"%char, 5); ("a"%char, 2); ("w"%char, 11)].

Example sample_benchmark :
  match main 13 sample_options (start (mk_pairs 0 ∅)) with
  | Ok (r, s) => r = 0 ∧ g_reads s = 13 ∧ g_pipes s = [0; 1; 2; 3; 4; 5; 6; 7; 8; 9]
  | Err _ => False
  end.
Proof. vm_compute. auto. Qed.

Lemma benchmark_ends_witness :
  parse_options sample_options = Some (5, 2, 11) ∧
  ∃ s', main 13 sample_options (start (mk_pairs 0 ∅)) = Ok (0, s') ∧ g_reads s' = 13 ∧ g_fired s' = 13.
Proof.
  split; [reflexivity|].
  assert (Hroom : 1 ≤ 2 ≤ Z.of_nat (room (K := pairs))) by (cbn; lia).
  pose proof (benchmark_ends 13 sample_options (5, 2, 11) (mk_pairs 0 ∅) eq_refl
    ltac:(cbn; lia) ltac:(cbn; lia) Hroom ltac:(cbn; lia) ltac:(cbn; lia)) as Hends.
  destruct Hends as (s & _ & _ & _ & _ & _ & Hend).
  apply Hend. intros c s'. exists (kernel s'). by destruct s'.
Defined.

Lemma arguments_unchecked_witness :
  main 9 [("n"%char, 0)] (start (mk_pairs 0 ∅)) = Err OutOfBounds.
Proof.
  exact (proj1 (proj2 (arguments_unchecked 9 [("n"%char, 0)] (0, 1, 100) (mk_pairs 0 ∅)
    eq_refl ltac:(cbn; lia) ltac:(cbn; lia) ltac:(cbn; lia))) eq_refl ltac:(cbn; lia)).
Defined.
