(* ===== verification/PingPong.v ===== *)
(** The throughput benchmark (pingpong_client.cc, pingpong_server.cc): sessions that
    send a message to an echo server and send back whatever comes back. Both programs
    are written for the original library: its connections are what the callbacks below
    are given. Callbacks of different sessions run on different threads; here each
    callback is one step, and the steps come in any order. *)
From Stdlib Require Import Ascii.
From S2P Require Import Prelude Timestamp.
#[local] Open Scope Z_scope.

(** ** The connections of the library *)

(** A connection between a session and the server, both ends of it. *)
Class Link (L : Type) := {
  idle : L;                                   (** not connected *)
  is_open : L → bool;                         (** established, and no end has begun to close it *)
  to_server : L → list byte;                  (** sent by the session and not yet read by the server *)
  to_client : L → list byte;
  establish : L → L;
  client_send : list byte → L → L;            (** [conn->send] of the session *)
  server_send : list byte → L → L;
  client_receive : nat → L → list byte * L;   (** what is in [buf] when the message callback runs, *)
  server_receive : nat → L → list byte * L;   (** by how much has arrived *)
  disconnect : L → L;                         (** [TcpClient::disconnect] *)
  close : L → L                               (** the end of it, by whatever reason *)
}.

(** An open connection is two streams of bytes, in order and without loss, and sending
    the buffer of a callback takes all that is in it. *)
Class LinkLaws (L : Type) `{!Link L} : Prop := {
  idle_law : is_open idle = false;
  establish_law (l : L) : to_server (establish l) = [] ∧ to_client (establish l) = [];
  client_send_law bs (l : L) : is_open (client_send bs l) = is_open l ∧ (is_open l = true →
    to_server (client_send bs l) = to_server l ++ bs ∧ to_client (client_send bs l) = to_client l);
  server_send_law bs (l : L) : is_open (server_send bs l) = is_open l ∧ (is_open l = true →
    to_client (server_send bs l) = to_client l ++ bs ∧ to_server (server_send bs l) = to_server l);
  client_receive_law n (l : L) : let '(bs, l') := client_receive n l in
    is_open l' = is_open l ∧ (is_open l = true → to_client l = bs ++ to_client l' ∧ to_server l' = to_server l);
  server_receive_law n (l : L) : let '(bs, l') := server_receive n l in
    is_open l' = is_open l ∧ (is_open l = true → to_server l = bs ++ to_server l' ∧ to_client l' = to_client l);
  disconnect_law (l : L) : is_open (disconnect l) = false;
  close_law (l : L) : is_open (close l) = false
}.

(** ** Sessions and client *)

(** [Starting]: [start()] has been called, the connection callback has not. *)
Inductive phase := Starting | Online | Offline.
#[global] Instance phase_eq_decision : EqDecision phase.
Proof. solve_decision. Defined.

Record session (L : Type) := mk_session {
  client_ : L;
  at_ : phase;
  bytesRead_ : Z;
  bytesWritten_ : Z;
  messagesRead_ : Z
}.
Arguments mk_session {L}.
Arguments client_ {L}.
Arguments at_ {L}.
Arguments bytesRead_ {L}.
Arguments bytesWritten_ {L}.
Arguments messagesRead_ {L}.

(** What is logged. *)
Inductive entry :=
  | AllConnected
  | Stop
  | AllDisconnected
  | TotalBytes (n : Z)
  | TotalMessages (n : Z)
  | AverageSize (x : double)
  | Throughput (x : double).

(** A [Client]: [started] sessions have been constructed, the first [pushed] of them are
    in [sessions_]. [quit] is that of its loop. *)
Record client (L : Type) := mk_client {
  sessionCount_ : Z;
  timeout_ : Z;
  message_ : list byte;
  started : list (session L);
  pushed : nat;
  numConnected_ : Z;
  quit : bool;
  log : list entry
}.
Arguments mk_client {L}.
Arguments sessionCount_ {L}.
Arguments timeout_ {L}.
Arguments message_ {L}.
Arguments started {L}.
Arguments pushed {L}.
Arguments numConnected_ {L}.
Arguments quit {L}.
Arguments log {L}.

Section programs.
Context {L : Type} `{!Link L}.
Implicit Types (c : client L) (s : session L) (l : L).

Definition sessions_ c : list (session L) := take (pushed c) (started c).

Definition set_started v c : client L := mk_client (sessionCount_ c) (timeout_ c) (message_ c) v (pushed c)
  (numConnected_ c) (quit c) (log c).
Definition set_pushed n c : client L := mk_client (sessionCount_ c) (timeout_ c) (message_ c) (started c) n
  (numConnected_ c) (quit c) (log c).
Definition set_connected n c : client L := mk_client (sessionCount_ c) (timeout_ c) (message_ c) (started c)
  (pushed c) n (quit c) (log c).
Definition set_quit c : client L := mk_client (sessionCount_ c) (timeout_ c) (message_ c) (started c)
  (pushed c) (numConnected_ c) true (log c).
Definition logged e c : client L := mk_client (sessionCount_ c) (timeout_ c) (message_ c)
  (started c) (pushed c) (numConnected_ c) (quit c) (log c ++ [e]).
Definition LOG_WARN e : M (client L) unit := modify (logged e).

Definition set_link l s : session L := mk_session l (at_ s) (bytesRead_ s) (bytesWritten_ s) (messagesRead_ s).
Definition set_at p s : session L := mk_session (client_ s) p (bytesRead_ s) (bytesWritten_ s) (messagesRead_ s).

(** Work on the session [i]. *)
Definition of_session {A} (i : nat) (f : session L → outcome (A * session L)) : M (client L) A := λ c,
  match started c !! i with
  | None => Err UseAfterFree
  | Some s => '(a, s') ← f s; Ok (a, set_started (<[i := s']> (started c)) c)
  end.

(** *** Session *)
Definition new_Session : session L := mk_session idle Starting 0 0 0.

(** [++] is signed; [+=] adds a [size_t], so it wraps around. *)
Definition onMessage (buf : list byte) s : outcome (session L) :=
  m ← checked_i64 (messagesRead_ s + 1);
  let readableBytes := Z.of_nat (length buf) in
  Ok (mk_session (client_send buf (client_ s)) (at_ s) (i64 (bytesRead_ s + readableBytes))
    (i64 (bytesWritten_ s + readableBytes)) m).

(** *** Client *)
Definition onConnect : M (client L) unit :=
  c ← gets id;
  let n := i32 (numConnected_ c + 1) in
  modify (set_connected n);;
  if n =? sessionCount_ c then LOG_WARN AllConnected else mret tt.

(** The sums over [sessions_]. *)
Definition total (f : session L → Z) (l : list (session L)) : outcome Z :=
  foldl (λ a s, n ← a; checked_i64 (n + f s)) (Ok 0) l.

(** [timeout_ * 1024 * 1024] *)
Definition in_MiB (n : Z) : outcome Z := kib ← checked_i32 (n * 1024); checked_i32 (kib * 1024).

Definition onDisconnect : M (client L) unit :=
  c ← gets id;
  let n := i32 (numConnected_ c - 1) in
  modify (set_connected n);;
  if n =? 0 then
    LOG_WARN AllDisconnected;;
    totalBytesRead ← lift (total bytesRead_ (sessions_ c));
    totalMessagesRead ← lift (total messagesRead_ (sessions_ c));
    LOG_WARN (TotalBytes totalBytesRead);;
    LOG_WARN (TotalMessages totalMessagesRead);;
    LOG_WARN (AverageSize (SFdiv 53 1024 (double_of_Z totalBytesRead) (double_of_Z totalMessagesRead)));;
    mib ← lift (in_MiB (timeout_ c));
    LOG_WARN (Throughput (SFdiv 53 1024 (double_of_Z totalBytesRead) (double_of_Z mib)));;
    modify set_quit
  else mret tt.

(** [Session::onConnection], for a connection and for its end. *)
Definition onConnection (i : nat) (connected : bool) : M (client L) unit :=
  if connected then
    c ← gets id;
    of_session i (λ s, Ok (tt, set_link (client_send (message_ c) (client_ s)) s));;
    onConnect
  else onDisconnect.

(** [Session::stop] of each session there is. *)
Definition handleTimeout : M (client L) unit :=
  LOG_WARN Stop;;
  c ← gets id;
  for_each (λ i, of_session i (λ s, Ok (tt, set_link (disconnect (client_ s)) s))) (seq 0 (pushed c)).

(** [message_], and the client before the first session. *)
Definition char_of (z : Z) : byte := default Byte.x00 (Byte.of_N (Z.to_N z)).
Definition make_message (blockSize : Z) : list byte := (λ i, char_of (Z.rem i 128)) <$> seqZ 0 blockSize.
Definition Client_new (blockSize sessionCount timeout : Z) : client L :=
  mk_client sessionCount timeout (make_message blockSize) [] 0 0 false [].

(** *** The server's callback *)
Definition server_onMessage (buf : list byte) l : L := server_send buf l.

(** ** What happens *)

Inductive event :=
  | StartSession                (** the constructor's loop: [new Session], [start()] *)
  | PushSession                 (** and [sessions_.push_back] *)
  | Connected (i : nat)
  | ClientMessage (i n : nat)
  | ServerMessage (i n : nat)
  | Disconnected (i : nat)
  | Timeout.

Definition session_at (p : phase) (i : nat) c : bool :=
  match started c !! i with Some s => bool_decide (at_ s = p) | None => false end.

(** When an event is possible: the constructor makes its sessions in turn; each is
    connected at most once, then has messages until it is disconnected; the loop of the
    client, and with it the timer, runs when the constructor has returned. *)
Definition enabled (e : event) c : bool :=
  match e with
  | StartSession => bool_decide (length (started c) = pushed c) && (Z.of_nat (pushed c) <? sessionCount_ c)
  | PushSession => bool_decide (pushed c < length (started c))%nat
  | Connected i => session_at Starting i c
  | ClientMessage i _ | ServerMessage i _ | Disconnected i => session_at Online i c
  | Timeout => sessionCount_ c <=? Z.of_nat (pushed c)
  end.

Definition exec (e : event) : M (client L) unit :=
  match e with
  | StartSession => modify (λ c, set_started (started c ++ [new_Session]) c)
  | PushSession => modify (λ c, set_pushed (S (pushed c)) c)
  | Connected i =>
      of_session i (λ s, Ok (tt, set_at Online (set_link (establish (client_ s)) s)));;
      onConnection i true
  | ClientMessage i n =>
      of_session i (λ s, let '(buf, l) := client_receive n (client_ s) in
        s' ← onMessage buf (set_link l s); Ok (tt, s'))
  | ServerMessage i n =>
      of_session i (λ s, let '(buf, l) := server_receive n (client_ s) in
        Ok (tt, set_link (server_onMessage buf l) s))
  | Disconnected i =>
      of_session i (λ s, Ok (tt, set_at Offline (set_link (close (client_ s)) s)));;
      onConnection i false
  | Timeout => handleTimeout
  end.

Definition step c c' : Prop := ∃ e, enabled e c = true ∧ exec e c = Ok (tt, c').
End programs.
Arguments client_send {L _}.

(** ** The bytes of a session go round *)

Section turned.
Context {A : Type}.

(** The first byte goes to the end, [k] times. *)
Definition turn (v : list A) : list A := match v with [] => [] | x :: v => v ++ [x] end.
Definition turned (k : nat) (v : list A) : list A := Nat.iter k turn v.

Lemma turned_add j k (v : list A) : turned (j + k) v = turned j (turned k v).
Proof. apply Nat.iter_add. Qed.

Lemma turn_turned k (v : list A) : turned k (turn v) = turn (turned k v).
Proof. apply Nat.iter_swap. Qed.

Lemma turned_app (u v : list A) : turned (length u) (u ++ v) = v ++ u.
Proof.
  revert v. induction u as [|x u IH]; intros v; [by rewrite app_nil_r|].
  cbn [length]. change (turned (S (length u)) ((x :: u) ++ v)) with (turn (turned (length u) ((x :: u) ++ v))).
  rewrite <- turn_turned. cbn [turn app]. by rewrite <- app_assoc, IH, <- app_assoc.
Qed.

(** The first bytes of the ring are passed to its end. *)
Lemma turned_pass k (v u w : list A) : turned k v = u ++ w → turned (length u + k) v = w ++ u.
Proof. intros Hk. by rewrite turned_add, Hk, turned_app. Qed.
End turned.

Lemma i64_add a b : i64 (i64 a + b) = i64 (a + b).
Proof.
  unfold i64, wrap_signed. f_equal.
  replace ((a + 2 ^ (64 - 1)) mod 2 ^ 64 - 2 ^ (64 - 1) + b + 2 ^ (64 - 1)) with ((a + 2 ^ (64 - 1)) mod 2 ^ 64 + b) by lia.
  rewrite Z.add_mod_idemp_l by done. f_equal. lia.
Qed.

Section sessions.
Context {L : Type} `{LinkLaws L}.
Implicit Types (c : client L) (s : session L) (l : L).

(** What a session has read, at any time, and what is on its way while its connection is
    open: the message, from the byte that comes next. *)
Record good (message : list byte) s : Prop := {
  gd_read : ∃ k : nat, bytesRead_ s = i64 (Z.of_nat k) ∧
    (is_open (client_ s) = true → to_client (client_ s) ++ to_server (client_ s) = turned k message);
  gd_written : bytesWritten_ s = bytesRead_ s;
  gd_starting : at_ s = Starting → is_open (client_ s) = false ∧ bytesRead_ s = 0
}.

Lemma good_new message : good message new_Session.
Proof.
  split; cbn; [|done|]; rewrite idle_law; [|done]. by exists O.
Qed.

Lemma good_closed message p s l :
  good message s → p ≠ Starting → is_open l = false → good message (set_at p (set_link l s)).
Proof. intros [(k & Hk & _) Hw _] Hp Hl. split; cbn; [exists k; by rewrite Hl|done|done]. Qed.

Lemma good_disconnected message s : good message s → good message (set_link (disconnect (client_ s)) s).
Proof.
  intros [(k & Hk & _) Hw Hs]. split; cbn; [exists k|done|]; rewrite disconnect_law; [done|].
  intros Hp. split; [done|by apply Hs].
Qed.

Lemma good_connected message s :
  good message s → at_ s = Starting →
  good message (set_link (client_send message (establish (client_ s))) (set_at Online s)).
Proof.
  intros [_ Hw Hs] Hp. destruct (Hs Hp) as [_ Hz]. split; cbn; [exists O|done|done]. split; [done|].
  destruct (client_send_law message (establish (client_ s))) as [-> Hsend]. intros Hop.
  destruct (Hsend Hop) as [-> ->]. by destruct (establish_law (client_ s)) as [-> ->].
Qed.

Lemma good_message message n s s' :
  good message s → at_ s = Online →
  (let '(buf, l) := client_receive n (client_ s) in onMessage buf (set_link l s)) = Ok s' →
  good message s' ∧ at_ s' = Online.
Proof.
  intros [(k & Hk & Hring) Hw _] Hp Hrun. pose proof (client_receive_law n (client_ s)) as Hlaw.
  destruct (client_receive n (client_ s)) as [buf l]. destruct Hlaw as [Hop Hrecv].
  apply outcome_bind_inv in Hrun as (m & _ & [= <-]). cbn. split; [|done]. split; cbn; [|by rewrite Hw|by rewrite Hp].
  exists (length buf + k)%nat. split; [rewrite Hk, i64_add; f_equal; lia|].
  destruct (client_send_law buf l) as [-> Hsend]. intros Ho. destruct (Hsend Ho) as [-> ->]. rewrite Hop in Ho.
  specialize (Hring Ho). destruct (Hrecv Ho) as [Hc ->]. rewrite Hc, <- app_assoc in Hring. symmetry in Hring.
  apply turned_pass in Hring. by rewrite Hring, app_assoc.
Qed.

Lemma good_echo message n s :
  good message s → at_ s = Online →
  good message (let '(buf, l) := server_receive n (client_ s) in set_link (server_onMessage buf l) s).
Proof.
  intros [(k & Hk & Hring) Hw _] Hp. pose proof (server_receive_law n (client_ s)) as Hlaw.
  destruct (server_receive n (client_ s)) as [buf l]. destruct Hlaw as [Hop Hrecv].
  split; cbn; [|done|by rewrite Hp]. exists k. split; [done|]. unfold server_onMessage.
  destruct (server_send_law buf l) as [-> Hsend]. intros Ho. destruct (Hsend Ho) as [-> ->]. rewrite Hop in Ho.
  destruct (Hrecv Ho) as [Hs ->]. rewrite <- (Hring Ho), Hs. by rewrite <- app_assoc.
Qed.

(** ** The client *)

Lemma count_insert {A} (P : A → Prop) `{∀ x, Decision (P x)} (v : list A) i x y :
  v !! i = Some x →
  (length (filter P (<[i := y]> v)) + (if decide (P x) then 1 else 0) =
   length (filter P v) + (if decide (P y) then 1 else 0))%nat.
Proof.
  intros Hi. rewrite (insert_take_drop v i y) by (by eapply lookup_lt_Some).
  rewrite <- (take_drop_middle v i x Hi) at 3. rewrite !filter_app, !length_app, !filter_cons.
  destruct (decide (P x)), (decide (P y)); cbn; lia.
Qed.

(** The sessions that are connected. *)
Definition online c : nat := length (filter (λ s, at_ s = Online) (started c)).

Lemma online_le c : (online c ≤ length (started c))%nat.
Proof. apply length_filter. Qed.

(** What the constructor was given: message, number of sessions, time. *)
Context (args : list byte * Z * Z).

(** All but the counter. *)
Record base c : Prop := {
  ba_count : sessionCount_ c < 2 ^ 31;
  ba_pushed : (pushed c ≤ length (started c) ≤ S (pushed c))%nat;
  ba_length : Z.of_nat (length (started c)) ≤ Z.max 0 (sessionCount_ c);
  ba_good s : s ∈ started c → good (message_ c) s;
  ba_quit : quit c = true → ∃ s, s ∈ started c ∧ at_ s = Offline;
  ba_all : AllConnected ∈ log c →
    Z.of_nat (length (started c)) = sessionCount_ c ∧ ∀ s, s ∈ started c → at_ s ≠ Starting;
  ba_args : (message_ c, sessionCount_ c, timeout_ c) = args
}.

Record inv c : Prop := {
  in_base : base c;
  in_connected : numConnected_ c = Z.of_nat (online c)
}.

Lemma elem_of_insert_list {A} (v : list A) i x y z : v !! i = Some x → z ∈ <[i := y]> v → z = y ∨ z ∈ v.
Proof.
  intros Hi (j & Hj)%list_elem_of_lookup. apply list_lookup_insert_Some in Hj as [(-> & -> & _)|[_ Hj]]; [by left|].
  right. by eapply list_elem_of_lookup_2.
Qed.

Lemma base_update c i s s' :
  base c → started c !! i = Some s → good (message_ c) s' →
  (at_ s = Offline → at_ s' = Offline) → (at_ s' = Starting → at_ s = Starting) →
  base (set_started (<[i := s']> (started c)) c).
Proof.
  intros [Hn Hp Hl Hg Hq Ha Hargs] Hi Hs' Hoff Hstart. split; cbn; rewrite ?length_insert; try done.
  - intros x [->|Hx]%(elem_of_insert_list _ _ _ _ _ Hi); auto.
  - intros Hquit. destruct (Hq Hquit) as (x & Hx & Hxo). apply list_elem_of_lookup in Hx as [j Hj].
    destruct (decide (j = i)) as [->|Hne].
    + simplify_eq. exists s'. split; [|auto]. eapply list_elem_of_lookup_2, list_lookup_insert_eq. by eapply lookup_lt_Some.
    + exists x. split; [|done]. eapply (list_elem_of_lookup_2 _ j). by rewrite list_lookup_insert_ne.
  - intros Hall. destruct (Ha Hall) as [He Hnone]. split; [done|].
    intros x [->|Hx]%(elem_of_insert_list _ _ _ _ _ Hi); [|by apply Hnone].
    intros Hx. apply (Hnone s); [by eapply list_elem_of_lookup_2|auto].
Qed.

(** A session that keeps its phase. *)
Lemma inv_update c i s s' :
  inv c → started c !! i = Some s → good (message_ c) s' → at_ s' = at_ s →
  inv (set_started (<[i := s']> (started c)) c).
Proof.
  intros [Hb Hc] Hi Hs' He. split; [apply (base_update c i s s'); [done..|congruence|congruence]|].
  cbn. rewrite Hc. unfold online. cbn. pose proof (count_insert (λ s, at_ s = Online) (started c) i s s' Hi) as Hone.
  cbn in Hone. rewrite He in Hone. lia.
Qed.

Lemma of_session_ok {A} i (f : session L → outcome (A * session L)) c s a s' :
  started c !! i = Some s → f s = Ok (a, s') →
  of_session i f c = Ok (a, set_started (<[i := s']> (started c)) c).
Proof. intros Hi Hf. unfold of_session. by rewrite Hi, Hf. Qed.

(** A logged line other than the first. *)
Lemma log_ok c e : base c → e ≠ AllConnected → ∃ c', LOG_WARN e c = Ok (tt, c') ∧ base c' ∧
  started c' = started c ∧ numConnected_ c' = numConnected_ c.
Proof.
  intros [Hn Hp Hl Hg Hq Ha Hargs] He. eexists. split; [done|]. split; [|done]. split; try done. cbn.
  intros [Hin|Hin%list_elem_of_singleton]%elem_of_app; [auto|congruence].
Qed.

Lemma wp_log c e Q E :
  base c → e ≠ AllConnected →
  (∀ c', base c' → started c' = started c → numConnected_ c' = numConnected_ c → Q tt c') →
  wp (LOG_WARN e) Q E c.
Proof. intros Hb He HQ. destruct (log_ok c e Hb He) as (c' & Hrun & Hb' & Hs & Hn). unfold wp. rewrite Hrun. auto. Qed.

Lemma total_fmap (f : session L → Z) v :
  total f v = foldl (λ a x, n ← a; checked_i64 (n + x)) (Ok 0) (f <$> v).
Proof. unfold total. generalize (Ok 0). induction v as [|s v IH]; intros o; cbn; [done|]. apply IH. Qed.

Lemma total_err (f : session L → Z) v e : total f v = Err e → e = IntOverflow.
Proof.
  unfold total. assert (Hgen : ∀ o, (∀ e, o = Err e → e = IntOverflow) →
    foldl (λ a s, n ← a; checked_i64 (n + f s)) o v = Err e → e = IntOverflow); [|apply Hgen; intros ? [=]].
  induction v as [|s v IH]; intros o Ho; cbn; [apply Ho|]. apply IH. intros e'.
  destruct o as [n|e0]; cbn; [|intros [= <-]; by apply Ho].
  unfold checked_i64. destruct (in_i64 _); [done|congruence].
Qed.

Lemma in_MiB_err n e : in_MiB n = Err e → e = IntOverflow.
Proof.
  unfold in_MiB. destruct (checked_i32 (n * 1024)) as [k|] eqn:Hk; cbn; [apply checked_i32_err|].
  apply checked_i32_err in Hk. congruence.
Qed.

Lemma in_MiB_eq n : in_MiB n = if decide (-2048 ≤ n < 2048) then Ok (n * 1024 * 1024) else Err IntOverflow.
Proof.
  unfold in_MiB. case_decide as Hr; [rewrite checked_i32_ok by lia; cbn; by rewrite checked_i32_ok by lia|].
  destruct (checked_i32 (n * 1024)) as [k|] eqn:Hk; cbn; [|by apply checked_i32_err in Hk as ->].
  unfold checked_i32 in *. destruct (_ && _); [|done]. injection Hk as <-.
  destruct (Z.leb_spec (- 2 ^ 31) (n * 1024 * 1024)); [|done].
  destruct (Z.ltb_spec (n * 1024 * 1024) (2 ^ 31)); [|done]. exfalso. lia.
Qed.

(** *** The callbacks *)

Lemma onConnect_wp c :
  base c → numConnected_ c + 1 = Z.of_nat (online c) →
  wp onConnect (λ _ c', inv c') (λ _, False) c.
Proof.
  intros Hb Hn. unfold onConnect. apply wp_bind, wp_gets. change (id c) with c.
  pose proof (online_le c). pose proof (ba_length _ Hb). pose proof (ba_count _ Hb).
  rewrite i32_small by lia. apply wp_bind, wp_modify. set (c1 := set_connected _ c).
  assert (Hb1 : base c1) by (by destruct Hb).
  destruct (Z.eqb_spec (numConnected_ c + 1) (sessionCount_ c)) as [He|_]; [|by apply wp_ret].
  apply wp_modify. split; [|done]. destruct Hb1 as [? ? ? ? ? ? ?]. split; try done. intros _.
  change (Z.of_nat (length (started c)) = sessionCount_ c ∧ ∀ s, s ∈ started c → at_ s ≠ Starting).
  split; [lia|]. intros s Hs Hstart. assert (Hlt : (online c < length (started c))%nat); [|lia].
  apply (length_filter_lt _ _ s Hs). by rewrite Hstart.
Qed.

Lemma onDisconnect_wp c :
  base c → (∃ s, s ∈ started c ∧ at_ s = Offline) → numConnected_ c - 1 = Z.of_nat (online c) →
  wp onDisconnect (λ _ c', inv c') (eq IntOverflow) c.
Proof.
  intros Hb Hoff Hn. unfold onDisconnect. apply wp_bind, wp_gets. change (id c) with c.
  pose proof (online_le c). pose proof (ba_length _ Hb). pose proof (ba_count _ Hb).
  rewrite i32_small by lia. apply wp_bind, wp_modify. set (c1 := set_connected _ c).
  assert (Hb1 : base c1) by (by destruct Hb). destruct (numConnected_ c - 1 =? 0); [|by apply wp_ret].
  apply wp_bind, wp_log; [done..|]. intros c2 Hb2 Hs2 Hn2.
  apply wp_bind, wp_lift; [|by intros e ->%total_err]. intros b _.
  apply wp_bind, wp_lift; [|by intros e ->%total_err]. intros m _.
  apply wp_bind, wp_log; [done..|]. intros c3 Hb3 Hs3 Hn3.
  apply wp_bind, wp_log; [done..|]. intros c4 Hb4 Hs4 Hn4.
  apply wp_bind, wp_log; [done..|]. intros c5 Hb5 Hs5 Hn5.
  apply wp_bind, wp_lift; [|by intros e ->%in_MiB_err]. intros mib _.
  apply wp_bind, wp_log; [done..|]. intros c6 Hb6 Hs6 Hn6. apply wp_modify.
  assert (Hs : started c6 = started c) by (by rewrite Hs6, Hs5, Hs4, Hs3, Hs2). split.
  - destruct Hb6 as [? ? ? ? ? ? ?]. split; try done. intros _. cbn. by rewrite Hs.
  - unfold online. cbn. rewrite Hs. change (Z.of_nat (length _)) with (Z.of_nat (online c)). rewrite <- Hn.
    rewrite Hn6, Hn5, Hn4, Hn3, Hn2. done.
Qed.

(** An event of a session that is in the phase [p]. *)
Lemma session_at_inv p i c : session_at p i c = true → ∃ s, started c !! i = Some s ∧ at_ s = p.
Proof.
  unfold session_at. destruct (started c !! i) as [s|]; [|done]. intros Hp%bool_decide_eq_true. eauto.
Qed.

(** The sessions that are connected, after one of them has gone from phase to phase. *)
Lemma online_update c i s s' :
  started c !! i = Some s →
  (online (set_started (<[i := s']> (started c)) c) + (if decide (at_ s = Online) then 1 else 0) =
   online c + (if decide (at_ s' = Online) then 1 else 0))%nat.
Proof. intros Hi. exact (count_insert (λ s, at_ s = Online) (started c) i s s' Hi). Qed.

Lemma connected_wp c i :
  inv c → session_at Starting i c = true → wp (exec (Connected i)) (λ _ c', inv c') (eq IntOverflow) c.
Proof.
  intros [Hb Hn] (s & Hi & Hp)%session_at_inv. cbn [exec]. unfold onConnection.
  set (s1 := set_at Online (set_link (establish (client_ s)) s)).
  set (s2 := set_link (client_send (message_ c) (client_ s1)) s1).
  set (c2 := set_started (<[i := s2]> (started c)) c).
  assert (Hlt : (i < length (started c))%nat) by (by eapply lookup_lt_Some).
  assert (Hrun : ∀ f, ((of_session i (λ s, Ok (tt, set_at Online (set_link (establish (client_ s)) s)));;
    c ← gets id; of_session i (λ s, Ok (tt, set_link (client_send (message_ c) (client_ s)) s));; f) :
    M (client L) unit) c = f c2).
  { intros f. erewrite M_bind_ok by (eapply of_session_ok; done). rewrite bind_gets.
    erewrite M_bind_ok by (eapply of_session_ok; [by apply list_lookup_insert_eq|done]).
    f_equal. unfold c2, set_started. cbn. by rewrite list_insert_insert_eq. }
  unfold wp. rewrite Hrun. change (wp onConnect (λ _ c', inv c') (eq IntOverflow) c2).
  assert (Hwp : wp onConnect (λ _ c', inv c') (λ _, False) c2); [|by unfold wp in *; destruct (onConnect c2) as [[]|]].
  apply onConnect_wp.
  - apply (base_update c i s); [done|done| |congruence|done]. apply (good_connected _ s); [|done].
    apply (ba_good _ Hb). by eapply list_elem_of_lookup_2.
  - pose proof (online_update c i s s2 Hi) as Ho. fold c2 in Ho. rewrite Hp, decide_False, decide_True in Ho by done.
    change (numConnected_ c2) with (numConnected_ c). lia.
Qed.

Lemma disconnected_wp c i :
  inv c → session_at Online i c = true → wp (exec (Disconnected i)) (λ _ c', inv c') (eq IntOverflow) c.
Proof.
  intros [Hb Hn] (s & Hi & Hp)%session_at_inv. cbn [exec]. unfold onConnection.
  set (s1 := set_at Offline (set_link (close (client_ s)) s)).
  set (c1 := set_started (<[i := s1]> (started c)) c). apply wp_bind. unfold wp at 1.
  erewrite of_session_ok by done. fold s1 c1.
  assert (Hlt : (i < length (started c))%nat) by (by eapply lookup_lt_Some).
  apply onDisconnect_wp.
  - apply (base_update c i s); [done|done| |done|done]. apply good_closed; [|done|apply close_law].
    apply (ba_good _ Hb). by eapply list_elem_of_lookup_2.
  - exists s1. split; [|done]. eapply (list_elem_of_lookup_2 _ i). by apply list_lookup_insert_eq.
  - pose proof (online_update c i s s1 Hi) as Ho. fold c1 in Ho. rewrite Hp, decide_True, decide_False in Ho by done.
    change (numConnected_ c1) with (numConnected_ c). lia.
Qed.

Lemma timeout_wp c : inv c → wp handleTimeout (λ _ c', inv c') (eq IntOverflow) c.
Proof.
  intros [Hb Hn]. unfold handleTimeout. apply wp_bind, wp_log; [done..|]. intros c1 Hb1 Hs1 Hn1.
  apply wp_bind, wp_gets. change (id c1) with c1.
  eapply wp_mono.
  - apply (wp_for_each (λ v c', inv c' ∧ length (started c') = length (started c1) ∧
      ∀ i, i ∈ v → (i < length (started c1))%nat)).
    + split; [split; [done|unfold online in *; congruence]|]. split; [done|].
      intros i Hi%elem_of_seq. pose proof (ba_pushed _ Hb1). lia.
    + intros i v c2 (Hinv & Hlen & Hin). destruct (lookup_lt_is_Some_2 (started c2) i) as [s Hi].
      { rewrite Hlen. apply Hin. by left. }
      unfold wp. erewrite of_session_ok by done. split_and!.
      * apply (inv_update c2 i s); [done|done| |done]. apply good_disconnected, (ba_good _ (in_base _ Hinv)).
        by eapply list_elem_of_lookup_2.
      * cbn. by rewrite length_insert.
      * intros j Hj. apply Hin. by right.
  - by intros [] c' (? & _).
Qed.

(** Every event keeps the invariant, and fails only by an overflow. *)
Lemma event_wp e c : inv c → enabled e c = true → wp (exec e) (λ _ c', inv c') (eq IntOverflow) c.
Proof.
  intros Hinv He. destruct e as [| |i|i n|i n|i|]; cbn [enabled] in He.
  - apply andb_true_iff in He as [He1%bool_decide_eq_true He2%Z.ltb_lt]. apply wp_modify.
    destruct Hinv as [[Hn Hp Hl Hg Hq Ha Hargs] Hc]. split.
    + split; cbn; rewrite ?length_app; cbn; try lia; try done.
      * intros s [Hs| ->%list_elem_of_singleton]%elem_of_app; [auto|apply good_new].
      * intros Hquit. destruct (Hq Hquit) as (s & Hs & Ho). exists s. split; [|done]. apply elem_of_app. by left.
      * intros Hall. destruct (Ha Hall). lia.
    + unfold online in *. cbn. rewrite Hc, filter_app, length_app, filter_cons, decide_False by done. cbn. lia.
  - apply bool_decide_eq_true in He. apply wp_modify. destruct Hinv as [[Hn Hp Hl Hg Hq Ha Hargs] Hc].
    split; [split; cbn; lia || done|done].
  - by apply connected_wp.
  - apply session_at_inv in He as (s & Hi & Hp). cbn [exec]. unfold wp, of_session. rewrite Hi.
    assert (Hs : good (message_ c) s) by (apply (ba_good _ (in_base _ Hinv)); by eapply list_elem_of_lookup_2).
    pose proof (good_message (message_ c) n s) as Hgood.
    destruct (client_receive n (client_ s)) as [buf l]. destruct (onMessage buf (set_link l s)) as [s'|e] eqn:Hm.
    + destruct (Hgood s' Hs Hp eq_refl) as [Hs' Hp']. cbn. apply (inv_update c i s); [done..|congruence].
    + cbn. unfold onMessage, checked_i64 in Hm. cbn in Hm. destruct (in_i64 _); [done|]. cbn in Hm. congruence.
  - apply session_at_inv in He as (s & Hi & Hp). cbn [exec]. unfold wp, of_session. rewrite Hi.
    assert (Hs : good (message_ c) s) by (apply (ba_good _ (in_base _ Hinv)); by eapply list_elem_of_lookup_2).
    pose proof (good_echo (message_ c) n s Hs Hp) as Hgood.
    destruct (server_receive n (client_ s)) as [buf l]. cbn. by apply (inv_update c i s).
  - by apply disconnected_wp.
  - by apply timeout_wp.
Qed.

Lemma Client_new_inv blockSize sessionCount timeout :
  sessionCount < 2 ^ 31 → args = (make_message blockSize, sessionCount, timeout) → inv (Client_new blockSize sessionCount timeout).
Proof.
  intros Hn ->. split; [|done]. split; cbn; try done; try lia.
  - intros s Hs. by apply not_elem_of_nil in Hs.
  - intros Hs. by apply not_elem_of_nil in Hs.
Qed.

Lemma client_reachable c c' : inv c → rtc step c c' → inv c'.
Proof.
  intros Hinv Hsteps. revert c' Hsteps. apply rtc_ind_r; [done|]. intros c1 c2 _ (e & He & Hrun) Hinv1.
  exact (wp_ok _ _ _ _ _ _ Hrun (event_wp e c1 Hinv1 He)).
Qed.
End sessions.

Section theorems.
Context {L : Type} `{LinkLaws L}.
Context (blockSize sessionCount timeout : Z) (Hcount : sessionCount < 2 ^ 31).
Implicit Types (c : client L) (s : session L).

Lemma run_inv c :
  rtc step (Client_new blockSize sessionCount timeout) c → inv (make_message blockSize, sessionCount, timeout) c.
Proof. by apply client_reachable, Client_new_inv. Qed.

(** C20. Whatever comes in between, a session sends back exactly what it has read, and as long
    as its connection is open the bytes on the way back to it followed by those on the way
    to the server are the message, turned by the number of bytes it has read: the two
    programs lose no byte, add none and keep the order. (The count of bytes wraps around
    at 64 bits.) *)
Theorem echo_goes_round c s :
  rtc step (Client_new blockSize sessionCount timeout) c → s ∈ started c →
  bytesWritten_ s = bytesRead_ s ∧
  ∃ k : nat, bytesRead_ s = i64 (Z.of_nat k) ∧
    (is_open (client_ s) = true →
      to_client (client_ s) ++ to_server (client_ s) = turned k (make_message blockSize)).
Proof.
  intros Hrun%run_inv Hs. pose proof (ba_args _ _ (in_base _ _ Hrun)) as [= Hm _ _].
  destruct (ba_good _ _ (in_base _ _ Hrun) s Hs) as [Hread Hw _]. by rewrite Hm in Hread.
Qed.

(** In every reachable state the counter is the number of sessions that are connected;
    "all connected" has been logged only if all sessions have been made and connected, and
    the loop told to quit only if a session has been disconnected. No event can fail but by
    an overflow. *)
Theorem connected_counted c :
  rtc step (Client_new blockSize sessionCount timeout) c →
  numConnected_ c = Z.of_nat (online c) ∧
  (AllConnected ∈ log c →
    Z.of_nat (length (started c)) = sessionCount ∧ ∀ s, s ∈ started c → at_ s ≠ Starting) ∧
  (quit c = true → ∃ s, s ∈ started c ∧ at_ s = Offline) ∧
  ∀ e err, enabled e c = true → exec e c = Err err → err = IntOverflow.
Proof.
  intros Hrun%run_inv. pose proof (ba_args _ _ (in_base _ _ Hrun)) as [= _ Hn _].
  split_and!; [by apply (in_connected _ _ Hrun)| |by apply (ba_quit _ _ (in_base _ _ Hrun))|].
  - intros Hall. rewrite <- Hn. exact (ba_all _ _ (in_base _ _ Hrun) Hall).
  - intros e err He Hf. pose proof (event_wp _ e c Hrun He) as Hwp. unfold wp in Hwp. by rewrite Hf in Hwp.
Qed.

(** The report: the last connected session ends. If [timeout_ * 1024 * 1024] is an
    [int], the totals of all the sessions in [sessions_] are logged, with the averages, and
    the loop is told to quit, also when other sessions are still being made or connected;
    from 2048 seconds on the product overflows, after the first four lines. *)
Theorem last_disconnect c i b m :
  rtc step (Client_new blockSize sessionCount timeout) c →
  session_at Online i c = true → numConnected_ c = 1 →
  total bytesRead_ (sessions_ c) = Ok b → total messagesRead_ (sessions_ c) = Ok m →
  if decide (-2048 ≤ timeout < 2048) then
    ∃ c', exec (Disconnected i) c = Ok (tt, c') ∧ quit c' = true ∧ numConnected_ c' = 0 ∧
      log c' = log c ++ [AllDisconnected; TotalBytes b; TotalMessages m;
        AverageSize (SFdiv 53 1024 (double_of_Z b) (double_of_Z m));
        Throughput (SFdiv 53 1024 (double_of_Z b) (double_of_Z (timeout * 1024 * 1024)))]
  else exec (Disconnected i) c = Err IntOverflow.
Proof.
  intros Hrun%run_inv (s & Hi & Hp)%session_at_inv Hone Hb Hm.
  pose proof (ba_args _ _ (in_base _ _ Hrun)) as [= _ _ Ht].
  set (s1 := set_at Offline (set_link (close (client_ s)) s)).
  set (c1 := set_started (<[i := s1]> (started c)) c).
  assert (Hsums : total bytesRead_ (sessions_ c1) = Ok b ∧ total messagesRead_ (sessions_ c1) = Ok m).
  { assert (Hsame : ∀ f, f s1 = f s → total f (sessions_ c1) = total f (sessions_ c)); [|by rewrite !Hsame].
    intros f Hf. rewrite !total_fmap. unfold sessions_, c1. cbn. rewrite !fmap_take, list_fmap_insert.
    by rewrite list_insert_id by (by rewrite list_lookup_fmap, Hi, Hf). }
  destruct Hsums as [Hb1 Hm1].
  assert (Hexec : exec (Disconnected i) c = onDisconnect c1).
  { cbn [exec]. by erewrite M_bind_ok by (by eapply of_session_ok). }
  rewrite Hexec. unfold onDisconnect. mstep. change (id c1) with c1. change (numConnected_ c1) with (numConnected_ c).
  rewrite Hone. change (i32 (1 - 1)) with 0. change (0 =? 0) with true. unfold LOG_WARN. mstep.
  rewrite Hb1. mstep. rewrite Hm1. mstep. change (timeout_ c1) with (timeout_ c). rewrite Ht, in_MiB_eq.
  case_decide; [|done]. mstep. eexists. split; [done|]. split; [done|]. split; [done|]. cbn. by rewrite <- !app_assoc.
Qed.
End theorems.

(** ** A run *)

(** An open connection as two lists of bytes. *)
Record pair_of_streams := mk_streams { established : bool; there : list byte; back : list byte }.
#[global] Instance streams_link : Link pair_of_streams := {
  idle := mk_streams false [] [];
  is_open := established;
  to_server := there;
  to_client := back;
  establish _ := mk_streams true [] [];
  client_send bs l := mk_streams (established l) (there l ++ bs) (back l);
  server_send bs l := mk_streams (established l) (there l) (back l ++ bs);
  client_receive n l := (take n (back l), mk_streams (established l) (there l) (drop n (back l)));
  server_receive n l := (take n (there l), mk_streams (established l) (drop n (there l)) (back l));
  disconnect l := mk_streams false (there l) (back l);
  close _ := mk_streams false [] []
}.

#[global] Instance streams_laws : LinkLaws pair_of_streams.
Proof. split; intros; cbn; rewrite ?take_drop; auto. Qed.

(** The events of a run, each possible when it comes. *)
Fixpoint play (es : list event) (c : client pair_of_streams) : option (client pair_of_streams) :=
  match es with
  | [] => Some c
  | e :: es => if enabled e c then match exec e c with Ok (_, c) => play es c | Err _ => None end else None
  end.

Lemma play_steps es c c' : play es c = Some c' → rtc step c c'.
Proof.
  revert c. induction es as [|e es IH]; intros c; cbn [play]; [intros [= ->]; apply rtc_refl|].
  destruct (enabled e c) eqn:He; [|done]. destruct (exec e c) as [[[] c1]|] eqn:Hrun; [|done].
  intros Hplay. eapply rtc_l; [|by apply IH]. by exists e.
Qed.

(** Two sessions with a message of three bytes; the first one has read two of them when
    the second one ends. *)
Definition sample_client : client pair_of_streams := Client_new 3 2 10.
Definition sample_events : list event :=
  [StartSession; PushSession; StartSession; Connected 0; PushSession; Connected 1; ServerMessage 0 3;
   ClientMessage 0 2; ServerMessage 1 1; ClientMessage 1 1; Disconnected 1].

Example sample_played :
  match play sample_events sample_client with
  | Some c => log c = [AllConnected] ∧ numConnected_ c = 1 ∧ quit c = false ∧
      (bytesRead_ <$> started c) = [2; 1] ∧
      (to_client ∘ client_ <$> started c) = [[Byte.x02]; []] ∧
      (to_server ∘ client_ <$> started c) = [[Byte.x00; Byte.x01]; []]
  | None => False
  end.
Proof. vm_compute. auto 10. Qed.

Definition sample_state : client pair_of_streams := default sample_client (play sample_events sample_client).
Lemma sample_reached : rtc step sample_client sample_state.
Proof. apply (play_steps sample_events). by vm_compute. Qed.

(** One of the two sessions ends before the other is connected: the loop is told to quit. *)
Example sample_early_quit :
  match play [StartSession; PushSession; StartSession; PushSession; Connected 0; Disconnected 0] sample_client with
  | Some c => quit c = true ∧ (at_ <$> started c) = [Offline; Starting]
  | None => False
  end.
Proof. vm_compute. auto. Qed.

Definition sample_session : session pair_of_streams := default new_Session (started sample_state !! 0%nat).
Lemma sample_session_in : sample_session ∈ started sample_state.
Proof. apply (list_elem_of_lookup_2 _ 0). by vm_compute. Qed.

Lemma echo_goes_round_witness :
  is_open (client_ sample_session) = true ∧ bytesWritten_ sample_session = bytesRead_ sample_session ∧
  ∃ k : nat, bytesRead_ sample_session = i64 (Z.of_nat k) ∧ (is_open (client_ sample_session) = true →
    to_client (client_ sample_session) ++ to_server (client_ sample_session) = turned k (make_message 3)).
Proof.
  split; [vm_compute; reflexivity|].
  exact (echo_goes_round 3 2 10 ltac:(lia) sample_state sample_session sample_reached sample_session_in).
Defined.

Lemma connected_counted_witness : numConnected_ sample_state = Z.of_nat (online sample_state).
Proof. exact (proj1 (connected_counted 3 2 10 ltac:(lia) sample_state sample_reached)). Defined.

Lemma last_disconnect_witness :
  ∃ c', exec (Disconnected 0) sample_state = Ok (tt, c') ∧ quit c' = true ∧ numConnected_ c' = 0 ∧
    log c' = log sample_state ++ [AllDisconnected; TotalBytes 3; TotalMessages 2;
      AverageSize (SFdiv 53 1024 (double_of_Z 3) (double_of_Z 2));
      Throughput (SFdiv 53 1024 (double_of_Z 3) (double_of_Z (10 * 1024 * 1024)))].
Proof.
  exact (last_disconnect 3 2 10 ltac:(lia) sample_state 0 3 2 sample_reached ltac:(vm_compute; reflexivity)
    ltac:(vm_compute; reflexivity) ltac:(vm_compute; reflexivity) ltac:(vm_compute; reflexivity)).
Defined.
