(* ===== verification/ChatServer.v ===== *)
(** The example server (tmyserver.cpp), which sends back what it receives: its two
    callbacks. [onMessage] is written for [Buffer]; the library hands its callbacks a
    [Kfifo], so the program does not compile as it is. Here it is given the [Buffer] it
    asks for; [onConnection] reacts in the server of [WholeServer]. *)
From S2P Require Import Prelude TcpConnection Reactor InetAddress EventLoopThreadPool TcpServer ServerCallbacks Buffer Timestamp.
#[local] Open Scope Z_scope.

(** What is written to the standard output. *)
Inductive line :=
  | State (text : string)
  | Received (data : list byte) (time : string).

(** [onConnection], given the addresses as text: what it prints, and its calls. *)
Definition onConnection (peerAddress localAddress : string) (connected : bool) : line * action :=
  if connected then (State (peerAddress +:+ "->" +:+ localAddress +:+ " state:online "), Done)
  else (State (peerAddress +:+ "->" +:+ localAddress +:+ " state:offline "), Shutdown Done).

(** [onMessage]: what it prints, and what it sends. *)
Definition onMessage (time : Z) : M Buffer (line * list byte) :=
  buf ← retrieveAllAsString;
  mret (Received buf (toString time), buf).

(** [onConnection] as a connection's callback. *)
Definition chat (peerAddress localAddress : string) (c : conn) : action :=
  (onConnection peerAddress localAddress (connected c)).2.

(** The constructor. What the library can give a message callback is [onMessage'];
    see above. *)
Definition ChatServer_new (loop : Z) (ipPort nameArg peerAddress localAddress : string)
    (onMessage' : Z → conn → action) : outcome tcp_server :=
  m_server ← make_server loop ipPort nameArg;
  server_setThreadNum 4
    (server_setMessageCallback (Some onMessage')
      (server_setConnectionCallback (Some (chat peerAddress localAddress)) m_server)).

(** [main], up to [loop.loop()]: [EventLoop loop] is at [loop]. *)
Definition main (big_endian_host : bool) (inet_addr : string → Z) (inet_ntop : Z → string)
    (startLoop : Z → Z) (loop : Z) (peerAddress localAddress : string) (onMessage' : Z → conn → action)
    : outcome tcp_server :=
  let addr := InetAddress_of big_endian_host inet_addr "127.0.0.1" 6000 in
  server ← ChatServer_new loop (toIpPort big_endian_host inet_ntop addr) "ChatServer" peerAddress localAddress onMessage';
  server_start startLoop server.

(** The server's side of a connection: each time it is readable, [readFd] and then
    the message callback. *)
Fixpoint serve (reads : list (Z * list byte)) : M Buffer (list (list byte)) :=
  match reads with
  | [] => mret []
  | (time, bs) :: reads =>
      readFd (inr bs);;
      x ← onMessage time;
      sent ← serve reads;
      mret (x.2 :: sent)
  end.

Section callbacks.
Context {mx : MutexImpl}.

(** It reacts with calls that cannot fail by themselves, as the theorems on the whole
    server ask of a user's code. *)
Lemma chat_tame E peer local c : tame E (chat peer local c).
Proof. unfold chat, onConnection. by destruct (connected c). Qed.

(** [main] brings up a server that lacks no callback, and whose callbacks fit the
    theorems on the whole server if [onMessage'] does; it has four loops, none of them
    the base loop. *)
Theorem main_starts big_endian_host inet_addr inet_ntop startLoop loop peer local onMessage' :
  loop ≠ 0 →
  ∃ s, main big_endian_host inet_addr inet_ntop startLoop loop peer local onMessage' = Ok s ∧
    ¬ unset s ∧ (∀ E, (∀ t d, tame E (onMessage' t d)) → tame_callbacks E s) ∧
    getAllLoops (m_threadPool (inner s)) = [startLoop 0; startLoop 1; startLoop 2; startLoop 3] ∧
    m_baseLoop (m_threadPool (inner s)) = loop ∧ posted (inner s) = [(loop, Listen)].
Proof.
  intros Hloop. unfold main, ChatServer_new, make_server, checkLoopNotNull.
  destruct (Z.eqb_spec loop 0) as [|_]; [done|]. eexists. split; [reflexivity|].
  split; [by intros [|]|]. split; [|done]. intros E Hm. split; [|split]; cbn; [|by intros f t d [= <-]|done].
  intros f d [= <-]. apply chat_tame.
Qed.

Lemma main_starts_witness :
  ∃ s, main false (λ _, 16777343) (λ _, "127.0.0.1") (λ i, 100 + i) 7 "" "" (λ _ _, Done) = Ok s ∧
    getAllLoops (m_threadPool (inner s)) = [100; 101; 102; 103].
Proof.
  destruct (main_starts false (λ _, 16777343) (λ _, "127.0.0.1") (λ i, 100 + i) 7 "" "" (λ _ _, Done) ltac:(lia))
    as (s & Hs & _ & _ & Hall & _).
  exists s. split; [exact Hs|exact Hall].
Defined.

(** The [shutdown] of a connection that has ended does nothing. *)
Theorem offline_shutdown_idle peer local c :
  m_state c = kDisconnected → run_action (onConnection peer local false).2 c = Ok (tt, c).
Proof. intros Hc. cbn. unfold shutdown. mstep. change (id c) with c. by rewrite Hc. Qed.

Lemma offline_shutdown_idle_witness :
  run_action (onConnection "10.0.0.2:5000" "10.0.0.1:80" false).2 (TcpConnection.set_state kDisconnected sample_conn) =
    Ok (tt, TcpConnection.set_state kDisconnected sample_conn).
Proof. exact (offline_shutdown_idle _ _ (TcpConnection.set_state kDisconnected sample_conn) eq_refl). Defined.
End callbacks.

(** [retrieveAllAsString] takes all and puts both indices back. *)
Lemma retrieveAllAsString_ok b :
  wf b → ∃ b', retrieveAllAsString b = Ok (contents b, b') ∧ wf b' ∧ contents b' = [] ∧
    size b' = size b ∧ m_writerIndex b' = kCheapPrepend.
Proof.
  intros Hwf. pose proof (buffer_length_contents b Hwf) as Hlen. pose proof (mem_read_contents b Hwf) as Hread.
  unfold retrieveAllAsString, retrieveAsString. mstep. change (id b) with b. rewrite readableBytes_eq, Hlen by done.
  unfold peek. rewrite Hread. mstep. unfold retrieve. mstep. change (id b) with b.
  rewrite readableBytes_eq, Hlen, Z.ltb_irrefl by done. unfold retrieveAll. mstep.
  destruct (wf_retrieveAll b Hwf) as [Hwf' Hc]. eexists. split; [done|]. by split_and!.
Qed.

(** Room for a read of up to 64 KB there always is. *)
Lemma readFd_room_enough b : wf b → extrabuf_size ≤ readFd_room b.
Proof.
  intros Hwf. pose proof (writableBytes_eq b Hwf) as Hw. destruct Hwf. unfold readFd_room.
  destruct (Z.ltb_spec (writableBytes b) extrabuf_size); lia.
Qed.

(** What comes back is what came in: each message is sent back whole, once and in order,
    and nothing is left in the buffer, for any reads of up to 64 KB each. *)
Theorem chat_echoes b reads :
  wf b → contents b = [] → m_writerIndex b = kCheapPrepend →
  Forall (λ x, Z.of_nat (length x.2) ≤ extrabuf_size) reads →
  ∃ b', serve reads b = Ok (reads.*2, b') ∧ wf b' ∧ contents b' = [].
Proof.
  intros Hwf Hc Hw Hreads. revert b Hwf Hc Hw. induction Hreads as [|[time bs] reads Hlen _ IH]; intros b Hwf Hc Hw.
  { by exists b. }
  cbn [serve fmap list_fmap snd]. cbn in Hlen.
  destruct (readFd_appends_all b bs Hwf) as [(b1 & Hread & Hwf1 & Hc1) _].
  { pose proof (readFd_room_enough b Hwf). unfold read_result_ok. lia. }
  { rewrite Hw. unfold kCheapPrepend, vector_max_size, extrabuf_size in *. lia. }
  rewrite (M_bind_ok _ _ _ _ _ Hread). unfold onMessage. mstep.
  destruct (retrieveAllAsString_ok b1 Hwf1) as (b2 & Htake & Hwf2 & Hc2 & _ & Hw2).
  rewrite (M_bind_ok _ _ _ _ _ Htake). mstep. rewrite Hc1, Hc, app_nil_l.
  destruct (IH b2 Hwf2 Hc2 Hw2) as (b3 & Hserve & Hwf3 & Hc3).
  rewrite (M_bind_ok _ _ _ _ _ Hserve). mstep. by exists b3.
Qed.

Lemma chat_echoes_witness :
  ∃ b', serve [(1, [Byte.x61; Byte.x62]); (2, [Byte.x63])] (Buffer_new 2) = Ok ([[Byte.x61; Byte.x62]; [Byte.x63]], b') ∧
    wf b' ∧ contents b' = [].
Proof.
  exact (chat_echoes (Buffer_new 2) [(1, [Byte.x61; Byte.x62]); (2, [Byte.x63])]
    ltac:(split; vm_compute; congruence) ltac:(vm_compute; reflexivity) ltac:(vm_compute; reflexivity)
    ltac:(repeat constructor; vm_compute; congruence)).
Defined.
